(* ===== verification/_CoqProject ===== *)
-Q . S2P
Prelude.v
Config.v
IntUtil.v
CheckDifficulty.v
StringTools.v
TreeHash.v
Stream.v
Varint.v
Serializer.v
Transaction.v
Base58.v
Amounts.v
TxExtra.v
Block.v
Cached.v
Pool.v
Currency.v
AmountText.v
Difficulty.v
Rules.v
PoolCleaner.v
Checkpoints.v
Segments.v
ChainSpec.v
Validation.v
Core.v
CoreSpec.v
AddBlock.v
CoreStart.v
CoreQueries.v
Template.v
KvBinary.v
KvMessages.v
Levin.v
Peers.v
TxQueries.v
World.v
Protocol.v
NodeServer.v
ProtocolSpec.v
NodeRun.v
LiteBlock.v
Sync.v
SyncRun.v
Strangers.v
SubWallet.v
SubWallets.v
WalletSync.v
WalletSpec.v
WalletRun.v
WalletSpend.v
WalletFaults.v
WalletJson.v
