(* ===== verification/Prelude.v ===== *)
(** * Mevacoin: verification library

    Mevacoin is a CryptoNote node and wallet in C++.  This library models its
    consensus core: how blocks and transactions are written as bytes, which of
    them are valid, how the block chain is kept, how the node follows the
    heaviest chain, how the pool of unconfirmed transactions is managed, and
    what a miner works on.  It also models how nodes talk: the format of their
    messages, the frames on the connection, the lists of known peers, the
    handshakes, and the protocol by which they exchange blocks and transactions;
    and the wallet that scans the chain for what belongs to it.
    Every definition is a translation of code under [src/]; the file and the
    function are named in the comment above it or at the top of its file.

    ** How the parts interact

    A block or transaction arrives as bytes.  [Stream], [Varint] and
    [Serializer] are the byte streams, the variable-length integers and the
    binary serializers; [Transaction], [Block] and [TxExtra] are the records
    with their [serialize] functions; [Cached] is a transaction with its bytes.
    [Amounts], [Currency], [Difficulty], [Rules], [CheckDifficulty], [TreeHash]
    and [Checkpoints] are the rules: sums and fees, rewards and fusion
    transactions, the difficulty of the next block, ring sizes and block
    versions by height, the proof-of-work target, the Merkle tree and the fixed
    hashes of old blocks.  [Base58] and [AmountText] are the texts of addresses
    and amounts, [StringTools] and [IntUtil] the helpers, [Config] the network
    constants.

    [Segments] is one segment of the block chain with its indexes
    ([BlockchainCache]).  [Validation] decides about a transaction or a block
    behind a chain of segments.  [Core] is the tree of segments with the pool
    and the stored main chain ([Core::addBlock] and what it calls).  [CoreStart]
    creates the root segment, loads the stored chain and deletes alternative
    chains.  [CoreQueries] is what the core answers to other nodes and wallets,
    and [Template] the block template for a miner.  [Pool] and [PoolCleaner] are the transaction pool and its cleaner;
    the core uses the pool through the class [ITransactionPool], and the pool
    uses its container through the class [MultiIndex].

    Nodes exchange messages.  [KvBinary] is the key-value format, with its
    writer and its parser; [KvMessages] are the messages with their [serialize]
    functions and the serializer that walks over a parsed packet; [Levin] frames
    them on a connection; [Peers] is what a node remembers of the peers it hears
    of.  [World] is the state of a node, its core, its connections with their
    queues and its peer lists; [Protocol] are the handlers of the chain protocol
    ([CryptoNoteProtocolHandler]), which call the core and queue answers;
    [TxQueries] is what the core tells them of transactions; [NodeServer] are the
    handshakes, the timers and the turns of a connection ([NodeServer], with the
    handlers of [Protocol] for the other commands).  [NodeRun] puts the steps of
    a node together, [SyncRun] two nodes that are connected.

    A wallet reads the chain from a daemon.  [SubWallet] is one wallet with its
    inputs ([sub_wallets/sub_wallet.cpp]), [SubWallets] the container of the
    wallets of a file with the history of transactions
    ([sub_wallets/sub_wallets.cpp]), [WalletSync] the synchronizer that finds
    in each block what the wallets receive and spend and undoes it in a fork
    ([wallet_backend/wallet_synchronizer.cpp]), and [WalletJson] the document
    in which all of it is saved.  [WalletSpec] says what the container should
    know of a chain, [WalletRun] follows the synchronizer along one,
    [WalletSpend] is about the choice of inputs, and [WalletFaults] about the
    cases in which the wallet loses track.

    ** How state and operations correspond to the code

    - An unsigned integer of [w] bits is a [Z] with [wrap w] written where the
      code wraps; a signed one has [swrap w].  A byte string is a list of bytes
      as [Z].  Plain structs of 32 or 64 bytes (hashes, keys, key images,
      signatures) are byte strings.
    - A C++ struct is a [Record] with the same fields, a base class a field
      with a coercion, a [boost::variant] an [Inductive] type.
    - A member function that changes its object takes the object last and
      returns the new one.  An exception or an error code is [None], a
      constructor of [res], or the right side of [checked]; what was changed
      before the error is in the result where the caller can see it.
    - A [serialize] function, which the source runs against a writing or a
      reading serializer, is a [codec] with a [put] and a [get] part.
    - A segment with its ancestors is a list of segments, the segment first; in
      [Core] the segments are nodes of a finite map whose keys stand for their
      addresses, so that splitting a segment changes the node that other nodes
      and the list of leaves point to.
    - A multi-index container is a list or a map with the uniqueness and the
      order that its indexes enforce; for the pool it is the class [MultiIndex]
      with the laws of the library, and a list is an instance.
    - The writer of the key-value format is a state with a stack of buffers and
      a stack of open levels; the reader walks with a stack of values and a
      stack of positions, of which the code uses the last without a test.
      [outcome] has a constructor for the undefined behaviour that follows when
      it is empty.  A [serialize] function against these two is a [kv_codec];
      [KvOk] and [MembersOk] are the classes of those whose two parts agree.
    - A handler is an action, [act World A]: a function from the state of the
      node to an outcome and the state it leaves, also when it throws.  A
      connection is found under its id, so that a handler sees what others did
      to it.  Where the code yields to other coroutines, the parameter [others]
      changes the state; what a peer answers to a ping or a handshake is a
      parameter, and the clock is part of the state.  Structs that the code
      leaves uninitialized are arguments.  The work that [remoteSpawn] puts off
      is a list in the state.  [m_calls] is a history variable, the calls of the
      core that were made; no operation reads it.
    - A connection is the list of pieces in which its bytes arrive; a write
      takes as many bytes as it likes.  [Sorts] is what the peer lists rely on
      of [std::sort], with a merge sort as an instance.
    - The daemon of a wallet is a record of its answers ([Nigel]); loops that
      change copies of the wallets are written as they are, without effect.
    - The elliptic curve ([check_key], [in_prime_subgroup],
      [checkRingSignature], the derivation of keys and key images), the hash
      functions, the JSON parser, the current time, the order in which a hashed
      container is walked and what a shuffle does are parameters.
      They are not assumed to have any property except where a theorem names
      one.  [Environment] in [Core] collects those of the core.
    - An [assert] is a precondition of the theorems, or is proved to hold; the
      definitions do what a build without assertions does.  The byte order of
      the machine is little-endian, and memory allocation does not fail.

    ** What the theorems show

    - Consistency of the core ([AddBlock], [CoreStart]): on every branch
      [addBlock] keeps a tree of well-formed chains with the heaviest first, no
      block twice in a chain and difficulties that add up; it loses no chain,
      and leaves the main chain only for a strictly heavier one.  Every core
      that is reached from the genesis block is consistent.  Loading the stored
      blocks rebuilds the chain that was saved, the bisection for the last
      common block finds it, and deleting the alternative chains ends and keeps
      the main chain.  A switch copies the last segment of the new chain into
      the stored main chain and nothing below it, so that after a switch to a
      branch of a branch this storage is wrong.
    - Validity ([Validation]): what [validateSemantic] accepts, exactly; that an
      accepted transaction balances, spends fresh key images and has rings of
      unlocked outputs; that an accepted block extends a well-formed chain, pays
      the exact reward and has the work.
    - Segments ([ChainSpec]): a segmented chain answers the queries for spent key
      images, hashes, coins, last blocks and, in its top segment, output keys as
      the flat chain it stands for (the output keys below the top segment depend
      on the cut, and the theorem says how); pushing appends; splitting changes
      no block, spent key image, transaction or output index.
    - Pool ([Pool], [PoolCleaner]): the pool refines a finite map without double
      spends, hands transactions out by fee rate, and the cleaner removes what
      is expired and keeps it out for a while.
    - Templates and queries ([Template], [CoreQueries]): a block mined on a
      template is accepted by [addBlock]; the transactions of a template are
      valid together and within the limits; two nodes find a common block, and
      what a node sends is a consecutive part of its main chain, from the first
      block the other one names on, in full from the time it asks for.
    - Messages ([KvBinary], [KvMessages], [Levin]): the parser ends on every
      packet, in space bounded by it, and reads back what the writer wrote;
      every message of the peer-to-peer and of the chain protocol survives the
      way through serializer, frames and any cutting into pieces; a response
      reaches the caller.  Where it fails: packets that lead the reader into
      undefined behaviour or into deep recursion, and closed connections.
    - Peers ([Peers]): the lists keep their invariant whatever peers send, a
      node sends the newest peers it has seen, and the one that asked learns
      them.
    - The node ([NodeRun], [ProtocolSpec], [LiteBlock], [Sync], [SyncRun],
      [Strangers]): whatever peers send, in any order of turns, also while a
      handler waits, the core is what the calls that the node made of it say, so
      that it stays consistent while the blocks fit, and its peer lists keep their
      invariant; a command hands a block to the core only when it was requested
      from this connection or is announced in [state_normal], and the answer to a
      request is taken whole or not at all before its blocks are added in order;
      a lite block has the effect of the full
      block; a node that lacks blocks of its peer gets them and ends
      synchronized.  Where it fails: a peer can give the node blocks before any
      handshake, and a refused handshake lowers the count of peers.
    - The wallet ([WalletRun], [WalletSpend], [WalletFaults], [WalletJson]):
      through blocks and forks the wallets hold exactly the outputs that the
      chain gives them, spent and unspent, and report their sum; they find inputs
      for what they report; a saved wallet is read back.  Where it fails: the
      forks that it handles are exactly those without locked inputs and without
      spends of replaced outputs; a rescan above the genesis block doubles the balance, cancelled
      transactions keep their inputs, missing indexes end the program, and a
      saved wallet comes back without its pending transactions.
    - Bytes ([Transaction], [Block], [TxExtra], [Base58], [AmountText],
      [Checkpoints]): round trips, uniqueness of encodings, or where it fails.
    - Numbers ([Currency], [Difficulty], [CheckDifficulty], [TreeHash],
      [Rules]): rewards and emission, limits of the difficulty, the 256-bit
      comparison, the Merkle root, and the rules by height.

    ** Bounds and fuel

    Recursion on data is structural.  Loops that are not have fuel: ten rounds
    for a varint of 64 bits, the size of the tree for a path to the root (a path
    has no node twice, [is_path_length]), the length of the interval for the
    bisection, the number of segments for the deletion of leaves, 33 rounds for
    the sparse chain (its step doubles in 32 bits), the length of the packet for
    the nesting of the key-value format (every level reads a byte), the number
    of bytes asked for when reading from a connection (an arrival has at least
    one).  The exchanges of two nodes that synchronize are iterated as often as
    the theorem says, once for the chain and once for every hundred blocks.  The
    ten tries for the size of the coinbase transaction are the
    source's own.  The theorems
    about these functions are that they return, not only that what they return
    is right.  Theorems about counters that the code keeps in 32 or 64 bits have
    the bound as a hypothesis ([room] collects those of [addBlock]); the theorems
    about scanning assume of the blocks ([follows]) that key images are spent once,
    after the block they came in, and that no two outputs of the wallet have the
    same one, which no rule of the chain enforces; blocks in
    the checkpoint zone are outside the theorems about key images, because the
    code does not check them there.

    ** What is not modelled

    The database behind the root segment and the storage files (RocksDB and
    files; the root segment is the one of [MemoryBlockchainCacheFactory], and
    the stored main chain a list), merging segments on shutdown and the details
    of blocks and transactions for explorers; the curve and hash functions; of
    the peer-to-peer node the sockets, the scheduler of its coroutines, the
    timeouts, its configuration, the choice of peers to connect to and the debug
    commands; JSON text, HTTP, RPC and command line, which are input and output;
    of the wallet the building and signing of transactions, the encryption of
    its file and the client of the daemon; the older wallet with its service;
    logging and the messages to observers.  The manifest lists every part with its status. *)

From Stdlib Require Export ZArith Lia.
From stdpp Require Export base list numbers strings gmap.

#[global] Open Scope Z_scope.

(** ** Fixed-width integers *)

(** [wrap w x] is the value a [w]-bit unsigned C++ integer holds after [x] has
    been stored in it. *)
Definition wrap (w x : Z) : Z := x mod 2 ^ w.

(** The value of a [w]-bit two's-complement integer with the bits of [x]. *)
Definition swrap (w x : Z) : Z := (x + 2 ^ (w - 1)) mod 2 ^ w - 2 ^ (w - 1).

Abbreviation u8 := (wrap 8).
Abbreviation u16 := (wrap 16).
Abbreviation u32 := (wrap 32).
Abbreviation u64 := (wrap 64).
Abbreviation i32 := (swrap 32).
Abbreviation i64 := (swrap 64).

(** [x] fits in [w] unsigned bits. *)
Definition fits (w x : Z) : Prop := 0 <= x < 2 ^ w.

Abbreviation is_u8 := (fits 8).
Abbreviation is_u16 := (fits 16).
Abbreviation is_u32 := (fits 32).
Abbreviation is_u64 := (fits 64).

#[global] Instance fits_dec w x : Decision (fits w x).
Proof. unfold fits. apply _. Defined.

(** Close a decidable statement about concrete values by running its decision
    procedure. *)
Ltac evaluate := apply (bool_decide_unpack _); vm_compute; exact I.

Lemma decide_iff {P Q : Prop} : Decision P -> (P <-> Q) -> Decision Q.
Proof. intros [?|?] [??]; [left|right]; auto. Defined.

(** The facts every component needs of [wrap] and [fits]. *)
Create HintDb machine.
Create Rewrite HintDb machine.

Ltac machine_consts :=
  change (2 ^ 8) with 256 in *; change (2 ^ 16) with 65536 in *;
  change (2 ^ 32) with 4294967296 in *;
  change (2 ^ 63) with 9223372036854775808 in *;
  change (2 ^ 64) with 18446744073709551616 in *.

(** Unfold the width predicates and decide the resulting linear arithmetic. *)
Ltac mlia := unfold fits in *; machine_consts; lia.
Ltac mnia := unfold fits in *; machine_consts; nia.

Section Words.
Context (w : Z) (Hw : 0 <= w).

Lemma pow2_pos : 0 < 2 ^ w.
Proof using Hw. apply Z.pow_pos_nonneg; lia. Qed.

Lemma wrap_fits x : fits w (wrap w x).
Proof using Hw. apply Z.mod_pos_bound, pow2_pos. Qed.

Lemma wrap_small x : fits w x -> wrap w x = x.
Proof. apply Z.mod_small. Qed.

Lemma wrap_wrap x : wrap w (wrap w x) = wrap w x.
Proof using Hw. apply wrap_small, wrap_fits. Qed.

Lemma wrap_add_l x y : wrap w (wrap w x + y) = wrap w (x + y).
Proof using Hw. apply Z.add_mod_idemp_l. pose proof pow2_pos. lia. Qed.

Lemma wrap_add_r x y : wrap w (x + wrap w y) = wrap w (x + y).
Proof using Hw. apply Z.add_mod_idemp_r. pose proof pow2_pos. lia. Qed.

Lemma wrap_sub_l x y : wrap w (wrap w x - y) = wrap w (x - y).
Proof using Hw. apply Zminus_mod_idemp_l. Qed.

Lemma wrap_sub_r x y : wrap w (x - wrap w y) = wrap w (x - y).
Proof using Hw. apply Zminus_mod_idemp_r. Qed.

(** Unsigned addition wraps exactly when the sum comes out smaller than an
    operand: the test the code uses to detect a carry. *)
Lemma wrap_add_carry x y :
  fits w x -> fits w y ->
  wrap w (x + y) = if decide (2 ^ w <= x + y) then x + y - 2 ^ w else x + y.
Proof using Hw.
  intros [??] [??]. pose proof pow2_pos. unfold wrap. case_decide.
  - rewrite <- (Z_mod_plus_full _ (-1)), Z.mod_small; lia.
  - apply Z.mod_small. lia.
Qed.

Lemma wrap_carry_lt x y :
  fits w x -> fits w y -> wrap w (x + y) < x <-> 2 ^ w <= x + y.
Proof using Hw.
  intros Hx Hy. rewrite wrap_add_carry by assumption.
  destruct Hx, Hy. case_decide; lia.
Qed.

Lemma fits_shiftr x n : fits w x -> 0 <= n -> fits w (Z.shiftr x n).
Proof.
  intros [??] ?. rewrite Z.shiftr_div_pow2 by lia. split.
  - apply Z.div_pos; [lia|]. apply Z.pow_pos_nonneg; lia.
  - apply Z.le_lt_trans with x; [|lia].
    apply Z.div_le_upper_bound; [apply Z.pow_pos_nonneg; lia|].
    assert (0 < 2 ^ n) by (apply Z.pow_pos_nonneg; lia). nia.
Qed.
End Words.

#[export] Hint Resolve wrap_fits fits_shiftr : machine.
#[export] Hint Extern 1 (0 <= _) => lia : machine.

Lemma fits_mono w w' x : w <= w' -> fits w x -> fits w' x.
Proof.
  intros ? [??]. split; [lia|].
  apply Z.lt_le_trans with (2 ^ w); [lia|]. apply Z.pow_le_mono_r; lia.
Qed.

(** A bitwise or of two numbers with disjoint bits is their sum. *)
Lemma lor_add_shiftl a b n :
  0 <= n -> 0 <= a < 2 ^ n -> Z.lor a (Z.shiftl b n) = a + b * 2 ^ n.
Proof.
  intros Hn Ha. rewrite <- Z.shiftl_mul_pow2 by lia.
  symmetry. rewrite <- Z.lxor_lor, <- Z.add_nocarry_lxor; try reflexivity.
  all: apply Z.bits_inj'; intros i Hi; rewrite Z.land_spec, Z.bits_0;
    rewrite Z.shiftl_spec by lia; destruct (Z.lt_ge_cases i n).
  1,3: rewrite (Z.testbit_neg_r b) by lia; apply andb_false_r.
  all: replace (Z.testbit a i) with false; [reflexivity|];
    destruct (Z.eq_dec a 0) as [->|]; [by rewrite Z.bits_0|];
    symmetry; apply Z.bits_above_log2; [lia|];
    apply Z.lt_le_trans with n; [|lia]; apply Z.log2_lt_pow2; lia.
Qed.

Lemma lor_fits w a b : 0 <= w -> fits w a -> fits w b -> fits w (Z.lor a b).
Proof.
  intros Hw [Ha Ha'] [Hb Hb']. split; [apply Z.lor_nonneg; lia|].
  destruct (Z.eq_dec (Z.lor a b) 0) as [->|Hne]; [apply Z.pow_pos_nonneg; lia|].
  assert (0 <= Z.lor a b) by (apply Z.lor_nonneg; lia).
  apply Z.log2_lt_pow2; [lia|]. rewrite Z.log2_lor by lia.
  apply Z.max_lub_lt.
  - destruct (Z.eq_dec a 0) as [->|]; [|apply Z.log2_lt_pow2; lia].
    simpl. destruct (Z.eq_dec w 0) as [->|]; [|lia]. change (2 ^ 0) with 1 in *.
    assert (b = 0) by lia. subst. done.
  - destruct (Z.eq_dec b 0) as [->|]; [|apply Z.log2_lt_pow2; lia].
    simpl. destruct (Z.eq_dec w 0) as [->|]; [|lia]. change (2 ^ 0) with 1 in *.
    assert (a = 0) by lia. subst. done.
Qed.

Lemma land_ones_mod x n : 0 <= n -> Z.land x (2 ^ n - 1) = x mod 2 ^ n.
Proof.
  intros. rewrite <- Z.land_ones by lia. f_equal. rewrite Z.ones_equiv. lia.
Qed.

Lemma lor_add_high a b n : 0 <= n -> 0 <= b < 2 ^ n -> Z.lor (a * 2 ^ n) b = a * 2 ^ n + b.
Proof.
  intros. rewrite Z.lor_comm, <- Z.shiftl_mul_pow2, lor_add_shiftl by lia.
  rewrite Z.shiftl_mul_pow2 by lia. lia.
Qed.

(** A masked field of [n] bits at position [k]. *)
Lemma land_field x k n :
  0 <= k -> 0 <= n -> Z.land x ((2 ^ n - 1) * 2 ^ k) = ((x / 2 ^ k) mod 2 ^ n) * 2 ^ k.
Proof.
  intros. rewrite <- land_ones_mod, <- !Z.shiftl_mul_pow2, <- Z.shiftr_div_pow2 by lia.
  apply Z.bits_inj'. intros i Hi.
  rewrite Z.land_spec, !Z.shiftl_spec, Z.land_spec by lia.
  destruct (Z.lt_ge_cases i k).
  - rewrite (Z.testbit_neg_r (2 ^ n - 1)) by lia. by rewrite !andb_false_r.
  - rewrite Z.shiftr_spec by lia. by replace (i - k + k) with i by lia.
Qed.

(** ** Bytes *)

(** A byte string: each element is an [unsigned char]. *)
Abbreviation bytes := (list Z).
Abbreviation is_bytes := (Forall is_u8).

(** The [n] bytes an integer occupies in memory on a little-endian target. *)
Fixpoint le_bytes (n : nat) (x : Z) : bytes :=
  match n with
  | O => []
  | S n => x mod 256 :: le_bytes n (x / 256)
  end.

Fixpoint le_value (bs : bytes) : Z :=
  match bs with
  | [] => 0
  | b :: bs => b + 256 * le_value bs
  end.

Lemma length_le_bytes n x : length (le_bytes n x) = n.
Proof. revert x. induction n; intros; simpl; auto. Qed.

Lemma le_bytes_bytes n x : is_bytes (le_bytes n x).
Proof.
  revert x. induction n; intros; simpl; constructor; auto.
  apply Z.mod_pos_bound. lia.
Qed.

Lemma le_value_bytes n x : le_value (le_bytes n x) = x mod 2 ^ (8 * Z.of_nat n).
Proof.
  revert x. induction n; intros; simpl.
  - change (2 ^ _) with 1. by rewrite Z.mod_1_r.
  - rewrite IHn. replace (8 * Z.of_nat (S n)) with (8 + 8 * Z.of_nat n) by lia.
    rewrite Z.pow_add_r, Z.rem_mul_r by lia. reflexivity.
Qed.

Lemma le_bytes_value bs : is_bytes bs -> le_bytes (length bs) (le_value bs) = bs.
Proof.
  induction 1 as [|b bs [??] ? IH]; simpl; [reflexivity|].
  assert ((b + 256 * le_value bs) mod 256 = b) as ->.
  { rewrite Z.mul_comm, Z.mod_add, Z.mod_small; mlia. }
  assert ((b + 256 * le_value bs) / 256 = le_value bs) as ->.
  { rewrite Z.mul_comm, Z.div_add, Z.div_small; mlia. }
  by rewrite IH.
Qed.

Lemma le_value_fits bs : is_bytes bs -> fits (8 * Z.of_nat (length bs)) (le_value bs).
Proof.
  intros H. rewrite <- (le_bytes_value bs H), le_value_bytes, length_le_bytes.
  apply wrap_fits. lia.
Qed.

#[export] Hint Resolve le_bytes_bytes le_value_fits : machine.
#[export] Hint Rewrite length_le_bytes : machine.

(** A decidable property of the 256 bytes is checked by evaluation. *)
Lemma byte_forall (P : Z -> bool) :
  forallb P (seqZ 0 256) = true -> forall c, is_u8 c -> P c = true.
Proof.
  rewrite forallb_forall. intros H c Hc. apply H, list_elem_of_In, elem_of_seqZ. mlia.
Qed.

(** The characters of a string literal, as the bytes of a [char] array. *)
Definition str (s : string) : bytes :=
  map (fun a => Z.of_N (Ascii.N_of_ascii a)) (String.list_ascii_of_string s).

(** ** Exceptions

    A C++ function that may throw returns [res]; the exceptions carry the
    [what()] string or the error code the source gives them. *)

Inductive exn :=
| runtime_error (what : string)
| length_error (what : string)
| out_of_range (what : string)
| system_error (code : Z).

#[global] Instance exn_eq_dec : EqDecision exn.
Proof. solve_decision. Defined.

Inductive res (A : Type) :=
| Ok (a : A)
| Throw (e : exn).
Arguments Ok {A} a.
Arguments Throw {A} e.

#[global] Instance res_ret : MRet res := fun A a => Ok a.
#[global] Instance res_bind : MBind res := fun A B f m =>
  match m with Ok a => f a | Throw e => Throw e end.

#[global] Instance res_eq_dec {A} `{EqDecision A} : EqDecision (res A).
Proof. solve_decision. Defined.

(** [try { ... } catch (std::exception &) { return false; }] *)
Definition caught {A} (m : res A) : option A :=
  match m with Ok a => Some a | Throw _ => None end.

Lemma res_bind_Ok {A B} (m : res A) (f : A -> res B) b :
  (m ≫= f) = Ok b <-> exists a, m = Ok a /\ f a = Ok b.
Proof. destruct m; simpl; split; [eauto|by intros (? & [= <-] & ?)|done|by intros (? & ? & ?)]. Qed.

(** ** Readers

    A computation over an input stream; the stream is the bytes not yet read. *)

Definition rd (A : Type) : Type := bytes -> res (A * bytes).

#[global] Instance rd_ret : MRet rd := fun A a bs => Ok (a, bs).
#[global] Instance rd_bind : MBind rd := fun A B f m bs =>
  match m bs with Ok (a, bs) => f a bs | Throw e => Throw e end.

Definition rd_throw {A} (e : exn) : rd A := fun _ => Throw e.

(** A computation that does not touch the stream. *)
Definition rd_lift {A} (m : res A) : rd A := fun bs =>
  match m with Ok a => Ok (a, bs) | Throw e => Throw e end.

Lemma rd_bind_Ok {A B} (m : rd A) (f : A -> rd B) bs b rest :
  (m ≫= f) bs = Ok (b, rest) <-> exists a bs', m bs = Ok (a, bs') /\ f a bs' = Ok (b, rest).
Proof. unfold mbind, rd_bind. destruct (m bs) as [[a bs']|]; split; [eauto|by intros (? & ? & [= <- <-] & ?)|done|by intros (? & ? & ? & ?)]. Qed.

Lemma rd_bind_step {A B} (m : rd A) (f : A -> rd B) bs a bs' :
  m bs = Ok (a, bs') -> (m ≫= f) bs = f a bs'.
Proof. unfold mbind, rd_bind. intros ->. reflexivity. Qed.

(** Invert every bind of a successful reader in the context. *)
Ltac rd_inv :=
  repeat match goal with
  | H : (mbind _ _) _ = Ok _ |- _ =>
      apply rd_bind_Ok in H; destruct H as (? & ? & ? & H)
  | H : mret _ _ = Ok _ |- _ => injection H as <- <-
  | H : rd_throw _ _ = Ok _ |- _ => discriminate H
  | H : (if ?b then _ else _) _ = Ok _ |- _ => destruct b eqn:?
  end.

Lemma is_bytes_app_inv a b : is_bytes (a ++ b) -> is_bytes a /\ is_bytes b.
Proof. apply Forall_app. Qed.

Ltac bytes_inv :=
  repeat match goal with H : is_bytes (_ ++ _) |- _ => apply is_bytes_app_inv in H as [? ?] end.

(** ** Filters *)

Lemma filter_all {A} (P : A -> Prop) `{!forall x, Decision (P x)} l : Forall P l -> filter P l = l.
Proof. induction 1 as [|x l Hx _ IH]; [done|]. by rewrite filter_cons_True, IH. Qed.

Lemma filter_none {A} (P : A -> Prop) `{!forall x, Decision (P x)} l : Forall (fun x => ~ P x) l -> filter P l = [].
Proof. induction 1 as [|x l Hx _ IH]; [done|]. by rewrite filter_cons_False, IH. Qed.

Lemma NoDup_map_filter {A B} (f : A -> B) (P : A -> Prop) `{!forall x, Decision (P x)} l :
  NoDup (map f l) -> NoDup (map f (filter P l)).
Proof.
  induction l as [|x l IH]; [done|]. cbn [map]. intros [Hx Hn]%NoDup_cons. rewrite filter_cons.
  case_decide; [|auto]. cbn [map]. apply NoDup_cons. split; [|auto].
  intros (y & E & [_ Hy]%list_elem_of_filter)%list_elem_of_fmap. apply Hx. apply list_elem_of_fmap. eauto.
Qed.

Lemma filter_ext_elem {A} (P Q : A -> Prop) `{!forall x, Decision (P x), !forall x, Decision (Q x)} (l : list A) :
  (forall x, x ∈ l -> P x <-> Q x) -> filter P l = filter Q l.
Proof.
  induction l as [|x l IH]; intros HPQ; [done|]. rewrite !filter_cons.
  rewrite IH by (intros y Hy; apply HPQ; by apply list_elem_of_further).
  assert (P x <-> Q x) by (apply HPQ; apply list_elem_of_here). repeat case_decide; tauto || done.
Qed.
