(* ===== verification/Config.v ===== *)
(** * Network constants ([src/config/mevacoin_config.h])

    The consensus parameters the other files refer to, under their own names;
    those that are used in one or two places are abbreviations. *)

From S2P Require Import Prelude.

Abbreviation DIFFICULTY_TARGET := 180 (only parsing).

Abbreviation MEVACOIN_MAX_BLOCK_NUMBER := 500000000 (only parsing).
Abbreviation MEVACOIN_MAX_BLOCK_BLOB_SIZE := 500000000 (only parsing).
Abbreviation MEVACOIN_MAX_TX_SIZE := 1000000000 (only parsing).
Abbreviation MEVACOIN_PUBLIC_ADDRESS_BASE58_PREFIX := 18511 (only parsing).
Abbreviation MEVACOIN_MINED_MONEY_UNLOCK_WINDOW := 20 (only parsing).
Abbreviation MEVACOIN_BLOCK_FUTURE_TIME_LIMIT := (60 * 60 * 2) (only parsing).
Abbreviation MEVACOIN_BLOCK_FUTURE_TIME_LIMIT_V3 := (3 * DIFFICULTY_TARGET) (only parsing).
Abbreviation MEVACOIN_BLOCK_FUTURE_TIME_LIMIT_V4 := (6 * DIFFICULTY_TARGET) (only parsing).

Abbreviation BLOCKCHAIN_TIMESTAMP_CHECK_WINDOW := 60 (only parsing).
Abbreviation BLOCKCHAIN_TIMESTAMP_CHECK_WINDOW_V3 := 11 (only parsing).

Abbreviation MONEY_SUPPLY := 10000000000000000 (only parsing).
Abbreviation ZAWY_DIFFICULTY_BLOCK_INDEX := 187000 (only parsing).
Abbreviation ZAWY_DIFFICULTY_V2 := 0 (only parsing).
Abbreviation ZAWY_DIFFICULTY_DIFFICULTY_BLOCK_VERSION := 3 (only parsing).
Abbreviation LWMA_2_DIFFICULTY_BLOCK_INDEX := 620000 (only parsing).
Abbreviation LWMA_2_DIFFICULTY_BLOCK_INDEX_V2 := 700000 (only parsing).
Abbreviation LWMA_2_DIFFICULTY_BLOCK_INDEX_V3 := 800000 (only parsing).
Abbreviation LWMA_3_DIFFICULTY_BLOCK_INDEX := 2200000 (only parsing).
Abbreviation EMISSION_SPEED_FACTOR := 28 (only parsing).
Abbreviation GENESIS_BLOCK_REWARD := 0 (only parsing).

Definition GENESIS_COINBASE_TX_HEX : bytes := str
  "011401ff000100024e8627e5eb3afae39f847029dda8986de3175e6ec043317a0c45065f4a5898c221011616e1e1a1f7bfe50cd57213f01bfde3cad7813181bf2e940d34ed8de42c9d46".

Abbreviation MEVACOIN_REWARD_BLOCKS_WINDOW := 100 (only parsing).
Abbreviation MEVACOIN_BLOCK_GRANTED_FULL_REWARD_ZONE := 100000 (only parsing).
Abbreviation MEVACOIN_BLOCK_GRANTED_FULL_REWARD_ZONE_V2 := 20000 (only parsing).
Abbreviation MEVACOIN_BLOCK_GRANTED_FULL_REWARD_ZONE_V1 := 10000 (only parsing).
Abbreviation MEVACOIN_BLOCK_GRANTED_FULL_REWARD_ZONE_CURRENT := (MEVACOIN_BLOCK_GRANTED_FULL_REWARD_ZONE) (only parsing).
Abbreviation MEVACOIN_COINBASE_BLOB_RESERVED_SIZE := 600 (only parsing).
Abbreviation MEVACOIN_DISPLAY_DECIMAL_POINT := 5%nat (only parsing).
Abbreviation MINIMUM_FEE := 10 (only parsing).

Abbreviation MINIMUM_MIXIN_V1 := 0 (only parsing).
Abbreviation MAXIMUM_MIXIN_V1 := 100 (only parsing).
Abbreviation MINIMUM_MIXIN_V2 := 7 (only parsing).
Abbreviation MAXIMUM_MIXIN_V2 := 7 (only parsing).
Abbreviation MINIMUM_MIXIN_V3 := 3 (only parsing).
Abbreviation MAXIMUM_MIXIN_V3 := 3 (only parsing).
Abbreviation MINIMUM_MIXIN_V4 := 1 (only parsing).
Abbreviation MAXIMUM_MIXIN_V4 := 5 (only parsing).
Abbreviation MIXIN_LIMITS_V1_HEIGHT := 440000 (only parsing).
Abbreviation MIXIN_LIMITS_V2_HEIGHT := 620000 (only parsing).
Abbreviation MIXIN_LIMITS_V3_HEIGHT := 800000 (only parsing).
Abbreviation MIXIN_LIMITS_V4_HEIGHT := 1250000 (only parsing).
Abbreviation DEFAULT_MIXIN_V0 := 3 (only parsing).
Abbreviation DEFAULT_MIXIN_V1 := (MAXIMUM_MIXIN_V1) (only parsing).
Abbreviation DEFAULT_MIXIN_V2 := (MAXIMUM_MIXIN_V2) (only parsing).
Abbreviation DEFAULT_MIXIN_V3 := (MAXIMUM_MIXIN_V3) (only parsing).
Abbreviation DEFAULT_MIXIN_V4 := (MAXIMUM_MIXIN_V4) (only parsing).

Abbreviation DEFAULT_DUST_THRESHOLD := 10 (only parsing).
Abbreviation DEFAULT_DUST_THRESHOLD_V2 := 0 (only parsing).
Abbreviation DUST_THRESHOLD_V2_HEIGHT := (MIXIN_LIMITS_V2_HEIGHT) (only parsing).
Abbreviation FUSION_DUST_THRESHOLD_HEIGHT_V2 := 800000 (only parsing).
Abbreviation EXPECTED_NUMBER_OF_BLOCKS_PER_DAY := (24 * 60 * 60 / DIFFICULTY_TARGET) (only parsing).

Abbreviation DIFFICULTY_WINDOW := 17 (only parsing).
Abbreviation DIFFICULTY_WINDOW_V1 := 2880 (only parsing).
Abbreviation DIFFICULTY_WINDOW_V2 := 2880 (only parsing).
Abbreviation DIFFICULTY_WINDOW_V3 := 60 (only parsing).
Abbreviation DIFFICULTY_BLOCKS_COUNT_V3 := (DIFFICULTY_WINDOW_V3 + 1) (only parsing).
Abbreviation DIFFICULTY_CUT := 0 (only parsing).
Abbreviation DIFFICULTY_CUT_V1 := 60 (only parsing).
Abbreviation DIFFICULTY_CUT_V2 := 60 (only parsing).
Abbreviation DIFFICULTY_LAG := 0 (only parsing).
Abbreviation DIFFICULTY_LAG_V1 := 15 (only parsing).
Abbreviation DIFFICULTY_LAG_V2 := 15 (only parsing).

Abbreviation MAX_BLOCK_SIZE_INITIAL := 100000 (only parsing).
Abbreviation MAX_BLOCK_SIZE_GROWTH_SPEED_NUMERATOR := (100 * 1024) (only parsing).
Abbreviation MAX_BLOCK_SIZE_GROWTH_SPEED_DENOMINATOR := (365 * 24 * 60 * 60 / DIFFICULTY_TARGET) (only parsing).
Abbreviation MAX_EXTRA_SIZE := 2200 (only parsing).
Abbreviation MAX_EXTRA_SIZE_V2 := 1024 (only parsing).
Abbreviation MAX_EXTRA_SIZE_V2_HEIGHT := 1300000 (only parsing).
Abbreviation MAX_EXTRA_SIZE_POOL := 2200 (only parsing).
Abbreviation MAX_EXTRA_SIZE_BLOCK := 128 (only parsing).
Abbreviation BLOCK_BLOB_SHUFFLE_CHECK_HEIGHT := 1750000 (only parsing).
Abbreviation TRANSACTION_SIGNATURE_COUNT_VALIDATION_HEIGHT := 1750000 (only parsing).

Abbreviation MEVACOIN_LOCKED_TX_ALLOWED_DELTA_BLOCKS := 1 (only parsing).
Abbreviation MEVACOIN_LOCKED_TX_ALLOWED_DELTA_SECONDS := (DIFFICULTY_TARGET * MEVACOIN_LOCKED_TX_ALLOWED_DELTA_BLOCKS) (only parsing).
Abbreviation MEVACOIN_MEMPOOL_TX_LIVETIME := (60 * 60 * 24) (only parsing).
Abbreviation MEVACOIN_NUMBER_OF_PERIODS_TO_FORGET_TX_DELETED_FROM_POOL := 7 (only parsing).

Abbreviation FUSION_TX_MAX_SIZE := (MEVACOIN_BLOCK_GRANTED_FULL_REWARD_ZONE_CURRENT * 30 / 100) (only parsing).
Abbreviation FUSION_TX_MIN_INPUT_COUNT := 12 (only parsing).
Abbreviation FUSION_TX_MIN_IN_OUT_COUNT_RATIO := 4 (only parsing).

Abbreviation UPGRADE_HEIGHT_V2 := 1 (only parsing).
Abbreviation UPGRADE_HEIGHT_V3 := 2 (only parsing).
Abbreviation UPGRADE_HEIGHT_V4 := 3 (only parsing).
Abbreviation UPGRADE_HEIGHT_V5 := 4 (only parsing).
Abbreviation UPGRADE_VOTING_THRESHOLD := 90 (only parsing).
Abbreviation UPGRADE_VOTING_WINDOW := (EXPECTED_NUMBER_OF_BLOCKS_PER_DAY) (only parsing).
Abbreviation UPGRADE_WINDOW := (EXPECTED_NUMBER_OF_BLOCKS_PER_DAY) (only parsing).

Abbreviation TRANSACTION_VERSION_1 := 1 (only parsing).
Abbreviation TRANSACTION_VERSION_2 := 2 (only parsing).
Abbreviation CURRENT_TRANSACTION_VERSION := TRANSACTION_VERSION_1 (only parsing).

Abbreviation BLOCK_MAJOR_VERSION_1 := 1 (only parsing).
Abbreviation BLOCK_MAJOR_VERSION_2 := 2 (only parsing).
Abbreviation BLOCK_MAJOR_VERSION_3 := 3 (only parsing).
Abbreviation BLOCK_MAJOR_VERSION_4 := 4 (only parsing).
Definition BLOCK_MAJOR_VERSION_5 : Z := 5.
Abbreviation BLOCK_MINOR_VERSION_0 := 0 (only parsing).
Abbreviation BLOCK_MINOR_VERSION_1 := 1 (only parsing).

Abbreviation BLOCKS_IDS_SYNCHRONIZING_DEFAULT_COUNT := 10000 (only parsing).
Abbreviation BLOCKS_SYNCHRONIZING_DEFAULT_COUNT := 100 (only parsing).
