(* ===== verification/IntUtil.v ===== *)
(** * 128-bit arithmetic and byte order ([src/common/int_util.h])

    The helpers that the proof-of-work test, the reward penalty, the
    difficulty and the pool's price comparison are built on.  Every definition
    keeps its operands at the width the C code gives them; an out parameter of
    the C function is a component of the result. *)

From S2P Require Import Prelude.

(** ** Double words and 128-bit products *)

Abbreviation hi_dword val := (Z.shiftr val 32) (only parsing).
Abbreviation lo_dword val := (Z.land val 0xFFFFFFFF) (only parsing).

(** [(product_lo, product_hi)]. *)
Definition mul128 (multiplier multiplicand : Z) : Z * Z :=
  let a := hi_dword multiplier in
  let b := lo_dword multiplier in
  let c := hi_dword multiplicand in
  let d := lo_dword multiplicand in
  let ac := u64 (a * c) in
  let ad := u64 (a * d) in
  let bc := u64 (b * c) in
  let bd := u64 (b * d) in
  let adbc := u64 (ad + bc) in
  let adbc_carry := if bool_decide (adbc < ad) then 1 else 0 in
  let product_lo := u64 (bd + u64 (Z.shiftl adbc 32)) in
  let product_lo_carry := if bool_decide (product_lo < bd) then 1 else 0 in
  let product_hi :=
    u64 (u64 (u64 (ac + Z.shiftr adbc 32) + u64 (Z.shiftl adbc_carry 32))
         + product_lo_carry) in
  (product_lo, product_hi).

(** ** Long division of 128 bits by 32 *)

(** [(quotient, remainder)]; the incoming remainder is the high half. *)
Definition div_with_reminder (dividend divisor remainder : Z) : Z * Z :=
  let dividend := Z.lor dividend (u64 (Z.shiftl remainder 32)) in
  (dividend / divisor, u32 (dividend mod divisor)).

(** [((quotient_hi, quotient_lo), remainder)]. *)
Definition div128_32 (dividend_hi dividend_lo divisor : Z) : Z * Z * Z :=
  let '(q3, r) := div_with_reminder (hi_dword dividend_hi) divisor 0 in
  let '(q2, r) := div_with_reminder (lo_dword dividend_hi) divisor r in
  let '(q1, r) := div_with_reminder (hi_dword dividend_lo) divisor r in
  let '(q0, r) := div_with_reminder (lo_dword dividend_lo) divisor r in
  (Z.lor (u64 (Z.shiftl q3 32)) q2, Z.lor (u64 (Z.shiftl q1 32)) q0, r).

(** ** Byte order *)

(** [SWAP64], the macro behind [SWAP64BE] on the little-endian targets. *)
Definition SWAP64 (x : Z) : Z :=
  let x := u64 x in
  Z.lor (Z.lor (Z.lor (Z.lor (Z.lor (Z.lor (Z.lor
    (u64 (Z.shiftl (Z.land x 0x00000000000000ff) 56))
    (u64 (Z.shiftl (Z.land x 0x000000000000ff00) 40)))
    (u64 (Z.shiftl (Z.land x 0x0000000000ff0000) 24)))
    (u64 (Z.shiftl (Z.land x 0x00000000ff000000) 8)))
    (Z.shiftr (Z.land x 0x000000ff00000000) 8))
    (Z.shiftr (Z.land x 0x0000ff0000000000) 24))
    (Z.shiftr (Z.land x 0x00ff000000000000) 40))
    (Z.shiftr (Z.land x 0xff00000000000000) 56).

(** ** Facts *)

Lemma hi_dword_eq x : hi_dword x = x / 2 ^ 32.
Proof. apply Z.shiftr_div_pow2. lia. Qed.

Lemma lo_dword_eq x : lo_dword x = x mod 2 ^ 32.
Proof. apply (land_ones_mod x 32). lia. Qed.

Lemma dword_split x : x = hi_dword x * 2 ^ 32 + lo_dword x.
Proof. rewrite hi_dword_eq, lo_dword_eq. pose proof (Z.div_mod x (2 ^ 32)). lia. Qed.

Lemma hi_dword_fits x : is_u64 x -> is_u32 (hi_dword x).
Proof.
  rewrite hi_dword_eq. intros [??]. split; [apply Z.div_pos; lia|].
  apply Z.div_lt_upper_bound; mlia.
Qed.

Lemma lo_dword_fits x : is_u32 (lo_dword x).
Proof. rewrite lo_dword_eq. apply Z.mod_pos_bound. lia. Qed.

#[export] Hint Resolve hi_dword_fits lo_dword_fits : machine.

Lemma mul_u32_fits a b : is_u32 a -> is_u32 b -> is_u64 (a * b).
Proof. intros [??] [??]. mnia. Qed.
#[export] Hint Resolve mul_u32_fits : machine.

(** The schoolbook product on 32-bit digits, without the code's wrap-arounds. *)
Lemma mul128_digits a b c d :
  is_u32 a -> is_u32 b -> is_u32 c -> is_u32 d ->
  let adbc := u64 (a * d + b * c) in
  let k := if bool_decide (adbc < a * d) then 1 else 0 in
  a * d + b * c = adbc + k * 2 ^ 64 /\ 0 <= k <= 1.
Proof.
  intros Ha Hb Hc Hd adbc k.
  pose proof (mul_u32_fits _ _ Ha Hd) as Had. pose proof (mul_u32_fits _ _ Hb Hc) as Hbc.
  pose proof (wrap_add_carry 64 ltac:(lia) _ _ Had Hbc) as E.
  pose proof (wrap_carry_lt 64 ltac:(lia) _ _ Had Hbc) as C.
  subst adbc k. case_bool_decide; case_decide; split; mlia.
Qed.

Theorem mul128_spec x y lo hi :
  is_u64 x -> is_u64 y -> mul128 x y = (lo, hi) ->
  x * y = hi * 2 ^ 64 + lo /\ is_u64 lo /\ is_u64 hi.
Proof.
  intros Hx Hy. unfold mul128.
  pose proof (dword_split x) as Ex. pose proof (dword_split y) as Ey.
  set (a := hi_dword x) in *. set (b := lo_dword x) in *.
  set (c := hi_dword y) in *. set (d := lo_dword y) in *.
  assert (is_u32 a) as Ha by (subst a; auto with machine).
  assert (is_u32 b) as Hb by (subst b; auto with machine).
  assert (is_u32 c) as Hc by (subst c; auto with machine).
  assert (is_u32 d) as Hd by (subst d; auto with machine).
  rewrite !(wrap_small 64 (_ * _)) by (apply mul_u32_fits; assumption).
  destruct (mul128_digits a b c d Ha Hb Hc Hd) as [Eadbc Hk].
  set (adbc := u64 (a * d + b * c)) in *.
  set (k := if bool_decide (adbc < a * d) then 1 else 0) in *.
  assert (is_u64 adbc) as Hadbc by (subst adbc; auto with machine).
  rewrite !(Z.shiftl_mul_pow2 _ 32), !(Z.shiftr_div_pow2 _ 32) by lia.
  intros [= <- <-].
  pose proof (mul_u32_fits _ _ Hb Hd) as Hbd.
  assert (u64 (adbc * 2 ^ 32) = (adbc mod 2 ^ 32) * 2 ^ 32) as Esh.
  { unfold wrap. rewrite <- Z.mul_mod_distr_r by lia. reflexivity. }
  pose proof (wrap_fits 64 ltac:(lia) (adbc * 2 ^ 32)) as Hsh.
  pose proof (wrap_add_carry 64 ltac:(lia) _ _ Hbd Hsh) as E.
  pose proof (wrap_carry_lt 64 ltac:(lia) _ _ Hbd Hsh) as C.
  pose proof (Z.div_mod adbc (2 ^ 32) ltac:(lia)) as Dm.
  pose proof (Z.mod_pos_bound adbc (2 ^ 32) ltac:(lia)) as Mb.
  assert (is_u64 (k * 2 ^ 32)) as Hk32 by mlia.
  rewrite (wrap_small 64 (k * 2 ^ 32)) by assumption.
  rewrite wrap_add_l, <- !Z.add_assoc, wrap_add_l, !Z.add_assoc by lia.
  set (lo := u64 (b * d + u64 (adbc * 2 ^ 32))) in *.
  set (k' := if bool_decide (lo < b * d) then 1 else 0).
  assert (b * d + u64 (adbc * 2 ^ 32) = lo + k' * 2 ^ 64) as Elo.
  { subst k'. case_bool_decide; case_decide; lia. }
  assert (x * y = (a * c + adbc / 2 ^ 32 + k * 2 ^ 32 + k') * 2 ^ 64 + lo) as Exy.
  { rewrite Ex, Ey, Esh in *. machine_consts. nia. }
  assert (is_u64 lo) as Hlo by (subst lo; auto with machine).
  assert (0 <= a * c + adbc / 2 ^ 32 + k * 2 ^ 32 + k') as Hpos.
  { pose proof (Z.div_pos adbc (2 ^ 32)). subst k'. case_bool_decide; mnia. }
  assert (is_u64 (a * c + adbc / 2 ^ 32 + k * 2 ^ 32 + k')) as Hhi.
  { split; [assumption|]. unfold fits in *. machine_consts. nia. }
  rewrite (wrap_small 64 _ Hhi). auto.
Qed.

Lemma mul128_eq x y :
  is_u64 x -> is_u64 y -> mul128 x y = ((x * y) mod 2 ^ 64, x * y / 2 ^ 64).
Proof.
  intros Hx Hy. destruct (mul128 x y) as [lo hi] eqn:E.
  destruct (mul128_spec x y lo hi Hx Hy E) as (Exy & Hlo & Hhi).
  rewrite Exy. f_equal.
  - rewrite Z.add_comm, Z.mod_add, Z.mod_small by mlia. reflexivity.
  - rewrite Z.add_comm, Z.div_add, Z.div_small by mlia. lia.
Qed.

Lemma div_with_reminder_eq x d r :
  is_u32 x -> 0 < d < 2 ^ 32 -> 0 <= r < d ->
  div_with_reminder x d r = ((r * 2 ^ 32 + x) / d, (r * 2 ^ 32 + x) mod d).
Proof.
  intros Hx Hd Hr. unfold div_with_reminder.
  rewrite (wrap_small 64) by (rewrite Z.shiftl_mul_pow2; mlia).
  rewrite lor_add_shiftl by mlia.
  pose proof (Z.mod_pos_bound (x + r * 2 ^ 32) d ltac:(lia)).
  rewrite wrap_small by mlia. by rewrite Z.add_comm.
Qed.

(** One digit of a long division in base [2 ^ 32]. *)
Lemma long_division_digit x d r :
  is_u32 x -> 0 < d < 2 ^ 32 -> 0 <= r < d ->
  is_u32 ((r * 2 ^ 32 + x) / d) /\ 0 <= (r * 2 ^ 32 + x) mod d < d /\
  r * 2 ^ 32 + x = (r * 2 ^ 32 + x) / d * d + (r * 2 ^ 32 + x) mod d.
Proof.
  intros Hx Hd Hr.
  pose proof (Z.mod_pos_bound (r * 2 ^ 32 + x) d ltac:(lia)).
  pose proof (Z.div_mod (r * 2 ^ 32 + x) d ltac:(lia)).
  repeat split; try lia.
  - apply Z.div_pos; mlia.
  - apply Z.div_lt_upper_bound; mnia.
Qed.

Theorem div128_32_spec hi lo d :
  is_u64 hi -> is_u64 lo -> 0 < d < 2 ^ 32 ->
  let n := hi * 2 ^ 64 + lo in
  div128_32 hi lo d = (n / d / 2 ^ 64, (n / d) mod 2 ^ 64, n mod d).
Proof.
  intros Hhi Hlo Hd n. unfold div128_32.
  pose proof (dword_split hi) as Eh. pose proof (dword_split lo) as El.
  pose proof (hi_dword_fits _ Hhi) as H3. pose proof (lo_dword_fits hi) as H2.
  pose proof (hi_dword_fits _ Hlo) as H1. pose proof (lo_dword_fits lo) as H0.
  set (x3 := hi_dword hi) in *. set (x2 := lo_dword hi) in *.
  set (x1 := hi_dword lo) in *. set (x0 := lo_dword lo) in *.
  rewrite (div_with_reminder_eq x3) by (assumption || lia).
  destruct (long_division_digit x3 d 0 H3 Hd ltac:(lia)) as (Hq3 & Hr3 & E3).
  set (q3 := (0 * 2 ^ 32 + x3) / d) in *. set (r3 := (0 * 2 ^ 32 + x3) mod d) in *.
  rewrite (div_with_reminder_eq x2) by (assumption || lia).
  destruct (long_division_digit x2 d r3 H2 Hd Hr3) as (Hq2 & Hr2 & E2).
  set (q2 := (r3 * 2 ^ 32 + x2) / d) in *. set (r2 := (r3 * 2 ^ 32 + x2) mod d) in *.
  rewrite (div_with_reminder_eq x1) by (assumption || lia).
  destruct (long_division_digit x1 d r2 H1 Hd Hr2) as (Hq1 & Hr1 & E1).
  set (q1 := (r2 * 2 ^ 32 + x1) / d) in *. set (r1 := (r2 * 2 ^ 32 + x1) mod d) in *.
  rewrite (div_with_reminder_eq x0) by (assumption || lia).
  destruct (long_division_digit x0 d r1 H0 Hd Hr1) as (Hq0 & Hr0 & E0).
  set (q0 := (r1 * 2 ^ 32 + x0) / d) in *. set (r0 := (r1 * 2 ^ 32 + x0) mod d) in *.
  rewrite !Z.shiftl_mul_pow2, !(wrap_small 64) by mlia.
  rewrite !lor_add_high by mlia.
  set (q := (q3 * 2 ^ 32 + q2) * 2 ^ 64 + (q1 * 2 ^ 32 + q0)).
  assert (n = q * d + r0) as En.
  { subst n q. rewrite Eh, El. machine_consts. nia. }
  assert (n / d = q) as ->.
  { symmetry. apply (Z.div_unique_pos n d q r0); lia. }
  assert (n mod d = r0) as ->.
  { symmetry. apply (Z.mod_unique_pos n d q r0); lia. }
  assert (q / 2 ^ 64 = q3 * 2 ^ 32 + q2) as ->.
  { subst q. rewrite Z.div_add_l, Z.div_small by mlia. lia. }
  assert (q mod 2 ^ 64 = q1 * 2 ^ 32 + q0) as ->; [|reflexivity].
  subst q. rewrite Z.add_comm, Z.mod_add, Z.mod_small by mlia. lia.
Qed.

(** ** Byte order *)

Definition byte_of (x i : Z) : Z := (x / 2 ^ (8 * i)) mod 256.

Lemma byte_of_fits x i : is_u8 (byte_of x i).
Proof. apply Z.mod_pos_bound. lia. Qed.

Lemma mask_byte x i : 0 <= i -> Z.land x (255 * 2 ^ (8 * i)) = byte_of x i * 2 ^ (8 * i).
Proof. intros. apply (land_field x (8 * i) 8); lia. Qed.

Lemma shl_byte b k s :
  is_u8 b -> 0 <= k -> 0 <= s -> k + s <= 56 ->
  u64 (Z.shiftl (b * 2 ^ k) s) = b * 2 ^ (k + s).
Proof.
  intros [??] ???. rewrite Z.shiftl_mul_pow2, <- Z.mul_assoc, <- Z.pow_add_r by lia.
  apply wrap_small. assert (0 < 2 ^ (k + s)) by (apply Z.pow_pos_nonneg; lia).
  split; [mnia|]. apply Z.lt_le_trans with (2 ^ 8 * 2 ^ (k + s)); [mnia|].
  rewrite <- Z.pow_add_r by lia. apply Z.pow_le_mono_r; lia.
Qed.

Lemma shr_byte b k s : 0 <= s <= k -> Z.shiftr (b * 2 ^ k) s = b * 2 ^ (k - s).
Proof.
  intros. rewrite Z.shiftr_div_pow2 by lia.
  replace (b * 2 ^ k) with (b * 2 ^ (k - s) * 2 ^ s).
  - apply Z.div_mul. pose proof (Z.pow_pos_nonneg 2 s). lia.
  - rewrite <- Z.mul_assoc, <- Z.pow_add_r by lia. do 2 f_equal. lia.
Qed.

Lemma lor_byte a b n :
  0 <= n -> is_u8 b -> Z.lor (a * 2 ^ (n + 8)) (b * 2 ^ n) = (a * 256 + b) * 2 ^ n.
Proof.
  intros ? [??]. assert (0 < 2 ^ n) by (apply Z.pow_pos_nonneg; lia).
  assert (2 ^ (n + 8) = 256 * 2 ^ n) as E by (rewrite Z.pow_add_r; lia).
  rewrite lor_add_high; [|lia|]; rewrite E; mnia.
Qed.

(** The value with the bytes in the opposite order, in Horner form. *)
Lemma SWAP64_horner x :
  is_u64 x ->
  SWAP64 x = ((((((byte_of x 0 * 256 + byte_of x 1) * 256 + byte_of x 2) * 256 +
    byte_of x 3) * 256 + byte_of x 4) * 256 + byte_of x 5) * 256 + byte_of x 6) * 256 +
    byte_of x 7.
Proof.
  intros Hx. unfold SWAP64. rewrite (wrap_small 64 x Hx). cbv zeta.
  change 0x00000000000000ff with (255 * 2 ^ (8 * 0)).
  change 0x000000000000ff00 with (255 * 2 ^ (8 * 1)).
  change 0x0000000000ff0000 with (255 * 2 ^ (8 * 2)).
  change 0x00000000ff000000 with (255 * 2 ^ (8 * 3)).
  change 0x000000ff00000000 with (255 * 2 ^ (8 * 4)).
  change 0x0000ff0000000000 with (255 * 2 ^ (8 * 5)).
  change 0x00ff000000000000 with (255 * 2 ^ (8 * 6)).
  change 0xff00000000000000 with (255 * 2 ^ (8 * 7)).
  rewrite !mask_byte by lia.
  rewrite !shl_byte by (apply byte_of_fits || lia). rewrite !shr_byte by lia.
  pose proof (byte_of_fits x) as B.
  rewrite (lor_byte _ _ 48), (lor_byte _ _ 40), (lor_byte _ _ 32), (lor_byte _ _ 24),
    (lor_byte _ _ 16), (lor_byte _ _ 8), (lor_byte _ _ 0) by (apply B || lia).
  change (2 ^ 0) with 1. lia.
Qed.

Lemma le_bytes_byte_of x :
  le_bytes 8 x = [byte_of x 0; byte_of x 1; byte_of x 2; byte_of x 3;
                  byte_of x 4; byte_of x 5; byte_of x 6; byte_of x 7].
Proof.
  unfold le_bytes, byte_of. change (8 * 0) with 0. change (2 ^ 0) with 1.
  rewrite Z.div_1_r, !Z.div_div by lia. reflexivity.
Qed.

Theorem SWAP64_le_bytes x : is_u64 x -> le_bytes 8 (SWAP64 x) = rev (le_bytes 8 x).
Proof.
  intros Hx. rewrite SWAP64_horner, (le_bytes_byte_of x) by assumption.
  pose proof (byte_of_fits x) as B. simpl rev.
  match goal with |- le_bytes 8 ?n = ?l =>
    replace n with (le_value l) by (cbn [le_value]; lia);
    apply (le_bytes_value l) end.
  repeat constructor; apply B.
Qed.
