(* ===== verification/CheckDifficulty.v ===== *)
(** * Proof-of-work test ([src/mevacoin_core/check_difficulty.cpp])

    A hash meets a difficulty when, read as a 256-bit little-endian number,
    its product with the difficulty stays below [2 ^ 256].  The code decides
    this on 64-bit words with explicit carries. *)

From S2P Require Import Prelude IntUtil.

(** A [crypto::Hash]: 32 bytes. *)
Definition is_hash (h : bytes) : Prop := length h = 32%nat /\ is_bytes h.

(** [((const uint64_t * )&hash)[i]] followed by [swap64le], the identity on the
    little-endian targets. *)
Definition hash_word (hash : bytes) (i : nat) : Z := le_value (take 8 (drop (8 * i) hash)).

(** [(low, high)], the [__int128] version. *)
Definition mul (a b : Z) : Z * Z :=
  let res := wrap 128 (a * b) in
  (u64 res, u64 (Z.shiftr res 64)).

Definition cadd (a b : Z) : bool := bool_decide (u64 (a + b) < a).

Definition cadc (a b : Z) (c : bool) : bool :=
  bool_decide (u64 (a + b) < a) || (c && bool_decide (u64 (a + b) = u64 (-1))).

Definition check_hash (hash : bytes) (difficulty : Z) : bool :=
  let '(top, high) := mul (hash_word hash 3) difficulty in
  if bool_decide (high <> 0) then false
  else
    let '(low, cur) := mul (hash_word hash 0) difficulty in
    let '(low, high) := mul (hash_word hash 1) difficulty in
    let carry := cadd cur low in
    let cur := high in
    let '(low, high) := mul (hash_word hash 2) difficulty in
    let carry := cadc cur low carry in
    let carry := cadc high top carry in
    negb carry.

(** ** Facts *)

Lemma mul_eq a b :
  is_u64 a -> is_u64 b -> mul a b = ((a * b) mod 2 ^ 64, a * b / 2 ^ 64).
Proof.
  intros Ha Hb. unfold mul.
  rewrite (wrap_small 128) by (unfold fits in *; change (2 ^ 128) with (2 ^ 64 * 2 ^ 64); nia).
  rewrite Z.shiftr_div_pow2 by lia. f_equal. apply wrap_small.
  split; [apply Z.div_pos; mnia|]. apply Z.div_lt_upper_bound; mnia.
Qed.

(** The product by [__int128] is the product by [mul128], the other branch of
    the preprocessor conditional. *)
Theorem mul_mul128 a b : is_u64 a -> is_u64 b -> mul a b = mul128 a b.
Proof. intros. by rewrite mul_eq, mul128_eq. Qed.

Lemma cadd_spec a b : is_u64 a -> is_u64 b -> cadd a b = true <-> 2 ^ 64 <= a + b.
Proof. intros. unfold cadd. rewrite bool_decide_eq_true. by apply wrap_carry_lt. Qed.

Lemma cadc_spec a b c :
  is_u64 a -> is_u64 b -> cadc a b c = true <-> 2 ^ 64 <= a + b + Z.b2z c.
Proof.
  intros Ha Hb. unfold cadc.
  rewrite orb_true_iff, andb_true_iff, !bool_decide_eq_true, wrap_carry_lt by (assumption || lia).
  rewrite (wrap_add_carry 64 ltac:(lia) _ _ Ha Hb). change (u64 (-1)) with (2 ^ 64 - 1).
  destruct c; simpl Z.b2z; case_decide; mlia.
Qed.

Lemma hash_word_fits hash i : is_hash hash -> is_u64 (hash_word hash i).
Proof.
  intros [_ Hb]. unfold hash_word.
  apply (fits_mono (8 * Z.of_nat (length (take 8 (drop (8 * i) hash))))).
  - rewrite length_take. lia.
  - apply le_value_fits. by apply Forall_take, Forall_drop.
Qed.

Lemma le_value_app a b :
  le_value (a ++ b) = le_value a + 2 ^ (8 * Z.of_nat (length a)) * le_value b.
Proof.
  induction a as [|x a IH]; simpl; [lia|].
  rewrite IH. replace (8 * Z.of_nat (S (length a))) with (8 + 8 * Z.of_nat (length a)) by lia.
  rewrite Z.pow_add_r by lia. lia.
Qed.

(** The 256-bit value of a hash from its four words. *)
Lemma hash_value_words hash :
  is_hash hash ->
  le_value hash = hash_word hash 0 + 2 ^ 64 * (hash_word hash 1 +
    2 ^ 64 * (hash_word hash 2 + 2 ^ 64 * hash_word hash 3)).
Proof.
  intros [Hl _]. unfold hash_word.
  assert (drop 24 hash = take 8 (drop 24 hash)) as E.
  { symmetry. apply take_ge. rewrite length_drop. lia. }
  rewrite <- (take_drop 8 hash) at 1. rewrite <- (take_drop 8 (drop 8 hash)) at 1.
  rewrite <- (take_drop 8 (drop 8 (drop 8 hash))) at 1.
  rewrite !drop_drop. simpl Nat.add. simpl Nat.mul. rewrite E at 1.
  rewrite !le_value_app, !length_take, !length_drop, Hl, drop_0.
  simpl. lia.
Qed.

Lemma mul_parts h d :
  is_u64 h -> is_u64 d ->
  exists l c, mul h d = (l, c) /\ h * d = c * 2 ^ 64 + l /\ is_u64 l /\ is_u64 c.
Proof.
  intros Hh Hd. rewrite mul_mul128 by assumption.
  destruct (mul128 h d) as [l c] eqn:E. exists l, c. split; [done|].
  by apply (mul128_spec h d).
Qed.

(** The four limb sums of the 320-bit product and the carries between them. *)
Lemma carry_chain l0 c0 l1 c1 l2 c2 l3 c3 (b1 b2 b3 : bool) :
  is_u64 l0 -> is_u64 c0 -> is_u64 l1 -> is_u64 c1 -> is_u64 l2 -> is_u64 c2 ->
  is_u64 l3 -> 0 <= c3 ->
  (b1 = true <-> 2 ^ 64 <= c0 + l1) ->
  (b2 = true <-> 2 ^ 64 <= c1 + l2 + Z.b2z b1) ->
  (b3 = true <-> 2 ^ 64 <= c2 + l3 + Z.b2z b2) ->
  (c3 = 0 /\ b3 = false) <->
  (c0 * 2 ^ 64 + l0) + 2 ^ 64 * ((c1 * 2 ^ 64 + l1) +
    2 ^ 64 * ((c2 * 2 ^ 64 + l2) + 2 ^ 64 * (c3 * 2 ^ 64 + l3))) < 2 ^ 256.
Proof.
  intros ???????? B1 B2 B3. change (2 ^ 256) with (2 ^ 64 * 2 ^ 64 * 2 ^ 64 * 2 ^ 64).
  unfold fits in *. machine_consts.
  destruct b1, b2, b3; simpl Z.b2z in *; lia.
Qed.

(** C37. The word-by-word test with carries decides exactly the 256-bit
    inequality of the proof of work: [check_hash] accepts a hash for a
    difficulty if and only if the hash, as a little-endian number, times the
    difficulty is below [2 ^ 256]. *)
Theorem check_hash_spec hash difficulty :
  is_hash hash -> is_u64 difficulty ->
  check_hash hash difficulty = true <-> le_value hash * difficulty < 2 ^ 256.
Proof.
  intros Hh Hd. unfold check_hash. rewrite (hash_value_words hash Hh).
  pose proof (hash_word_fits hash 0 Hh) as W0. pose proof (hash_word_fits hash 1 Hh) as W1.
  pose proof (hash_word_fits hash 2 Hh) as W2. pose proof (hash_word_fits hash 3 Hh) as W3.
  destruct (mul_parts _ _ W0 Hd) as (l0 & c0 & -> & E0 & L0 & C0).
  destruct (mul_parts _ _ W1 Hd) as (l1 & c1 & -> & E1 & L1 & C1).
  destruct (mul_parts _ _ W2 Hd) as (l2 & c2 & -> & E2 & L2 & C2).
  destruct (mul_parts _ _ W3 Hd) as (l3 & c3 & -> & E3 & L3 & C3).
  rewrite !Z.mul_add_distr_r, <- !Z.mul_assoc, !Z.mul_add_distr_r, <- !Z.mul_assoc,
    !Z.mul_add_distr_r, <- !Z.mul_assoc, E0, E1, E2, E3.
  rewrite <- (carry_chain _ _ _ _ _ _ _ _ _ _ _ L0 C0 L1 C1 L2 C2 L3 (proj1 C3)
    (cadd_spec _ _ C0 L1) (cadc_spec _ _ _ C1 L2) (cadc_spec _ _ _ C2 L3)).
  case_bool_decide as HC; [split; [done | intros [??]; lia]|].
  rewrite negb_true_iff. split; [intros; split; [lia|assumption] | tauto].
Qed.

Lemma check_hash_witness :
  is_hash (repeat 1 32) /\ is_u64 5 /\
  (check_hash (repeat 1 32) 5 = true <-> le_value (repeat 1 32) * 5 < 2 ^ 256).
Proof.
  assert (is_hash (repeat 1 32)) as H by (split; [reflexivity|]; repeat constructor; mlia).
  assert (is_u64 5) as H' by mlia.
  split; [exact H|]. split; [exact H'|]. exact (check_hash_spec _ _ H H').
Defined.
