(* ===== verification/StringTools.v ===== *)
(** * Hexadecimal and string helpers ([src/common/string_tools.cpp])

    A [std::string] is the list of its bytes. *)

From S2P Require Import Prelude.

(** ** Hexadecimal *)

(** [characterValues]: the table indexed by the unsigned character. *)
Definition characterValues (character : Z) : Z :=
  let ff n := replicate n 0xff in
  let letters := 0xff :: [0x0a; 0x0b; 0x0c; 0x0d; 0x0e; 0x0f] ++ ff 9%nat in
  let table := ff 48%nat ++ [0; 1; 2; 3; 4; 5; 6; 7; 8; 9] ++ ff 6%nat
               ++ letters ++ ff 16%nat ++ letters ++ ff 144%nat in
  nth (Z.to_nat character) table 0.

(** [bool fromHex(char, uint8_t &)] *)
Definition fromHex_char (character : Z) : option Z :=
  if 0x0f <? characterValues character then None else Some (characterValues character).

(** The loop over the pairs of characters of a text of even size. *)
Fixpoint fromHex_loop (text : bytes) : option bytes :=
  match text with
  | c1 :: c2 :: text =>
      value1 ← fromHex_char c1;
      value2 ← fromHex_char c2;
      data ← fromHex_loop text;
      Some (u8 (Z.lor (Z.shiftl value1 4) value2) :: data)
  | _ => Some []
  end.

(** [bool fromHex(const std::string &, std::vector<uint8_t> &)], into an empty
    vector. *)
Definition fromHex (text : bytes) : option bytes :=
  if negb (Z.land (Z.of_nat (length text)) 1 =? 0) then None else fromHex_loop text.

(** [bool fromHex(const std::string &, void *, bufferSize, size)]: the bytes
    written at the start of the buffer, [size] of them. *)
Definition fromHex_buffer (text : bytes) (bufferSize : Z) : option bytes :=
  if negb (Z.land (Z.of_nat (length text)) 1 =? 0) then None
  else if bufferSize <? Z.shiftr (Z.of_nat (length text)) 1 then None
  else fromHex_loop text.

Definition podFromHex (size : nat) (text : bytes) : option bytes :=
  data ← fromHex_buffer text (Z.of_nat size);
  if (length data =? size)%nat then Some data else None.

Definition hexDigit (v : Z) : Z := nth (Z.to_nat v) (str "0123456789abcdef") 0.

Fixpoint toHex (data : bytes) : bytes :=
  match data with
  | [] => []
  | b :: data => hexDigit (Z.shiftr b 4) :: hexDigit (Z.land b 15) :: toHex data
  end.

(** ** Splitting *)

(** [std::string::find(char, pos)] on the suffix that starts at [pos]. *)
Fixpoint find_char (c : Z) (text : bytes) : option nat :=
  match text with
  | [] => None
  | x :: text => if x =? c then Some 0%nat else S <$> find_char c text
  end.

(** [std::string extract(std::string &text, char)]: the result and the new
    [text]. *)
Definition extract (text : bytes) (delimiter : Z) : bytes * bytes :=
  match find_char delimiter text with
  | Some position => (take position text, drop (S position) text)
  | None => (text, [])
  end.

(** [std::string extract(const std::string &, char, uint64_t &offset)]: the
    result and the new [offset]. *)
Definition extract_offset (text : bytes) (delimiter : Z) (offset : nat) : bytes * nat :=
  match find_char delimiter (drop offset text) with
  | Some k =>
      let position := (offset + k)%nat in
      let offset := (position + 1)%nat in
      (take position (drop offset text), offset)
  | None => let offset := length text in (drop offset text, offset)
  end.

(** ** Trimming *)

Definition is_whitespace (c : Z) : bool :=
  (c =? 32) || (c =? 9) || (c =? 10) || (c =? 13) || (c =? 12) || (c =? 11).

(** [str.erase(0, str.find_first_not_of(whitespace))] *)
Fixpoint leftTrim (text : bytes) : bytes :=
  match text with
  | c :: text' => if is_whitespace c then leftTrim text' else text
  | [] => []
  end.

(** [str.erase(str.find_last_not_of(whitespace) + 1)] *)
Definition rightTrim (text : bytes) : bytes := rev (leftTrim (rev text)).

Definition trim (text : bytes) : bytes := leftTrim (rightTrim text).

(** ** Hexadecimal round trips *)

(** [std::tolower] in the C locale. *)
Definition lower (c : Z) : Z := if (65 <=? c) && (c <=? 90) then c + 32 else c.

Lemma hex_byte b : is_u8 b ->
  exists v1 v2, fromHex_char (hexDigit (Z.shiftr b 4)) = Some v1 /\
    fromHex_char (hexDigit (Z.land b 15)) = Some v2 /\ u8 (Z.lor (Z.shiftl v1 4) v2) = b.
Proof.
  pose (P := fun b => match fromHex_char (hexDigit (Z.shiftr b 4)),
                        fromHex_char (hexDigit (Z.land b 15)) with
                | Some v1, Some v2 => u8 (Z.lor (Z.shiftl v1 4) v2) =? b
                | _, _ => false end).
  intros Hb. assert (P b = true) as H by (by apply byte_forall).
  unfold P in H. repeat case_match; try done. apply Z.eqb_eq in H. eauto.
Qed.

Lemma hex_char c v : is_u8 c -> fromHex_char c = Some v -> 0 <= v < 16 /\ hexDigit v = lower c.
Proof.
  pose (P := fun c => match fromHex_char c with
                | Some v => (0 <=? v) && (v <? 16) && (hexDigit v =? lower c)
                | None => true end).
  intros Hc E. assert (P c = true) as H by (by apply byte_forall).
  unfold P in H. rewrite E in H. lia.
Qed.

Lemma length_toHex data : length (toHex data) = (2 * length data)%nat.
Proof. induction data; simpl; lia. Qed.

Lemma fromHex_loop_toHex data : is_bytes data -> fromHex_loop (toHex data) = Some data.
Proof.
  induction 1 as [|b data Hb _ IH]; [done|]. cbn [toHex fromHex_loop].
  destruct (hex_byte b Hb) as (v1 & v2 & -> & -> & E). simpl. rewrite IH. simpl. by rewrite E.
Qed.

Lemma even_length n : Z.land (Z.of_nat (2 * n)) 1 = 0.
Proof.
  change 1 with (2 ^ 1 - 1). rewrite land_ones_mod by lia.
  rewrite Nat2Z.inj_mul, Z.mul_comm. apply Z_mod_mult.
Qed.

Lemma fromHex_toHex data : is_bytes data -> fromHex (toHex data) = Some data.
Proof.
  intros. unfold fromHex. rewrite length_toHex, even_length. by apply fromHex_loop_toHex.
Qed.

Lemma podFromHex_toHex data :
  is_bytes data -> podFromHex (length data) (toHex data) = Some data.
Proof.
  intros. unfold podFromHex, fromHex_buffer. rewrite length_toHex, even_length. cbn [Z.eqb negb].
  rewrite (proj2 (Z.ltb_ge _ _)); [|rewrite Z.shiftr_div_pow2 by lia;
    rewrite Nat2Z.inj_mul, Z.mul_comm; change (2 ^ 1) with (Z.of_nat 2); by rewrite Z.div_mul].
  rewrite fromHex_loop_toHex by done. simpl. by rewrite Nat.eqb_refl.
Qed.

Lemma hex_split v1 v2 : 0 <= v1 < 16 -> 0 <= v2 < 16 ->
  Z.shiftr (u8 (Z.lor (Z.shiftl v1 4) v2)) 4 = v1 /\ Z.land (u8 (Z.lor (Z.shiftl v1 4) v2)) 15 = v2.
Proof.
  intros. rewrite Z.shiftl_mul_pow2, lor_add_high by lia.
  rewrite wrap_small by mlia. change 15 with (2 ^ 4 - 1).
  rewrite land_ones_mod, Z.shiftr_div_pow2 by lia. change (2 ^ 4) with 16.
  split; [symmetry; apply Z.div_unique with v2; lia|symmetry; apply Z.mod_unique with v1; lia].
Qed.

Lemma toHex_fromHex_loop n text data :
  (length text = 2 * n)%nat -> is_bytes text -> fromHex_loop text = Some data ->
  toHex data = map lower text.
Proof.
  revert text data. induction n as [|n IH]; intros text data Hl Hb H.
  - destruct text; simplify_eq/=. done.
  - destruct text as [|c1 [|c2 text]]; try (simpl in Hl; lia). cbn [fromHex_loop] in H.
    apply bind_Some in H as (v1 & E1 & H). apply bind_Some in H as (v2 & E2 & H).
    apply bind_Some in H as (d & Ed & [= <-]).
    apply Forall_cons in Hb as [H1 Hb]. apply Forall_cons in Hb as [H2 Hb].
    apply hex_char in E1 as [B1 L1], E2 as [B2 L2]; try done.
    destruct (hex_split v1 v2) as [S1 S2]; try lia.
    cbn [toHex map]. rewrite S1, S2, L1, L2. do 2 f_equal. apply (IH text); [simpl in Hl; lia|done..].
Qed.

Lemma toHex_fromHex text data :
  is_bytes text -> fromHex text = Some data -> toHex data = map lower text.
Proof.
  unfold fromHex. intros Hb H. destruct (_ =? _) eqn:E; [|done]. apply Z.eqb_eq in E.
  change 1 with (2 ^ 1 - 1) in E. rewrite land_ones_mod in E by lia.
  apply (toHex_fromHex_loop (Z.to_nat (Z.of_nat (length text) / 2))); [|done..].
  pose proof (Z.div_mod (Z.of_nat (length text)) 2). change (2 ^ 1) with 2 in E. lia.
Qed.

(** ** [extract] *)

Lemma find_char_Some c text n :
  find_char c text = Some n -> text = take n text ++ c :: drop (S n) text /\ c ∉ take n text.
Proof.
  revert n. induction text as [|x text IH]; intros n H; simpl in H; [done|].
  destruct (Z.eqb_spec x c) as [->|].
  - simplify_eq. split; [done|]. simpl. apply not_elem_of_nil.
  - apply fmap_Some in H as (k & H & ->). apply IH in H as [E N]. cbn [take drop app].
    split; [by rewrite E at 1|]. rewrite not_elem_of_cons. done.
Qed.

Lemma find_char_None c text : find_char c text = None <-> c ∉ text.
Proof.
  induction text as [|x text IH]; simpl; [split; [intros _; apply not_elem_of_nil|done]|].
  rewrite not_elem_of_cons. destruct (Z.eqb_spec x c) as [->|].
  - split; [done|intros []; done].
  - rewrite fmap_None, IH. naive_solver.
Qed.
