(* ===== verification/TreeHash.v ===== *)
(** * Merkle trees ([src/crypto/tree-hash.c])

    The hash function is a variable of the section: nothing here depends on
    what it computes.  [merkle_root] is the reference definition of the tree;
    the array code is proved to compute it, and a branch produced by
    [tree_branch] to lead from the first leaf to the root. *)

From S2P Require Import Prelude.

Section TreeHash.
Variable cn_fast_hash : bytes -> bytes.

(** The number of leaves of the last complete level: the highest bit of
    [count - 1]. *)
Definition smear (cnt i : Z) : Z := Z.lor cnt (Z.shiftr cnt i).

Definition tree_cnt (count : Z) : Z :=
  let cnt := fold_left smear [1; 2; 4; 8; 16; 32] (count - 1) in
  Z.land cnt (u64 (Z.lnot (Z.shiftr cnt 1))).

(** [cn_fast_hash(hashes[i], 2 * HASH_SIZE, ...)]: two neighbours. *)
Definition hash_pair (hashes : list bytes) (i : nat) : bytes :=
  cn_fast_hash (nth i hashes [] ++ nth (S i) hashes []).

(** The first loop fills [ints] from [hashes]. *)
Fixpoint hash_level (hashes : list bytes) (steps i : nat) : list bytes :=
  match steps with
  | O => []
  | S steps => hash_pair hashes i :: hash_level hashes steps (i + 2)
  end.

(** The later ones overwrite [ints] from the front. *)
Fixpoint hash_in_place (steps i j : nat) (ints : list bytes) : list bytes :=
  match steps with
  | O => ints
  | S steps => hash_in_place steps (i + 2) (S j) (<[j := hash_pair ints i]> ints)
  end.

(** [while (cnt > 2)]; [cnt] is halved, so 64 rounds are enough. *)
Fixpoint tree_hash_loop (fuel cnt : nat) (ints : list bytes) : list bytes :=
  match fuel with
  | O => ints
  | S fuel =>
      if (2 <? cnt)%nat then
        let cnt := Nat.div2 cnt in
        tree_hash_loop fuel cnt (hash_in_place cnt 0 0 ints)
      else ints
  end.

Definition tree_hash (hashes : list bytes) : bytes :=
  let count := length hashes in
  if (count =? 1)%nat then nth 0 hashes []
  else if (count =? 2)%nat then hash_pair hashes 0
  else
    let cnt := Z.to_nat (tree_cnt (Z.of_nat count)) in
    let start := (2 * cnt - count)%nat in
    let ints := take start hashes ++ hash_level hashes (cnt - start) start in
    hash_pair (tree_hash_loop 64 cnt ints) 0.

Definition tree_depth (count : Z) : Z :=
  (fold_left (fun '(count, depth) i =>
     if 0 <? Z.shiftr count i then (Z.shiftr count i, depth + i) else (count, depth))
   [32; 16; 8; 4; 2; 1] (count, 0)).2.

(** The loop of [tree_branch] that finds [(cnt, depth)]. *)
Definition branch_cnt (count : Z) : Z * Z :=
  fold_left (fun '(cnt, depth) i =>
     if u64 (Z.shiftl cnt i) <=? count then (u64 (Z.shiftl cnt i), depth + i) else (cnt, depth))
   [32; 16; 8; 4; 2; 1] (1, 0).

(** [while (depth > 0)]: [branch[depth]] for every depth below the argument. *)
Fixpoint tree_branch_loop (depth cnt : nat) (ints : list bytes) : list bytes :=
  match depth with
  | O => []
  | S depth =>
      let cnt := Nat.div2 cnt in
      tree_branch_loop depth cnt (hash_in_place (cnt - 1) 1 0 ints) ++ [nth 0 ints []]
  end.

Definition tree_branch (hashes : list bytes) : list bytes :=
  let count := length hashes in
  let '(cnt, depth) := branch_cnt (Z.of_nat count) in
  let cnt := Z.to_nat cnt in
  let start := (2 * cnt - count)%nat in
  let ints := take (start - 1) (drop 1 hashes) ++ hash_level hashes (cnt - start) start in
  tree_branch_loop (Z.to_nat depth) cnt ints.

(** [path && (path[depth >> 3] & (1 << (depth & 7))) != 0] *)
Definition path_bit (path : option bytes) (depth : nat) : bool :=
  match path with
  | None => false
  | Some path =>
      negb (Z.land (nth (Z.to_nat (Z.shiftr (Z.of_nat depth) 3)) path 0)
                   (Z.shiftl 1 (Z.land (Z.of_nat depth) 7)) =? 0)
  end.

(** [buffer] after the loop; [from_leaf] tells the first round. *)
Fixpoint from_branch_loop (branch : list bytes) (leaf : bytes) (path : option bytes)
    (depth : nat) (from_leaf : bool) (buffer : bytes * bytes) : bytes * bytes :=
  match depth with
  | O => buffer
  | S depth =>
      let leaf_path := if from_leaf then leaf else cn_fast_hash (buffer.1 ++ buffer.2) in
      let branch_path := nth depth branch [] in
      from_branch_loop branch leaf path depth false
        (if path_bit path depth then (branch_path, leaf_path) else (leaf_path, branch_path))
  end.

Definition tree_hash_from_branch (branch : list bytes) (depth : nat) (leaf : bytes)
    (path : option bytes) : bytes :=
  match depth with
  | O => leaf
  | _ => let buffer := from_branch_loop branch leaf path depth true ([], []) in
         cn_fast_hash (buffer.1 ++ buffer.2)
  end.

(** ** Reference definition *)

Fixpoint pairs (l : list bytes) : list bytes :=
  match l with
  | a :: b :: l => cn_fast_hash (a ++ b) :: pairs l
  | _ => []
  end.

(** The root of a complete binary tree with [2 ^ d] leaves. *)
Fixpoint merkle (d : nat) (l : list bytes) : bytes :=
  match d with
  | O => nth 0 l []
  | S d => merkle d (pairs l)
  end.

(** The last complete level has [2 ^ log2 count] nodes: the first leaves as
    they are, and the hashes of the pairs of the remaining ones. *)
Definition last_level (cnt : nat) (hashes : list bytes) : list bytes :=
  let start := (2 * cnt - length hashes)%nat in
  take start hashes ++ pairs (drop start hashes).

Definition merkle_root (hashes : list bytes) : bytes :=
  let d := Nat.log2 (length hashes) in merkle d (last_level (2 ^ d) hashes).

(** ** Bit arithmetic *)

(** The top [k] bits of an [n + 1]-bit number are ones. *)
Definition top_ones (n k x : Z) : Prop :=
  forall i, 0 <= i -> (n < i -> Z.testbit x i = false) /\ (n - k < i <= n -> Z.testbit x i = true).

Lemma smear_ones n k x : 0 < k -> top_ones n k x -> top_ones n (2 * k) (smear x k).
Proof.
  intros Hk H i Hi. unfold smear. rewrite Z.lor_spec, Z.shiftr_spec by lia.
  destruct (H i Hi) as [H1 H2]. destruct (H (i + k) ltac:(lia)) as [H3 H4]. split.
  - intros. by rewrite H1, H3 by lia.
  - intros. destruct (Z.lt_ge_cases (n - k) i); [by rewrite H2 by lia|].
    rewrite H4 by lia. apply orb_true_r.
Qed.

Lemma top_ones_log2 x : 0 < x -> top_ones (Z.log2 x) 1 x.
Proof.
  intros Hx i Hi. split; intros.
  - by apply Z.bits_above_log2; lia.
  - replace i with (Z.log2 x) by lia. by apply Z.bit_log2.
Qed.

Lemma tree_cnt_log2 count : 2 <= count -> is_u64 count -> tree_cnt count = 2 ^ Z.log2 (count - 1).
Proof.
  intros Hc Hu. unfold tree_cnt. set (n := Z.log2 (count - 1)).
  set (cnt := fold_left _ _ _).
  assert (top_ones n 64 cnt) as Ht.
  { unfold cnt. simpl. change 64 with (2 * (2 * (2 * (2 * (2 * (2 * 1)))))).
    do 6 (apply smear_ones; [lia|]). apply top_ones_log2. lia. }
  assert (0 <= n < 64) as Hn.
  { split; [apply Z.log2_nonneg|]. apply Z.log2_lt_pow2; mlia. }
  apply Z.bits_inj'. intros i Hi. rewrite Z.land_spec. unfold wrap.
  rewrite Z.pow2_bits_eqb by lia. destruct (Ht i Hi) as [T1 T2].
  destruct (Z.lt_ge_cases n i); [rewrite T1 by lia; destruct (Z.eqb_spec n i); [lia|done]|].
  rewrite T2, Z.mod_pow2_bits_low, Z.lnot_spec, Z.shiftr_spec by lia.
  destruct (Ht (i + 1) ltac:(lia)) as [S1 S2].
  destruct (Z.eqb_spec n i); [rewrite S1 by lia|rewrite S2 by lia]; done.
Qed.

Lemma depth_step i c d : 0 < i -> 0 < c < 2 ^ (2 * i) ->
  let '(c', d') := if 0 <? Z.shiftr c i then (Z.shiftr c i, d + i) else (c, d) in
  0 < c' < 2 ^ i /\ d' + Z.log2 c' = d + Z.log2 c.
Proof.
  intros Hi Hc. replace (2 * i) with (i + i) in Hc by lia. rewrite Z.pow_add_r in Hc by lia.
  assert (0 < 2 ^ i) by (apply Z.pow_pos_nonneg; lia).
  destruct (Z.ltb_spec 0 (Z.shiftr c i)) as [Hs|Hs].
  - assert (i <= Z.log2 c).
    { apply Z.log2_le_pow2; [lia|]. rewrite Z.shiftr_div_pow2 in Hs by lia.
      destruct (Z.lt_ge_cases c (2 ^ i)) as [L|]; [|lia]. rewrite Z.div_small in Hs; lia. }
    split; [split; [done|]|rewrite Z.log2_shiftr by lia; lia].
    rewrite Z.shiftr_div_pow2 by lia. apply Z.div_lt_upper_bound; lia.
  - rewrite Z.shiftr_div_pow2 in Hs by lia. split; [|done]. split; [lia|].
    destruct (Z.lt_ge_cases c (2 ^ i)); [done|].
    assert (1 <= c / 2 ^ i); [|lia]. apply Z.div_le_lower_bound; lia.
Qed.

Lemma tree_depth_log2 count : 0 < count -> is_u64 count -> tree_depth count = Z.log2 count.
Proof.
  intros Hc [_ Hu]. unfold tree_depth. cbn [fold_left].
  repeat match goal with |- context [if 0 <? Z.shiftr ?c ?i then _ else (_, ?d)] =>
    pose proof (depth_step i c d ltac:(lia) ltac:(assumption || (simpl in *; lia)));
    destruct (if 0 <? Z.shiftr c i then _ else _) as [? ?]; destruct_and?
  end.
  simpl. match goal with _ : ?c < 2 ^ 1 |- _ => assert (c = 1) by (change (2 ^ 1) with 2 in *; lia); subst c end.
  change (Z.log2 1) with 0 in *. lia.
Qed.

Lemma branch_step count i cnt d : 0 < i -> is_u64 count ->
  0 <= d <= 64 - 2 * i -> cnt = 2 ^ d -> cnt <= count < cnt * 2 ^ (2 * i) ->
  let '(cnt', d') := if u64 (Z.shiftl cnt i) <=? count then (u64 (Z.shiftl cnt i), d + i) else (cnt, d) in
  0 <= d' <= 64 - i /\ cnt' = 2 ^ d' /\ cnt' <= count < cnt' * 2 ^ i.
Proof.
  intros Hi Hu Hd -> Hc. rewrite Z.shiftl_mul_pow2, <- Z.pow_add_r by lia.
  rewrite wrap_small by (split; [lia|apply Z.pow_lt_mono_r; lia]).
  rewrite <- Z.pow_add_r in Hc by lia.
  destruct (Z.leb_spec (2 ^ (d + i)) count).
  - rewrite <- Z.pow_add_r by lia. replace (d + i + i) with (d + 2 * i) by lia. lia.
  - rewrite <- Z.pow_add_r by lia. lia.
Qed.

Lemma branch_cnt_log2 count : 0 < count -> is_u64 count ->
  branch_cnt count = (2 ^ Z.log2 count, Z.log2 count).
Proof.
  intros Hc Hu. unfold branch_cnt. cbn [fold_left].
  assert (exists cnt d, branch_cnt count = (cnt, d) /\ 0 <= d <= 63 /\ cnt = 2 ^ d /\
    cnt <= count < cnt * 2 ^ 1) as (cnt & d & E & Hd & -> & H).
  { unfold branch_cnt. cbn [fold_left].
    repeat match goal with |- context [if ?b <=? _ then _ else (?cnt, ?d)] =>
      match b with u64 (Z.shiftl _ ?i) =>
        let H := fresh in
        pose proof (branch_step count i cnt d ltac:(lia) Hu ltac:(lia) ltac:(assumption || reflexivity)
          ltac:(first [assumption | destruct Hu; lia])) as H;
        destruct (if b <=? count then _ else _) as [? ?]; destruct H as (? & ? & ?) end
    end. eauto 10. }
  unfold branch_cnt in E. cbn [fold_left] in E. rewrite E.
  assert (Z.log2 count = d) as ->; [|done].
  apply Z.log2_unique; [lia|]. rewrite Z.pow_succ_r by lia. lia.
Qed.

(** ** Levels *)

Lemma length_pairs n l : length l = (2 * n)%nat -> length (pairs l) = n.
Proof.
  revert l. induction n as [|n IH]; intros l Hl; [by destruct l|].
  destruct l as [|a [|b l]]; simpl in *; try lia. rewrite IH; lia.
Qed.

Lemma pairs_step n i l : (i + 2 * S n <= length l)%nat ->
  pairs (take (2 * S n) (drop i l)) = hash_pair l i :: pairs (take (2 * n) (drop (i + 2) l)).
Proof.
  intros Hl. unfold hash_pair.
  destruct (lookup_lt_is_Some_2 l i) as [a Ha]; [lia|].
  destruct (lookup_lt_is_Some_2 l (S i)) as [b Hb]; [lia|].
  rewrite (drop_S _ _ _ Ha), (drop_S _ _ _ Hb).
  replace (2 * S n)%nat with (S (S (2 * n))) by lia. cbn [take pairs].
  rewrite (nth_lookup_Some _ _ _ _ Ha), (nth_lookup_Some _ _ _ _ Hb).
  by replace (i + 2)%nat with (S (S i)) by lia.
Qed.

Lemma hash_level_pairs hashes n : forall i, (i + 2 * n <= length hashes)%nat ->
  hash_level hashes n i = pairs (take (2 * n) (drop i hashes)).
Proof.
  induction n as [|n IH]; intros i Hi; [done|].
  rewrite pairs_step by lia. cbn [hash_level]. rewrite IH by lia. done.
Qed.

Lemma length_hash_in_place n : forall i j ints,
  length (hash_in_place n i j ints) = length ints.
Proof. induction n as [|n IH]; intros; simpl; [done|]. rewrite IH. apply length_insert. Qed.

(** Overwriting from the front is safe: a pair is read before its place is
    written. *)
Lemma hash_in_place_pairs n : forall i j ints,
  (j <= i)%nat -> (i + 2 * n <= length ints)%nat ->
  take (j + n) (hash_in_place n i j ints) = take j ints ++ pairs (take (2 * n) (drop i ints)).
Proof.
  induction n as [|n IH]; intros i j ints Hj Hi.
  - simpl. rewrite Nat.add_0_r. by rewrite app_nil_r.
  - rewrite pairs_step by lia. cbn [hash_in_place].
    replace (j + S n)%nat with (S j + n)%nat by lia.
    rewrite IH by (rewrite ?length_insert; lia).
    rewrite drop_insert_lt by lia.
    rewrite (take_S_r _ _ (hash_pair ints i)) by (apply list_lookup_insert_eq; lia).
    rewrite take_insert_ge by lia. by rewrite <- app_assoc.
Qed.

Lemma tree_hash_loop_merkle k : forall fuel ints,
  (k <= fuel)%nat -> (2 ^ S k <= length ints)%nat ->
  hash_pair (tree_hash_loop fuel (2 ^ S k) ints) 0 = merkle (S k) (take (2 ^ S k) ints).
Proof.
  induction k as [|k IH]; intros fuel ints Hf Hl.
  - change (2 ^ 1)%nat with 2%nat in *. destruct fuel; simpl; destruct ints as [|a [|b ints]]; done || (simpl in Hl; lia).
  - destruct fuel as [|fuel]; [lia|]. cbn [tree_hash_loop].
    assert (2 ^ S (S k) = 2 * 2 ^ S k)%nat as E by (simpl; lia). rewrite E in *.
    pose proof (Nat.pow_nonzero 2 k). assert (2 <= 2 ^ S k)%nat by (simpl; lia).
    destruct (Nat.ltb_spec 2 (2 * 2 ^ S k)); [|lia]. rewrite Nat.div2_double.
    rewrite IH; [|lia|rewrite length_hash_in_place; lia].
    pose proof (hash_in_place_pairs (2 ^ S k) 0 0 ints) as P. change (0 + 2 ^ S k)%nat with (2 ^ S k)%nat in P.
    rewrite P by lia. done.
Qed.

(** ** The branch of the first leaf *)

(** The hash at the top of a branch that starts at [x]. *)
Fixpoint climb (branch : list bytes) (depth : nat) (x : bytes) : bytes :=
  match depth with
  | O => x
  | S depth => climb branch depth (cn_fast_hash (x ++ nth depth branch []))
  end.

Lemma from_branch_climb branch leaf depth : forall a b,
  let buffer := from_branch_loop branch leaf None depth false (a, b) in
  cn_fast_hash (buffer.1 ++ buffer.2) = climb branch depth (cn_fast_hash (a ++ b)).
Proof. induction depth as [|depth IH]; intros a b; simpl; [done|]. apply IH. Qed.

Lemma tree_hash_from_branch_climb branch depth leaf :
  tree_hash_from_branch branch depth leaf None = climb branch depth leaf.
Proof. destruct depth as [|depth]; [done|]. apply from_branch_climb. Qed.

Lemma climb_app branch branch' depth : forall x,
  (depth <= length branch)%nat -> climb (branch ++ branch') depth x = climb branch depth x.
Proof.
  induction depth as [|depth IH]; intros x Hd; simpl; [done|].
  rewrite app_nth1 by lia. apply IH. lia.
Qed.

Lemma tree_branch_loop_climb d : forall ints x,
  (2 ^ d - 1 <= length ints)%nat ->
  let branch := tree_branch_loop d (2 ^ d) ints in
  length branch = d /\ climb branch d x = merkle d (x :: take (2 ^ d - 1) ints).
Proof.
  induction d as [|d IH]; intros ints x Hl; [done|].
  assert (2 ^ S d = 2 * 2 ^ d)%nat as E by (simpl; lia).
  pose proof (Nat.pow_nonzero 2 d). cbn [tree_branch_loop]. rewrite E in *.
  rewrite Nat.div2_double. set (ints' := hash_in_place _ _ _ _).
  destruct (IH ints' (cn_fast_hash (x ++ nth 0 ints []))) as [L C].
  { unfold ints'. rewrite length_hash_in_place. lia. }
  split; [rewrite length_app, L; simpl; lia|]. cbn [climb].
  rewrite app_nth2 by lia. rewrite L, Nat.sub_diag. cbn [nth].
  rewrite climb_app by lia. rewrite C. cbn [merkle]. f_equal.
  destruct ints as [|a ints]; [simpl in Hl; lia|].
  replace (2 * 2 ^ d - 1)%nat with (S (2 * (2 ^ d - 1)))%nat by lia. cbn [take pairs nth].
  f_equal. pose proof (hash_in_place_pairs (2 ^ d - 1) 1 0 (a :: ints)) as P.
  change (0 + (2 ^ d - 1))%nat with (2 ^ d - 1)%nat in P. apply P; [lia|]. simpl in *. lia.
Qed.

(** ** Theorems *)

Lemma log2_nat n : (0 < n)%nat -> Z.log2 (Z.of_nat n) = Z.of_nat (Nat.log2 n).
Proof.
  intros Hn. apply Z.log2_unique; [lia|]. pose proof (Nat.log2_spec n Hn) as [L U].
  change 2 with (Z.of_nat 2). rewrite <- Nat2Z.inj_succ, <- !Nat2Z.inj_pow. lia.
Qed.

Lemma pow2_nat k : Z.to_nat (2 ^ Z.of_nat k) = (2 ^ k)%nat.
Proof. change 2 with (Z.of_nat 2). by rewrite <- Nat2Z.inj_pow, Nat2Z.id. Qed.

Lemma last_level_eq cnt hashes :
  (length hashes <= 2 * cnt)%nat -> (cnt <= length hashes)%nat ->
  take (2 * cnt - length hashes) hashes ++
    hash_level hashes (cnt - (2 * cnt - length hashes)) (2 * cnt - length hashes)
  = last_level cnt hashes.
Proof.
  intros. unfold last_level. rewrite hash_level_pairs by lia. do 2 f_equal.
  apply take_ge. rewrite length_drop. lia.
Qed.

Lemma length_last_level cnt hashes :
  (length hashes <= 2 * cnt)%nat -> (cnt <= length hashes)%nat ->
  length (last_level cnt hashes) = cnt.
Proof.
  intros. unfold last_level. rewrite length_app, length_take.
  rewrite (length_pairs (cnt - (2 * cnt - length hashes))) by (rewrite length_drop; lia). lia.
Qed.

(** A complete level and the one below it give the same root. *)
Lemma last_level_complete k hashes :
  length hashes = (2 ^ S k)%nat ->
  merkle k (last_level (2 ^ k) hashes) = merkle (S k) (last_level (2 ^ S k) hashes).
Proof.
  intros Hl. unfold last_level. rewrite Hl.
  assert (2 ^ S k = 2 * 2 ^ k)%nat as E by (simpl; lia).
  replace (2 * 2 ^ k - 2 ^ S k)%nat with 0%nat by lia.
  replace (2 * 2 ^ S k - 2 ^ S k)%nat with (2 ^ S k)%nat by lia.
  rewrite (take_ge hashes (2 ^ S k)), (drop_ge hashes (2 ^ S k)) by lia.
  cbn [pairs take drop app merkle]. by rewrite app_nil_r.
Qed.

Lemma tree_hash_root hashes :
  hashes <> [] -> is_u64 (Z.of_nat (length hashes)) -> tree_hash hashes = merkle_root hashes.
Proof.
  intros Hne Hu. unfold tree_hash, merkle_root.
  destruct (Nat.eqb_spec (length hashes) 1) as [E1|N1]; [rewrite E1; by destruct hashes as [|a []]|].
  destruct (Nat.eqb_spec (length hashes) 2) as [E2|N2].
  { rewrite E2. by destruct hashes as [|a [|b []]]. }
  destruct hashes as [|h0 hs] eqn:Eh; [done|]. rewrite <- Eh in *. clear Hne.
  assert (3 <= length hashes)%nat as H3 by (rewrite Eh in *; simpl in *; lia).
  assert (tree_cnt (Z.of_nat (length hashes)) = 2 ^ Z.of_nat (Nat.log2 (length hashes - 1))) as ->.
  { rewrite tree_cnt_log2 by (done || lia). f_equal. rewrite <- log2_nat by lia. f_equal. lia. }
  rewrite pow2_nat. set (k := Nat.log2 (length hashes - 1)).
  destruct (Nat.log2_spec (length hashes - 1)) as [L U]; [lia|]. fold k in L, U.
  simpl in U. rewrite last_level_eq by lia.
  assert (1 <= k)%nat as Hk by (apply Nat.log2_le_pow2; simpl; lia).
  destruct k as [|k'] eqn:Ek; [lia|].
  rewrite tree_hash_loop_merkle.
  - rewrite take_ge by (rewrite length_last_level; simpl in *; lia).
    destruct (decide (length hashes = 2 ^ S (S k'))%nat) as [E|N].
    + rewrite E, Nat.log2_pow2 by lia. by apply last_level_complete.
    + assert (Nat.log2 (length hashes) = S k') as ->; [|done].
      apply Nat.log2_unique; [lia|]. simpl in *. lia.
  - assert (S k' < 64)%nat; [|lia]. apply Nat.pow_lt_mono_r_iff with 2%nat; [lia|].
    destruct Hu as [_ Hu]. apply Nat2Z.inj_lt. rewrite !Nat2Z.inj_pow. simpl (Z.of_nat 2).
    apply Z.le_lt_trans with (Z.of_nat (length hashes)); [|done].
    change 2 with (Z.of_nat 2). rewrite <- Nat2Z.inj_pow. lia.
  - rewrite length_last_level; simpl in *; lia.
Qed.

Lemma tree_branch_climb hashes :
  hashes <> [] -> is_u64 (Z.of_nat (length hashes)) ->
  length (tree_branch hashes) = Nat.log2 (length hashes) /\
  climb (tree_branch hashes) (Nat.log2 (length hashes)) (nth 0 hashes []) = merkle_root hashes.
Proof.
  intros Hne Hu. destruct hashes as [|h0 hs] eqn:Eh; [done|]. rewrite <- Eh in *.
  assert (0 < length hashes)%nat as H0 by (rewrite Eh; simpl; lia).
  unfold tree_branch. rewrite branch_cnt_log2 by (done || lia).
  rewrite log2_nat, pow2_nat, Nat2Z.id by lia. set (d := Nat.log2 (length hashes)).
  destruct (Nat.log2_spec (length hashes) H0) as [L U]. fold d in L, U. simpl in U.
  pose proof (last_level_eq (2 ^ d) hashes ltac:(lia) L) as E.
  pose proof (length_last_level (2 ^ d) hashes ltac:(lia) L) as Ll.
  set (start := (2 * 2 ^ d - length hashes)%nat) in *.
  assert (nth 0 hashes [] :: take (start - 1) (drop 1 hashes) ++ hash_level hashes (2 ^ d - start) start
    = last_level (2 ^ d) hashes) as E'.
  { rewrite <- E, Eh. destruct start as [|s] eqn:Es; [lia|].
    cbn [take drop nth app Nat.sub]. by rewrite Nat.sub_0_r. }
  clear E. set (ints := take (start - 1) _ ++ _) in *.
  assert (length ints = 2 ^ d - 1)%nat as Li by (rewrite <- E' in Ll; simpl in Ll; lia).
  destruct (tree_branch_loop_climb d ints (nth 0 hashes [])) as [Lb C]; [lia|].
  split; [done|]. rewrite C, take_ge by lia. rewrite E'. done.
Qed.

(** C39. [tree_hash] computes the root of the Merkle tree over its leaves. *)
Theorem tree_hash_merkle_root hashes :
  hashes <> [] -> is_u64 (Z.of_nat (length hashes)) -> tree_hash hashes = merkle_root hashes.
Proof. apply tree_hash_root. Qed.

(** Merkle proofs are complete: the branch [tree_branch] produces has
    [tree_depth] elements and leads [tree_hash_from_branch] from the first
    leaf to the root [tree_hash] computes. *)
Theorem tree_branch_complete hashes :
  hashes <> [] -> is_u64 (Z.of_nat (length hashes)) ->
  Z.of_nat (length (tree_branch hashes)) = tree_depth (Z.of_nat (length hashes)) /\
  tree_hash_from_branch (tree_branch hashes) (length (tree_branch hashes)) (nth 0 hashes []) None
    = tree_hash hashes.
Proof.
  intros Hne Hu. destruct (tree_branch_climb hashes Hne Hu) as [Hl C].
  assert (0 < length hashes)%nat by (destruct hashes; [done|simpl; lia]).
  rewrite tree_depth_log2, log2_nat by (done || lia). split; [by rewrite Hl|].
  by rewrite tree_hash_from_branch_climb, Hl, C, tree_hash_root.
Qed.
End TreeHash.

(** A small instance: a one-byte checksum and five leaves. *)
Definition toy_hash (b : bytes) : bytes := [le_value b mod 251].
Definition toy_leaves : list bytes := [[1]; [2]; [3]; [4]; [5]].

Lemma tree_hash_merkle_root_witness :
  tree_hash toy_hash toy_leaves = merkle_root toy_hash toy_leaves.
Proof. apply (tree_hash_merkle_root toy_hash toy_leaves); [done|evaluate]. Defined.

Lemma tree_branch_complete_witness :
  Z.of_nat (length (tree_branch toy_hash toy_leaves)) = tree_depth (Z.of_nat (length toy_leaves)) /\
  tree_hash_from_branch toy_hash (tree_branch toy_hash toy_leaves)
    (length (tree_branch toy_hash toy_leaves)) (nth 0 toy_leaves []) None
    = tree_hash toy_hash toy_leaves.
Proof. apply (tree_branch_complete toy_hash toy_leaves); [done|evaluate]. Defined.
