(* ===== verification/Stream.v ===== *)
(** * Byte streams and variable-length integers
      ([src/common/stream_tools.cpp], [memory_input_stream.cpp],
      [vector_output_stream.cpp])

    [MemoryInputStream] is the list of bytes after its position and
    [VectorOutputStream] the list of bytes appended so far. *)

From S2P Require Import Prelude.

Module MemoryInputStream.

Definition endOfStream (stream : bytes) : bool := bool_decide (stream = []).

(** [(bytes copied to the buffer, stream after)]. *)
Definition readSome (size : Z) (stream : bytes) : bytes * bytes :=
  let readSize := Z.to_nat (Z.min size (Z.of_nat (length stream))) in
  (take readSize stream, drop readSize stream).

End MemoryInputStream.

(** [read(IInputStream &, void *, uint64_t)]: the loop over [readSome].  Every
    round but the last empties the stream, so one round more than the bytes
    left is never needed. *)
Fixpoint read_loop (fuel : nat) (size : Z) (stream : bytes) : res (bytes * bytes) :=
  if size <=? 0 then Ok ([], stream)
  else
    match fuel with
    | O => Throw (runtime_error "Failed to read from IInputStream")
    | S fuel =>
        let '(data, stream) := MemoryInputStream.readSome size stream in
        let readSize := Z.of_nat (length data) in
        if readSize =? 0 then Throw (runtime_error "Failed to read from IInputStream")
        else '(data', stream) ← read_loop fuel (size - readSize) stream;
             Ok (data ++ data', stream)
    end.

Definition read (size : Z) : rd bytes := fun stream => read_loop (S (length stream)) size stream.

(** [read<uint8_t>] and the wider little-endian overloads. *)
Definition read_uint (size : nat) : rd Z :=
  bs ← read (Z.of_nat size); mret (le_value bs).

(** [write(IOutputStream &, uintN_t)]. *)
Definition write_uint (size : nat) (value : Z) : bytes := le_bytes size value.

(** [readVarint(IInputStream &, uintW_t &)]; [w] is [sizeof(temp) * 8].  Each
    round of the loop takes one byte of the stream. *)
Fixpoint readVarint_loop (w shift temp : Z) (stream : bytes) : res (Z * bytes) :=
  match stream with
  | [] => Throw (runtime_error "Failed to read from IInputStream")
  | piece :: stream =>
      if (w - 7 <=? shift) && (Z.shiftl 1 (w - shift) <=? piece) then
        Throw (runtime_error "readVarint, value overflow")
      else
        let temp := wrap w (Z.lor temp (u64 (Z.shiftl (Z.land piece 0x7f) shift))) in
        if Z.land piece 0x80 =? 0 then
          if (piece =? 0) && negb (shift =? 0) then
            Throw (runtime_error "readVarint, invalid value representation")
          else Ok (temp, stream)
        else readVarint_loop w (u8 (shift + 7)) temp stream
  end.

Definition readVarint (w : Z) : rd Z := readVarint_loop w 0 0.

(** [writeVarint(IOutputStream &, uint64_t)]: ten rounds are enough for 64
    bits, each round shifts seven bits out. *)
Fixpoint writeVarint_loop (fuel : nat) (value : Z) : bytes :=
  match fuel with
  | O => []
  | S fuel =>
      if 0x80 <=? value then u8 (Z.lor value 0x80) :: writeVarint_loop fuel (Z.shiftr value 7)
      else [u8 value]
  end.

Definition writeVarint (value : Z) : bytes := writeVarint_loop 10 value.

(** ** Reading a block of bytes *)

Lemma read_eq size stream :
  read size stream =
    if size <=? 0 then Ok ([], stream)
    else if size <=? Z.of_nat (length stream)
    then Ok (take (Z.to_nat size) stream, drop (Z.to_nat size) stream)
    else Throw (runtime_error "Failed to read from IInputStream").
Proof.
  unfold read. simpl. destruct (Z.leb_spec size 0); [done|].
  rewrite length_take.
  destruct (Z.leb_spec size (Z.of_nat (length stream))).
  - rewrite Z.min_l by lia. destruct (Z.eqb_spec (Z.of_nat (Z.to_nat size `min` length stream)) 0) as [?|_]; [lia|].
    destruct (length stream) as [|n] eqn:?; [lia|].
    simpl. destruct (Z.leb_spec (size - Z.of_nat (Z.to_nat size `min` S n)) 0); [|lia].
    simpl. by rewrite app_nil_r.
  - rewrite Z.min_r, Nat2Z.id, Nat.min_id by lia.
    rewrite take_ge, drop_ge by lia.
    destruct stream as [|b stream]; [done|]. simpl length. simpl Z.eqb.
    simpl. destruct (Z.leb_spec (size - Z.of_nat (S (length stream))) 0); [simpl in *; lia|].
    rewrite Z.min_r by lia. done.
Qed.

Lemma read_app bs rest : read (Z.of_nat (length bs)) (bs ++ rest) = Ok (bs, rest).
Proof.
  rewrite read_eq. rewrite length_app, Nat2Z.inj_add.
  destruct (Z.leb_spec (Z.of_nat (length bs)) 0).
  - destruct bs; [done|simpl in *; lia].
  - destruct (Z.leb_spec (Z.of_nat (length bs)) (Z.of_nat (length bs) + Z.of_nat (length rest))); [|lia].
    by rewrite Nat2Z.id, take_app_length, drop_app_length.
Qed.

Lemma read_Ok size stream bs rest :
  0 <= size -> read size stream = Ok (bs, rest) ->
  stream = bs ++ rest /\ Z.of_nat (length bs) = size.
Proof.
  intros ?. rewrite read_eq. destruct (Z.leb_spec size 0).
  { intros [= <- <-]. simpl. split; [done|lia]. }
  destruct (Z.leb_spec size (Z.of_nat (length stream))); [|discriminate].
  intros [= <- <-]. rewrite take_drop, length_take. split; [done|lia].
Qed.

(** ** Seven-bit groups *)

Lemma land_7f piece : Z.land piece 0x7f = piece mod 128.
Proof. apply (land_ones_mod piece 7). lia. Qed.

Lemma land_80 piece : is_u8 piece -> (Z.land piece 0x80 =? 0) = (piece <? 128).
Proof.
  intros [??]. change (Z.land piece 0x80) with (Z.land piece ((2 ^ 1 - 1) * 2 ^ 7)).
  rewrite land_field by lia. change (2 ^ 7) with 128. change (2 ^ 1) with 2.
  destruct (Z.ltb_spec piece 128).
  - rewrite (Z.div_small piece 128) by lia. reflexivity.
  - replace (piece / 128) with 1 by (apply Z.div_unique_pos with (piece - 128); mlia). reflexivity.
Qed.

Lemma continuation_byte v : 0 <= v -> u8 (Z.lor v 0x80) = v mod 128 + 128.
Proof.
  intros. pose proof (Z.mod_pos_bound v 128 ltac:(lia)) as Mb.
  unfold wrap. rewrite <- Z.land_ones, Z.land_lor_distr_l, Z.land_ones by lia.
  change (Z.land 128 (Z.ones 8)) with (Z.shiftl 1 7).
  assert (v mod 2 ^ 8 = Z.lor (v mod 128) (Z.shiftl (v / 128 mod 2) 7)) as ->.
  { rewrite lor_add_shiftl by (change (2 ^ 7) with 128; lia).
    change (2 ^ 8) with (128 * 2). rewrite Z.rem_mul_r by lia. change (2 ^ 7) with 128. lia. }
  rewrite <- Z.lor_assoc, <- Z.shiftl_lor.
  assert (Z.lor (v / 128 mod 2) 1 = 1) as ->.
  { pose proof (Z.mod_pos_bound (v / 128) 2 ltac:(lia)).
    assert (v / 128 mod 2 = 0 \/ v / 128 mod 2 = 1) as [-> | ->] by lia; reflexivity. }
  rewrite lor_add_shiftl by (change (2 ^ 7) with 128; lia). reflexivity.
Qed.

(** The accumulator after a group of seven bits. *)
Lemma varint_accumulate w shift temp g :
  0 <= shift -> w <= 64 -> 0 <= g -> 0 <= temp < 2 ^ shift -> temp + g * 2 ^ shift < 2 ^ w ->
  wrap w (Z.lor temp (u64 (Z.shiftl g shift))) = temp + g * 2 ^ shift.
Proof.
  intros Hs Hw Hg Ht Hlt.
  assert (0 <= w) by (destruct (Z.lt_ge_cases w 0); [rewrite (Z.pow_neg_r 2 w) in Hlt by lia; nia|lia]).
  assert (2 ^ w <= 2 ^ 64) by (apply Z.pow_le_mono_r; lia).
  rewrite (wrap_small 64) by (rewrite Z.shiftl_mul_pow2 by lia; split; [nia|lia]).
  rewrite lor_add_shiftl by lia. apply wrap_small. split; [nia|lia].
Qed.

Lemma pow2_split a b : 0 <= a <= b -> 2 ^ b = 2 ^ a * 2 ^ (b - a).
Proof. intros. rewrite <- Z.pow_add_r by lia. f_equal. lia. Qed.

(** A group that keeps the value below [2 ^ w] passes the overflow test. *)
Lemma varint_no_overflow w shift g :
  0 <= shift < w -> 0 <= g -> g * 2 ^ shift < 2 ^ w ->
  (w - 7 <=? shift) && (Z.shiftl 1 (w - shift) <=? g) = false.
Proof.
  intros ?? Hlt. rewrite (pow2_split shift w) in Hlt by lia.
  assert (0 < 2 ^ shift) by (apply Z.pow_pos_nonneg; lia).
  rewrite Z.shiftl_mul_pow2 by lia. apply andb_false_intro2, Z.leb_gt. nia.
Qed.

Lemma writeVarint_loop_small n v :
  0 <= v < 128 -> writeVarint_loop (S n) v = [v].
Proof.
  intros. simpl. destruct (Z.leb_spec 128 v); [lia|]. by rewrite wrap_small by mlia.
Qed.

Lemma writeVarint_loop_big n v :
  128 <= v -> writeVarint_loop (S n) v = v mod 128 + 128 :: writeVarint_loop n (v / 128).
Proof.
  intros. simpl. destruct (Z.leb_spec 128 v); [|lia].
  by rewrite continuation_byte, Z.shiftr_div_pow2 by lia.
Qed.

Lemma pow_7_succ n : 2 ^ (7 * Z.of_nat (S n)) = 128 * 2 ^ (7 * Z.of_nat n).
Proof. replace (7 * Z.of_nat (S n)) with (7 + 7 * Z.of_nat n) by lia. by rewrite Z.pow_add_r by lia. Qed.

Section Varint.
Context (w : Z) (Hw : 8 <= w <= 64).

(** Reading back what was written, from any point of the loop. *)
Lemma readVarint_loop_write n shift temp v rest :
  0 <= shift -> 0 <= v < 2 ^ (7 * Z.of_nat n) -> 0 <= temp < 2 ^ shift ->
  temp + v * 2 ^ shift < 2 ^ w -> (v = 0 -> shift = 0) -> n <> O ->
  readVarint_loop w shift temp (writeVarint_loop n v ++ rest) = Ok (temp + v * 2 ^ shift, rest).
Proof using Hw.
  revert shift temp v. induction n as [|n IH]; [done|].
  intros shift temp v Hs Hv Ht Hlt Hz _.
  assert (0 < 2 ^ shift) as Hp by (apply Z.pow_pos_nonneg; lia).
  assert (shift < w) as Hsw.
  { destruct (Z.eq_dec v 0) as [->|]; [lia|]. apply (Z.pow_lt_mono_r_iff 2); nia. }
  rewrite pow_7_succ in Hv. destruct (Z.lt_ge_cases v 128) as [Hsm|Hbig].
  - rewrite writeVarint_loop_small by lia. simpl.
    rewrite varint_no_overflow by nia.
    rewrite land_80 by mlia. destruct (Z.ltb_spec v 128); [|lia].
    rewrite land_7f, Z.mod_small, varint_accumulate by lia.
    destruct (Z.eqb_spec v 0) as [->|]; simpl; [|done]. rewrite Hz by done. done.
  - rewrite writeVarint_loop_big by lia. simpl app. cbn [readVarint_loop].
    assert (shift < w - 7) as Hs7.
    { apply (Z.pow_lt_mono_r_iff 2); [lia|lia|].
      rewrite (pow2_split 7 w) in Hlt by lia. change (2 ^ 7) with 128 in Hlt. nia. }
    destruct (Z.leb_spec (w - 7) shift); [lia|]. cbn [andb].
    pose proof (Z.div_mod v 128 ltac:(lia)) as Dm.
    pose proof (Z.mod_pos_bound v 128 ltac:(lia)) as Mb.
    rewrite land_80 by mlia. destruct (Z.ltb_spec (v mod 128 + 128) 128); [lia|].
    rewrite land_7f.
    replace ((v mod 128 + 128) mod 128) with (v mod 128)
      by (rewrite <- (Z.mul_1_l 128) at 3; rewrite Z.mod_add, Z.mod_mod; lia).
    assert (1 <= v / 128) by (apply Z.div_le_lower_bound; lia).
    rewrite varint_accumulate by nia. rewrite (wrap_small 8) by mlia.
    assert (2 ^ (shift + 7) = 2 ^ shift * 128) as Es by (rewrite Z.pow_add_r; lia).
    rewrite IH; rewrite ?Es; try lia; try nia.
    + f_equal. f_equal. nia.
    + destruct n; [simpl in *; lia|done].
Qed.

(** Whatever the reader accepts is the canonical encoding of what it returns. *)
Lemma readVarint_loop_canonical stream shift temp x rest :
  is_bytes stream -> 0 <= shift < w -> 0 <= temp < 2 ^ shift ->
  readVarint_loop w shift temp stream = Ok (x, rest) ->
  exists v, x = temp + v * 2 ^ shift /\ x < 2 ^ w /\ 0 <= v /\ (v = 0 -> shift = 0) /\
    forall n, n <> O -> v < 2 ^ (7 * Z.of_nat n) -> stream = writeVarint_loop n v ++ rest.
Proof using Hw.
  revert shift temp. induction stream as [|piece stream IH]; [done|].
  intros shift temp [Hp Hbs]%Forall_cons Hs Ht. cbn [readVarint_loop].
  assert (0 < 2 ^ shift) as Hpow by (apply Z.pow_pos_nonneg; lia).
  destruct ((w - 7 <=? shift) && _) eqn:Hov; [done|].
  rewrite land_80, land_7f by assumption.
  assert (piece < 128 -> piece * 2 ^ shift < 2 ^ w) as Hsmall.
  { intros Hlt. rewrite (pow2_split shift w) by lia.
    apply andb_false_iff in Hov as [Hov%Z.leb_gt|Hov%Z.leb_gt].
    - assert (2 ^ 7 <= 2 ^ (w - shift)) by (apply Z.pow_le_mono_r; lia). mnia.
    - rewrite Z.shiftl_mul_pow2 in Hov by lia. nia. }
  destruct (Z.ltb_spec piece 128) as [Hlt|Hge].
  - destruct ((piece =? 0) && _) eqn:Hcan; [done|]. intros [= <- <-].
    assert (temp + piece * 2 ^ shift < 2 ^ w) as Hfit.
    { specialize (Hsmall Hlt). rewrite (pow2_split shift w) in Hsmall |- * by lia.
      assert (piece < 2 ^ (w - shift)) by nia. nia. }
    rewrite Z.mod_small, varint_accumulate by mlia. exists piece. split_and!; try mlia.
    intros [|n] ??; [done|]. by rewrite writeVarint_loop_small by mlia.
  - assert (shift < w - 7) as Hs7.
    { apply andb_false_iff in Hov as [Hov%Z.leb_gt|Hov%Z.leb_gt]; [lia|].
      rewrite Z.shiftl_mul_pow2 in Hov by lia.
      destruct (Z.lt_ge_cases shift (w - 7)); [done|].
      assert (2 ^ (w - shift) <= 2 ^ 7) by (apply Z.pow_le_mono_r; lia). mlia. }
    assert (2 ^ (shift + 7) = 2 ^ shift * 128) as Es by (rewrite Z.pow_add_r; lia).
    assert (piece mod 128 = piece - 128) as Em.
    { symmetry. apply (Z.mod_unique_pos _ _ 1); mlia. }
    rewrite Em, varint_accumulate; cycle 1; try mlia.
    { assert (2 ^ (shift + 7) <= 2 ^ w) by (apply Z.pow_le_mono_r; lia). mnia. }
    rewrite (wrap_small 8) by mlia. intros H.
    apply IH in H as (v & -> & Hx & Hv & Hz & Hw'); [|assumption|lia|rewrite Es; mnia].
    assert (v <> 0) as Hv0 by (intros ->; specialize (Hz eq_refl); lia).
    exists (piece - 128 + v * 128). rewrite Es in Hx |- *. split_and!; try mnia.
    intros [|n] ? Hn; [done|]. rewrite pow_7_succ in Hn.
    assert ((piece - 128 + v * 128) mod 128 + 128 = piece) as Emod.
    { rewrite Z.mod_add, Z.mod_small by mlia. lia. }
    assert ((piece - 128 + v * 128) / 128 = v) as Ediv.
    { rewrite Z.div_add, Z.div_small by mlia. lia. }
    rewrite writeVarint_loop_big, Emod, Ediv by mlia. simpl. f_equal. apply Hw'; [|mlia].
    destruct n; [simpl in *; mlia|done].
Qed.

Lemma fits_varint_groups v : fits w v -> v < 2 ^ (7 * Z.of_nat 10).
Proof using Hw.
  intros [??]. apply Z.lt_le_trans with (2 ^ w); [lia|].
  apply Z.pow_le_mono_r; lia.
Qed.

Theorem readVarint_writeVarint v rest :
  fits w v -> readVarint w (writeVarint v ++ rest) = Ok (v, rest).
Proof using Hw.
  intros Hv. pose proof (fits_varint_groups v Hv). destruct Hv as [??].
  unfold readVarint, writeVarint. rewrite readVarint_loop_write; try lia.
  f_equal. f_equal. lia.
Qed.

Theorem readVarint_canonical stream v rest :
  is_bytes stream -> readVarint w stream = Ok (v, rest) ->
  fits w v /\ stream = writeVarint v ++ rest.
Proof using Hw.
  intros Hb H. apply readVarint_loop_canonical in H as (v' & -> & ? & ? & _ & Hs);
    [|assumption|lia|lia].
  rewrite Z.pow_0_r in *. replace (0 + v' * 1) with v' in * by lia.
  split; [done|]. apply Hs; [done|]. by apply fits_varint_groups.
Qed.
End Varint.

Lemma writeVarint_bytes v : 0 <= v -> is_bytes (writeVarint v).
Proof.
  unfold writeVarint. generalize 10%nat. intros n. revert v.
  induction n as [|n IH]; intros v Hv; [constructor|].
  simpl. destruct (Z.leb_spec 128 v); constructor; auto with machine.
  apply IH. by apply Z.shiftr_nonneg.
Qed.
