(* ===== verification/Varint.v ===== *)
(** * Variable-length integers over iterators ([src/common/varint.h])

    The second implementation of varints in the sources, used for addresses and
    for block hashing.  It is proved to agree with the stream implementation of
    [Stream.v]. *)

From S2P Require Import Prelude Stream.

(** [write_varint]; ten rounds are enough for 64 bits. *)
Fixpoint write_varint_loop (fuel : nat) (i : Z) : bytes :=
  match fuel with
  | O => []
  | S fuel =>
      if 0x80 <=? i then Z.lor (Z.land (u8 i) 0x7f) 0x80 :: write_varint_loop fuel (Z.shiftr i 7)
      else [u8 i]
  end.

Definition write_varint (i : Z) : bytes := write_varint_loop 10 i.

(** [get_varint_data] collects what [write_varint] produces in a string. *)
Definition get_varint_data (v : Z) : bytes := write_varint v.

(** [read_varint<bits>]: [(result, i)], the result being the number of bytes
    read, also at the end of the input, or a negative code. *)
Fixpoint read_varint_loop (bits shift i read : Z) (input : bytes) : Z * Z :=
  match input with
  | [] => (read, i)
  | byte :: input =>
      let read := read + 1 in
      if (bits <=? shift + 7) && (Z.shiftl 1 (bits - shift) <=? byte) then (-1, i)
      else if (byte =? 0) && negb (shift =? 0) then (-2, i)
      else
        let i := Z.lor i (wrap bits (Z.shiftl (Z.land byte 0x7f) shift)) in
        if Z.land byte 0x80 =? 0 then (read, i)
        else read_varint_loop bits (shift + 7) i read input
  end.

Definition read_varint (bits : Z) (input : bytes) : Z * Z := read_varint_loop bits 0 0 0 input.

(** ** Agreement with the streams *)

Lemma write_varint_loop_eq n : forall v, 0 <= v -> write_varint_loop n v = writeVarint_loop n v.
Proof.
  induction n as [|n IH]; intros v Hv; [done|]. cbn [write_varint_loop].
  destruct (Z.leb_spec 0x80 v) as [H|H].
  - assert (0 <= Z.shiftr v 7) by (rewrite Z.shiftr_div_pow2 by lia; apply Z.div_pos; lia).
    rewrite IH by done. cbn [writeVarint_loop]. rewrite (proj2 (Z.leb_le 0x80 v)) by lia. f_equal.
    rewrite continuation_byte, land_7f by lia. unfold wrap.
    pose proof (Z.mod_pos_bound v 128 ltac:(lia)).
    assert ((v mod 2 ^ 8) mod 128 = v mod 128) as ->.
    { change (2 ^ 8) with (128 * 2). rewrite Z.rem_mul_r by lia.
      rewrite Z.mul_comm, Z.mod_add, Z.mod_mod by lia. done. }
    change (Z.lor (v mod 128) 128) with (Z.lor (v mod 128) (Z.shiftl 1 7)).
    rewrite lor_add_shiftl by (simpl; lia). simpl. lia.
  - cbn [writeVarint_loop]. by rewrite (proj2 (Z.leb_gt 0x80 v)) by lia.
Qed.

Lemma get_varint_data_eq v : 0 <= v -> get_varint_data v = writeVarint v.
Proof. apply write_varint_loop_eq. Qed.

Lemma get_varint_data_length v : (0 < length (get_varint_data v))%nat.
Proof.
  unfold get_varint_data, write_varint. generalize 9%nat. intros n. cbn [write_varint_loop].
  case_match; simpl; lia.
Qed.

Lemma read_varint_loop_eq stream : forall shift temp x rest read,
  is_bytes stream -> 0 <= shift <= 63 -> is_u64 temp ->
  readVarint_loop 64 shift temp stream = Ok (x, rest) ->
  read_varint_loop 64 shift temp read stream
    = (read + Z.of_nat (length stream - length rest), x) /\ (length rest < length stream)%nat.
Proof.
  induction stream as [|p stream IH]; intros shift temp x rest read Hb Hs Ht H;
    cbn [readVarint_loop read_varint_loop] in *; [done|].
  apply Forall_cons in Hb as [Hp Hb].
  replace (64 <=? shift + 7) with (64 - 7 <=? shift) by lia.
  destruct ((64 - 7 <=? shift) && _) eqn:Eo; [done|].
  assert (wrap 64 (Z.lor temp (u64 (Z.shiftl (Z.land p 0x7f) shift)))
    = Z.lor temp (u64 (Z.shiftl (Z.land p 0x7f) shift))) as Ew.
  { apply wrap_small. apply lor_fits; [lia|done|]. apply wrap_fits. lia. }
  rewrite Ew in H. rewrite land_80 in * by done.
  destruct (Z.ltb_spec p 128) as [Hlt|Hge].
  - destruct ((p =? 0) && negb (shift =? 0)); [done|]. injection H as <- <-. cbn [length]. split; [|lia].
    f_equal. lia.
  - destruct (Z.eqb_spec p 0); [lia|]. cbn [andb].
    assert (shift < 57) as Hs7.
    { destruct (Z.leb_spec 57 shift); [|lia]. change (64 - 7) with 57 in Eo.
      rewrite (proj2 (Z.leb_le 57 shift)) in Eo by lia. cbn [andb] in Eo.
      apply Z.leb_gt in Eo. rewrite Z.shiftl_mul_pow2 in Eo by lia.
      assert (2 ^ (64 - shift) <= 2 ^ 7) by (apply Z.pow_le_mono_r; lia).
      change (2 ^ 7) with 128 in *. lia. }
    rewrite (wrap_small 8 (shift + 7)) in H by mlia.
    assert (is_u64 (Z.lor temp (u64 (Z.shiftl (Z.land p 127) shift)))) as Hu
      by (rewrite <- Ew; apply wrap_fits; lia).
    destruct (IH (shift + 7) _ x rest (read + 1) Hb ltac:(lia) Hu H) as [-> Hl].
    cbn [length]. split; [|lia]. f_equal. lia.
Qed.

(** Reading back what was written, in front of any further input. *)
Lemma read_varint_write v rest :
  is_u64 v -> is_bytes rest ->
  read_varint 64 (get_varint_data v ++ rest) = (Z.of_nat (length (get_varint_data v)), v).
Proof.
  intros Hv Hr. rewrite get_varint_data_eq by apply Hv.
  destruct (read_varint_loop_eq (writeVarint v ++ rest) 0 0 v rest 0) as [E _].
  - apply Forall_app. split; [apply writeVarint_bytes, Hv|done].
  - lia.
  - mlia.
  - by apply (readVarint_writeVarint 64).
  - unfold read_varint. rewrite E, length_app. f_equal. lia.
Qed.
