(* ===== verification/Serializer.v ===== *)
(** * Binary serializers
      ([src/serialization/binary_output_stream_serializer.cpp],
      [binary_input_stream_serializer.cpp], [serialization_overloads.h])

    The source has one [serialize] function per type, run against an
    [ISerializer] that either writes or reads.  Here it is a [codec]: [put] is
    the function under [BinaryOutputStreamSerializer], [get] the same function
    under [BinaryInputStreamSerializer].  [CodecOk] is what the rest of the
    system relies on: what was written is read back, and only what would have
    been written is accepted. *)

From S2P Require Import Prelude Config Stream.

Record codec (A : Type) := Codec { put : A -> res bytes; get : rd A }.
Arguments Codec {A}.
Arguments put {A}.
Arguments get {A}.

(** One write after another on the same stream. *)
Definition then_put (p q : res bytes) : res bytes := x ← p; y ← q; mret (x ++ y).

Declare Scope codec_scope.
Delimit Scope codec_scope with codec.
Open Scope codec_scope.
Notation "p +++ q" := (then_put p q) (at level 60, right associativity) : codec_scope.

(** [emits p g a]: the write [p] succeeds and the read [g] returns [a] on what
    was written, leaving the rest of the stream. *)
Definition emits {A} (p : res bytes) (g : rd A) (a : A) : Prop :=
  exists bs, p = Ok bs /\ is_bytes bs /\ forall rest, g (bs ++ rest) = Ok (a, rest).

(** The contract of a codec over the values that satisfy [valid]. *)
Class CodecOk {A} (c : codec A) (valid : A -> Prop) : Prop := {
  get_put a : valid a -> emits (put c a) (get c) a;
  put_get stream a rest :
    is_bytes stream -> get c stream = Ok (a, rest) ->
    valid a /\ exists bs, put c a = Ok bs /\ stream = bs ++ rest
}.

(** Half of the contract, for the types whose reader accepts more than the
    writer produces. *)
Class RoundTrip {A} (c : codec A) (valid : A -> Prop) : Prop :=
  round_trip a : valid a -> emits (put c a) (get c) a.

(** The reader only returns valid values. *)
Class Sound {A} (c : codec A) (valid : A -> Prop) : Prop :=
  get_valid stream a rest :
    is_bytes stream -> get c stream = Ok (a, rest) -> valid a /\ is_bytes rest.

#[global] Instance codec_round_trip {A} (c : codec A) valid : CodecOk c valid -> RoundTrip c valid.
Proof. intros ? a. apply get_put. Qed.

#[global] Instance codec_sound {A} (c : codec A) valid : CodecOk c valid -> Sound c valid.
Proof.
  intros ? stream a rest Hb H. apply put_get in H as (? & bs & ? & ->); [|done].
  apply is_bytes_app_inv in Hb as [??]. done.
Qed.

(** ** Primitive values *)

(** [operator()(uintW_t &)]: a variable-length integer. *)
Definition varint (w : Z) : codec Z :=
  {| put := fun v : Z => Ok (writeVarint v); get := readVarint w |}.

(** [operator()(bool &)]: one byte. *)
Definition boolean : codec bool :=
  {| put := fun v : bool => Ok [if v then 1 else 0];
     get := b ← read_uint 1; mret (negb (b =? 0)) |}.

(** [binary(void *, size)] and [serializePod]: the bytes as they are. *)
Definition pod (size : nat) : codec bytes :=
  {| put := fun v : bytes => Ok v; get := read (Z.of_nat size) |}.

(** [binary(&value, sizeof(value))] for an unsigned integer of [size] bytes. *)
Definition pod_uint (size : nat) : codec Z :=
  {| put := fun v : Z => Ok (write_uint size v); get := read_uint size |}.

(** [operator()(std::string &, name)].  Reading under the name ["mm_tag"] drops
    a field longer than [MAX_EXTRA_SIZE]. *)
Definition blob (mm_tag : bool) : codec bytes :=
  {| put := fun v : bytes => Ok (writeVarint (Z.of_nat (length v)) ++ v);
     get := size ← readVarint 64;
            if (MAX_EXTRA_SIZE <? size) && mm_tag then
              _ ← read size; mret []
            else if 0 <? size then read size
            else mret [] |}.

(** ** Containers *)

Fixpoint put_items {A} (c : codec A) (l : list A) : res bytes :=
  match l with
  | [] => Ok []
  | a :: l => put c a +++ put_items c l
  end.

Fixpoint get_items {A} (c : codec A) (n : nat) : rd (list A) :=
  match n with
  | O => mret []
  | S n => a ← get c; l ← get_items c n; mret (a :: l)
  end.

(** [serializeContainer]: the size as [beginArray] writes it, then the items. *)
Definition vector {A} (c : codec A) : codec (list A) :=
  {| put := fun l : list A => put (varint 64) (Z.of_nat (length l)) +++ put_items c l;
     get := size ← get (varint 64); get_items c (Z.to_nat size) |}.

(** ** Composition *)

Lemma emits_bind {A B} p q (g : rd A) (h : A -> rd B) a b :
  emits p g a -> emits q (h a) b -> emits (p +++ q) (g ≫= h) b.
Proof.
  intros (x & -> & Hx & Gx) (y & -> & Hy & Gy). exists (x ++ y). split; [done|].
  split; [by apply Forall_app|].
  intros rest. rewrite <- app_assoc. by rewrite (rd_bind_step _ _ _ _ _ (Gx _)).
Qed.

Lemma emits_ret {A} (a : A) : emits (Ok []) (mret a) a.
Proof. exists []. repeat split; auto. Qed.

Lemma emits_last {A B} p (g : rd A) (f : A -> rd B) a b :
  emits p g a -> (forall rest, f a rest = Ok (b, rest)) -> emits p (g ≫= f) b.
Proof.
  intros (x & -> & Hx & Gx) Hf. exists x. split; [done|]. split; [done|].
  intros rest. by rewrite (rd_bind_step _ _ _ _ _ (Gx _)).
Qed.

Lemma then_put_Ok p q bs :
  p +++ q = Ok bs <-> exists x y, p = Ok x /\ q = Ok y /\ bs = x ++ y.
Proof.
  unfold then_put. destruct p, q; simpl; split;
    try (by intros (? & ? & ? & ? & ?)); try done.
  - intros [= <-]. eauto.
  - intros (? & ? & [= <-] & [= <-] & ->). done.
Qed.

(** Move the reads of the context to the writes they accept. *)
Ltac codec_invert :=
  repeat match goal with
  | Hb : is_bytes ?s, H : get ?c ?s = Ok (_, _) |- _ =>
      let V := fresh "V" in let bs := fresh "bs" in let P := fresh "P" in
      apply (put_get (c := c)) in H as (V & bs & P & ->); [|exact Hb];
      apply is_bytes_app_inv in Hb as [? Hb]
  end.

Lemma then_put_intro p q x y : p = Ok x -> q = Ok y -> p +++ q = Ok (x ++ y).
Proof. intros -> ->. reflexivity. Qed.

(** The writes of the goal succeed and give the stream that was read. *)
Ltac codec_written :=
  eexists; split;
  [ repeat (simple eapply then_put_intro); first [eassumption | reflexivity]
  | by rewrite ?app_nil_r, <- ?app_assoc ].

(** Run the reads of the goal on what the writes produce, in order. *)
Ltac emits_step :=
  first [ eapply emits_last; [apply round_trip; eassumption|reflexivity]
        | eapply emits_bind; [apply round_trip; eassumption|cbn beta] ].

(** The values the reads of the context return are valid. *)
Ltac sound_invert :=
  repeat match goal with
  | Hb : is_bytes ?s, H : get ?c ?s = Ok (_, _) |- _ =>
      let V := fresh "V" in let B := fresh "B" in
      apply (get_valid (c := c)) in H as [V B]; [|exact Hb]; clear Hb
  end.

(** ** The primitive codecs meet the contract *)

#[global] Instance varint_ok w : 8 <= w <= 64 -> CodecOk (varint w) (fits w).
Proof.
  intros Hw. split.
  - intros a Ha. exists (writeVarint a). split; [done|].
    split; [apply writeVarint_bytes, Ha|]. intros. by apply readVarint_writeVarint.
  - intros stream a rest Hb H. apply readVarint_canonical in H as [??]; eauto.
Qed.

#[global] Instance varint8_ok : CodecOk (varint 8) is_u8.
Proof. apply varint_ok. lia. Qed.
#[global] Instance varint16_ok : CodecOk (varint 16) is_u16.
Proof. apply varint_ok. lia. Qed.
#[global] Instance varint32_ok : CodecOk (varint 32) is_u32.
Proof. apply varint_ok. lia. Qed.
#[global] Instance varint64_ok : CodecOk (varint 64) is_u64.
Proof. apply varint_ok. lia. Qed.

(** The value of a fixed-size plain struct: [size] bytes. *)
Definition is_pod (size : nat) (v : bytes) : Prop := length v = size /\ is_bytes v.

#[global] Instance is_pod_dec size v : Decision (is_pod size v) := and_dec _ _.

#[global] Instance pod_ok size : CodecOk (pod size) (is_pod size).
Proof.
  split.
  - intros v [<- Hv]. exists v. split; [done|]. split; [done|]. apply read_app.
  - intros stream v rest Hb H. apply read_Ok in H as [-> Hl]; [|lia].
    apply is_bytes_app_inv in Hb as [??]. split; [split; [lia|done]|]. exists v. done.
Qed.

Definition uint_pod (size : nat) (v : Z) : Prop := fits (8 * Z.of_nat size) v.

#[global] Instance pod_uint_ok size : CodecOk (pod_uint size) (uint_pod size).
Proof.
  split.
  - intros v Hv. exists (le_bytes size v). split; [done|]. split; [apply le_bytes_bytes|].
    intros rest. simpl. unfold read_uint.
    pose proof (read_app (le_bytes size v) rest) as R. rewrite length_le_bytes in R.
    rewrite (rd_bind_step _ _ _ _ _ R). unfold mret, rd_ret.
    rewrite le_value_bytes. do 2 f_equal. by apply wrap_small.
  - intros stream v rest Hb H. simpl in H. unfold read_uint in H. rd_inv.
    match goal with R : read _ _ = Ok _ |- _ => apply read_Ok in R as [-> Hl]; [|lia] end.
    apply is_bytes_app_inv in Hb as [Hx ?]. apply Nat2Z.inj in Hl as <-.
    split; [by apply le_value_fits|].
    eexists. split; [reflexivity|]. unfold write_uint. by rewrite le_bytes_value.
Qed.

Definition is_blob (v : bytes) : Prop := is_u64 (Z.of_nat (length v)) /\ is_bytes v.

#[global] Instance is_blob_dec v : Decision (is_blob v) := and_dec _ _.

Lemma blob_get_small size stream :
  0 <= size -> get (blob false) (writeVarint size ++ stream) =
    if bool_decide (is_u64 size) then (if 0 <? size then read size else mret []) stream
    else get (blob false) (writeVarint size ++ stream).
Proof.
  intros. case_bool_decide as Hs; [|done].
  simpl. rewrite (rd_bind_step _ _ _ _ _ (readVarint_writeVarint 64 ltac:(lia) _ _ Hs)).
  by rewrite andb_false_r.
Qed.

#[global] Instance blob_ok : CodecOk (blob false) is_blob.
Proof.
  split.
  - intros v [Hl Hv]. exists (writeVarint (Z.of_nat (length v)) ++ v). split; [done|].
    split; [apply Forall_app; split; [apply writeVarint_bytes; lia|done]|].
    intros rest. rewrite <- app_assoc, blob_get_small by lia.
    rewrite bool_decide_true by done. destruct (Z.ltb_spec 0 (Z.of_nat (length v))).
    + apply read_app.
    + destruct v; [done|simpl in *; lia].
  - intros stream v rest Hb H. simpl in H. rd_inv.
    + rewrite andb_false_r in *. done.
    + match goal with R : readVarint _ _ = Ok _ |- _ =>
        apply readVarint_canonical in R as [Hs ->]; [|lia|done] end.
      apply is_bytes_app_inv in Hb as [? Hb]. apply read_Ok in H as [-> Hl]; [|apply Hs].
      apply is_bytes_app_inv in Hb as [??]. unfold is_blob. simpl. rewrite Hl.
      split; [done|]. eexists. split; [reflexivity|]. by rewrite app_assoc.
    + match goal with R : readVarint _ _ = Ok _ |- _ =>
        apply readVarint_canonical in R as [Hs ->]; [|lia|done] end.
      match type of Hs with fits _ ?n => assert (n = 0) as -> by (destruct Hs; lia) end.
      split; [split; [done|constructor]|]. eexists. split; reflexivity.
Qed.

(** ** Vectors *)

Section Vector.
Context {A : Type} (c : codec A) (valid : A -> Prop) `{!CodecOk c valid}.

Lemma emits_items l : Forall valid l -> emits (put_items c l) (get_items c (length l)) l.
Proof using Type*.
  induction 1 as [|a l Ha ? IH]; [apply emits_ret|]. simpl.
  eapply emits_bind; [by apply get_put|]. simpl.
  eapply emits_last; [exact IH|]. done.
Qed.

Lemma items_canonical n stream l rest :
  is_bytes stream -> get_items c n stream = Ok (l, rest) ->
  length l = n /\ Forall valid l /\
  exists bs, put_items c l = Ok bs /\ stream = bs ++ rest.
Proof using Type*.
  revert stream l. induction n as [|n IH]; intros stream l Hb H; simpl in H.
  - injection H as <- <-. split; [done|]. split; [constructor|]. by exists [].
  - rd_inv. codec_invert.
    match goal with I : get_items _ _ _ = Ok _ |- _ =>
      apply IH in I as (<- & HF & y & Py & ->); [|done] end.
    split; [done|]. split; [by constructor|]. cbn [put_items]. codec_written.
Qed.

Definition is_vector (l : list A) : Prop := is_u64 (Z.of_nat (length l)) /\ Forall valid l.

#[global] Instance is_vector_dec `{!forall a, Decision (valid a)} l : Decision (is_vector l) :=
  and_dec _ _.

#[global] Instance vector_ok : CodecOk (vector c) is_vector.
Proof using Type*.
  split.
  - intros l [Hl Hv]. cbn [put get vector].
    eapply emits_bind; [apply get_put, Hl|]. rewrite Nat2Z.id. by apply emits_items.
  - intros stream l rest Hb H. cbn [get vector] in H. rd_inv. codec_invert.
    apply items_canonical in H as (Hl & HF & y & Py & ->); [|done].
    match goal with V : is_u64 ?x |- _ => assert (x = Z.of_nat (length l)) as ->
      by (destruct V; lia) end.
    split; [done|]. cbn [put vector]. codec_written.
Qed.
End Vector.
