(* ===== verification/Transaction.v ===== *)
(** * Transactions and their binary form
      ([include/mevacoin.h], [src/mevacoin_core/mevacoin_serialization.cpp])

    The records have the fields of the C++ structs; a base class is a field
    with a coercion.  Keys, key images, hashes and signatures are the bytes of
    the corresponding plain structs. *)

From S2P Require Import Prelude Config StringTools Stream Serializer.

(** ** Data *)

Abbreviation Hash := bytes.
Abbreviation PublicKey := bytes.
Abbreviation SecretKey := bytes.
Abbreviation KeyImage := bytes.
Abbreviation Signature := bytes.

Record BaseInput := { blockIndex : Z }.
Record KeyInput := { ki_amount : Z; outputIndexes : list Z; keyImage : KeyImage }.
Record KeyOutput := { key : PublicKey }.

(** [boost::variant<BaseInput, KeyInput>] *)
Inductive TransactionInput :=
| InBase (i : BaseInput)
| InKey (i : KeyInput).

(** [boost::variant<KeyOutput>] *)
Inductive TransactionOutputTarget :=
| OutKey (o : KeyOutput).

Record TransactionOutput := { to_amount : Z; target : TransactionOutputTarget }.

Record TransactionPrefix := {
  version : Z;
  unlockTime : Z;
  inputs : list TransactionInput;
  outputs : list TransactionOutput;
  extra : bytes
}.

Record Transaction := {
  tx_prefix :> TransactionPrefix;
  signatures : list (list Signature)
}.

Record BaseTransaction := { bt_prefix :> TransactionPrefix }.

Record AccountPublicAddress := { spendPublicKey : PublicKey; viewPublicKey : PublicKey }.
Record AccountKeys := {
  address : AccountPublicAddress;
  spendSecretKey : SecretKey;
  viewSecretKey : SecretKey
}.
Record KeyPair := { publicKey : PublicKey; secretKey : SecretKey }.

#[global] Instance BaseInput_eq_dec : EqDecision BaseInput.
Proof. solve_decision. Defined.
#[global] Instance KeyInput_eq_dec : EqDecision KeyInput.
Proof. solve_decision. Defined.
#[global] Instance KeyOutput_eq_dec : EqDecision KeyOutput.
Proof. solve_decision. Defined.
#[global] Instance TransactionInput_eq_dec : EqDecision TransactionInput.
Proof. solve_decision. Defined.
#[global] Instance TransactionOutputTarget_eq_dec : EqDecision TransactionOutputTarget.
Proof. solve_decision. Defined.
#[global] Instance TransactionOutput_eq_dec : EqDecision TransactionOutput.
Proof. solve_decision. Defined.
#[global] Instance TransactionPrefix_eq_dec : EqDecision TransactionPrefix.
Proof. solve_decision. Defined.
#[global] Instance Transaction_eq_dec : EqDecision Transaction.
Proof. solve_decision. Defined.
#[global] Instance BaseTransaction_eq_dec : EqDecision BaseTransaction.
Proof. solve_decision. Defined.

(** ** Serialization *)

(** [serialize(PublicKey &)], [serialize(Hash &)], [serialize(KeyImage &)]:
    [serializePod] of a 32-byte struct; signatures have 64 bytes. *)
Definition serialize_hash : codec Hash := pod 32.
Definition serialize_signature : codec Signature := pod 64.

Definition getSignaturesCount (input : TransactionInput) : Z :=
  match input with
  | InBase _ => 0
  | InKey txin => Z.of_nat (length (outputIndexes txin))
  end.

Definition BinaryVariantTagGetter (input : TransactionInput) : Z :=
  match input with InBase _ => 0xff | InKey _ => 0x2 end.

Definition serializeVarintVector : codec (list Z) := vector (varint 32).

Definition serialize_BaseInput : codec BaseInput :=
  {| put := fun gen : BaseInput => put (varint 32) (blockIndex gen);
     get := height ← get (varint 32); mret {| blockIndex := height |} |}.

Definition serialize_KeyInput : codec KeyInput :=
  {| put := fun key : KeyInput =>
       put (varint 64) (ki_amount key) +++ put serializeVarintVector (outputIndexes key)
       +++ put serialize_hash (keyImage key);
     get := amount ← get (varint 64);
            key_offsets ← get serializeVarintVector;
            k_image ← get serialize_hash;
            mret {| ki_amount := amount; outputIndexes := key_offsets; keyImage := k_image |} |}.

Definition getVariantValue_input (tag : Z) : rd TransactionInput :=
  if tag =? 0xff then v ← get serialize_BaseInput; mret (InBase v)
  else if tag =? 0x2 then v ← get serialize_KeyInput; mret (InKey v)
  else rd_throw (runtime_error "Unknown variant tag").

Definition serialize_TransactionInput : codec TransactionInput :=
  {| put := fun input : TransactionInput =>
       put (pod_uint 1) (BinaryVariantTagGetter input) +++
       match input with
       | InBase v => put serialize_BaseInput v
       | InKey v => put serialize_KeyInput v
       end;
     get := tag ← get (pod_uint 1); getVariantValue_input tag |}.

Definition serialize_KeyOutput : codec KeyOutput :=
  {| put := fun k : KeyOutput => put serialize_hash (key k);
     get := k ← get serialize_hash; mret {| key := k |} |}.

Definition getVariantValue_output (tag : Z) : rd TransactionOutputTarget :=
  if tag =? 0x2 then v ← get serialize_KeyOutput; mret (OutKey v)
  else rd_throw (runtime_error "Unknown variant tag").

Definition serialize_TransactionOutputTarget : codec TransactionOutputTarget :=
  {| put := fun output : TransactionOutputTarget =>
       match output with OutKey v => put (pod_uint 1) 0x2 +++ put serialize_KeyOutput v end;
     get := tag ← get (pod_uint 1); getVariantValue_output tag |}.

Definition serialize_TransactionOutput : codec TransactionOutput :=
  {| put := fun output : TransactionOutput =>
       put (varint 64) (to_amount output)
       +++ put serialize_TransactionOutputTarget (target output);
     get := amount ← get (varint 64);
            target ← get serialize_TransactionOutputTarget;
            mret {| to_amount := amount; target := target |} |}.

(** What follows the version in [serialize(TransactionPrefix &)] and in
    [serialize(BaseTransaction &)]. *)
Definition put_prefix_body (txP : TransactionPrefix) : res bytes :=
  put (varint 64) (unlockTime txP) +++ put (vector serialize_TransactionInput) (inputs txP)
  +++ put (vector serialize_TransactionOutput) (outputs txP) +++ put (blob false) (extra txP).

Definition get_prefix_body (version : Z) : rd TransactionPrefix :=
  unlock_time ← get (varint 64);
  vin ← get (vector serialize_TransactionInput);
  vout ← get (vector serialize_TransactionOutput);
  extra ← get (blob false);
  mret {| version := version; unlockTime := unlock_time; inputs := vin; outputs := vout;
          extra := extra |}.

Definition serialize_TransactionPrefix : codec TransactionPrefix :=
  {| put := fun txP : TransactionPrefix => put (varint 8) (version txP) +++ put_prefix_body txP;
     get := version ← get (varint 8);
            if CURRENT_TRANSACTION_VERSION <? version
            then rd_throw (runtime_error "Wrong transaction version")
            else get_prefix_body version |}.

(** From version 2 on an integer follows, which the reader drops. *)
Definition serialize_BaseTransaction : codec BaseTransaction :=
  {| put := fun tx : BaseTransaction =>
       put (varint 8) (version tx) +++ put_prefix_body tx +++
       (if TRANSACTION_VERSION_2 <=? version tx then put (varint 64) 0 else Ok []);
     get := v ← get (varint 8);
            tx ← get_prefix_body v;
            if TRANSACTION_VERSION_2 <=? version tx
            then ignored ← get (varint 64); mret {| bt_prefix := tx |}
            else mret {| bt_prefix := tx |} |}.

(** [sigSize == 1 && tx.inputs[0].type() == typeid(BaseInput)] *)
Definition is_base_inputs (inputs : list TransactionInput) : bool :=
  match inputs with [InBase _] => true | _ => false end.

(** The loop over the inputs when [signaturesNotExpected]. *)
Fixpoint no_signatures (inputs : list TransactionInput) : res bytes :=
  match inputs with
  | [] => Ok []
  | i :: inputs =>
      if getSignaturesCount i =? 0 then no_signatures inputs
      else Throw (runtime_error "Serialization error: signatures are not expected")
  end.

(** The loop when they are expected; [sigs] runs in step with [inputs]. *)
Fixpoint put_signatures (inputs : list TransactionInput) (sigs : list (list Signature))
  : res bytes :=
  match inputs, sigs with
  | i :: inputs, s :: sigs =>
      if negb (getSignaturesCount i =? Z.of_nat (length s))
      then Throw (runtime_error "Serialization error: unexpected signatures size")
      else put_items serialize_signature s +++ put_signatures inputs sigs
  | _, _ => Ok []
  end.

Fixpoint get_signatures (inputs : list TransactionInput) : rd (list (list Signature)) :=
  match inputs with
  | [] => mret []
  | i :: inputs =>
      s ← get_items serialize_signature (Z.to_nat (getSignaturesCount i));
      sigs ← get_signatures inputs;
      mret (s :: sigs)
  end.

Definition serialize_Transaction : codec Transaction :=
  {| put := fun tx : Transaction =>
       put serialize_TransactionPrefix tx +++
       (if decide (signatures tx = []) then no_signatures (inputs tx)
        else if negb (length (inputs tx) =? length (signatures tx))%nat
        then Throw (runtime_error "Serialization error: unexpected signatures size")
        else put_signatures (inputs tx) (signatures tx));
     get := p ← get serialize_TransactionPrefix;
            let resized : list (list Signature) :=
              if is_base_inputs (inputs p) then [] else replicate (length (inputs p)) [] in
            if decide (resized = []) then
              _ ← rd_lift (no_signatures (inputs p));
              mret {| tx_prefix := p; signatures := [] |}
            else sigs ← get_signatures (inputs p);
                 mret {| tx_prefix := p; signatures := sigs |} |}.

Definition serialize_AccountPublicAddress : codec AccountPublicAddress :=
  {| put := fun a : AccountPublicAddress =>
       put serialize_hash (spendPublicKey a) +++ put serialize_hash (viewPublicKey a);
     get := s ← get serialize_hash; v ← get serialize_hash;
            mret {| spendPublicKey := s; viewPublicKey := v |} |}.

Definition serialize_AccountKeys : codec AccountKeys :=
  {| put := fun k : AccountKeys =>
       put serialize_AccountPublicAddress (address k)
       +++ put serialize_hash (spendSecretKey k) +++ put serialize_hash (viewSecretKey k);
     get := a ← get serialize_AccountPublicAddress;
            s ← get serialize_hash; v ← get serialize_hash;
            mret {| address := a; spendSecretKey := s; viewSecretKey := v |} |}.

Definition serialize_KeyPair : codec KeyPair :=
  {| put := fun k : KeyPair =>
       put serialize_hash (secretKey k) +++ put serialize_hash (publicKey k);
     get := s ← get serialize_hash; p ← get serialize_hash;
            mret {| publicKey := p; secretKey := s |} |}.

(** ** Binary arrays ([src/mevacoin_core/mevacoin_tools.h])

    [toBinaryArray] and [fromBinaryArray] report an exception as [false]; the
    latter also fails when input is left over. *)

Definition toBinaryArray {A} (c : codec A) (object : A) : option bytes := caught (put c object).

Definition fromBinaryArray {A} (c : codec A) (binaryArray : bytes) : option A :=
  match get c binaryArray with
  | Ok (object, rest) => if MemoryInputStream.endOfStream rest then Some object else None
  | Throw _ => None
  end.

(** ** Well-formed values *)

Definition is_key : bytes -> Prop := is_pod 32.

Definition is_BaseInput (i : BaseInput) : Prop := is_u32 (blockIndex i).

Record is_KeyInput (i : KeyInput) : Prop := {
  wf_ki_amount : is_u64 (ki_amount i);
  wf_ki_indexes : is_vector is_u32 (outputIndexes i);
  wf_ki_image : is_key (keyImage i)
}.

Definition is_TransactionInput (i : TransactionInput) : Prop :=
  match i with InBase i => is_BaseInput i | InKey i => is_KeyInput i end.

Definition is_TransactionOutputTarget (t : TransactionOutputTarget) : Prop :=
  match t with OutKey o => is_key (key o) end.

Record is_TransactionOutput (o : TransactionOutput) : Prop := {
  wf_to_amount : is_u64 (to_amount o);
  wf_to_target : is_TransactionOutputTarget (target o)
}.

Record is_prefix_body (p : TransactionPrefix) : Prop := {
  wf_unlock : is_u64 (unlockTime p);
  wf_inputs : is_vector is_TransactionInput (inputs p);
  wf_outputs : is_vector is_TransactionOutput (outputs p);
  wf_extra : is_blob (extra p)
}.

Record is_TransactionPrefix (p : TransactionPrefix) : Prop := {
  wf_version : 0 <= version p <= CURRENT_TRANSACTION_VERSION;
  wf_prefix : is_prefix_body p
}.

(** A transaction carries one signature per referenced output, except the
    coinbase and the transaction without inputs, which carry none. *)
Definition signatures_match (inputs : list TransactionInput) (sigs : list (list Signature)) : Prop :=
  if is_base_inputs inputs then sigs = []
  else Forall2 (fun i s => getSignaturesCount i = Z.of_nat (length s) /\ Forall (is_pod 64) s)
         inputs sigs.

Record is_Transaction (tx : Transaction) : Prop := {
  wf_tx_prefix : is_TransactionPrefix tx;
  wf_signatures : signatures_match (inputs tx) (signatures tx)
}.

Record is_BaseTransaction (tx : BaseTransaction) : Prop := {
  wf_bt_version : is_u8 (version tx);
  wf_bt_prefix : is_prefix_body tx
}.

Record is_AccountPublicAddress (a : AccountPublicAddress) : Prop := {
  wf_spend : is_key (spendPublicKey a);
  wf_view : is_key (viewPublicKey a)
}.

(** Well-formedness is decidable, so that a concrete value is checked by
    evaluation. *)
#[global] Instance is_key_dec v : Decision (is_key v) := is_pod_dec 32 v.

#[global] Instance is_KeyInput_dec i : Decision (is_KeyInput i).
Proof.
  refine (decide_iff (P := is_u64 (ki_amount i) /\ is_vector is_u32 (outputIndexes i) /\
    is_key (keyImage i)) _ _).
  split; [by intros (? & ? & ?)|by intros []].
Defined.

#[global] Instance is_TransactionInput_dec i : Decision (is_TransactionInput i).
Proof. destruct i; simpl; unfold is_BaseInput; apply _. Defined.

#[global] Instance is_TransactionOutput_dec o : Decision (is_TransactionOutput o).
Proof.
  refine (decide_iff (P := is_u64 (to_amount o) /\ match target o with OutKey o => is_key (key o) end) _ _).
  - destruct (target o). apply _.
  - split; [by intros []|by intros []].
Defined.

#[global] Instance is_prefix_body_dec p : Decision (is_prefix_body p).
Proof.
  refine (decide_iff (P := is_u64 (unlockTime p) /\ is_vector is_TransactionInput (inputs p) /\
    is_vector is_TransactionOutput (outputs p) /\ is_blob (extra p)) _ _).
  split; [by intros (? & ? & ? & ?)|by intros []].
Defined.

#[global] Instance is_TransactionPrefix_dec p : Decision (is_TransactionPrefix p).
Proof.
  refine (decide_iff (P := 0 <= version p <= CURRENT_TRANSACTION_VERSION /\ is_prefix_body p) _ _).
  split; [by intros []|by intros []].
Defined.

#[global] Instance signatures_match_dec ins sigs : Decision (signatures_match ins sigs).
Proof. unfold signatures_match. destruct (is_base_inputs ins); apply _. Defined.

#[global] Instance is_Transaction_dec tx : Decision (is_Transaction tx).
Proof.
  refine (decide_iff (P := is_TransactionPrefix tx /\
    signatures_match (inputs tx) (signatures tx)) _ _).
  split; [by intros []|by intros []].
Defined.

#[global] Instance is_BaseTransaction_dec tx : Decision (is_BaseTransaction tx).
Proof.
  refine (decide_iff (P := is_u8 (version tx) /\ is_prefix_body tx) _ _).
  split; [by intros []|by intros []].
Defined.

(** ** The codecs meet their contracts *)

#[global] Instance serialize_hash_ok : CodecOk serialize_hash is_key := pod_ok 32.
#[global] Instance serialize_signature_ok : CodecOk serialize_signature (is_pod 64) := pod_ok 64.
#[global] Instance serializeVarintVector_ok : CodecOk serializeVarintVector (is_vector is_u32) :=
  vector_ok _ _.

#[global] Instance BaseInput_ok : CodecOk serialize_BaseInput is_BaseInput.
Proof.
  split.
  - intros [h] H. cbn [put get serialize_BaseInput]. emits_step.
  - intros stream v rest Hb H. cbn [get serialize_BaseInput] in H. rd_inv. codec_invert. split; [done|].
    cbn [put serialize_BaseInput]. codec_written.
Qed.

#[global] Instance KeyInput_ok : CodecOk serialize_KeyInput is_KeyInput.
Proof.
  split.
  - intros [a o k] [???]. cbn [put get serialize_KeyInput]. do 3 emits_step.
  - intros stream v rest Hb H. cbn [get serialize_KeyInput] in H. rd_inv. codec_invert.
    split; [by split|]. cbn [put serialize_KeyInput]. codec_written.
Qed.

#[global] Instance TransactionInput_ok : CodecOk serialize_TransactionInput is_TransactionInput.
Proof.
  split.
  - intros [i|i] H; cbn [put get serialize_TransactionInput];
      (eapply emits_bind; [by apply round_trip|]);
      unfold getVariantValue_input; cbn [BinaryVariantTagGetter Z.eqb Pos.eqb]; emits_step.
  - intros stream i rest Hb H. cbn [get serialize_TransactionInput] in H. rd_inv. codec_invert.
    unfold getVariantValue_input in H. rd_inv; codec_invert; split; try done.
    all: match goal with E : (_ =? _) = true |- _ => apply Z.eqb_eq in E as -> end.
    all: cbn [put serialize_TransactionInput]; codec_written.
Qed.

#[global] Instance TransactionOutputTarget_ok :
  CodecOk serialize_TransactionOutputTarget is_TransactionOutputTarget.
Proof.
  split.
  - intros [[k]] H. cbn [put get serialize_TransactionOutputTarget].
    eapply emits_bind; [by apply round_trip|].
    unfold getVariantValue_output. cbn [Z.eqb Pos.eqb].
    eapply emits_last; [|reflexivity]. cbn [put get serialize_KeyOutput]. emits_step.
  - intros stream i rest Hb H. cbn [get serialize_TransactionOutputTarget] in H. rd_inv.
    codec_invert. unfold getVariantValue_output in H. rd_inv.
    match goal with K : get serialize_KeyOutput _ = _ |- _ => cbn [get serialize_KeyOutput] in K end.
    rd_inv. codec_invert. split; [done|].
    match goal with E : (_ =? _) = true |- _ => apply Z.eqb_eq in E as -> end.
    cbn [put serialize_TransactionOutputTarget serialize_KeyOutput]. codec_written.
Qed.

#[global] Instance TransactionOutput_ok : CodecOk serialize_TransactionOutput is_TransactionOutput.
Proof.
  split.
  - intros [a t] [??]. cbn [put get serialize_TransactionOutput]. do 2 emits_step.
  - intros stream v rest Hb H. cbn [get serialize_TransactionOutput] in H. rd_inv.
    codec_invert. split; [by split|]. cbn [put serialize_TransactionOutput]. codec_written.
Qed.

Lemma emits_prefix_body p : is_prefix_body p ->
  emits (put_prefix_body p) (get_prefix_body (version p)) p.
Proof. destruct p. intros [????]. unfold put_prefix_body, get_prefix_body. do 4 emits_step. Qed.

Lemma prefix_body_canonical v stream p rest :
  is_bytes stream -> get_prefix_body v stream = Ok (p, rest) ->
  version p = v /\ is_prefix_body p /\ is_bytes rest /\
  exists bs, put_prefix_body p = Ok bs /\ stream = bs ++ rest.
Proof.
  intros Hb H. unfold get_prefix_body in H. rd_inv. codec_invert.
  split; [done|]. split; [by split|]. split; [done|]. unfold put_prefix_body. codec_written.
Qed.

#[global] Instance TransactionPrefix_ok : CodecOk serialize_TransactionPrefix is_TransactionPrefix.
Proof.
  split.
  - intros p [Hv Hp]. cbn [put get serialize_TransactionPrefix].
    eapply emits_bind; [apply round_trip; mlia|]. cbn beta.
    rewrite (proj2 (Z.ltb_ge _ _)) by lia. by apply emits_prefix_body.
  - intros stream p rest Hb H. cbn [get serialize_TransactionPrefix] in H. rd_inv. codec_invert.
    apply prefix_body_canonical in H as (Hv & Hp & _ & bs' & P' & ->); [|done]. subst.
    split; [split; [destruct V; apply Z.ltb_ge in Heqb; lia|done]|].
    cbn [put serialize_TransactionPrefix]. codec_written.
Qed.

#[global] Instance BaseTransaction_round_trip : RoundTrip serialize_BaseTransaction is_BaseTransaction.
Proof.
  intros [p] [Hv Hp]. cbn [put get serialize_BaseTransaction].
  emits_step. cbn [bt_prefix]. eapply emits_bind; [by apply emits_prefix_body|]. cbn beta.
  destruct (_ <=? _); [|apply emits_ret].
  eapply (emits_last _ (get (varint 64))); [apply (round_trip (c := varint 64)); mlia|reflexivity].
Qed.

#[global] Instance BaseTransaction_sound : Sound serialize_BaseTransaction is_BaseTransaction.
Proof.
  intros stream tx rest Hb H. cbn [get serialize_BaseTransaction] in H.
  apply rd_bind_Ok in H as (v & s1 & Hv & H). apply rd_bind_Ok in H as (p & s2 & Hp & H).
  sound_invert. apply prefix_body_canonical in Hp as (<- & Hp & Hr & _); [|done].
  rd_inv; sound_invert; done.
Qed.

(** *** Signatures *)

Lemma emits_signatures ins sigs :
  Forall2 (fun i s => getSignaturesCount i = Z.of_nat (length s) /\ Forall (is_pod 64) s) ins sigs ->
  emits (put_signatures ins sigs) (get_signatures ins) sigs.
Proof.
  induction 1 as [|i s ins sigs [Hc Hs] _ IH]; [apply emits_ret|].
  cbn [put_signatures get_signatures]. rewrite Hc, Z.eqb_refl, Nat2Z.id. cbn [negb].
  eapply emits_bind; [by apply (emits_items _ _)|]. cbn beta. by eapply emits_last.
Qed.

Lemma getSignaturesCount_nonneg i : 0 <= getSignaturesCount i.
Proof. destruct i; simpl; lia. Qed.

Lemma signatures_canonical ins stream sigs rest :
  is_bytes stream -> get_signatures ins stream = Ok (sigs, rest) ->
  Forall2 (fun i s => getSignaturesCount i = Z.of_nat (length s) /\ Forall (is_pod 64) s) ins sigs /\
  exists bs, put_signatures ins sigs = Ok bs /\ stream = bs ++ rest.
Proof.
  revert stream sigs. induction ins as [|i ins IH]; intros stream sigs Hb H; cbn [get_signatures] in H.
  - rd_inv. split; [constructor|]. by exists [].
  - apply rd_bind_Ok in H as (s & s1 & Hs & H). apply rd_bind_Ok in H as (l & s2 & Hl & H). rd_inv.
    apply (items_canonical _ (is_pod 64)) in Hs as (Hn & HF & bs & P & ->); [|done].
    apply is_bytes_app_inv in Hb as [? Hb]. apply IH in Hl as (H2 & bs' & P' & ->); [|done].
    assert (getSignaturesCount i = Z.of_nat (length s)) as E
      by (pose proof (getSignaturesCount_nonneg i); lia).
    split; [by constructor|]. cbn [put_signatures]. rewrite E, Z.eqb_refl. cbn [negb].
    codec_written.
Qed.

Lemma no_signatures_base ins : is_base_inputs ins = true -> no_signatures ins = Ok [].
Proof. by destruct ins as [|[] []]. Qed.

#[global] Instance Transaction_ok : CodecOk serialize_Transaction is_Transaction.
Proof.
  split.
  - intros [p sigs] [Hp Hs]. cbn [put get serialize_Transaction tx_prefix signatures] in *.
    emits_step. unfold signatures_match in Hs. destruct (is_base_inputs (inputs p)) eqn:Hbase.
    + subst. rewrite !decide_True, no_signatures_base by done. apply emits_ret.
    + destruct (inputs p) as [|i ins] eqn:Hi.
      * apply Forall2_nil_inv_l in Hs as ->. apply emits_ret.
      * pose proof (Forall2_length _ _ _ Hs) as Hl. destruct sigs as [|s sigs]; [done|].
        rewrite !decide_False by done. rewrite Hl, Nat.eqb_refl. cbn [negb].
        eapply emits_last; [by apply emits_signatures|done].
  - intros stream tx rest Hb H. cbn [get serialize_Transaction] in H.
    apply rd_bind_Ok in H as (p & s1 & Hp & H). codec_invert.
    cbn [put serialize_Transaction]. destruct (is_base_inputs (inputs p)) eqn:Hbase.
    + rewrite decide_True, no_signatures_base in H by done. injection H as <- <-.
      split; [split; [done|unfold signatures_match; cbn [tx_prefix]; by rewrite Hbase]|].
      cbn [tx_prefix signatures]. rewrite decide_True, no_signatures_base by done. codec_written.
    + destruct (inputs p) as [|i ins] eqn:Hi.
      * injection H as <- <-.
        split; [split; [done|unfold signatures_match; cbn [tx_prefix]; rewrite Hi; constructor]|].
        cbn [tx_prefix signatures]. rewrite decide_True, Hi by done. codec_written.
      * rewrite decide_False in H by done. apply rd_bind_Ok in H as (sigs & s2 & Hs & H).
        rd_inv. apply signatures_canonical in Hs as (HF & bs' & P' & ->); [|done].
        split; [split; [done|unfold signatures_match; cbn [tx_prefix signatures];
          by rewrite Hi, Hbase]|].
        cbn [tx_prefix signatures]. pose proof (Forall2_length _ _ _ HF) as Hl.
        destruct sigs; [done|]. rewrite decide_False by done.
        rewrite Hi. rewrite Hl, Nat.eqb_refl. cbn [negb]. codec_written.
Qed.

#[global] Instance AccountPublicAddress_ok :
  CodecOk serialize_AccountPublicAddress is_AccountPublicAddress.
Proof.
  split.
  - intros [s v] [??]. cbn [put get serialize_AccountPublicAddress]. do 2 emits_step.
  - intros stream a rest Hb H. cbn [get serialize_AccountPublicAddress] in H. rd_inv. codec_invert.
    split; [by split|]. cbn [put serialize_AccountPublicAddress]. codec_written.
Qed.

#[global] Instance AccountKeys_ok : CodecOk serialize_AccountKeys
  (fun k => is_AccountPublicAddress (address k) /\ is_key (spendSecretKey k) /\ is_key (viewSecretKey k)).
Proof.
  split.
  - intros [a s v] (? & ? & ?). cbn [put get serialize_AccountKeys]. do 3 emits_step.
  - intros stream a rest Hb H. cbn [get serialize_AccountKeys] in H. rd_inv. codec_invert.
    split; [by split|]. cbn [put serialize_AccountKeys]. codec_written.
Qed.

#[global] Instance KeyPair_ok : CodecOk serialize_KeyPair
  (fun k => is_key (secretKey k) /\ is_key (publicKey k)).
Proof.
  split.
  - intros [p s] [??]. cbn [put get serialize_KeyPair]. do 2 emits_step.
  - intros stream a rest Hb H. cbn [get serialize_KeyPair] in H. rd_inv. codec_invert.
    split; [done|]. cbn [put serialize_KeyPair]. codec_written.
Qed.

(** ** Whole binary arrays *)

Lemma fromBinaryArray_toBinaryArray {A} (c : codec A) valid `{!RoundTrip c valid} a :
  valid a -> exists bs, toBinaryArray c a = Some bs /\ is_bytes bs /\ fromBinaryArray c bs = Some a.
Proof.
  intros Ha. destruct (round_trip a Ha) as (bs & P & Hb & G). exists bs.
  unfold toBinaryArray, fromBinaryArray. rewrite P. split; [done|]. split; [done|].
  specialize (G []). rewrite app_nil_r in G. by rewrite G.
Qed.

Lemma toBinaryArray_fromBinaryArray {A} (c : codec A) valid `{!CodecOk c valid} bs a :
  is_bytes bs -> fromBinaryArray c bs = Some a -> valid a /\ toBinaryArray c a = Some bs.
Proof.
  unfold fromBinaryArray, toBinaryArray. intros Hb H.
  destruct (get c bs) as [[x rest]|] eqn:G; [|done].
  unfold MemoryInputStream.endOfStream in H. case_bool_decide; [|done]. simplify_eq.
  apply put_get in G as (? & bs' & P & ->); [|done]. rewrite P, app_nil_r. done.
Qed.

(** ** Theorems *)

(** A well-formed transaction serializes, and deserializing the bytes gives
    the same transaction. *)
Theorem Transaction_roundtrip tx :
  is_Transaction tx ->
  exists bs, toBinaryArray serialize_Transaction tx = Some bs /\
             fromBinaryArray serialize_Transaction bs = Some tx.
Proof.
  intros H. destruct (fromBinaryArray_toBinaryArray _ _ tx H) as (bs & ? & _ & ?). eauto.
Qed.

Lemma Transaction_roundtrip_witness :
  exists bs, toBinaryArray serialize_Transaction
    {| tx_prefix := {| version := 1; unlockTime := 300; inputs := [InKey {| ki_amount := 5;
         outputIndexes := [1]; keyImage := replicate 32 3 |}];
         outputs := [{| to_amount := 5; target := OutKey {| key := replicate 32 4 |} |}];
         extra := [1; 2] |};
       signatures := [[replicate 64 6]] |} = Some bs /\
    fromBinaryArray serialize_Transaction bs = Some
    {| tx_prefix := {| version := 1; unlockTime := 300; inputs := [InKey {| ki_amount := 5;
         outputIndexes := [1]; keyImage := replicate 32 3 |}];
         outputs := [{| to_amount := 5; target := OutKey {| key := replicate 32 4 |} |}];
         extra := [1; 2] |};
       signatures := [[replicate 64 6]] |}.
Proof.
  apply (Transaction_roundtrip _). evaluate.
Defined.

(** C36. The encoding of a transaction is unique: the only bytes that
    deserialize to [tx] are the ones [tx] serializes to, so no one can alter
    the bytes (and the hash) of a transaction without changing it. *)
Theorem Transaction_canonical bs tx :
  is_bytes bs -> fromBinaryArray serialize_Transaction bs = Some tx ->
  is_Transaction tx /\ toBinaryArray serialize_Transaction tx = Some bs.
Proof. apply (toBinaryArray_fromBinaryArray _ _). Qed.

(** The genesis coinbase: the bytes of the hexadecimal constant, and the
    transaction they stand for. *)
Definition GENESIS_COINBASE_TX : bytes := default [] (fromHex GENESIS_COINBASE_TX_HEX).

Definition genesis_coinbase : Transaction :=
  {| tx_prefix := {| version := 1; unlockTime := MEVACOIN_MINED_MONEY_UNLOCK_WINDOW;
       inputs := [InBase {| blockIndex := 0 |}];
       outputs := [{| to_amount := GENESIS_BLOCK_REWARD;
         target := OutKey {| key := take 32 (drop 8 GENESIS_COINBASE_TX) |} |}];
       extra := drop 41 GENESIS_COINBASE_TX |};
     signatures := [] |}.

Lemma Transaction_canonical_witness :
  is_Transaction genesis_coinbase /\
  toBinaryArray serialize_Transaction genesis_coinbase = Some GENESIS_COINBASE_TX.
Proof.
  apply (Transaction_canonical GENESIS_COINBASE_TX genesis_coinbase); [|vm_compute; reflexivity].
  evaluate.
Defined.
