(* ===== verification/Base58.v ===== *)
(** * Base58 and address strings
      ([src/common/base58.cpp], [src/mevacoin_core/mevacoin_basic_impl.cpp])

    Blocks of eight bytes become eleven characters; the last, shorter block has
    a length of its own.  A write in front of the result buffer, which the
    source does not guard against, is [None] here and proved not to happen. *)

From S2P Require Import Prelude IntUtil Stream Varint Serializer Transaction.

(** ** Tables *)

Definition alphabet : bytes := str "123456789ABCDEFGHJKLMNPQRSTUVWXYZabcdefghijkmnopqrstuvwxyz".
Abbreviation alphabet_size := 58 (only parsing).
Definition encoded_block_sizes (size : nat) : nat := nth size [0; 2; 3; 5; 6; 7; 9; 10; 11]%nat 0%nat.
Abbreviation full_block_size := 8%nat (only parsing).
Abbreviation full_encoded_block_size := 11%nat (only parsing).
Abbreviation addr_checksum_size := 4%nat (only parsing).

Definition letter (digit : Z) : Z := nth (Z.to_nat digit) alphabet 0.

(** The table of [reverse_alphabet]: 74 entries, filled from the alphabet. *)
Definition reverse_table : list Z :=
  fold_left (fun table i => <[Z.to_nat (letter (Z.of_nat i) - letter 0) := Z.of_nat i]> table)
    (seq 0 58) (replicate 74 (-1)).

Definition reverse_alphabet (c : Z) : Z :=
  let idx := u64 (c - letter 0) in
  if idx <? Z.of_nat (length reverse_table) then nth (Z.to_nat idx) reverse_table (-1) else -1.

(** The table of [decoded_block_sizes]. *)
Definition decoded_block_sizes (encoded_block_size : nat) : Z :=
  let table := fold_left (fun table i => <[encoded_block_sizes i := Z.of_nat i]> table)
    (seq 0 9) (replicate 12 (-1)) in
  nth encoded_block_size table (-1).

(** ** Blocks *)

(** [uint_8be_to_64]: the fall-through cases shift in one byte each. *)
Definition uint_8be_to_64 (data : bytes) : Z :=
  fold_left (fun res b => Z.lor (u64 (Z.shiftl res 8)) b) data 0.

(** [uint_64_to_8be]: the last bytes of the swapped number in memory. *)
Definition uint_64_to_8be (num : Z) (size : nat) : bytes := drop (8 - size) (le_bytes 8 (SWAP64 num)).

(** [while (0 < num)]: [k] is [i + 1], the place after the one to write. *)
Fixpoint encode_loop (k : nat) (num : Z) (res : bytes) : option bytes :=
  match k with
  | O => if 0 <? num then None else Some res
  | S i =>
      if 0 <? num then
        encode_loop i (num / alphabet_size) (<[i := letter (num mod alphabet_size)]> res)
      else Some res
  end.

(** The characters of one block, over the ['1']s [encode] has put there. *)
Definition encode_block (block : bytes) : option bytes :=
  let size := encoded_block_sizes (length block) in
  encode_loop size (uint_8be_to_64 block) (replicate size (letter 0)).

(** The loop of [decode_block], from the last character on. *)
Fixpoint decode_loop (rev_block : bytes) (res_num order : Z) : option Z :=
  match rev_block with
  | [] => Some res_num
  | c :: rev_block =>
      let digit := reverse_alphabet c in
      if digit <? 0 then None
      else
        let '(product_lo, product_hi) := mul128 order digit in
        let tmp := u64 (res_num + product_lo) in
        if (tmp <? res_num) || negb (product_hi =? 0) then None
        else decode_loop rev_block tmp (u64 (order * alphabet_size))
  end.

Definition decode_block (block : bytes) : option bytes :=
  let res_size := decoded_block_sizes (length block) in
  if res_size <=? 0 then None
  else
    res_num ← decode_loop (rev block) 0 1;
    if (res_size <? Z.of_nat full_block_size) && (u64 (Z.shiftl 1 (8 * res_size)) <=? res_num)
    then None
    else Some (uint_64_to_8be res_num (Z.to_nat res_size)).

(** ** Strings *)

(** The loops of [encode] and [decode] over [count] full blocks and the rest. *)
Fixpoint map_blocks (f : bytes -> option bytes) (size count : nat) (data : bytes) : option bytes :=
  match count with
  | O => match data with [] => Some [] | _ => f data end
  | S count =>
      x ← f (take size data);
      y ← map_blocks f size count (drop size data);
      Some (x ++ y)
  end.

Definition encode (data : bytes) : option bytes :=
  map_blocks encode_block full_block_size (length data / full_block_size) data.

Definition decode (enc : bytes) : option bytes :=
  match enc with
  | [] => Some []
  | _ =>
      if decoded_block_sizes (length enc mod full_encoded_block_size) <? 0 then None
      else map_blocks decode_block full_encoded_block_size (length enc / full_encoded_block_size) enc
  end.

(** ** Addresses *)

Section Address.
Variable cn_fast_hash : bytes -> bytes.

Definition encode_addr (tag : Z) (data : bytes) : option bytes :=
  let buf := get_varint_data tag ++ data in
  encode (buf ++ take addr_checksum_size (cn_fast_hash buf)).

(** [(tag, data)] *)
Definition decode_addr (addr : bytes) : option (Z * bytes) :=
  addr_data ← decode addr;
  if (length addr_data <=? addr_checksum_size)%nat then None
  else
    let checksum := drop (length addr_data - addr_checksum_size) addr_data in
    let addr_data := take (length addr_data - addr_checksum_size) addr_data in
    if negb (bool_decide (take addr_checksum_size (cn_fast_hash addr_data) = checksum)) then None
    else
      let '(read, tag) := read_varint 64 addr_data in
      if read <=? 0 then None else Some (tag, drop (Z.to_nat read) addr_data).

Definition getAccountAddressAsStr (prefix : Z) (adr : AccountPublicAddress) : option bytes :=
  ba ← toBinaryArray serialize_AccountPublicAddress adr;
  encode_addr prefix ba.

(** [crypto::check_key] *)
Variable check_key : PublicKey -> bool.

(** [(prefix, adr)] *)
Definition parseAccountAddressString (text : bytes) : option (Z * AccountPublicAddress) :=
  '(prefix, data) ← decode_addr text;
  adr ← fromBinaryArray serialize_AccountPublicAddress data;
  if check_key (spendPublicKey adr) && check_key (viewPublicKey adr) then Some (prefix, adr)
  else None.
End Address.

(** ** Digits *)

(** The [k] base-58 digits of a number, the most significant first. *)
Fixpoint to_digits (k : nat) (n : Z) : list Z :=
  match k with
  | O => []
  | S k => to_digits k (n / 58) ++ [n mod 58]
  end.

(** The value of digits, the least significant first. *)
Fixpoint lvalue (ds : list Z) : Z :=
  match ds with
  | [] => 0
  | d :: ds => d + 58 * lvalue ds
  end.

Definition is_digit58 (d : Z) : Prop := 0 <= d < 58.

Lemma length_to_digits k : forall n, length (to_digits k n) = k.
Proof. induction k as [|k IH]; intros n; simpl; [done|]. rewrite length_app, IH. simpl. lia. Qed.

Lemma to_digits_range k : forall n, Forall is_digit58 (to_digits k n).
Proof.
  induction k as [|k IH]; intros n; simpl; [constructor|]. apply Forall_app. split; [apply IH|].
  constructor; [apply Z.mod_pos_bound; lia|constructor].
Qed.

Lemma lvalue_to_digits k : forall n, 0 <= n < 58 ^ Z.of_nat k -> lvalue (rev (to_digits k n)) = n.
Proof.
  induction k as [|k IH]; intros n Hn; [simpl in *; lia|]. cbn [to_digits]. rewrite rev_unit.
  cbn [lvalue]. rewrite Nat2Z.inj_succ, Z.pow_succ_r in Hn by lia.
  pose proof (Z.div_mod n 58). pose proof (Z.mod_pos_bound n 58 ltac:(lia)). rewrite IH; lia.
Qed.

Lemma to_digits_lvalue ds : Forall is_digit58 ds -> to_digits (length ds) (lvalue ds) = rev ds.
Proof.
  induction 1 as [|d ds Hd _ IH]; [done|]. cbn [length to_digits lvalue rev].
  rewrite (Z.mul_comm 58), Z.div_add, Z.mod_add by lia. unfold is_digit58 in Hd.
  by rewrite Z.div_small, Z.mod_small, Z.add_0_l, IH by lia.
Qed.

Lemma lvalue_bounds ds : Forall is_digit58 ds -> 0 <= lvalue ds < 58 ^ Z.of_nat (length ds).
Proof.
  induction 1 as [|d ds Hd _ IH]; [simpl; lia|]. cbn [lvalue length].
  rewrite Nat2Z.inj_succ, Z.pow_succ_r by lia. unfold is_digit58 in Hd. lia.
Qed.

Lemma to_digits_zero k : to_digits k 0 = replicate k 0.
Proof.
  induction k as [|k IH]; [done|]. cbn [to_digits]. rewrite Z.div_0_l, Z.mod_0_l by lia.
  rewrite IH. symmetry. apply replicate_S_end.
Qed.

(** ** The alphabet *)

Lemma letter_spec d : is_digit58 d -> is_u8 (letter d) /\ reverse_alphabet (letter d) = d.
Proof.
  intros Hd. pose (P := fun d => (58 <=? d) || bool_decide (is_u8 (letter d) /\
    reverse_alphabet (letter d) = d)).
  assert (P d = true) as H by (apply byte_forall; [vm_compute; reflexivity|unfold is_digit58 in Hd; mlia]).
  unfold P in H. apply orb_true_iff in H as [H|H]; [unfold is_digit58 in Hd; lia|].
  by apply bool_decide_eq_true in H.
Qed.

Lemma reverse_alphabet_spec c : is_u8 c -> 0 <= reverse_alphabet c ->
  is_digit58 (reverse_alphabet c) /\ letter (reverse_alphabet c) = c.
Proof.
  intros Hc Hr. pose (P := fun c => (reverse_alphabet c <? 0) ||
    ((reverse_alphabet c <? 58) && (letter (reverse_alphabet c) =? c))).
  assert (P c = true) as H by (apply byte_forall; [vm_compute; reflexivity|done]).
  unfold P, is_digit58 in *. lia.
Qed.

(** ** Blocks *)

Lemma encode_loop_spec k : forall n res,
  0 <= n < 58 ^ Z.of_nat k -> take k res = replicate k (letter 0) ->
  encode_loop k n res = Some (map letter (to_digits k n) ++ drop k res).
Proof.
  induction k as [|i IH]; intros n res Hn Ht; cbn [encode_loop].
  - destruct (Z.ltb_spec 0 n); [simpl in Hn; lia|done].
  - rewrite Nat2Z.inj_succ, Z.pow_succ_r in Hn by lia.
    assert (i < length res)%nat as Hl.
    { apply (f_equal length) in Ht. rewrite length_take, length_replicate in Ht. lia. }
    destruct (Z.ltb_spec 0 n).
    + pose proof (Z.div_mod n 58). pose proof (Z.mod_pos_bound n 58 ltac:(lia)).
      rewrite IH; [|lia|].
      * cbn [to_digits]. rewrite map_app, <- app_assoc. f_equal. f_equal. cbn [map app].
        rewrite (drop_S _ (letter (n mod 58)) i) by (apply list_lookup_insert_eq; lia).
        by rewrite drop_insert_lt by lia.
      * rewrite take_insert_ge by lia. apply (f_equal (take i)) in Ht.
        rewrite take_take, Nat.min_l, take_replicate in Ht by lia. rewrite Ht. f_equal. lia.
    + assert (n = 0) as -> by lia. rewrite to_digits_zero. f_equal.
      rewrite <- (take_drop (S i) res) at 1. rewrite Ht. f_equal. symmetry. apply fmap_replicate.
Qed.

Lemma uint_8be_to_64_eq data :
  is_bytes data -> (length data <= 8)%nat -> uint_8be_to_64 data = le_value (rev data).
Proof.
  induction data as [|b data IH] using rev_ind; [done|]. rewrite length_app. cbn [length].
  intros Hb Hl. apply is_bytes_app_inv in Hb as [Hd [Hb _]%Forall_cons].
  unfold uint_8be_to_64 in *. rewrite fold_left_app, rev_unit. cbn [fold_left le_value].
  rewrite IH by (done || lia).
  pose proof (le_value_fits (rev data)) as Hf. rewrite length_rev in Hf.
  specialize (Hf ltac:(by apply Forall_rev)).
  assert (2 ^ (8 * Z.of_nat (length data)) <= 2 ^ 56) by (apply Z.pow_le_mono_r; lia).
  change (2 ^ 56) with 72057594037927936 in *.
  rewrite Z.shiftl_mul_pow2, wrap_small by mlia. rewrite lor_add_high by mlia. lia.
Qed.

Lemma le_bytes_take n : forall m x, (n <= m)%nat -> take n (le_bytes m x) = le_bytes n x.
Proof.
  induction n as [|n IH]; intros [|m] x H; simpl; try (done || lia). f_equal. apply IH. lia.
Qed.

Lemma uint_64_to_8be_eq num size :
  is_u64 num -> (size <= 8)%nat -> uint_64_to_8be num size = rev (le_bytes size num).
Proof.
  intros Hn Hs. unfold uint_64_to_8be. rewrite SWAP64_le_bytes by done.
  rewrite <- (le_bytes_take size 8 num) by done.
  rewrite <- (take_drop size (le_bytes 8 num)) at 1. rewrite rev_app_distr.
  rewrite drop_app_length'; [done|]. rewrite length_rev, length_drop, length_le_bytes. done.
Qed.

Lemma nat_range_forall (P : nat -> Prop) lo hi :
  Forall P (seq lo (S hi - lo)) -> forall n, (lo <= n <= hi)%nat -> P n.
Proof. rewrite Forall_forall. intros H n Hn. apply H, elem_of_seq. lia. Qed.

(** Every size of a block but the full one leaves room in 64 bits, and each
    encoded size holds the numbers of its block. *)
Lemma block_capacity size : (1 <= size <= 8)%nat ->
  2 ^ (8 * Z.of_nat size) <= 58 ^ Z.of_nat (encoded_block_sizes size) /\
  (encoded_block_sizes size <= 11)%nat /\
  decoded_block_sizes (encoded_block_sizes size) = Z.of_nat size.
Proof.
  intros H. revert size H. apply (nat_range_forall _ 1 8). evaluate.
Qed.

Lemma decoded_size_inv n : (0 <= n <= 11)%nat -> 0 < decoded_block_sizes n ->
  (1 <= Z.to_nat (decoded_block_sizes n) <= 8)%nat /\
  encoded_block_sizes (Z.to_nat (decoded_block_sizes n)) = n.
Proof. revert n. refine (nat_range_forall (fun n => _ -> _) 0 11 _). evaluate. Qed.

(** The running sum of [decode_block] is exact, and it refuses exactly the
    blocks whose value does not fit in 64 bits. *)
Lemma decode_loop_spec ds : forall i r,
  Forall is_digit58 ds -> (i + length ds <= 11)%nat -> is_u64 r ->
  decode_loop (map letter ds) r (u64 (58 ^ Z.of_nat i)) =
  if r + 58 ^ Z.of_nat i * lvalue ds <? 2 ^ 64 then Some (r + 58 ^ Z.of_nat i * lvalue ds) else None.
Proof.
  induction ds as [|d ds IH]; intros i r Hds Hi Hr; cbn [decode_loop map lvalue].
  - rewrite Z.mul_0_r, Z.add_0_r. by replace (r <? 2 ^ 64) with true by mlia.
  - apply Forall_cons in Hds as [Hd Hds]. destruct (letter_spec d Hd) as [_ ->].
    pose proof (lvalue_bounds ds Hds) as Hv. unfold is_digit58 in Hd. cbn [length] in Hi.
    assert (0 < 58 ^ Z.of_nat i <= 58 ^ 10)
      by (split; [apply Z.pow_pos_nonneg|apply Z.pow_le_mono_r]; lia).
    change (58 ^ 10) with 430804206899405824 in *.
    specialize (IH (S i) (u64 (r + (58 ^ Z.of_nat i * d) mod 2 ^ 64)) Hds ltac:(lia) ltac:(apply wrap_fits; lia)).
    rewrite Nat2Z.inj_succ, Z.pow_succ_r in IH by lia. set (o := 58 ^ Z.of_nat i) in *.
    rewrite (wrap_small 64 o) by mlia.
    replace (d <? 0) with false by lia. rewrite mul128_eq by mlia.
    rewrite (Z.mul_comm o 58), IH. clear IH.
    destruct (Z.ltb_spec (o * d) (2 ^ 64)).
    + rewrite (Z.mod_small (o * d)), Z.div_small by nia. cbn [negb Z.eqb]. rewrite orb_false_r.
      destruct (Z.ltb_spec (r + o * d) (2 ^ 64)).
      * rewrite wrap_small by mnia. replace (r + o * d <? r) with false by nia.
        replace (r + o * d + 58 * o * lvalue ds) with (r + o * (d + 58 * lvalue ds)) by ring. done.
      * replace (u64 (r + o * d) <? r) with true
          by (unfold wrap; rewrite <- (Z.mod_add _ (-1)), Z.mod_small by mlia; mlia).
        by replace (r + o * (d + 58 * lvalue ds) <? 2 ^ 64) with false by nia.
    + replace (o * d / 2 ^ 64 =? 0) with false
        by (assert (1 <= o * d / 2 ^ 64) by (apply Z.div_le_lower_bound; lia); lia).
      rewrite orb_true_r. by replace (r + o * (d + 58 * lvalue ds) <? 2 ^ 64) with false by mnia.
Qed.

Lemma decode_loop_digits rb : forall r o v,
  is_bytes rb -> decode_loop rb r o = Some v -> exists ds, Forall is_digit58 ds /\ rb = map letter ds.
Proof.
  induction rb as [|c rb IH]; intros r o v Hb H; [by exists []|]. cbn [decode_loop] in H.
  apply Forall_cons in Hb as [Hc Hb].
  destruct (Z.ltb_spec (reverse_alphabet c) 0); [done|]. destruct (mul128 _ _) as [lo hi].
  case_match; [done|]. destruct (IH _ _ _ Hb H) as (ds & Hds & ->).
  destruct (reverse_alphabet_spec c Hc) as [Hd El]; [lia|]. exists (reverse_alphabet c :: ds).
  split; [by constructor|]. cbn [map]. by rewrite El.
Qed.

Lemma encode_block_eq block :
  is_bytes block -> (1 <= length block <= 8)%nat ->
  encode_block block =
  Some (map letter (to_digits (encoded_block_sizes (length block)) (le_value (rev block)))).
Proof.
  intros Hb Hl. destruct (block_capacity _ Hl) as (Hc & _ & _). unfold encode_block.
  rewrite uint_8be_to_64_eq by (done || lia).
  pose proof (le_value_fits (rev block) ltac:(by apply Forall_rev)) as Hf. rewrite length_rev in Hf.
  rewrite encode_loop_spec; [|unfold fits in Hf; lia|by rewrite take_replicate, Nat.min_id].
  by rewrite drop_replicate, Nat.sub_diag, app_nil_r.
Qed.

(** [decode_block] on letters: the value has to fit in the bytes of the block. *)
Lemma decode_block_letters ds size :
  Forall is_digit58 ds -> (1 <= size <= 8)%nat -> length ds = encoded_block_sizes size ->
  decode_block (map letter ds) =
  if lvalue (rev ds) <? 2 ^ (8 * Z.of_nat size) then Some (rev (le_bytes size (lvalue (rev ds))))
  else None.
Proof.
  intros Hds Hs Hl. destruct (block_capacity _ Hs) as (_ & H11 & Hdec). unfold decode_block.
  rewrite length_map, Hl, Hdec. replace (Z.of_nat size <=? 0) with false by lia. rewrite Nat2Z.id.
  rewrite <- map_rev.
  assert (Forall is_digit58 (rev ds)) as Hr by (by apply Forall_rev).
  pose proof (decode_loop_spec (rev ds) 0 0 Hr ltac:(rewrite length_rev; lia) ltac:(evaluate)) as E.
  change (58 ^ Z.of_nat 0) with 1 in E. change (u64 1) with 1 in E.
  rewrite Z.add_0_l, Z.mul_1_l in E. rewrite E.
  pose proof (lvalue_bounds (rev ds) ltac:(by apply Forall_rev)).
  assert (Z.of_nat size < 8 -> 2 ^ (8 * Z.of_nat size) <= 2 ^ 56) as Hp by (intros; apply Z.pow_le_mono_r; lia).
  destruct (Z.ltb_spec (lvalue (rev ds)) (2 ^ 64)); cbn [mbind option_bind].
  - rewrite uint_64_to_8be_eq by (mlia || lia). rewrite Z.shiftl_1_l.
    destruct (Z.ltb_spec (Z.of_nat size) (Z.of_nat 8)); cbn [andb].
    + change (2 ^ 56) with 72057594037927936 in *.
      rewrite wrap_small by (split; [apply Z.pow_nonneg|]; mlia).
      by destruct (Z.leb_spec (2 ^ (8 * Z.of_nat size)) (lvalue (rev ds))), (Z.ltb_spec (lvalue (rev ds)) (2 ^ (8 * Z.of_nat size))); try lia.
    + assert (size = 8%nat) as -> by lia. by replace (lvalue (rev ds) <? _) with true by (symmetry; apply Z.ltb_lt; assumption).
  - replace (lvalue (rev ds) <? _) with false; [done|]. symmetry. apply Z.ltb_ge.
    assert (2 ^ (8 * Z.of_nat size) <= 2 ^ 64) by (apply Z.pow_le_mono_r; lia). lia.
Qed.

Lemma map_letter_bytes ds : Forall is_digit58 ds -> is_bytes (map letter ds).
Proof. induction 1; constructor; [by apply letter_spec|done]. Qed.

Lemma decode_encode_block block :
  is_bytes block -> (1 <= length block <= 8)%nat ->
  exists enc, encode_block block = Some enc /\ decode_block enc = Some block /\
    length enc = encoded_block_sizes (length block) /\ is_bytes enc.
Proof.
  intros Hb Hl. eexists. split; [by apply encode_block_eq|].
  pose proof (le_value_fits (rev block) ltac:(by apply Forall_rev)) as Hf.
  pose proof (le_bytes_value (rev block) ltac:(by apply Forall_rev)) as Hv. rewrite length_rev in *.
  destruct (block_capacity _ Hl) as (Hc & _ & _).
  rewrite length_map, length_to_digits.
  rewrite (decode_block_letters _ (length block)); [|apply to_digits_range|done|apply length_to_digits].
  rewrite lvalue_to_digits by (unfold fits in Hf; lia).
  destruct Hf as [_ Hf%Z.ltb_lt]. rewrite Hf, Hv, rev_involutive.
  eauto using map_letter_bytes, to_digits_range.
Qed.

Lemma encode_decode_block enc block :
  is_bytes enc -> (length enc <= 11)%nat -> decode_block enc = Some block ->
  encode_block block = Some enc /\ is_bytes block /\
  Z.of_nat (length block) = decoded_block_sizes (length enc).
Proof.
  intros Hb Hl H. assert (0 < decoded_block_sizes (length enc)) as Hp.
  { unfold decode_block in H. destruct (Z.leb_spec (decoded_block_sizes (length enc)) 0); [done|lia]. }
  destruct (decoded_size_inv (length enc) ltac:(lia) Hp) as [Hs He].
  assert (exists ds, Forall is_digit58 ds /\ enc = map letter ds) as (ds & Hds & ->).
  { unfold decode_block in H. case_match; [done|].
    destruct (decode_loop (rev enc) 0 1) as [v|] eqn:E; [|done].
    apply decode_loop_digits in E as (ds & Hds & Er); [|by apply Forall_rev]. exists (rev ds).
    split; [by apply Forall_rev|]. by rewrite map_rev, <- Er, rev_involutive. }
  set (size := Z.to_nat (decoded_block_sizes _)) in *. rewrite length_map in He.
  rewrite (decode_block_letters _ size) in H by done. case_match eqn:E; [|done].
  injection H as <-. rewrite length_rev, length_le_bytes.
  assert (is_bytes (rev (le_bytes size (lvalue (rev ds))))) by (apply Forall_rev; auto with machine).
  rewrite encode_block_eq; rewrite ?length_rev, ?length_le_bytes; [|done..].
  split; [|split; [done|subst size; lia]]. rewrite rev_involutive, le_value_bytes, Z.mod_small.
  - pose proof (to_digits_lvalue (rev ds) ltac:(by apply Forall_rev)) as Ht.
    rewrite length_rev, rev_involutive in Ht. by rewrite He, Ht.
  - pose proof (lvalue_bounds (rev ds) ltac:(by apply Forall_rev)). lia.
Qed.

(** ** Strings *)

Lemma map_blocks_encode count : forall data,
  is_bytes data -> (length data = 8 * count + length data mod 8)%nat ->
  exists enc, map_blocks encode_block 8 count data = Some enc /\ is_bytes enc /\
    map_blocks decode_block 11 count enc = Some data /\
    (length enc = 11 * count + encoded_block_sizes (length data mod 8))%nat.
Proof.
  induction count as [|count IH]; intros data Hb Hl; cbn [map_blocks].
  - destruct data as [|b data]; [by exists []|]. rewrite Nat.mul_0_r, Nat.add_0_l in *.
    assert (length (b :: data) mod 8 < 8)%nat by (apply Nat.mod_upper_bound; lia).
    destruct (decode_encode_block (b :: data)) as (enc & E1 & E2 & E3 & E4); [done|cbn [length] in *; lia|].
    exists enc. rewrite <- Hl. split; [done|]. split; [done|]. split; [|lia].
    destruct enc; [|done]. vm_compute in E2. done.
  - assert (length data mod 8 = length (drop 8 data) mod 8)%nat as Em.
    { rewrite length_drop. replace (length data) with (length data - 8 + 1 * 8)%nat at 1 by lia.
      apply Nat.Div0.mod_add. }
    destruct (decode_encode_block (take 8 data)) as (e1 & E1 & E2 & E3 & E4);
      [by apply Forall_take|rewrite length_take; lia|].
    rewrite length_take, Nat.min_l in E3 by lia.
    destruct (IH (drop 8 data)) as (e2 & F1 & F2 & F3 & F4);
      [by apply Forall_drop|rewrite <- Em, length_drop; lia|].
    exists (e1 ++ e2). rewrite E1, F1. cbn [mbind option_bind]. rewrite length_app, E3, F4, <- Em.
    change (encoded_block_sizes 8) with 11%nat in *.
    rewrite take_app_length', drop_app_length' by done. rewrite E2, F3. cbn [mbind option_bind].
    rewrite take_drop. repeat split; [by apply Forall_app|lia].
Qed.

Lemma map_blocks_decode count : forall enc data,
  is_bytes enc -> (length enc = 11 * count + length enc mod 11)%nat ->
  0 <= decoded_block_sizes (length enc mod 11) ->
  map_blocks decode_block 11 count enc = Some data ->
  map_blocks encode_block 8 count data = Some enc /\
  Z.of_nat (length data) = 8 * Z.of_nat count + decoded_block_sizes (length enc mod 11).
Proof.
  induction count as [|count IH]; intros enc data Hb Hl Hd H; cbn [map_blocks] in *.
  - destruct enc as [|c enc]; [by simplify_eq|]. rewrite Nat.mul_0_r, Nat.add_0_l in *.
    assert (length (c :: enc) mod 11 < 11)%nat by (apply Nat.mod_upper_bound; lia).
    apply encode_decode_block in H as (E1 & E2 & E3); [|done|cbn [length] in *; lia].
    rewrite <- Hl. split; [|lia]. destruct data; [|done]. vm_compute in E1. done.
  - assert (length enc mod 11 = length (drop 11 enc) mod 11)%nat as Em.
    { rewrite length_drop. replace (length enc) with (length enc - 11 + 1 * 11)%nat at 1 by lia.
      apply Nat.Div0.mod_add. }
    destruct (decode_block (take 11 enc)) as [x|] eqn:E1; [|done].
    destruct (map_blocks decode_block 11 count (drop 11 enc)) as [y|] eqn:E2; [|done].
    cbn in H. simplify_eq.
    apply encode_decode_block in E1 as (F1 & _ & F2); [|by apply Forall_take|rewrite length_take; lia].
    apply IH in E2 as (G1 & G2); [|by apply Forall_drop|rewrite <- Em, length_drop; lia|by rewrite <- Em].
    rewrite length_take, Nat.min_l in F2 by lia. change (decoded_block_sizes 11) with 8 in F2.
    rewrite length_app, take_app_length', drop_app_length' by lia. rewrite F1, G1.
    cbn [mbind option_bind]. rewrite take_drop. split; [done|rewrite Em; lia].
Qed.

Lemma encode_decode data : is_bytes data ->
  exists enc, encode data = Some enc /\ is_bytes enc /\ decode enc = Some data.
Proof.
  intros Hb. pose proof (Nat.div_mod_eq (length data) 8) as Hdm.
  pose proof (Nat.mod_upper_bound (length data) 8 ltac:(lia)) as Hm.
  destruct (map_blocks_encode _ data Hb Hdm) as (enc & E1 & E2 & E3 & E4).
  exists enc. split; [done|]. split; [done|]. unfold decode.
  assert (encoded_block_sizes (length data mod 8) < 11)%nat
    by (revert Hm; generalize (length data mod 8)%nat; intros n Hn;
        do 8 (destruct n as [|n]; [vm_compute; lia|]); lia).
  assert (length enc / 11 = length data / 8)%nat as Ed
    by (symmetry; eapply Nat.div_unique; [|exact E4]; done).
  assert (length enc mod 11 = encoded_block_sizes (length data mod 8))%nat as Er
    by (symmetry; eapply Nat.mod_unique; [|exact E4]; done).
  rewrite Ed, Er. replace (_ <? 0) with false.
  - destruct enc; [|done]. destruct data; [done|]. rewrite Nat.mul_comm in E4.
    destruct (length (z :: data) / 8)%nat eqn:Eq; [|done]. cbn in E3. done.
  - symmetry. revert Hm. generalize (length data mod 8)%nat. intros n Hn.
    do 8 (destruct n as [|n]; [done|]). lia.
Qed.

(** Base58 loses nothing: encoding a byte string always succeeds, that is
    the digit loop never writes in front of its buffer, and decoding the text
    gives the byte string back. *)
Theorem base58_roundtrip data :
  is_bytes data -> exists enc, encode data = Some enc /\ decode enc = Some data.
Proof. intros H. destruct (encode_decode data H) as (enc & ? & _ & ?). eauto. Qed.

Lemma base58_roundtrip_witness :
  exists enc, encode [0; 255; 1; 2; 3; 4; 5; 6; 7; 8; 9] = Some enc /\
    decode enc = Some [0; 255; 1; 2; 3; 4; 5; 6; 7; 8; 9].
Proof. apply base58_roundtrip. evaluate. Defined.

(** Base58 text is unique: the only text that decodes to a byte string is
    the one it encodes to.  Blocks with a foreign letter, of an impossible
    length or with a value too large for their bytes are refused. *)
Theorem base58_canonical enc data :
  is_bytes enc -> decode enc = Some data -> encode data = Some enc.
Proof.
  intros Hb H. destruct enc as [|c enc]; [cbn in H; by simplify_eq|]. cbn [decode] in H.
  set (text := c :: enc) in *.
  destruct (Z.ltb_spec (decoded_block_sizes (length text mod 11)) 0) as [|Hd]; [done|].
  pose proof (Nat.div_mod_eq (length text) 11) as Hdm.
  destruct (map_blocks_decode _ _ _ Hb Hdm Hd H) as [E1 E2]. unfold encode.
  replace (length data / 8)%nat with (length text / 11)%nat; [done|].
  pose proof (Nat.mod_upper_bound (length text) 11 ltac:(lia)) as Hm.
  assert (decoded_block_sizes (length text mod 11) < 8).
  { assert (forall n, (0 <= n <= 10)%nat -> decoded_block_sizes n < 8) as Hs
      by (apply nat_range_forall; evaluate). apply Hs. lia. }
  apply (Nat.div_unique _ _ _ (Z.to_nat (decoded_block_sizes (length text mod 11)))); lia.
Qed.

Lemma base58_canonical_witness :
  encode [0; 0; 0; 97] = Some (str "11112g").
Proof. apply base58_canonical; [evaluate|vm_compute; reflexivity]. Defined.

(** ** Addresses *)

Section AddressTheorems.
Variable cn_fast_hash : bytes -> bytes.
Hypothesis cn_fast_hash_size : forall data, length (cn_fast_hash data) = 32%nat.
Hypothesis cn_fast_hash_bytes : forall data, is_bytes (cn_fast_hash data).

Lemma decode_encode_addr tag data :
  is_u64 tag -> is_bytes data ->
  exists text, encode_addr cn_fast_hash tag data = Some text /\ is_bytes text /\
    decode_addr cn_fast_hash text = Some (tag, data).
Proof.
  intros Ht Hd. unfold encode_addr, decode_addr.
  pose proof (read_varint_write tag data Ht Hd) as Hr.
  assert (is_bytes (get_varint_data tag)) as Hv
    by (rewrite get_varint_data_eq by mlia; apply writeVarint_bytes; mlia).
  pose proof (get_varint_data_length tag) as Hp.
  set (buf := get_varint_data tag ++ data) in *.
  assert (length (take addr_checksum_size (cn_fast_hash buf)) = 4%nat) as Hc
    by (rewrite length_take, cn_fast_hash_size; done).
  destruct (encode_decode (buf ++ take addr_checksum_size (cn_fast_hash buf))) as (text & E1 & E2 & E3).
  { apply Forall_app; split; [by apply Forall_app|by apply Forall_take]. }
  exists text. split; [done|]. split; [done|]. rewrite E3. cbn [mbind option_bind].
  rewrite length_app, Hc. rewrite Nat.add_sub.
  replace (length buf + 4 <=? 4)%nat with false
    by (subst buf; rewrite length_app; symmetry; apply Nat.leb_gt; lia).
  rewrite take_app_length, drop_app_length, bool_decide_true by done. cbn [negb].
  rewrite Hr. replace (_ <=? 0) with false by lia. rewrite Nat2Z.id. subst buf.
  by rewrite drop_app_length.
Qed.

Variable check_key : PublicKey -> bool.

(** An address whose keys are points of the curve is printed, with any
    64-bit network prefix, and the text is read back as the same prefix and the
    same address.  The hash is a parameter of which only the output size is used. *)
Theorem address_roundtrip prefix adr :
  is_u64 prefix -> is_AccountPublicAddress adr ->
  check_key (spendPublicKey adr) = true -> check_key (viewPublicKey adr) = true ->
  exists text, getAccountAddressAsStr cn_fast_hash prefix adr = Some text /\
    parseAccountAddressString cn_fast_hash check_key text = Some (prefix, adr).
Proof.
  intros Hp Ha Hs Hv.
  destruct (fromBinaryArray_toBinaryArray _ _ adr Ha) as (bs & E1 & E2 & E3).
  destruct (decode_encode_addr prefix bs Hp E2) as (text & F1 & _ & F3).
  exists text. unfold getAccountAddressAsStr, parseAccountAddressString.
  rewrite E1, F3. cbn [mbind option_bind]. rewrite E3. cbn [mbind option_bind]. by rewrite Hs, Hv.
Qed.
End AddressTheorems.

(** A 32-byte checksum of no cryptographic value, to run the definitions. *)
Definition sum_hash (data : bytes) : bytes := le_bytes 32 (fold_left (fun s b => 31 * s + b) data 7).

Lemma address_roundtrip_witness :
  exists text, getAccountAddressAsStr sum_hash 18511
      {| spendPublicKey := replicate 32 5; viewPublicKey := replicate 32 200 |} = Some text /\
    parseAccountAddressString sum_hash (fun _ => true) text = Some (18511,
      {| spendPublicKey := replicate 32 5; viewPublicKey := replicate 32 200 |}).
Proof.
  apply (address_roundtrip sum_hash); try done.
  - intros. apply le_bytes_bytes.
  - split; evaluate.
Defined.
