(* ===== verification/Amounts.v ===== *)
(** * Amounts, fees and output offsets
      ([src/mevacoin_core/mevacoin_tools.cpp], [mevacoin_format_utils.h],
      [mevacoin_format_utils.cpp], [cached_transaction.cpp]) *)

From S2P Require Import Prelude Transaction.

Definition sumZ (l : list Z) : Z := foldr Z.add 0 l.

(** ** Sums over a transaction *)

Definition getInputAmount (tx : TransactionPrefix) : Z :=
  fold_left (fun amount input =>
    match input with InKey i => u64 (amount + ki_amount i) | InBase _ => amount end) (inputs tx) 0.

Definition getInputsAmounts (tx : TransactionPrefix) : list Z :=
  omap (fun input => match input with InKey i => Some (ki_amount i) | InBase _ => None end) (inputs tx).

Definition getOutputAmount (tx : TransactionPrefix) : Z :=
  fold_left (fun amount output => u64 (amount + to_amount output)) (outputs tx) 0.

(** [bool get_tx_fee(tx, fee)] *)
Definition get_tx_fee (tx : TransactionPrefix) : option Z :=
  let amount_in := getInputAmount tx in
  let amount_out := getOutputAmount tx in
  if negb (amount_out <=? amount_in) then None else Some (u64 (amount_in - amount_out)).

(** [CachedTransaction::getTransactionFee]: zero as soon as a base input is
    met, else the difference of the sums. *)
Definition getTransactionFee (tx : TransactionPrefix) : Z :=
  let summaryOutputAmount := getOutputAmount tx in
  (fix go (ins : list TransactionInput) (summaryInputAmount : Z) : Z :=
     match ins with
     | [] => u64 (summaryInputAmount - summaryOutputAmount)
     | InKey i :: ins => go ins (u64 (summaryInputAmount + ki_amount i))
     | InBase _ :: _ => 0
     end) (inputs tx) 0.

Definition input_amount (input : TransactionInput) : Z :=
  match input with InKey i => ki_amount i | InBase _ => 0 end.

(** The loop of both overflow checks: [false] at the first sum that wraps. *)
Fixpoint no_overflow (money : Z) (amounts : list Z) : bool :=
  match amounts with
  | [] => true
  | amount :: amounts =>
      if u64 (amount + money) <? money then false else no_overflow (u64 (money + amount)) amounts
  end.

Definition checkInputsOverflow (tx : TransactionPrefix) : bool :=
  no_overflow 0 (map input_amount (inputs tx)).

Definition checkOutsOverflow (tx : TransactionPrefix) : bool :=
  no_overflow 0 (map to_amount (outputs tx)).

Definition checkInputTypesSupported (tx : TransactionPrefix) : bool :=
  forallb (fun input => match input with InKey _ => true | InBase _ => false end) (inputs tx).

Section CheckOuts.
(** [crypto::check_key]: the bytes are a point of the curve. *)
Variable check_key : PublicKey -> bool.

(** The error text of the first bad output, or nothing. *)
Fixpoint checkOuts_loop (outs : list TransactionOutput) : option string :=
  match outs with
  | [] => None
  | out :: outs =>
      match target out with
      | OutKey k =>
          if to_amount out =? 0 then Some "Zero amount ouput"%string
          else if negb (check_key (key k)) then Some "Output with invalid key"%string
          else checkOuts_loop outs
      end
  end.

(** [(result, error)] *)
Definition checkOutsValid (tx : TransactionPrefix) : bool * option string :=
  let error := checkOuts_loop (outputs tx) in (bool_decide (error = None), error).
End CheckOuts.

(** ** Output offsets *)

Fixpoint to_absolute (previous : Z) (off : list Z) : list Z :=
  match off with
  | [] => []
  | x :: off => let y := u32 (x + previous) in y :: to_absolute y off
  end.

Definition relativeOutputOffsetsToAbsolute (off : list Z) : list Z :=
  match off with [] => [] | x :: off => x :: to_absolute x off end.

Fixpoint to_relative (previous : Z) (off : list Z) : list Z :=
  match off with
  | [] => []
  | x :: off => u32 (x - previous) :: to_relative x off
  end.

Definition absolute_output_offsets_to_relative (off : list Z) : list Z :=
  match off with [] => [] | x :: off => x :: to_relative x off end.

(** ** Decomposition into digits *)

(** [while (0 != amount)]: the values given to the two handlers, in order.
    Twenty rounds are enough for 64 bits. *)
Fixpoint decompose_loop (fuel : nat) (amount dust_threshold dust order : Z) (is_dust_handled : bool)
  : list Z :=
  match fuel with
  | O => []
  | S fuel =>
      if amount =? 0 then (if negb is_dust_handled && negb (dust =? 0) then [dust] else [])
      else
        let chunk := u64 (amount mod 10 * order) in
        let amount := amount / 10 in
        let order := u64 (order * 10) in
        if u64 (dust + chunk) <=? dust_threshold then
          decompose_loop fuel amount dust_threshold (u64 (dust + chunk)) order is_dust_handled
        else
          let handle := negb is_dust_handled && negb (dust =? 0) in
          (if handle then [dust] else []) ++ (if negb (chunk =? 0) then [chunk] else [])
          ++ decompose_loop fuel amount dust_threshold dust order (is_dust_handled || handle)
  end.

Definition decompose_amount_into_digits (amount dust_threshold : Z) : list Z :=
  if amount =? 0 then [] else decompose_loop 21 amount dust_threshold 0 1 false.

(** Both handlers of [decomposeAmount] append to the result. *)
Definition decomposeAmount (amount dustThreshold : Z) : list Z :=
  decompose_amount_into_digits amount dustThreshold.

(** ** Sums *)

Lemma sumZ_app l l' : sumZ (l ++ l') = sumZ l + sumZ l'.
Proof. unfold sumZ. induction l; simpl; lia. Qed.

Lemma sumZ_nonneg l : Forall is_u64 l -> 0 <= sumZ l.
Proof. unfold sumZ. induction 1 as [|x l [??]]; simpl; lia. Qed.

Lemma fold_sum {A} (f : A -> Z) l : forall acc,
  fold_left (fun a x => u64 (a + f x)) l (u64 acc) = u64 (acc + sumZ (map f l)).
Proof.
  induction l as [|x l IH]; intros acc; simpl; [by rewrite Z.add_0_r|].
  rewrite wrap_add_l, IH by lia. f_equal. unfold sumZ. simpl. lia.
Qed.

Lemma getOutputAmount_sum tx : getOutputAmount tx = u64 (sumZ (map to_amount (outputs tx))).
Proof. apply (fold_sum to_amount (outputs tx) 0). Qed.

Lemma getInputAmount_sum tx : getInputAmount tx = u64 (sumZ (map input_amount (inputs tx))).
Proof.
  unfold getInputAmount. rewrite <- (Z.add_0_l (sumZ _)), <- (fold_sum input_amount).
  change (u64 0) with 0. assert (is_u64 0) as H0 by mlia. revert H0. generalize 0 as acc.
  induction (inputs tx) as [|[i|i] l IH]; intros acc Hacc; simpl; [done|..].
  - rewrite Z.add_0_r, wrap_small by done. by apply IH.
  - apply IH, wrap_fits. lia.
Qed.

Lemma no_overflow_spec l : forall money, is_u64 money -> Forall is_u64 l ->
  no_overflow money l = true <-> money + sumZ l < 2 ^ 64.
Proof.
  induction l as [|x l IH]; intros money Hm Hl; simpl.
  - unfold sumZ. simpl. rewrite Z.add_0_r. split; [intros _; apply Hm|done].
  - apply Forall_cons in Hl as [Hx Hl]. pose proof (sumZ_nonneg l Hl).
    change (sumZ (x :: l)) with (x + sumZ l). rewrite (Z.add_comm x money).
    destruct (Z.ltb_spec (u64 (money + x)) money) as [L|L].
    + apply wrap_carry_lt in L; [|lia|done..]. split; [done|lia].
    + assert (~ (2 ^ 64 <= money + x)) as N by (rewrite <- wrap_carry_lt; [lia|lia|done..]).
      assert (is_u64 (money + x)) by (destruct Hm, Hx; split; lia).
      rewrite wrap_small by done. rewrite IH by done. lia.
Qed.

(** ** Decomposition *)

(** One decimal digit followed by zeros. *)
Definition round_amount (x : Z) : Prop :=
  exists d k, 1 <= d <= 9 /\ 0 <= k <= 19 /\ x = d * 10 ^ k.

Lemma pow10_succ k : 0 <= k -> 10 ^ (k + 1) = 10 * 10 ^ k.
Proof. intros. rewrite Z.pow_add_r by lia. lia. Qed.

Section Decompose.
Context (dust_threshold : Z).

(** The state of the loop at digit [k]: the rest of the amount and the dust
    still fit, [order] is exact while it is needed, and once the dust has been
    handed out no later digit joins it. *)
Record loop_inv (fuel : nat) (amount dust order k : Z) (handled : bool) : Prop := {
  li_k : 0 <= k;
  li_amount : 0 <= amount < 10 ^ (Z.of_nat fuel - 1);
  li_dust : 0 <= dust;
  li_total : amount * 10 ^ k + dust < 2 ^ 64;
  li_order : amount <> 0 -> order = 10 ^ k;
  li_small : dust <= dust_threshold \/ dust = 0;
  li_handled : handled = true -> dust_threshold < dust + 10 ^ k
}.

Lemma loop_step fuel amount dust order k handled :
  loop_inv (S fuel) amount dust order k handled -> amount <> 0 ->
  let chunk := amount mod 10 * 10 ^ k in
  u64 (amount mod 10 * order) = chunk /\ u64 (dust + chunk) = dust + chunk /\
  0 <= chunk /\ chunk < 10 ^ (k + 1) /\ (chunk <> 0 -> 10 ^ k <= chunk) /\ fuel <> O /\
  amount * 10 ^ k = amount / 10 * 10 ^ (k + 1) + chunk /\
  0 <= amount / 10 < 10 ^ (Z.of_nat fuel - 1) /\
  (amount / 10 <> 0 -> u64 (order * 10) = 10 ^ (k + 1)).
Proof.
  intros [Hk Ha Hd Ht Ho Hs Hh] Hne. rewrite (Ho Hne). cbv zeta.
  pose proof (Z.div_mod amount 10) as E. pose proof (Z.mod_pos_bound amount 10 ltac:(lia)) as Hm.
  assert (0 < 10 ^ k) as Hp by (apply Z.pow_pos_nonneg; lia). rewrite pow10_succ by lia.
  set (q := amount / 10) in *. set (d := amount mod 10) in *.
  assert (fuel <> O) as Hf.
  { intros ->. simpl in Ha. lia. }
  assert (10 ^ (Z.of_nat (S fuel) - 1) = 10 * 10 ^ (Z.of_nat fuel - 1)) as Ef.
  { rewrite <- pow10_succ by lia. f_equal. lia. }
  assert (0 <= q) by nia. assert (d * 10 ^ k + q * (10 * 10 ^ k) = amount * 10 ^ k) as Em by nia.
  assert (0 <= q * (10 * 10 ^ k)) by nia. assert (0 <= d * 10 ^ k) by nia.
  split; [apply wrap_small; mlia|]. split; [apply wrap_small; mlia|].
  split; [done|]. split; [nia|].
  split; [intros N; assert (d <> 0) by (intros D; apply N; rewrite D; lia); nia|].
  split; [done|]. split; [lia|]. split; [lia|].
  intros Hq. rewrite wrap_small; [lia|]. assert (10 * 10 ^ k <= q * (10 * 10 ^ k)) by nia. mlia.
Qed.

Lemma decompose_loop_sum fuel : forall amount dust order k handled,
  loop_inv fuel amount dust order k handled -> (0 < fuel)%nat ->
  sumZ (decompose_loop fuel amount dust_threshold dust order handled) =
    amount * 10 ^ k + (if handled then 0 else dust).
Proof.
  induction fuel as [|fuel IH]; intros amount dust order k handled H Hf; [lia|].
  cbn [decompose_loop]. destruct (Z.eqb_spec amount 0) as [->|Hne].
  - destruct handled; simpl; [done|]. destruct (Z.eqb_spec dust 0); simpl; lia.
  - destruct (loop_step _ _ _ _ _ _ H Hne) as (E1 & E2 & C0 & C1 & C2 & F & E3 & Q & O).
    destruct H as [Hk Ha Hd Ht Ho Hs Hh]. rewrite E1, E2, E3 in *.
    set (chunk := amount mod 10 * 10 ^ k) in *. assert (0 < 10 ^ k) by (apply Z.pow_pos_nonneg; lia).
    destruct (Z.leb_spec (dust + chunk) dust_threshold).
    + rewrite (IH _ _ _ (k + 1)); [|split; try done; try lia|lia].
      * destruct handled; [specialize (Hh eq_refl)|]; lia.
      * intros Hd'. specialize (Hh Hd'). rewrite pow10_succ by lia. lia.
    + rewrite !sumZ_app, (IH _ _ _ (k + 1)); [|split; try done; try lia|lia].
      destruct handled, (Z.eqb_spec dust 0), (Z.eqb_spec chunk 0); simpl; lia.
Qed.

Lemma decompose_loop_parts fuel : forall amount dust order k handled,
  loop_inv fuel amount dust order k handled -> 0 <= dust_threshold ->
  Forall (fun x => 0 < x /\ (x <= dust_threshold \/ round_amount x))
    (decompose_loop fuel amount dust_threshold dust order handled).
Proof.
  induction fuel as [|fuel IH]; intros amount dust order k handled H Hthr; [constructor|].
  cbn [decompose_loop]. destruct (Z.eqb_spec amount 0) as [->|Hne].
  - destruct H as [_ _ Hd _ _ Hs _].
    destruct handled, (Z.eqb_spec dust 0); simpl; repeat constructor; try lia.
  - destruct (loop_step _ _ _ _ _ _ H Hne) as (E1 & E2 & C0 & C1 & C2 & F & E3 & Q & O).
    destruct H as [Hk Ha Hd Ht Ho Hs Hh]. rewrite E1, E2.
    assert (0 < 10 ^ k) by (apply Z.pow_pos_nonneg; lia).
    pose proof (pow10_succ k Hk). pose proof (Z.mod_pos_bound amount 10 ltac:(lia)).
    set (chunk := amount mod 10 * 10 ^ k) in *.
    destruct (Z.leb_spec (dust + chunk) dust_threshold).
    + apply (IH _ _ _ (k + 1)); [|done]. split; try done; try lia.
      intros Hd'. specialize (Hh Hd'). lia.
    + repeat apply Forall_app_2.
      * destruct (negb handled && _) eqn:E; [|constructor].
        apply andb_true_iff in E as [_ E]. constructor; [lia|constructor].
      * destruct (Z.eqb_spec chunk 0); constructor; [|constructor]. split; [lia|]. right.
        exists (amount mod 10), k. split; [nia|]. split; [|done]. split; [lia|].
        assert (k < 20); [|lia]. apply (Z.pow_lt_mono_r_iff 10); [lia..|].
        assert (1 <= amount) by lia. change (10 ^ 20) with 100000000000000000000. mnia.
      * apply (IH _ _ _ (k + 1)); [|done]. split; try done; try lia.
Qed.

Lemma loop_inv_start amount : is_u64 amount -> loop_inv 21 amount 0 1 0 false.
Proof.
  intros [??]. split; try lia; try done.
Qed.
End Decompose.

Lemma decompose_parts amount dustThreshold :
  is_u64 amount -> 0 <= dustThreshold ->
  sumZ (decomposeAmount amount dustThreshold) = amount /\
  Forall (fun x => 0 < x /\ (x <= dustThreshold \/ round_amount x))
    (decomposeAmount amount dustThreshold).
Proof.
  intros Ha Ht. unfold decomposeAmount, decompose_amount_into_digits.
  pose proof (loop_inv_start dustThreshold amount Ha) as H.
  destruct (Z.eqb_spec amount 0) as [->|]; [done|]. split.
  - rewrite (decompose_loop_sum dustThreshold 21 _ _ _ 0) by (done || lia). lia.
  - by apply (decompose_loop_parts dustThreshold 21 _ _ _ 0).
Qed.

(** ** Theorems *)

(** Splitting an amount into digits loses nothing: the parts add up to the
    amount, and each is either dust or one digit followed by zeros. *)
Theorem decomposeAmount_sum amount dustThreshold :
  is_u64 amount -> 0 <= dustThreshold ->
  sumZ (decomposeAmount amount dustThreshold) = amount /\
  Forall (fun x => 0 < x /\ (x <= dustThreshold \/ round_amount x))
    (decomposeAmount amount dustThreshold).
Proof. apply decompose_parts. Qed.

Lemma decomposeAmount_sum_witness :
  sumZ (decomposeAmount 62387455827 500000) = 62387455827 /\
  Forall (fun x => 0 < x /\ (x <= 500000 \/ round_amount x)) (decomposeAmount 62387455827 500000).
Proof. apply (decomposeAmount_sum 62387455827 500000); [mlia|lia]. Defined.

(** The overflow checks are exact: they pass just when the amounts add up
    to a 64-bit number. *)
Theorem checkOverflow_exact tx :
  Forall is_TransactionInput (inputs tx) -> Forall is_TransactionOutput (outputs tx) ->
  (checkInputsOverflow tx = true <-> sumZ (map input_amount (inputs tx)) < 2 ^ 64) /\
  (checkOutsOverflow tx = true <-> sumZ (map to_amount (outputs tx)) < 2 ^ 64).
Proof.
  intros Hi Ho. unfold checkInputsOverflow, checkOutsOverflow.
  split; (rewrite no_overflow_spec; [by rewrite Z.add_0_l|mlia|]).
  - apply Forall_map. eapply Forall_impl; [exact Hi|]. intros [i|i] H; simpl; [mlia|apply H].
  - apply Forall_map. eapply Forall_impl; [exact Ho|]. intros o H. apply H.
Qed.

(** A transaction with two inputs and one output. *)
Definition sample_prefix : TransactionPrefix :=
  {| version := 1; unlockTime := 0;
     inputs := [InKey {| ki_amount := 7; outputIndexes := [3; 4]; keyImage := replicate 32 1 |};
                InKey {| ki_amount := 5; outputIndexes := [9]; keyImage := replicate 32 2 |}];
     outputs := [{| to_amount := 10; target := OutKey {| key := replicate 32 3 |} |}];
     extra := [] |}.

Lemma checkOverflow_exact_witness :
  (checkInputsOverflow sample_prefix = true <-> sumZ (map input_amount (inputs sample_prefix)) < 2 ^ 64) /\
  (checkOutsOverflow sample_prefix = true <-> sumZ (map to_amount (outputs sample_prefix)) < 2 ^ 64).
Proof. apply (checkOverflow_exact sample_prefix); evaluate. Defined.

(** On a transaction that passes both overflow checks the fee is exact:
    [get_tx_fee] fails just when the outputs exceed the inputs, and otherwise
    inputs are outputs plus fee. *)
Theorem get_tx_fee_exact tx :
  Forall is_TransactionInput (inputs tx) -> Forall is_TransactionOutput (outputs tx) ->
  checkInputsOverflow tx = true -> checkOutsOverflow tx = true ->
  match get_tx_fee tx with
  | Some fee => sumZ (map input_amount (inputs tx)) = sumZ (map to_amount (outputs tx)) + fee /\ 0 <= fee
  | None => sumZ (map input_amount (inputs tx)) < sumZ (map to_amount (outputs tx))
  end.
Proof.
  intros Hi Ho Ci Co.
  assert (Forall is_u64 (map input_amount (inputs tx))) as Fi.
  { apply Forall_map. eapply Forall_impl; [exact Hi|]. intros [i|i] H; simpl; [mlia|apply H]. }
  assert (Forall is_u64 (map to_amount (outputs tx))) as Fo.
  { apply Forall_map. eapply Forall_impl; [exact Ho|]. intros o H. apply H. }
  apply no_overflow_spec in Ci, Co; [|done || mlia..].
  apply sumZ_nonneg in Fi, Fo. unfold get_tx_fee.
  rewrite getInputAmount_sum, getOutputAmount_sum, !(wrap_small 64 (sumZ _)) by (split; lia).
  destruct (Z.leb_spec (sumZ (map to_amount (outputs tx))) (sumZ (map input_amount (inputs tx)))); simpl.
  - rewrite wrap_small by (split; lia). lia.
  - lia.
Qed.

Lemma get_tx_fee_exact_witness :
  match get_tx_fee sample_prefix with
  | Some fee => sumZ (map input_amount (inputs sample_prefix)) =
                sumZ (map to_amount (outputs sample_prefix)) + fee /\ 0 <= fee
  | None => sumZ (map input_amount (inputs sample_prefix)) <
            sumZ (map to_amount (outputs sample_prefix))
  end.
Proof. apply (get_tx_fee_exact sample_prefix); [evaluate|evaluate|reflexivity|reflexivity]. Defined.

Lemma to_absolute_relative off : forall previous,
  Forall is_u32 off -> to_absolute previous (to_relative previous off) = off.
Proof.
  induction off as [|x off IH]; intros previous H; simpl; [done|].
  apply Forall_cons in H as [Hx H]. rewrite wrap_add_l by lia.
  rewrite Z.sub_add, wrap_small by done. by rewrite IH.
Qed.

Lemma to_relative_absolute off : forall previous,
  Forall is_u32 off -> to_relative previous (to_absolute previous off) = off.
Proof.
  induction off as [|x off IH]; intros previous H; simpl; [done|].
  apply Forall_cons in H as [Hx H]. rewrite wrap_sub_l by lia.
  rewrite Z.add_simpl_r, wrap_small by done. by rewrite IH.
Qed.

(** The two representations of output offsets are inverse to each other on
    lists of 32-bit numbers, wrap-around included. *)
Theorem output_offsets_inverse off :
  Forall is_u32 off ->
  relativeOutputOffsetsToAbsolute (absolute_output_offsets_to_relative off) = off /\
  absolute_output_offsets_to_relative (relativeOutputOffsetsToAbsolute off) = off.
Proof.
  intros H. destruct off as [|x off]; [done|]. apply Forall_cons in H as [_ H]. simpl.
  by rewrite to_absolute_relative, to_relative_absolute.
Qed.

Lemma output_offsets_inverse_witness :
  relativeOutputOffsetsToAbsolute (absolute_output_offsets_to_relative [5; 9; 2]) = [5; 9; 2] /\
  absolute_output_offsets_to_relative (relativeOutputOffsetsToAbsolute [5; 9; 2]) = [5; 9; 2].
Proof. apply (output_offsets_inverse [5; 9; 2]). evaluate. Defined.
