(* ===== verification/TxExtra.v ===== *)
(** * The extra field of a transaction
      ([src/mevacoin_core/transaction_extra.cpp], [transaction_extra.h])

    A byte string that holds a sequence of tagged fields: zero padding, the
    transaction public key, a nonce (which may carry a payment id) and the
    merge-mining tag. *)

From S2P Require Import Prelude Config StringTools Stream Serializer Transaction.

Definition TX_EXTRA_PADDING_MAX_COUNT : Z := 255.
Definition TX_EXTRA_NONCE_MAX_COUNT : Z := 255.
Definition TX_EXTRA_TAG_PADDING : Z := 0x00.
Definition TX_EXTRA_TAG_PUBKEY : Z := 0x01.
Definition TX_EXTRA_NONCE : Z := 0x02.
Definition TX_EXTRA_MERGE_MINING_TAG : Z := 0x03.
Definition TX_EXTRA_NONCE_PAYMENT_ID : Z := 0x00.

Record TransactionExtraMergeMiningTag := { depth : Z; merkleRoot : Hash }.

Inductive TransactionExtraField :=
| ExtraPadding (size : Z)
| ExtraPublicKey (publicKey : PublicKey)
| ExtraNonce (nonce : bytes)
| ExtraMergeMiningTag (tag : TransactionExtraMergeMiningTag).

#[global] Instance TransactionExtraMergeMiningTag_eq_dec : EqDecision TransactionExtraMergeMiningTag.
Proof. solve_decision. Defined.
#[global] Instance TransactionExtraField_eq_dec : EqDecision TransactionExtraField.
Proof. solve_decision. Defined.

(** ** The merge-mining tag *)

Definition doSerialize : codec TransactionExtraMergeMiningTag :=
  {| put := fun tag : TransactionExtraMergeMiningTag =>
       put (varint 64) (depth tag) +++ put serialize_hash (merkleRoot tag);
     get := d ← get (varint 64); root ← get serialize_hash;
            mret {| depth := d; merkleRoot := root |} |}.

(** The tag is written to a string of its own, which is then written as a
    field; the reader ignores what follows the tag in that string. *)
Definition serialize_MergeMiningTag : codec TransactionExtraMergeMiningTag :=
  {| put := fun tag : TransactionExtraMergeMiningTag =>
       field ← put doSerialize tag; put (blob false) field;
     get := field ← get (blob true);
            rd_lift (tag ← get doSerialize field; mret (fst tag)) |}.

(** ** Parsing *)

(** The tags met so far. *)
Record seen_tags := {
  seen_padding : bool; seen_pubkey : bool; seen_nonce : bool; seen_merge_mining_tag : bool
}.

Definition unseen : seen_tags :=
  {| seen_padding := false; seen_pubkey := false; seen_nonce := false;
     seen_merge_mining_tag := false |}.

(** The padding loop: [None] when a byte is not zero, else the final [size]. *)
Fixpoint read_padding (size : Z) (stream : bytes) : option (Z * bytes) :=
  match stream with
  | [] => Some (size, [])
  | b :: stream' =>
      if size <=? TX_EXTRA_PADDING_MAX_COUNT then
        if b =? 0 then read_padding (size + 1) stream' else None
      else Some (size, stream)
  end.

(** The nonce after its tag: one byte of size, then the data. *)
Definition read_nonce : rd bytes :=
  size ← read_uint 1; if 0 <? size then read size else mret [].

(** The result of [parseTransactionExtra] and the fields pushed so far.  An
    exception of a reader ends the loop with [false]. *)
Fixpoint parse_loop (fuel : nat) (seen : seen_tags) (fields : list TransactionExtraField)
    (iss : bytes) : bool * list TransactionExtraField :=
  match fuel with
  | O => (true, fields)
  | S fuel =>
    if MemoryInputStream.endOfStream iss then (true, fields) else
    match read_uint 1 iss with
    | Throw _ => (false, fields)
    | Ok (c, iss) =>
      if c =? TX_EXTRA_TAG_PADDING then
        if seen_padding seen then (true, fields) else
        match read_padding 1 iss with
        | None => (false, fields)
        | Some (size, iss) =>
            if TX_EXTRA_PADDING_MAX_COUNT <? size then (false, fields)
            else parse_loop fuel
                   {| seen_padding := true; seen_pubkey := seen_pubkey seen;
                      seen_nonce := seen_nonce seen;
                      seen_merge_mining_tag := seen_merge_mining_tag seen |}
                   (fields ++ [ExtraPadding size]) iss
        end
      else if c =? TX_EXTRA_TAG_PUBKEY then
        if seen_pubkey seen then (true, fields) else
        match get serialize_hash iss with
        | Throw _ => (false, fields)
        | Ok (publicKey, iss) =>
            parse_loop fuel
              {| seen_padding := seen_padding seen; seen_pubkey := true;
                 seen_nonce := seen_nonce seen;
                 seen_merge_mining_tag := seen_merge_mining_tag seen |}
              (fields ++ [ExtraPublicKey publicKey]) iss
        end
      else if c =? TX_EXTRA_NONCE then
        if seen_nonce seen then (true, fields) else
        match read_nonce iss with
        | Throw _ => (false, fields)
        | Ok (nonce, iss) =>
            parse_loop fuel
              {| seen_padding := seen_padding seen; seen_pubkey := seen_pubkey seen;
                 seen_nonce := true;
                 seen_merge_mining_tag := seen_merge_mining_tag seen |}
              (fields ++ [ExtraNonce nonce]) iss
        end
      else if c =? TX_EXTRA_MERGE_MINING_TAG then
        if seen_merge_mining_tag seen then parse_loop fuel seen fields iss else
        match get serialize_MergeMiningTag iss with
        | Throw _ => (false, fields)
        | Ok (mmTag, iss) =>
            parse_loop fuel
              {| seen_padding := seen_padding seen; seen_pubkey := seen_pubkey seen;
                 seen_nonce := seen_nonce seen; seen_merge_mining_tag := true |}
              (fields ++ [ExtraMergeMiningTag mmTag]) iss
        end
      else parse_loop fuel seen fields iss
    end
  end.

Definition parseTransactionExtra (transactionExtra : bytes) : bool * list TransactionExtraField :=
  parse_loop (length transactionExtra) unseen [] transactionExtra.

(** ** Writing *)

Definition addTransactionPublicKeyToExtra (tx_extra : bytes) (tx_pub_key : PublicKey) : bytes :=
  tx_extra ++ TX_EXTRA_TAG_PUBKEY :: tx_pub_key.

(** [(result, tx_extra)] *)
Definition addExtraNonceToTransactionExtra (tx_extra extra_nonce : bytes) : bool * bytes :=
  if TX_EXTRA_NONCE_MAX_COUNT <? Z.of_nat (length extra_nonce) then (false, tx_extra)
  else (true, tx_extra ++ TX_EXTRA_NONCE :: u8 (Z.of_nat (length extra_nonce)) :: extra_nonce).

Definition appendMergeMiningTagToExtra (tx_extra : bytes) (mm_tag : TransactionExtraMergeMiningTag)
  : bool * bytes :=
  match toBinaryArray serialize_MergeMiningTag mm_tag with
  | None => (false, tx_extra)
  | Some blob => (true, tx_extra ++ TX_EXTRA_MERGE_MINING_TAG :: blob)
  end.

Definition ExtraSerializerVisitor (extra : bytes) (t : TransactionExtraField) : bool * bytes :=
  match t with
  | ExtraPadding size =>
      if TX_EXTRA_PADDING_MAX_COUNT <? size then (false, extra)
      else (true, extra ++ replicate (Z.to_nat size) 0)
  | ExtraPublicKey publicKey => (true, addTransactionPublicKeyToExtra extra publicKey)
  | ExtraNonce nonce => addExtraNonceToTransactionExtra extra nonce
  | ExtraMergeMiningTag tag => appendMergeMiningTagToExtra extra tag
  end.

Fixpoint writeTransactionExtra (tx_extra : bytes) (tx_extra_fields : list TransactionExtraField)
  : bool * bytes :=
  match tx_extra_fields with
  | [] => (true, tx_extra)
  | tag :: fields =>
      match ExtraSerializerVisitor tx_extra tag with
      | (false, tx_extra) => (false, tx_extra)
      | (true, tx_extra) => writeTransactionExtra tx_extra fields
      end
  end.

(** ** Field access *)

(** [findTransactionExtraFieldByType<T>]; [as_T] is [boost::get<T>]. *)
Fixpoint findTransactionExtraFieldByType {T} (as_T : TransactionExtraField -> option T)
    (tx_extra_fields : list TransactionExtraField) : option T :=
  match tx_extra_fields with
  | [] => None
  | f :: fields =>
      match as_T f with
      | Some field => Some field
      | None => findTransactionExtraFieldByType as_T fields
      end
  end.

Definition as_publicKey (f : TransactionExtraField) : option PublicKey :=
  match f with ExtraPublicKey k => Some k | _ => None end.
Definition as_nonce (f : TransactionExtraField) : option bytes :=
  match f with ExtraNonce n => Some n | _ => None end.
Definition as_mergeMiningTag (f : TransactionExtraField) : option TransactionExtraMergeMiningTag :=
  match f with ExtraMergeMiningTag t => Some t | _ => None end.

(** Fields parsed before a failure still count: the result of
    [parseTransactionExtra] is not looked at. *)
Definition getTransactionPublicKeyFromExtra (tx_extra : bytes) : PublicKey :=
  match findTransactionExtraFieldByType as_publicKey (parseTransactionExtra tx_extra).2 with
  | None => replicate 32 0
  | Some publicKey => publicKey
  end.

Definition getMergeMiningTagFromExtra (tx_extra : bytes) : option TransactionExtraMergeMiningTag :=
  findTransactionExtraFieldByType as_mergeMiningTag (parseTransactionExtra tx_extra).2.

(** ** Payment ids *)

Definition setPaymentIdToTransactionExtraNonce (payment_id : Hash) : bytes :=
  TX_EXTRA_NONCE_PAYMENT_ID :: payment_id.

Definition getPaymentIdFromTransactionExtraNonce (extra_nonce : bytes) : option Hash :=
  if negb (32 + 1 =? Z.of_nat (length extra_nonce)) then None
  else if negb (TX_EXTRA_NONCE_PAYMENT_ID =? nth 0 extra_nonce 0) then None
  else Some (drop 1 extra_nonce).

Abbreviation parsePaymentId paymentIdString := (podFromHex 32 paymentIdString) (only parsing).

Definition createTxExtraWithPaymentId (paymentIdString extra : bytes) : bool * bytes :=
  match parsePaymentId paymentIdString with
  | None => (false, extra)
  | Some paymentIdBin =>
      addExtraNonceToTransactionExtra extra (setPaymentIdToTransactionExtraNonce paymentIdBin)
  end.

Definition getPaymentIdFromTxExtra (extra : bytes) : option Hash :=
  match parseTransactionExtra extra with
  | (false, _) => None
  | (true, fields) =>
      match findTransactionExtraFieldByType as_nonce fields with
      | Some nonce => getPaymentIdFromTransactionExtraNonce nonce
      | None => None
      end
  end.

(** ** Well-formed field lists *)

Definition is_MergeMiningTag (t : TransactionExtraMergeMiningTag) : Prop :=
  is_u64 (depth t) /\ is_key (merkleRoot t).

Definition is_ExtraField (f : TransactionExtraField) : Prop :=
  match f with
  | ExtraPadding size => 1 <= size <= TX_EXTRA_PADDING_MAX_COUNT
  | ExtraPublicKey k => is_key k
  | ExtraNonce n => Z.of_nat (length n) <= TX_EXTRA_NONCE_MAX_COUNT /\ is_bytes n
  | ExtraMergeMiningTag t => is_MergeMiningTag t
  end.

#[global] Instance is_ExtraField_dec f : Decision (is_ExtraField f).
Proof. destruct f; simpl; unfold is_MergeMiningTag; apply _. Defined.

Definition field_tag (f : TransactionExtraField) : Z :=
  match f with
  | ExtraPadding _ => TX_EXTRA_TAG_PADDING
  | ExtraPublicKey _ => TX_EXTRA_TAG_PUBKEY
  | ExtraNonce _ => TX_EXTRA_NONCE
  | ExtraMergeMiningTag _ => TX_EXTRA_MERGE_MINING_TAG
  end.

(** Padding runs to the end of the extra field. *)
Fixpoint padding_last (fields : list TransactionExtraField) : Prop :=
  match fields with
  | [] => True
  | f :: fields => (field_tag f = TX_EXTRA_TAG_PADDING -> fields = []) /\ padding_last fields
  end.

Record wf_fields (fields : list TransactionExtraField) : Prop := {
  wf_valid : Forall is_ExtraField fields;
  wf_once : NoDup (field_tag <$> fields);
  wf_padding : padding_last fields
}.

(** ** The merge-mining tag round trip *)

#[global] Instance doSerialize_ok : CodecOk doSerialize is_MergeMiningTag.
Proof.
  split.
  - intros [d r] [??]. cbn [put get doSerialize]. do 2 emits_step.
  - intros stream t rest Hb H. cbn [get doSerialize] in H. rd_inv. codec_invert.
    split; [by split|]. cbn [put doSerialize]. codec_written.
Qed.

Lemma writeVarint_loop_length n v : (length (writeVarint_loop n v) <= n)%nat.
Proof. revert v. induction n; intros v; simpl; [lia|]. destruct (_ <=? _); simpl; [|lia]. specialize (IHn (Z.shiftr v 7)). lia. Qed.

Lemma doSerialize_length t bs :
  is_MergeMiningTag t -> put doSerialize t = Ok bs -> (length bs <= 42)%nat.
Proof.
  intros [_ [Hl _]] [= <-]. rewrite length_app, Hl.
  pose proof (writeVarint_loop_length 10 (depth t)). unfold writeVarint. lia.
Qed.

(** A string that is not too long reads the same under any name. *)
Lemma blob_short mm_tag v rest :
  is_bytes v -> Z.of_nat (length v) <= MAX_EXTRA_SIZE ->
  get (blob mm_tag) (writeVarint (Z.of_nat (length v)) ++ v ++ rest) = Ok (v, rest).
Proof.
  intros Hv Hl.
  assert (is_u64 (Z.of_nat (length v))) as Hs by mlia. cbn [get blob].
  rewrite (rd_bind_step _ _ _ _ _ (readVarint_writeVarint 64 ltac:(lia) _ _ Hs)).
  rewrite (proj2 (Z.ltb_ge 2200 _)) by lia. cbn [andb].
  destruct (Z.ltb_spec 0 (Z.of_nat (length v))); [apply read_app|].
  destruct v; [done|simpl in *; lia].
Qed.

#[global] Instance MergeMiningTag_round_trip : RoundTrip serialize_MergeMiningTag is_MergeMiningTag.
Proof.
  intros t Ht. destruct (round_trip (c := doSerialize) t Ht) as (f & P & Hf & G).
  pose proof (doSerialize_length t f Ht P).
  exists (writeVarint (Z.of_nat (length f)) ++ f). cbn [put serialize_MergeMiningTag].
  rewrite P. split; [done|]. split; [apply Forall_app; split; [apply writeVarint_bytes; lia|done]|].
  intros rest. rewrite <- app_assoc. cbn [get serialize_MergeMiningTag].
  rewrite (rd_bind_step _ _ _ _ _ (blob_short true f rest Hf ltac:(lia))).
  specialize (G []). rewrite app_nil_r in G. rewrite G. done.
Qed.

(** ** Parsing what was written *)

Definition mark (f : TransactionExtraField) (seen : seen_tags) : seen_tags :=
  let t := field_tag f in
  {| seen_padding := seen_padding seen || (t =? TX_EXTRA_TAG_PADDING);
     seen_pubkey := seen_pubkey seen || (t =? TX_EXTRA_TAG_PUBKEY);
     seen_nonce := seen_nonce seen || (t =? TX_EXTRA_NONCE);
     seen_merge_mining_tag := seen_merge_mining_tag seen || (t =? TX_EXTRA_MERGE_MINING_TAG) |}.

Definition is_seen (seen : seen_tags) (f : TransactionExtraField) : bool :=
  match f with
  | ExtraPadding _ => seen_padding seen
  | ExtraPublicKey _ => seen_pubkey seen
  | ExtraNonce _ => seen_nonce seen
  | ExtraMergeMiningTag _ => seen_merge_mining_tag seen
  end.

Lemma is_seen_mark f g seen :
  field_tag f <> field_tag g -> is_seen seen g = false -> is_seen (mark f seen) g = false.
Proof. destruct f, g; cbn; intros H ->; done. Qed.

Lemma read_byte b rest : read_uint 1 (b :: rest) = Ok (b, rest).
Proof.
  unfold read_uint. rewrite (rd_bind_step _ _ _ _ _ (read_app [b] rest)).
  unfold mret, rd_ret. simpl. do 2 f_equal. lia.
Qed.

Lemma read_padding_zeros n size :
  size + Z.of_nat n <= TX_EXTRA_PADDING_MAX_COUNT + 1 ->
  read_padding size (replicate n 0) = Some (size + Z.of_nat n, []).
Proof.
  revert size. induction n as [|n IH]; intros size Hs; simpl; [do 2 f_equal; lia|].
  destruct (Z.leb_spec size TX_EXTRA_PADDING_MAX_COUNT); [|lia].
  rewrite IH by lia. do 2 f_equal. lia.
Qed.

Lemma visitor_bytes f : is_ExtraField f ->
  exists body, is_bytes (field_tag f :: body) /\
    (forall extra, ExtraSerializerVisitor extra f = (true, extra ++ field_tag f :: body)) /\
    (forall n seen fields rest,
      is_seen seen f = false -> (field_tag f = TX_EXTRA_TAG_PADDING -> rest = []) ->
      parse_loop (S n) seen fields (field_tag f :: body ++ rest) =
        parse_loop n (mark f seen) (fields ++ [f]) rest).
Proof.
  destruct f as [size|k|nonce|t]; intros Hf; cbn [is_ExtraField field_tag is_seen] in *.
  - exists (replicate (Z.to_nat (size - 1)) 0).
    assert (Z.to_nat size = S (Z.to_nat (size - 1))) as Hn by lia.
    split; [constructor; [done|]; apply Forall_replicate; done|]. split.
    + intros extra. cbn [ExtraSerializerVisitor]. rewrite (proj2 (Z.ltb_ge _ _)) by lia.
      by rewrite Hn.
    + intros n seen fields rest Hs Hr. rewrite (Hr eq_refl), app_nil_r. cbn [parse_loop].
      rewrite read_byte. simpl. rewrite Hs, read_padding_zeros by lia.
      replace (1 + Z.of_nat (Z.to_nat (size - 1))) with size by lia.
      rewrite (proj2 (Z.ltb_ge _ _)) by lia. unfold mark. simpl. by rewrite !orb_false_r, orb_true_r.
  - exists k. split; [constructor; [done|apply Hf]|]. split; [done|].
    intros n seen fields rest Hs _. cbn [parse_loop]. rewrite read_byte. cbn -[get]. rewrite Hs.
    destruct (round_trip (c := serialize_hash) k Hf) as (k' & [= <-] & _ & G). rewrite G. unfold mark. simpl. by rewrite !orb_false_r, orb_true_r.
  - destruct Hf as [Hl Hb]. unfold TX_EXTRA_NONCE_MAX_COUNT in Hl.
    exists (u8 (Z.of_nat (length nonce)) :: nonce). rewrite wrap_small by mlia.
    split; [repeat constructor; mlia || done|]. split.
    + intros extra. cbn [ExtraSerializerVisitor]. unfold addExtraNonceToTransactionExtra.
      rewrite (proj2 (Z.ltb_ge _ _)) by done. by rewrite wrap_small by mlia.
    + intros n seen fields rest Hs _. cbn [parse_loop app]. rewrite read_byte. simpl. rewrite Hs.
      assert (read_nonce (Z.of_nat (length nonce) :: nonce ++ rest) = Ok (nonce, rest)) as ->.
      { unfold read_nonce. rewrite (rd_bind_step _ _ _ _ _ (read_byte _ _)).
        destruct (Z.ltb_spec 0 (Z.of_nat (length nonce))); [apply read_app|].
        destruct nonce; [done|simpl in *; lia]. }
      unfold mark. simpl. by rewrite !orb_false_r, orb_true_r.
  - destruct (round_trip t Hf) as (bs & P & Hb & G). exists bs.
    split; [by constructor|]. split.
    + intros extra. cbn [ExtraSerializerVisitor]. unfold appendMergeMiningTagToExtra, toBinaryArray.
      by rewrite P.
    + intros n seen fields rest Hs _. cbn [parse_loop]. rewrite read_byte. cbn -[get].
      rewrite Hs, G. unfold mark. simpl. by rewrite !orb_false_r, orb_true_r.
Qed.

Lemma parse_loop_end n seen fields : parse_loop n seen fields [] = (true, fields).
Proof. by destruct n. Qed.

Lemma write_parse_loop fields : forall seen acc extra,
  wf_fields fields -> Forall (fun f => is_seen seen f = false) fields ->
  exists bs, is_bytes bs /\ writeTransactionExtra extra fields = (true, extra ++ bs) /\
    forall n, (length bs <= n)%nat -> parse_loop n seen acc bs = (true, acc ++ fields).
Proof.
  induction fields as [|f fields IH]; intros seen acc extra [HV HN HP] HS.
  - exists []. rewrite !app_nil_r. split; [done|]. split; [done|]. intros. apply parse_loop_end.
  - apply Forall_cons in HV as [Vf HV], HS as [Sf HS].
    apply NoDup_cons in HN as [Nf HN]. destruct HP as [Pf HP].
    destruct (visitor_bytes f Vf) as (body & Hb & W & R). cbn [writeTransactionExtra]. rewrite W.
    destruct (IH (mark f seen) (acc ++ [f]) (extra ++ field_tag f :: body)) as (bs & Hbs & E & G).
    { done. }
    { rewrite Forall_forall in HS |- *. intros g Hg. apply is_seen_mark; [|by apply HS].
      intros E. apply Nf. rewrite E. by apply list_elem_of_fmap_2. }
    exists (field_tag f :: body ++ bs). rewrite E. split; [by apply (Forall_app_2 _ (field_tag f :: body))|].
    split; [by rewrite <- app_assoc|]. intros [|n] Hn; [simpl in Hn; lia|].
    rewrite R; [|done|].
    + rewrite G; [by rewrite <- app_assoc|]. simpl in Hn. rewrite length_app in Hn. lia.
    + intros T. specialize (Pf T). subst. injection E as E.
      rewrite <- (app_nil_r (extra ++ _)) in E at 1. by apply app_inv_head in E.
Qed.

Lemma writeTransactionExtra_app fs gs ex ex' :
  writeTransactionExtra ex fs = (true, ex') ->
  writeTransactionExtra ex (fs ++ gs) = writeTransactionExtra ex' gs.
Proof.
  revert ex. induction fs as [|f fs IH]; intros ex H; simpl in *; [by simplify_eq|].
  destruct (ExtraSerializerVisitor ex f) as [[] ex1]; [by apply IH|done].
Qed.

Lemma padding_last_app fs g :
  Forall (fun f => field_tag f <> TX_EXTRA_TAG_PADDING) fs -> padding_last (fs ++ [g]).
Proof. induction 1; simpl; [done|]. split; done. Qed.

Lemma wf_fields_snoc fs g :
  wf_fields fs -> is_ExtraField g -> field_tag g ∉ (field_tag <$> fs) ->
  Forall (fun f => field_tag f <> TX_EXTRA_TAG_PADDING) fs -> wf_fields (fs ++ [g]).
Proof.
  intros [HV HN HP] Hg Hn Hp. split.
  - apply Forall_app. by repeat constructor.
  - rewrite fmap_app. apply NoDup_app. split; [done|]. split; [|apply NoDup_singleton].
    intros x Hx Hx'. apply list_elem_of_singleton in Hx'. by subst.
  - by apply padding_last_app.
Qed.

Lemma find_field_app {T} (as_T : TransactionExtraField -> option T) fs g t :
  Forall (fun f => as_T f = None) fs -> as_T g = Some t ->
  findTransactionExtraFieldByType as_T (fs ++ [g]) = Some t.
Proof. induction 1 as [|f fs Hf _ IH]; simpl; intros Hg; [by rewrite Hg|]. rewrite Hf. auto. Qed.

(** *** The number of rounds *)

(** A reader that never grows the stream. *)
Definition shrinks {A} (g : rd A) : Prop :=
  forall s a r, is_bytes s -> g s = Ok (a, r) -> (length r <= length s)%nat /\ is_bytes r.

Lemma shrinks_bind {A B} (g : rd A) (h : A -> rd B) :
  shrinks g -> (forall a, shrinks (h a)) -> shrinks (g ≫= h).
Proof.
  intros Hg Hh s b r Hs H. apply rd_bind_Ok in H as (a & s' & G & H).
  apply Hg in G as [? ?]; [|done]. apply Hh in H as [? ?]; [|done]. split; [lia|done].
Qed.

Lemma shrinks_read size : shrinks (read size).
Proof.
  intros s a r Hs H. rewrite read_eq in H. destruct (size <=? 0); [by simplify_eq|].
  destruct (_ <=? _); [|done]. simplify_eq. rewrite length_drop.
  split; [lia|]. by apply Forall_drop.
Qed.

Lemma shrinks_get {A} (c : codec A) valid `{!CodecOk c valid} : shrinks (get c).
Proof.
  intros s a r Hs H. apply put_get in H as (_ & bs & _ & ->); [|done].
  apply is_bytes_app_inv in Hs as [??]. rewrite length_app. split; [lia|done].
Qed.

Lemma shrinks_ret {A} (a : A) : shrinks (mret a).
Proof. intros s b r Hs [= <- <-]. done. Qed.

Lemma shrinks_if {A} (b : bool) (g h : rd A) : shrinks g -> shrinks h -> shrinks (if b then g else h).
Proof. by destruct b. Qed.

Lemma shrinks_read_nonce : shrinks read_nonce.
Proof.
  apply shrinks_bind; [apply (shrinks_get (pod_uint 1) _)|]. intros size.
  apply shrinks_if; [apply shrinks_read|apply shrinks_ret].
Qed.

Lemma shrinks_MergeMiningTag : shrinks (get serialize_MergeMiningTag).
Proof.
  cbn [get serialize_MergeMiningTag blob]. apply shrinks_bind.
  - apply shrinks_bind; [apply (shrinks_get (varint 64) _)|]. intros size.
    apply shrinks_if; [apply shrinks_bind; [apply shrinks_read|intros; apply shrinks_ret]|].
    apply shrinks_if; [apply shrinks_read|apply shrinks_ret].
  - intros f s a r Hs H. unfold rd_lift in H. destruct (mbind _ _) in H; [|done]. by simplify_eq.
Qed.

Lemma shrinks_padding s : forall size size' r, is_bytes s ->
  read_padding size s = Some (size', r) -> (length r <= length s)%nat /\ is_bytes r.
Proof.
  induction s as [|b s IH]; intros size size' r Hs H; simpl in H; [by simplify_eq|].
  apply Forall_cons in Hs as [Hb Hs]. destruct (_ <=? _); [|simplify_eq; split; [done|by constructor]].
  destruct (b =? 0); [|done]. apply IH in H as [??]; [|done]. simpl. split; [lia|done].
Qed.

Lemma read_padding_bounds s : forall size size' r,
  1 <= size -> read_padding size s = Some (size', r) -> 1 <= size'.
Proof.
  induction s as [|b s IH]; intros size size' r Hs H; simpl in H; [by simplify_eq|].
  destruct (_ <=? _); [|by simplify_eq]. destruct (b =? 0); [|done]. apply IH in H; lia.
Qed.

(** As many rounds as there are bytes are enough: more change nothing. *)
Lemma parse_loop_fuel n : forall m seen fields iss,
  is_bytes iss -> (length iss <= n)%nat -> (length iss <= m)%nat ->
  parse_loop n seen fields iss = parse_loop m seen fields iss.
Proof.
  induction n as [|n IH]; intros m seen fields [|b iss] Hb Hn Hm; simpl in Hn; try lia;
    rewrite ?parse_loop_end; [done..|].
  destruct m as [|m]; simpl in Hm; [lia|]. apply Forall_cons in Hb as [_ Hb].
  cbn [parse_loop]. rewrite read_byte. cbn [MemoryInputStream.endOfStream].
  repeat match goal with
  | |- (if ?b then _ else _) = (if ?b then _ else _) => destruct b; [try done|]
  end.
  all: try (apply IH; [done|lia..]).
  all: try (destruct (read_padding 1 iss) as [[size iss']|] eqn:E; [|done];
    apply shrinks_padding in E as [??]; [|done]; destruct (_ <? _); [done|]; apply IH; [done|lia..]).
  all: match goal with Hb : is_bytes ?i |- context [match ?g ?i with _ => _ end] =>
    destruct (g i) as [[x iss']|] eqn:E; [|done] end.
  - apply (shrinks_get serialize_hash _) in E as [??]; [|done]. apply IH; [done|lia..].
  - apply shrinks_read_nonce in E as [??]; [|done]. apply IH; [done|lia..].
  - apply shrinks_MergeMiningTag in E as [??]; [|done]. apply IH; [done|lia..].
Qed.

(** *** Parsed fields are well-formed *)

Lemma read_nonce_valid s n r :
  is_bytes s -> read_nonce s = Ok (n, r) -> Z.of_nat (length n) <= TX_EXTRA_NONCE_MAX_COUNT /\ is_bytes n.
Proof.
  intros Hs H. unfold read_nonce in H. apply rd_bind_Ok in H as (size & s' & H1 & H).
  apply (put_get (c := pod_uint 1)) in H1 as ([??] & bs & _ & ->); [|done].
  apply is_bytes_app_inv in Hs as [_ Hs]. unfold TX_EXTRA_NONCE_MAX_COUNT.
  destruct (Z.ltb_spec 0 size); [|injection H as <- <-; simpl; split; [lia|constructor]].
  apply read_Ok in H as [-> Hl]; [|lia]. apply is_bytes_app_inv in Hs as [??].
  split; [simpl in *; lia|done].
Qed.

Lemma blob_sound mm_tag s v r : is_bytes s -> get (blob mm_tag) s = Ok (v, r) -> is_bytes v.
Proof.
  intros Hs H. cbn [get blob] in H. apply rd_bind_Ok in H as (size & s' & H1 & H).
  apply (shrinks_get (varint 64) _) in H1 as [_ Hs']; [|done]. destruct (_ && _).
  - rd_inv. constructor.
  - destruct (0 <? size) eqn:E; [|injection H as <- <-; constructor].
    apply read_Ok in H as [-> _]; [|lia]. by apply is_bytes_app_inv in Hs' as [??].
Qed.

#[global] Instance MergeMiningTag_sound : Sound serialize_MergeMiningTag is_MergeMiningTag.
Proof.
  intros s t r Hs H. split; [|by apply shrinks_MergeMiningTag in H as [??]].
  cbn [get serialize_MergeMiningTag] in H. apply rd_bind_Ok in H as (f & s' & H1 & H).
  apply blob_sound in H1; [|done]. unfold rd_lift in H.
  destruct (get doSerialize f) as [[t' r']|] eqn:E; [|done]. injection H as <- <-.
  by apply put_get in E as [? _].
Qed.

Lemma parse_loop_valid n : forall seen fields iss,
  is_bytes iss -> Forall is_ExtraField fields ->
  Forall is_ExtraField (parse_loop n seen fields iss).2.
Proof.
  assert (forall fields f, Forall is_ExtraField fields -> is_ExtraField f ->
    Forall is_ExtraField (fields ++ [f])) as Hsnoc by (intros; apply Forall_app; by repeat constructor).
  induction n as [|n IH]; intros seen fields [|b iss] Hb HF; rewrite ?parse_loop_end; [done..|].
  apply Forall_cons in Hb as [_ Hb]. cbn [parse_loop]. rewrite read_byte. simpl.
  repeat case_match; simpl; try done; try (by apply IH).
  all: apply IH; [|apply Hsnoc; [done|]].
  - eapply shrinks_padding; done.
  - split; [by eapply (read_padding_bounds iss 1)|lia].
  - by eapply (shrinks_get serialize_hash _).
  - by apply (get_valid (c := serialize_hash) (valid := is_key) iss _ l0).
  - by eapply shrinks_read_nonce.
  - by eapply read_nonce_valid.
  - by eapply shrinks_MergeMiningTag.
  - by apply (get_valid (c := serialize_MergeMiningTag) (valid := is_MergeMiningTag) iss _ l).
Qed.

Lemma getMergeMiningTagFromExtra_valid tx_extra t :
  is_bytes tx_extra -> getMergeMiningTagFromExtra tx_extra = Some t -> is_MergeMiningTag t.
Proof.
  intros Hb H. unfold getMergeMiningTagFromExtra, parseTransactionExtra in H.
  pose proof (parse_loop_valid (length tx_extra) unseen [] tx_extra Hb ltac:(constructor)) as HF.
  induction HF as [|f fields Hf _ IH]; simpl in H; [done|].
  destruct f; simpl in H; auto. by simplify_eq.
Qed.

(** ** Theorems *)

(** Writing a list of fields and parsing the result gives the list back:
    each kind of field at most once, padding last, sizes within their limits. *)
Theorem parse_writeTransactionExtra fields :
  wf_fields fields ->
  exists bs, writeTransactionExtra [] fields = (true, bs) /\
             parseTransactionExtra bs = (true, fields).
Proof.
  intros H. destruct (write_parse_loop fields unseen [] []) as (bs & _ & W & P); [done|..].
  - apply Forall_forall. by intros [] ?.
  - exists bs. split; [done|]. by apply P.
Qed.

Lemma parse_writeTransactionExtra_witness :
  exists bs, writeTransactionExtra [] [ExtraPublicKey (replicate 32 7); ExtraNonce [5]; ExtraPadding 3]
               = (true, bs) /\
             parseTransactionExtra bs
               = (true, [ExtraPublicKey (replicate 32 7); ExtraNonce [5]; ExtraPadding 3]).
Proof.
  apply (parse_writeTransactionExtra _). split; [evaluate|evaluate|repeat split; done].
Defined.

(** A payment id given in hexadecimal and added to an extra field is what
    [getPaymentIdFromTxExtra] finds in it, whatever public key and
    merge-mining tag the extra field already holds. *)
Theorem getPaymentId_create payment_id fields :
  is_key payment_id -> wf_fields fields ->
  Forall (fun f => field_tag f <> TX_EXTRA_TAG_PADDING /\ field_tag f <> TX_EXTRA_NONCE) fields ->
  exists extra, createTxExtraWithPaymentId (toHex payment_id) (writeTransactionExtra [] fields).2
                  = (true, extra) /\
                getPaymentIdFromTxExtra extra = Some payment_id.
Proof.
  intros [Hl Hb] Hw Hf. set (nonce := ExtraNonce (setPaymentIdToTransactionExtraNonce payment_id)).
  assert (wf_fields (fields ++ [nonce])) as Hw'.
  { apply wf_fields_snoc; [done|..].
    - split; [unfold TX_EXTRA_NONCE_MAX_COUNT; simpl; lia|by constructor].
    - rewrite list_elem_of_fmap. intros (f & E & Hin). rewrite Forall_forall in Hf.
      by apply (Hf f Hin).
    - eapply Forall_impl; [exact Hf|naive_solver]. }
  assert (forall fs : list TransactionExtraField, Forall (fun f => is_seen unseen f = false) fs) as Hu
    by (intros; apply Forall_forall; by intros [] ?).
  destruct (write_parse_loop fields unseen [] []) as (bs & _ & W & _); [done|apply Hu|].
  destruct (write_parse_loop (fields ++ [nonce]) unseen [] []) as (bs' & _ & W' & P); [done|apply Hu|].
  rewrite (writeTransactionExtra_app _ _ _ _ W) in W'. rewrite W.
  exists bs'. unfold createTxExtraWithPaymentId.
  rewrite <- Hl, podFromHex_toHex by done. simpl in W'.
  cbn [snd app]. destruct (addExtraNonceToTransactionExtra bs _) as [[] ?]; simplify_eq. split; [done|].
  unfold getPaymentIdFromTxExtra, parseTransactionExtra. rewrite P by done. cbn [app].
  rewrite (find_field_app as_nonce _ _ (setPaymentIdToTransactionExtraNonce payment_id)); [|..|done].
  - unfold getPaymentIdFromTransactionExtraNonce. simpl. by rewrite Hl.
  - eapply Forall_impl; [exact Hf|]. by intros [] [??].
Qed.

Lemma getPaymentId_create_witness :
  exists extra, createTxExtraWithPaymentId (toHex (replicate 32 9))
                  (writeTransactionExtra [] [ExtraPublicKey (replicate 32 7)]).2 = (true, extra) /\
                getPaymentIdFromTxExtra extra = Some (replicate 32 9).
Proof.
  apply (getPaymentId_create (replicate 32 9) [ExtraPublicKey (replicate 32 7)]).
  - evaluate.
  - split; [evaluate|evaluate|done].
  - evaluate.
Defined.

(** The parsing loop ends within as many rounds as the extra field has
    bytes: every larger bound gives the same answer. *)
Theorem parseTransactionExtra_terminates transactionExtra rounds :
  is_bytes transactionExtra -> (length transactionExtra <= rounds)%nat ->
  parse_loop rounds unseen [] transactionExtra = parseTransactionExtra transactionExtra.
Proof. intros. by apply parse_loop_fuel. Qed.

Lemma parseTransactionExtra_terminates_witness :
  parse_loop 9 unseen [] [2; 1; 5; 9] = (true, [ExtraNonce [5]]).
Proof.
  rewrite (parseTransactionExtra_terminates [2; 1; 5; 9] 9); [reflexivity|evaluate|].
  simpl. lia.
Defined.
