(* ===== verification/Block.v ===== *)
(** * Blocks and their binary form
      ([include/mevacoin.h], [src/mevacoin_core/mevacoin_serialization.cpp],
      [src/mevacoin_core/cached_block.cpp])

    The timestamp and the nonce of a block of version 2 or later are written
    with its parent block.  [CachedBlock] memoizes; its getters are the
    functions it caches. *)

From S2P Require Import Prelude Config TreeHash Stream Varint Serializer Transaction TxExtra.

(** ** Data *)

Record ParentBlock := {
  pb_majorVersion : Z;
  pb_minorVersion : Z;
  pb_previousBlockHash : Hash;
  transactionCount : Z;
  baseTransactionBranch : list Hash;
  pb_baseTransaction : BaseTransaction;
  blockchainBranch : list Hash
}.

Record BlockHeader := {
  majorVersion : Z;
  minorVersion : Z;
  nonce : Z;
  timestamp : Z;
  previousBlockHash : Hash
}.

Record BlockTemplate := {
  header :> BlockHeader;
  parentBlock : ParentBlock;
  baseTransaction : Transaction;
  transactionHashes : list Hash
}.

Record RawBlock := { rb_block : bytes; rb_transactions : list bytes }.

(** The members of a default-initialised [ParentBlock] a reader of a version 1
    block leaves alone. *)
Definition no_parent : ParentBlock :=
  {| pb_majorVersion := 0; pb_minorVersion := 0; pb_previousBlockHash := replicate 32 0;
     transactionCount := 0; baseTransactionBranch := [];
     pb_baseTransaction := {| bt_prefix := {| version := 0; unlockTime := 0; inputs := [];
       outputs := []; extra := [] |} |};
     blockchainBranch := [] |}.

(** ** Block headers *)

(** The version bytes, as [serializeBlockHeader] checks them. *)
Definition known_version (v : Z) : bool := (1 <=? v) && (v <=? BLOCK_MAJOR_VERSION_5).

(** For version 2 and later [get] leaves the timestamp and the nonce to the
    parent block; they are zero until then. *)
Definition serializeBlockHeader : codec BlockHeader :=
  {| put := fun h : BlockHeader =>
       put (varint 8) (majorVersion h) +++
       (if BLOCK_MAJOR_VERSION_5 <? majorVersion h then Throw (runtime_error "Wrong major version")
        else put (varint 8) (minorVersion h) +++
          (if majorVersion h =? BLOCK_MAJOR_VERSION_1 then
             put (varint 64) (timestamp h) +++ put serialize_hash (previousBlockHash h)
             +++ put (pod_uint 4) (nonce h)
           else if BLOCK_MAJOR_VERSION_2 <=? majorVersion h then
             put serialize_hash (previousBlockHash h)
           else Throw (runtime_error "Wrong major version")));
     get := major ← get (varint 8);
            if BLOCK_MAJOR_VERSION_5 <? major then rd_throw (runtime_error "Wrong major version")
            else minor ← get (varint 8);
              if major =? BLOCK_MAJOR_VERSION_1 then
                time ← get (varint 64); prev ← get serialize_hash; n ← get (pod_uint 4);
                mret {| majorVersion := major; minorVersion := minor; nonce := n;
                        timestamp := time; previousBlockHash := prev |}
              else if BLOCK_MAJOR_VERSION_2 <=? major then
                prev ← get serialize_hash;
                mret {| majorVersion := major; minorVersion := minor; nonce := 0;
                        timestamp := 0; previousBlockHash := prev |}
              else rd_throw (runtime_error "Wrong major version") |}.

(** ** Hashes of objects ([mevacoin_tools.h]) *)

Section WithHash.
(** [crypto::cn_fast_hash] *)
Variable cn_fast_hash : bytes -> Hash.

Definition NULL_HASH : Hash := replicate 32 0.

(** [getObjectHash(object)]: the null hash when the object does not serialize. *)
Definition getObjectHash {A} (c : codec A) (object : A) : Hash :=
  match toBinaryArray c object with Some ba => cn_fast_hash ba | None => NULL_HASH end.

(** [getBaseTransactionHash]: for version 2 and later the hash of three hashes,
    the first of them the one of the prefix. *)
Definition getBaseTransactionHash (tx : BaseTransaction) : option Hash :=
  if version tx <? TRANSACTION_VERSION_2 then
    cn_fast_hash <$> toBinaryArray serialize_BaseTransaction tx
  else
    ba ← toBinaryArray serialize_TransactionPrefix tx;
    Some (cn_fast_hash (cn_fast_hash ba ++
      [0xbc; 0x36; 0x78; 0x9e; 0x7a; 0x1e; 0x28; 0x14; 0x36; 0x46; 0x42; 0x29; 0x82; 0x8f; 0x81; 0x7d;
       0x66; 0x12; 0xf7; 0xb4; 0x77; 0xd6; 0x65; 0x91; 0xff; 0x96; 0xa9; 0xe0; 0x64; 0xbc; 0xc9; 0x8a]
      ++ replicate 32 0)).

(** ** Parent blocks *)

(** [serialize(ParentBlockSerializer &)] on output. *)
Definition put_ParentBlock (hashingSerialization headerOnly : bool)
    (pb : ParentBlock) (timestamp nonce : Z) : res bytes :=
  put (varint 8) (pb_majorVersion pb) +++ put (varint 8) (pb_minorVersion pb)
  +++ put (varint 64) timestamp +++ put serialize_hash (pb_previousBlockHash pb)
  +++ put (pod_uint 4) nonce +++
  (if hashingSerialization then
     match getBaseTransactionHash (pb_baseTransaction pb) with
     | None => Throw (runtime_error "Get transaction hash error")
     | Some minerTxHash =>
         put serialize_hash (tree_hash_from_branch cn_fast_hash (baseTransactionBranch pb)
           (length (baseTransactionBranch pb)) minerTxHash None)
     end
   else Ok []) +++
  put (varint 64) (transactionCount pb) +++
  (if transactionCount pb <? 1 then Throw (runtime_error "Wrong transactions number")
   else if headerOnly then Ok []
   else if negb (Z.of_nat (length (baseTransactionBranch pb)) =? tree_depth (transactionCount pb))
   then Throw (runtime_error "Wrong miner transaction branch size")
   else
     put_items serialize_hash (baseTransactionBranch pb)
     +++ put serialize_BaseTransaction (pb_baseTransaction pb) +++
     match getMergeMiningTagFromExtra (extra (pb_baseTransaction pb)) with
     | None => Throw (runtime_error "Can't get extra merge mining tag")
     | Some mmTag =>
         if 8 * 32 <? depth mmTag then Throw (runtime_error "Wrong merge mining tag depth")
         else if negb (depth mmTag =? Z.of_nat (length (blockchainBranch pb)))
         then Throw (runtime_error "Blockchain branch size must be equal to merge mining tag depth")
         else put_items serialize_hash (blockchainBranch pb)
     end).

(** The same on input, with neither flag: the parent block, the timestamp and
    the nonce.  The transaction count is cut to 16 bits. *)
Definition get_ParentBlock : rd (ParentBlock * Z * Z) :=
  major ← get (varint 8);
  minor ← get (varint 8);
  time ← get (varint 64);
  prev ← get serialize_hash;
  n ← get (pod_uint 4);
  txNum ← get (varint 64);
  let count := u16 txNum in
  if count <? 1 then rd_throw (runtime_error "Wrong transactions number") else
  branch ← get_items serialize_hash (Z.to_nat (tree_depth count));
  tx ← get serialize_BaseTransaction;
  match getMergeMiningTagFromExtra (extra (bt_prefix tx)) with
  | None => rd_throw (runtime_error "Can't get extra merge mining tag")
  | Some mmTag =>
      if 8 * 32 <? depth mmTag then rd_throw (runtime_error "Wrong merge mining tag depth") else
      chain ← get_items serialize_hash (Z.to_nat (depth mmTag));
      mret ({| pb_majorVersion := major; pb_minorVersion := minor; pb_previousBlockHash := prev;
               transactionCount := count; baseTransactionBranch := branch;
               pb_baseTransaction := tx; blockchainBranch := chain |}, time, n)
  end.

(** ** Block templates *)

Definition set_time (h : BlockHeader) (time n : Z) : BlockHeader :=
  {| majorVersion := majorVersion h; minorVersion := minorVersion h; nonce := n;
     timestamp := time; previousBlockHash := previousBlockHash h |}.

Definition serialize_BlockTemplate : codec BlockTemplate :=
  {| put := fun block : BlockTemplate =>
       put serializeBlockHeader block +++
       (if BLOCK_MAJOR_VERSION_2 <=? majorVersion block
        then put_ParentBlock false false (parentBlock block) (timestamp block) (nonce block)
        else Ok [])
       +++ put serialize_Transaction (baseTransaction block)
       +++ put (vector serialize_hash) (transactionHashes block);
     get := h ← get serializeBlockHeader;
            p ← (if BLOCK_MAJOR_VERSION_2 <=? majorVersion h then get_ParentBlock
                 else mret (no_parent, timestamp h, nonce h));
            tx ← get serialize_Transaction;
            hashes ← get (vector serialize_hash);
            mret {| header := set_time h p.1.2 p.2; parentBlock := p.1.1;
                    baseTransaction := tx; transactionHashes := hashes |} |}.

(** ** Raw blocks *)

(** A size, then that many bytes with [binary]. *)
Definition sized : codec bytes :=
  {| put := fun v : bytes => put (varint 64) (Z.of_nat (length v)) +++ Ok v;
     get := size ← get (varint 64); read size |}.

Definition serialize_RawBlock : codec RawBlock :=
  {| put := fun rawBlock : RawBlock =>
       put sized (rb_block rawBlock) +++ put (vector sized) (rb_transactions rawBlock);
     get := block ← get sized; transactions ← get (vector sized);
            mret {| rb_block := block; rb_transactions := transactions |} |}.

(** ** [CachedBlock] *)

(** [toBinaryArray(const BinaryArray &)]: the bytes with their size in front. *)
Definition getObjectHash_BinaryArray (object : bytes) : Hash := getObjectHash (blob false) object.

Definition getTransactionTreeHash (block : BlockTemplate) : Hash :=
  tree_hash cn_fast_hash
    (getObjectHash serialize_Transaction (baseTransaction block) :: transactionHashes block).

Definition getBlockHashingBinaryArray (block : BlockTemplate) : res bytes :=
  match toBinaryArray serializeBlockHeader (header block) with
  | None => Throw (runtime_error "Can't serialize BlockHeader")
  | Some result =>
      Ok (result ++ getTransactionTreeHash block
          ++ get_varint_data (Z.of_nat (length (transactionHashes block)) + 1))
  end.

Definition getParentBlockHashingBinaryArray (block : BlockTemplate) (headerOnly : bool) : res bytes :=
  match caught (put_ParentBlock true headerOnly (parentBlock block) (timestamp block) (nonce block)) with
  | None => Throw (runtime_error (if headerOnly
                     then "Can't serialize parent block header for hashing."
                     else "Can't serialize parent block for hashing."))
  | Some result => Ok result
  end.

Definition getBlockHash (block : BlockTemplate) : res Hash :=
  blockBinaryArray ← getBlockHashingBinaryArray block;
  if BLOCK_MAJOR_VERSION_2 <=? majorVersion block then
    parent ← getParentBlockHashingBinaryArray block false;
    Ok (getObjectHash_BinaryArray (blockBinaryArray ++ parent))
  else Ok (getObjectHash_BinaryArray blockBinaryArray).

Definition getAuxiliaryBlockHeaderHash (block : BlockTemplate) : res Hash :=
  ba ← getBlockHashingBinaryArray block; Ok (getObjectHash_BinaryArray ba).

(** The block index of the coinbase input, zero for any other shape. *)
Definition getBlockIndex (block : BlockTemplate) : Z :=
  match inputs (baseTransaction block) with
  | [InBase i] => blockIndex i
  | _ => 0
  end.


(** ** Well-formed values *)

Record is_ParentBlock (pb : ParentBlock) : Prop := {
  wf_pb_major : is_u8 (pb_majorVersion pb);
  wf_pb_minor : is_u8 (pb_minorVersion pb);
  wf_pb_prev : is_key (pb_previousBlockHash pb);
  wf_pb_count : 1 <= transactionCount pb < 2 ^ 16;
  wf_pb_branch : Z.of_nat (length (baseTransactionBranch pb)) = tree_depth (transactionCount pb);
  wf_pb_branch_hashes : Forall is_key (baseTransactionBranch pb);
  wf_pb_base : is_BaseTransaction (pb_baseTransaction pb);
  wf_pb_tag :
    match getMergeMiningTagFromExtra (extra (pb_baseTransaction pb)) with
    | Some mmTag => depth mmTag <= 8 * 32 /\ depth mmTag = Z.of_nat (length (blockchainBranch pb))
    | None => False
    end;
  wf_pb_chain_hashes : Forall is_key (blockchainBranch pb)
}.

Record is_BlockTemplate (b : BlockTemplate) : Prop := {
  wf_major : 1 <= majorVersion b <= BLOCK_MAJOR_VERSION_5;
  wf_minor : is_u8 (minorVersion b);
  wf_nonce : is_u32 (nonce b);
  wf_timestamp : is_u64 (timestamp b);
  wf_prev : is_key (previousBlockHash b);
  wf_parent : if BLOCK_MAJOR_VERSION_2 <=? majorVersion b then is_ParentBlock (parentBlock b)
              else parentBlock b = no_parent;
  wf_base : is_Transaction (baseTransaction b);
  wf_hashes : is_vector is_key (transactionHashes b)
}.

#[global] Instance is_ParentBlock_dec pb : Decision (is_ParentBlock pb).
Proof.
  refine (decide_iff (P := is_u8 (pb_majorVersion pb) /\ is_u8 (pb_minorVersion pb) /\
    is_key (pb_previousBlockHash pb) /\ 1 <= transactionCount pb < 2 ^ 16 /\
    Z.of_nat (length (baseTransactionBranch pb)) = tree_depth (transactionCount pb) /\
    Forall is_key (baseTransactionBranch pb) /\ is_BaseTransaction (pb_baseTransaction pb) /\
    match getMergeMiningTagFromExtra (extra (pb_baseTransaction pb)) with
    | Some mmTag => depth mmTag <= 8 * 32 /\ depth mmTag = Z.of_nat (length (blockchainBranch pb))
    | None => False
    end /\ Forall is_key (blockchainBranch pb)) _ _).
  - destruct (getMergeMiningTagFromExtra _); apply _.
  - split; [by intros (? & ? & ? & ? & ? & ? & ? & ? & ?)|by intros []].
Defined.

#[global] Instance ParentBlock_eq_dec : EqDecision ParentBlock.
Proof. solve_decision. Defined.

#[global] Instance is_BlockTemplate_dec b : Decision (is_BlockTemplate b).
Proof.
  refine (decide_iff (P := 1 <= majorVersion b <= BLOCK_MAJOR_VERSION_5 /\ is_u8 (minorVersion b) /\
    is_u32 (nonce b) /\ is_u64 (timestamp b) /\ is_key (previousBlockHash b) /\
    (if BLOCK_MAJOR_VERSION_2 <=? majorVersion b then is_ParentBlock (parentBlock b)
     else parentBlock b = no_parent) /\
    is_Transaction (baseTransaction b) /\ is_vector is_key (transactionHashes b)) _ _).
  - destruct (_ <=? _); apply _.
  - split; [by intros (? & ? & ? & ? & ? & ? & ? & ?)|by intros []].
Defined.

(** ** Round trips *)

(** The header as it is after [serializeBlockHeader] has read it. *)
Definition header_part (h : BlockHeader) : BlockHeader :=
  if majorVersion h =? BLOCK_MAJOR_VERSION_1 then h else set_time h 0 0.

Lemma emits_header b : is_BlockTemplate b ->
  emits (put serializeBlockHeader b) (get serializeBlockHeader) (header_part b).
Proof.
  intros [Hv Hm Hn Ht Hp _ _ _]. destruct b as [[major minor n time prev] pb tx hs].
  unfold header_part, BLOCK_MAJOR_VERSION_5 in *. cbn [put get serializeBlockHeader header majorVersion
    minorVersion nonce timestamp previousBlockHash] in *.
  assert (is_u8 major) by mlia. emits_step. rewrite (proj2 (Z.ltb_ge BLOCK_MAJOR_VERSION_5 major)) by
    (unfold BLOCK_MAJOR_VERSION_5; lia).
  emits_step. destruct (Z.eqb_spec major BLOCK_MAJOR_VERSION_1).
  - do 3 emits_step.
  - rewrite (proj2 (Z.leb_le BLOCK_MAJOR_VERSION_2 major)) by
      (lia).
    emits_step.
Qed.

Lemma header_sound stream h rest :
  is_bytes stream -> get serializeBlockHeader stream = Ok (h, rest) ->
  1 <= majorVersion h <= BLOCK_MAJOR_VERSION_5 /\ is_u8 (minorVersion h) /\ is_u32 (nonce h) /\
  is_u64 (timestamp h) /\ is_key (previousBlockHash h) /\ is_bytes rest.
Proof.
  intros Hb H. cbn [get serializeBlockHeader] in H.
  apply rd_bind_Ok in H as (major & s1 & H1 & H). sound_invert.
  destruct (Z.ltb_spec BLOCK_MAJOR_VERSION_5 major); [done|].
  apply rd_bind_Ok in H as (minor & s2 & H2 & H). sound_invert.
  assert (0 <= major) by (destruct V; lia).
  destruct (Z.eqb_spec major BLOCK_MAJOR_VERSION_1) as [->|].
  - rd_inv. sound_invert. done.
  - destruct (Z.leb_spec BLOCK_MAJOR_VERSION_2 major); [|done]. rd_inv. sound_invert.
    cbn. split; [lia|]. done.
Qed.

Lemma emits_ParentBlock pb time n : is_ParentBlock pb -> is_u64 time -> is_u32 n ->
  emits (put_ParentBlock false false pb time n) get_ParentBlock (pb, time, n).
Proof.
  intros [Hmaj Hmin Hprev Hc Hbr Hbrh Hbase Htag Hch] Ht Hn.
  destruct pb as [major minor prev count branch tx chain].
  unfold put_ParentBlock, get_ParentBlock.
  cbn [pb_majorVersion pb_minorVersion pb_previousBlockHash transactionCount baseTransactionBranch
    pb_baseTransaction blockchainBranch] in *.
  do 5 emits_step. rewrite (proj2 (Z.ltb_ge count 1)) by lia. cbn [then_put].
  rewrite Hbr, Z.eqb_refl. cbn [negb]. assert (is_u64 count) by mlia.
  rewrite <- (app_nil_l []). change (Ok ([] ++ [])) with (@Ok bytes []).
  assert (forall p : res bytes, Ok [] +++ p = p) as E0 by (by intros []).
  rewrite E0. emits_step. rewrite (wrap_small 16) by mlia.
  rewrite (proj2 (Z.ltb_ge count 1)) by lia.
  eapply emits_bind; [rewrite <- Hbr, Nat2Z.id; by apply (emits_items _ _)|]. cbn beta.
  emits_step. destruct (getMergeMiningTagFromExtra _) as [mmTag|]; [|done].
  destruct Htag as [Hd Hlen]. rewrite (proj2 (Z.ltb_ge (8 * 32) _)) by lia.
  rewrite Hlen, Z.eqb_refl, Nat2Z.id. cbn [negb].
  eapply emits_last; [by apply (emits_items _ _)|]. intros rest. reflexivity.
Qed.

Lemma ParentBlock_sound stream pb time n rest :
  is_bytes stream -> get_ParentBlock stream = Ok ((pb, time, n), rest) ->
  is_ParentBlock pb /\ is_u64 time /\ is_u32 n /\ is_bytes rest.
Proof.
  intros Hb H. unfold get_ParentBlock in H.
  do 6 (apply rd_bind_Ok in H as (? & ? & ? & H)). sound_invert. cbv zeta in H.
  match type of H with context [u16 ?x] => pose proof (wrap_fits 16 ltac:(lia) x) as Hc end.
  set (count := u16 _) in *. destruct (Z.ltb_spec count 1); [done|].
  apply rd_bind_Ok in H as (branch & s7 & Hbr & H).
  apply (items_canonical _ is_key) in Hbr as (Lb & Fb & bs & _ & ->); [|done].
  bytes_inv.
  apply rd_bind_Ok in H as (tx & s8 & Htx & H). sound_invert.
  destruct (getMergeMiningTagFromExtra _) as [mmTag|] eqn:Etag; [|done].
  assert (is_MergeMiningTag mmTag) as [[Hd _] _].
  { eapply getMergeMiningTagFromExtra_valid; [|done].
    match goal with V : is_BaseTransaction _ |- _ => apply V end. }
  destruct (Z.ltb_spec (8 * 32) (depth mmTag)); [done|].
  apply rd_bind_Ok in H as (chain & s9 & Hch & H).
  apply (items_canonical _ is_key) in Hch as (Lc & Fc & bs' & _ & ->); [|done].
  injection H as <- <- <- <-. bytes_inv.
  assert (0 <= tree_depth count) as Hdep.
  { rewrite tree_depth_log2; [apply Z.log2_nonneg|lia|]. eapply fits_mono; [|exact Hc]. lia. }
  split; [|done]. split; cbn [pb_majorVersion pb_minorVersion pb_previousBlockHash transactionCount
    baseTransactionBranch pb_baseTransaction blockchainBranch]; try done.
  - destruct Hc. lia.
  - lia.
  - rewrite Etag. lia.
Qed.

#[global] Instance BlockTemplate_round_trip : RoundTrip serialize_BlockTemplate is_BlockTemplate.
Proof.
  intros b Hb. cbn [put get serialize_BlockTemplate].
  eapply emits_bind; [by apply emits_header|]. destruct Hb as [Hv Hm Hn Ht Hp Hpar Htx Hh].
  assert (majorVersion (header_part b) = majorVersion b) as Em
    by (unfold header_part; by destruct (_ =? _)).
  cbn beta. rewrite Em. destruct b as [h pb tx hs]. cbn [header parentBlock baseTransaction
    transactionHashes] in *.
  eapply (emits_bind _ _ _ _ (pb, timestamp h, nonce h)).
  - destruct (Z.leb_spec BLOCK_MAJOR_VERSION_2 (majorVersion h)); [by apply emits_ParentBlock|].
    rewrite Hpar. unfold header_part in *.
    destruct (Z.eqb_spec (majorVersion h) 1); [apply emits_ret|lia].
  - cbn beta. emits_step. eapply emits_last; [by apply round_trip|]. intros rest.
    unfold header_part. destruct h, (_ =? _); reflexivity.
Qed.

#[global] Instance BlockTemplate_sound : Sound serialize_BlockTemplate is_BlockTemplate.
Proof.
  intros stream b rest Hb H. cbn [get serialize_BlockTemplate] in H.
  apply rd_bind_Ok in H as (h & s1 & Hh & H).
  apply header_sound in Hh as (Hv & Hm & Hn & Ht & Hp & B1); [|done].
  apply rd_bind_Ok in H as ([[pb time] n] & s2 & Hpar & H).
  assert ((if BLOCK_MAJOR_VERSION_2 <=? majorVersion h then is_ParentBlock pb else pb = no_parent) /\
    is_u64 time /\ is_u32 n /\ is_bytes s2) as (Hw & Htime & Hnonce & B2).
  { destruct (_ <=? _); [by apply ParentBlock_sound in Hpar|].
    injection Hpar as <- <- <- <-. done. }
  apply rd_bind_Ok in H as (tx & s3 & Htx & H). apply rd_bind_Ok in H as (hs & s4 & Hhs & H).
  injection H as <- <-. sound_invert. split; [|done]. split; done.
Qed.

#[global] Instance sized_ok : CodecOk sized is_blob.
Proof.
  split.
  - intros v [Hl Hv]. cbn [put get sized]. eapply emits_bind; [by apply round_trip|].
    exists v. split; [done|]. split; [done|]. apply read_app.
  - intros stream v rest Hb H. cbn [get sized] in H. apply rd_bind_Ok in H as (n & s & Hn & H).
    codec_invert. apply read_Ok in H as [-> Hl]; [|apply V]. bytes_inv. subst n.
    split; [done|]. cbn [put sized]. codec_written.
Qed.

#[global] Instance RawBlock_ok : CodecOk serialize_RawBlock
  (fun r => is_blob (rb_block r) /\ is_vector is_blob (rb_transactions r)).
Proof.
  split.
  - intros [b t] [??]. cbn [put get serialize_RawBlock]. do 2 emits_step.
  - intros stream r rest Hb H. cbn [get serialize_RawBlock] in H. rd_inv. codec_invert.
    split; [done|]. cbn [put serialize_RawBlock]. codec_written.
Qed.

(** ** Hashing *)

Lemma put_prefix_body_Ok p : is_prefix_body p -> exists bs, put_prefix_body p = Ok bs.
Proof. intros H. destruct (emits_prefix_body p H) as (bs & ? & _). eauto. Qed.

Lemma getBaseTransactionHash_Some tx :
  is_BaseTransaction tx -> exists h, getBaseTransactionHash tx = Some h.
Proof.
  intros H. unfold getBaseTransactionHash. destruct (_ <? _).
  - destruct (fromBinaryArray_toBinaryArray serialize_BaseTransaction _ tx H) as (bs & -> & _).
    by eexists.
  - destruct H as [Hv Hp]. destruct (put_prefix_body_Ok tx Hp) as [bs E].
    unfold toBinaryArray. cbn [put serialize_TransactionPrefix varint]. rewrite E. by eexists.
Qed.

Lemma getBlockHashingBinaryArray_Ok b :
  is_BlockTemplate b -> exists bs, getBlockHashingBinaryArray b = Ok bs.
Proof.
  intros H. unfold getBlockHashingBinaryArray, toBinaryArray.
  destruct (emits_header b H) as (bs & -> & _). by eexists.
Qed.

Lemma getParentBlockHashingBinaryArray_Ok b headerOnly :
  is_ParentBlock (parentBlock b) -> exists bs, getParentBlockHashingBinaryArray b headerOnly = Ok bs.
Proof.
  intros H. pose proof H as [_ _ _ Hc Hbr Hbrh Hbase Htag Hch].
  unfold getParentBlockHashingBinaryArray, put_ParentBlock.
  destruct (getBaseTransactionHash_Some _ Hbase) as [h ->].
  rewrite (proj2 (Z.ltb_ge _ 1)) by lia. destruct headerOnly; [by eexists|].
  rewrite Hbr, Z.eqb_refl. cbn [negb].
  destruct (emits_items serialize_hash is_key _ Hbrh) as (b1 & -> & _).
  destruct (round_trip (c := serialize_BaseTransaction) _ Hbase) as (b2 & -> & _).
  destruct (getMergeMiningTagFromExtra _) as [mmTag|]; [|done]. destruct Htag as [Hd Hl].
  rewrite (proj2 (Z.ltb_ge (8 * 32) _)) by lia. rewrite Hl, Z.eqb_refl. cbn [negb].
  destruct (emits_items serialize_hash is_key _ Hch) as (b3 & -> & _). by eexists.
Qed.

(** ** Theorems *)

(** A well-formed block template serializes, and deserializing the bytes
    gives the same block. *)
Theorem BlockTemplate_roundtrip b :
  is_BlockTemplate b ->
  exists bs, toBinaryArray serialize_BlockTemplate b = Some bs /\
             fromBinaryArray serialize_BlockTemplate bs = Some b.
Proof.
  intros H. destruct (fromBinaryArray_toBinaryArray _ _ b H) as (bs & ? & _ & ?). eauto.
Qed.

(** Whatever bytes a node accepts as a block template, the block is
    well-formed, serializes again, and the new bytes give the same block. *)
Theorem BlockTemplate_accepted bs b :
  is_bytes bs -> fromBinaryArray serialize_BlockTemplate bs = Some b ->
  is_BlockTemplate b /\
  exists bs', toBinaryArray serialize_BlockTemplate b = Some bs' /\
              fromBinaryArray serialize_BlockTemplate bs' = Some b.
Proof.
  intros Hb H. assert (is_BlockTemplate b) as Hw.
  { unfold fromBinaryArray in H. destruct (get _ bs) as [[x rest]|] eqn:G; [|done].
    destruct (MemoryInputStream.endOfStream rest); [|done]. simplify_eq.
    by apply (get_valid (c := serialize_BlockTemplate)) in G as [? _]. }
  split; [done|]. destruct (fromBinaryArray_toBinaryArray _ _ b Hw) as (bs' & ? & _ & ?). eauto.
Qed.

(** Computing the hash of a well-formed block never throws. *)
Theorem getBlockHash_total b : is_BlockTemplate b -> exists h, getBlockHash b = Ok h.
Proof.
  intros H. unfold getBlockHash. destruct (getBlockHashingBinaryArray_Ok b H) as [ba ->]. cbn.
  pose proof (wf_parent b H) as Hp. destruct (BLOCK_MAJOR_VERSION_2 <=? _); [|by eexists].
  destruct (getParentBlockHashingBinaryArray_Ok b false Hp) as [pa ->]. by eexists.
Qed.
End WithHash.

(** A block of version 2 over the genesis coinbase, and its bytes with
    [txNum] as the number of transactions of the parent block. *)
Definition sample_block : BlockTemplate :=
  {| header := {| majorVersion := 2; minorVersion := 0; nonce := 7; timestamp := 300;
       previousBlockHash := NULL_HASH |};
     parentBlock := {| pb_majorVersion := 1; pb_minorVersion := 0; pb_previousBlockHash := NULL_HASH;
       transactionCount := 1; baseTransactionBranch := [];
       pb_baseTransaction := {| bt_prefix := {| version := 1; unlockTime := 0; inputs := [];
         outputs := []; extra := [TX_EXTRA_MERGE_MINING_TAG; 33; 0] ++ NULL_HASH |} |};
       blockchainBranch := [] |};
     baseTransaction := genesis_coinbase;
     transactionHashes := [] |}.

Definition sample_bytes (txNum : Z) : bytes :=
  [2; 0] ++ NULL_HASH ++ [1; 0] ++ writeVarint 300 ++ NULL_HASH ++ [7; 0; 0; 0] ++ writeVarint txNum
  ++ [1; 0; 0; 0; 35; TX_EXTRA_MERGE_MINING_TAG; 33; 0] ++ NULL_HASH
  ++ GENESIS_COINBASE_TX ++ [0].

Lemma BlockTemplate_roundtrip_witness :
  exists bs, toBinaryArray (serialize_BlockTemplate toy_hash) sample_block = Some bs /\
             fromBinaryArray (serialize_BlockTemplate toy_hash) bs = Some sample_block.
Proof. apply (BlockTemplate_roundtrip toy_hash sample_block). evaluate. Defined.

Lemma BlockTemplate_accepted_witness :
  is_BlockTemplate sample_block /\
  exists bs', toBinaryArray (serialize_BlockTemplate toy_hash) sample_block = Some bs' /\
              fromBinaryArray (serialize_BlockTemplate toy_hash) bs' = Some sample_block.
Proof.
  apply (BlockTemplate_accepted toy_hash (sample_bytes 1) sample_block);
    [evaluate|vm_compute; reflexivity].
Defined.

Lemma getBlockHash_total_witness : exists h, getBlockHash toy_hash sample_block = Ok h.
Proof. apply (getBlockHash_total toy_hash sample_block). evaluate. Defined.

(** The encoding of a block is not unique: the number of transactions of
    the parent block is cut to 16 bits after it has been read, so 1 and 65537
    give one and the same block (and block hash) from different bytes. *)
Theorem BlockTemplate_not_canonical cn_fast_hash :
  sample_bytes 1 <> sample_bytes 65537 /\
  fromBinaryArray (serialize_BlockTemplate cn_fast_hash) (sample_bytes 1) = Some sample_block /\
  fromBinaryArray (serialize_BlockTemplate cn_fast_hash) (sample_bytes 65537) = Some sample_block.
Proof. split; [by vm_compute|]. split; vm_compute; reflexivity. Qed.
