(* ===== verification/Cached.v ===== *)
(** * Cached transactions ([src/mevacoin_core/cached_transaction.cpp])

    A transaction with its binary form.  The source computes the binary form,
    the hashes and the fee when they are first asked for and keeps them; a
    value that is never replaced is the same when it is computed at once, so
    the binary form is a field here and the rest are functions. *)

From stdpp Require Import gmap.
From S2P Require Import Prelude Stream Serializer Transaction Amounts Block.

Record CachedTransaction := {
  getTransaction : Transaction;
  getTransactionBinaryArray : bytes
}.

#[global] Instance CachedTransaction_eq_dec : EqDecision CachedTransaction.
Proof. solve_decision. Defined.

(** The constructor from a transaction; it serializes without fail for the
    transactions of [is_Transaction]. *)
Definition CachedTransaction_object (transaction : Transaction) : option CachedTransaction :=
  ba ← toBinaryArray serialize_Transaction transaction;
  Some {| getTransaction := transaction; getTransactionBinaryArray := ba |}.

(** The constructor from bytes throws when they are not a transaction. *)
Definition CachedTransaction_binary (transactionBinaryArray : bytes) : option CachedTransaction :=
  transaction ← fromBinaryArray serialize_Transaction transactionBinaryArray;
  Some {| getTransaction := transaction; getTransactionBinaryArray := transactionBinaryArray |}.

(** The key images a transaction spends, in the order of its inputs. *)
Definition key_images (inputs : list TransactionInput) : list KeyImage :=
  omap (fun input => match input with InKey i => Some (keyImage i) | InBase _ => None end) inputs.

Definition spent (t : CachedTransaction) : list KeyImage := key_images (inputs (getTransaction t)).

Section Hash.
Variable cn_fast_hash : bytes -> Hash.

Definition getTransactionHash (t : CachedTransaction) : Hash :=
  cn_fast_hash (getTransactionBinaryArray t).

Definition getTransactionPrefixHash (t : CachedTransaction) : Hash :=
  getObjectHash cn_fast_hash serialize_TransactionPrefix (getTransaction t).
End Hash.

(** ** Well-formed cached transactions *)

Record is_CachedTransaction (t : CachedTransaction) : Prop := {
  ct_wf : is_Transaction (getTransaction t);
  ct_binary : toBinaryArray serialize_Transaction (getTransaction t) = Some (getTransactionBinaryArray t);
  ct_size : Z.of_nat (length (getTransactionBinaryArray t)) < 2 ^ 64
}.

Lemma CachedTransaction_binary_ok bs t :
  is_bytes bs -> Z.of_nat (length bs) < 2 ^ 64 ->
  CachedTransaction_binary bs = Some t ->
  is_CachedTransaction t /\ getTransactionBinaryArray t = bs.
Proof.
  unfold CachedTransaction_binary. intros Hb Hl H.
  destruct (fromBinaryArray _ _) as [tx|] eqn:E; [|done]. cbn in H. simplify_eq.
  apply toBinaryArray_fromBinaryArray with (valid := is_Transaction) in E as [Hwf Hput];
    [|apply _|done]. done.
Qed.

(** Both constructors agree, so the binary form a transaction is kept with
    does not depend on how it arrived. *)
Lemma CachedTransaction_agree t :
  is_CachedTransaction t ->
  CachedTransaction_object (getTransaction t) = Some t /\
  CachedTransaction_binary (getTransactionBinaryArray t) = Some t.
Proof.
  intros [Hwf Hput _]. unfold CachedTransaction_object, CachedTransaction_binary.
  destruct (fromBinaryArray_toBinaryArray _ _ _ Hwf) as (bs & E & _ & F).
  rewrite Hput in *. simplify_eq. rewrite F. by destruct t.
Qed.

Lemma binary_nonempty t : is_CachedTransaction t -> (0 < length (getTransactionBinaryArray t))%nat.
Proof.
  intros H. destruct (CachedTransaction_agree t H) as [_ E].
  destruct (getTransactionBinaryArray t) eqn:Eb; [by vm_compute in E|simpl; lia].
Qed.

Lemma getTransactionFee_u64 tx : is_u64 (getTransactionFee tx).
Proof.
  unfold getTransactionFee. generalize 0 at 2. generalize (inputs tx).
  induction l as [|[i|i] l IH]; intros s; [apply wrap_fits; lia|split; reflexivity|apply IH].
Qed.

#[global] Instance is_CachedTransaction_dec t : Decision (is_CachedTransaction t).
Proof.
  refine (decide_iff (P := is_Transaction (getTransaction t) /\
    toBinaryArray serialize_Transaction (getTransaction t) = Some (getTransactionBinaryArray t) /\
    Z.of_nat (length (getTransactionBinaryArray t)) < 2 ^ 64) _ _).
  split; [by intros (? & ? & ?)|by intros [? ? ?]].
Defined.

(** A transaction with one input and one output, to run the definitions. *)
Definition sample_tx (image amount_in amount_out : Z) : CachedTransaction :=
  let tx := {| tx_prefix := {| version := 1; unlockTime := 0; inputs := [InKey {| ki_amount := amount_in;
         outputIndexes := [1; 2]; keyImage := replicate 32 image |}];
         outputs := [{| to_amount := amount_out; target := OutKey {| key := replicate 32 4 |} |}];
         extra := [] |};
       signatures := [[replicate 64 6; replicate 64 7]] |} in
  {| getTransaction := tx; getTransactionBinaryArray := default [] (toBinaryArray serialize_Transaction tx) |}.
