(* ===== verification/Pool.v ===== *)
(** * The transaction pool
      ([src/mevacoin_core/transaction_pool.cpp], [transaction_validatior_state.cpp])

    The pool keeps its transactions in a [boost::multi_index] container with
    three indices, and the key images they spend in a set of its own.  The
    container is an interface with the documented behaviour of the library,
    which a list in the order of the cost index implements.  The pool is proved
    to refine a finite map from hashes to transactions, and never to hold two
    transactions that spend the same key image. *)

From stdpp Require Import gmap sorting.
From S2P Require Import Prelude IntUtil Transaction Amounts TxExtra Block Cached.

(** ** Validator states *)

Record TransactionValidatorState := { spentKeyImages : gset KeyImage }.

Definition mergeStates (destination source : TransactionValidatorState) : TransactionValidatorState :=
  {| spentKeyImages := spentKeyImages destination ∪ spentKeyImages source |}.

Definition hasIntersections (destination source : TransactionValidatorState) : bool :=
  existsb (fun ki => bool_decide (ki ∈ spentKeyImages destination)) (elements (spentKeyImages source)).

(** The loop of [excludeFromState] without its assertions... *)
Fixpoint exclude_inputs (state : gset KeyImage) (inputs : list TransactionInput) : gset KeyImage :=
  match inputs with
  | [] => state
  | InKey i :: inputs => exclude_inputs (state ∖ {[keyImage i]}) inputs
  | InBase _ :: inputs => exclude_inputs state inputs
  end.

(** ... and the assertions: every input is a key input with its key image in
    the state. *)
Fixpoint exclude_asserts (state : gset KeyImage) (inputs : list TransactionInput) : bool :=
  match inputs with
  | [] => true
  | InKey i :: inputs => bool_decide (keyImage i ∈ state) && exclude_asserts (state ∖ {[keyImage i]}) inputs
  | InBase _ :: inputs => false
  end.

Definition excludeFromState (state : TransactionValidatorState) (t : CachedTransaction)
    : TransactionValidatorState :=
  {| spentKeyImages := exclude_inputs (spentKeyImages state) (inputs (getTransaction t)) |}.

(** ** Pending transactions *)

Record PendingTransactionInfo := {
  receiveTime : Z;
  cachedTransaction : CachedTransaction;
  paymentId : option Hash
}.

#[global] Instance PendingTransactionInfo_eq_dec : EqDecision PendingTransactionInfo.
Proof. solve_decision. Defined.

Definition blobSize (t : CachedTransaction) : Z := Z.of_nat (length (getTransactionBinaryArray t)).
Definition fee (t : CachedTransaction) : Z := getTransactionFee (getTransaction t).

(** [TransactionPriorityComparator]: the prices fee / size are compared by
    128-bit cross products. *)
Definition TransactionPriorityComparator (lhs rhs : PendingTransactionInfo) : bool :=
  let left := cachedTransaction lhs in
  let right := cachedTransaction rhs in
  let '(lhs_lo, lhs_hi) := mul128 (fee left) (blobSize right) in
  let '(rhs_lo, rhs_hi) := mul128 (fee right) (blobSize left) in
  (rhs_hi <? lhs_hi)
  || ((lhs_hi =? rhs_hi) && (rhs_lo <? lhs_lo))
  || ((lhs_hi =? rhs_hi) && (lhs_lo =? rhs_lo) && (blobSize left <? blobSize right))
  || ((lhs_hi =? rhs_hi) && (lhs_lo =? rhs_lo) && (blobSize left =? blobSize right)
      && (receiveTime lhs <? receiveTime rhs)).

(** ** The container

    The documented behaviour of [multi_index_container] with a unique hashed
    index, an ordered index and a non-unique hashed index. *)

Class MultiIndex (C K : Type) := {
  mi_empty : C;
  mi_find : K -> C -> option PendingTransactionInfo;
  mi_insert : PendingTransactionInfo -> C -> C * bool;
  mi_erase : K -> C -> C;
  (** the elements in the order of the ordered index *)
  mi_ordered : C -> list PendingTransactionInfo;
  (** [equal_range] of the non-unique hashed index *)
  mi_equal_range : option Hash -> C -> list PendingTransactionInfo
}.

(** What the ordered index asks of its comparator, for the elements [D] it is
    used with. *)
Record strict_weak_order {A} (D : A -> Prop) (lt : A -> A -> bool) : Prop := {
  swo_irreflexive : forall a, D a -> lt a a = false;
  swo_transitive : forall a b c, D a -> D b -> D c -> lt a b = true -> lt b c = true -> lt a c = true;
  swo_incomparable : forall a b c, D a -> D b -> D c ->
    lt a b = false -> lt b c = false -> lt a c = false
}.

Class MultiIndexOk (C : Type) `{MultiIndex C Hash} (key : PendingTransactionInfo -> Hash)
    (lt : PendingTransactionInfo -> PendingTransactionInfo -> bool)
    (D : PendingTransactionInfo -> Prop) := {
  mi_ok : C -> Prop;
  mi_empty_ok : mi_ok mi_empty;
  mi_empty_elements : mi_ordered mi_empty = [];
  mi_domain c : mi_ok c -> Forall D (mi_ordered c);
  mi_unique c : mi_ok c -> NoDup (map key (mi_ordered c));
  mi_sorted c : mi_ok c -> strict_weak_order D lt ->
    StronglySorted (fun a b => lt b a = false) (mi_ordered c);
  mi_find_spec c k i : mi_ok c -> mi_find k c = Some i <-> i ∈ mi_ordered c /\ key i = k;
  mi_insert_old c i : mi_ok c -> D i -> mi_find (key i) c <> None -> mi_insert i c = (c, false);
  mi_insert_new c i : mi_ok c -> D i -> mi_find (key i) c = None ->
    exists c', mi_insert i c = (c', true) /\ mi_ok c' /\ mi_ordered c' ≡ₚ i :: mi_ordered c;
  mi_erase_ok c k : mi_ok c -> mi_ok (mi_erase k c);
  mi_erase_elements c k : mi_ok c ->
    mi_ordered (mi_erase k c) ≡ₚ filter (fun i => key i <> k) (mi_ordered c);
  mi_equal_range_spec c p : mi_ok c ->
    mi_equal_range p c ≡ₚ filter (fun i => paymentId i = p) (mi_ordered c)
}.

(** ** The pool *)

Section Pool.
Context {C : Type} `{!MultiIndex C Hash}.
Variable cn_fast_hash : bytes -> Hash.

Definition info_hash (i : PendingTransactionInfo) : Hash :=
  getTransactionHash cn_fast_hash (cachedTransaction i).

Record TransactionPool := { poolState : TransactionValidatorState; transactions : C }.

Definition TransactionPool_new : TransactionPool :=
  {| poolState := {| spentKeyImages := ∅ |}; transactions := mi_empty |}.

(** [pushTransaction] at the time [now]. *)
Definition pushTransaction (now : Z) (transaction : CachedTransaction)
    (transactionState : TransactionValidatorState) (pool : TransactionPool) : bool * TransactionPool :=
  let pendingTx := {| receiveTime := u64 now; cachedTransaction := transaction;
    paymentId := getPaymentIdFromTxExtra (extra (getTransaction transaction)) |} in
  match mi_find (info_hash pendingTx) (transactions pool) with
  | Some _ => (false, pool)
  | None =>
      if hasIntersections (poolState pool) transactionState then (false, pool)
      else
        let poolState := mergeStates (poolState pool) transactionState in
        let '(transactions, inserted) := mi_insert pendingTx (transactions pool) in
        (inserted, {| poolState := poolState; transactions := transactions |})
  end.

(** [getTransaction]; [None] where the source asserts. *)
Definition pool_getTransaction (hash : Hash) (pool : TransactionPool) : option CachedTransaction :=
  cachedTransaction <$> mi_find hash (transactions pool).

Definition removeTransaction (hash : Hash) (pool : TransactionPool) : bool * TransactionPool :=
  match mi_find hash (transactions pool) with
  | None => (false, pool)
  | Some it =>
      (true, {| poolState := excludeFromState (poolState pool) (cachedTransaction it);
                transactions := mi_erase hash (transactions pool) |})
  end.

Definition getTransactionCount (pool : TransactionPool) : nat := length (mi_ordered (transactions pool)).

Definition getTransactionHashes (pool : TransactionPool) : list Hash :=
  map info_hash (mi_ordered (transactions pool)).

Definition checkIfTransactionPresent (hash : Hash) (pool : TransactionPool) : bool :=
  bool_decide (mi_find hash (transactions pool) <> None).

Definition getPoolTransactions (pool : TransactionPool) : list CachedTransaction :=
  map cachedTransaction (mi_ordered (transactions pool)).

Definition getTransactionReceiveTime (hash : Hash) (pool : TransactionPool) : option Z :=
  receiveTime <$> mi_find hash (transactions pool).

Definition getTransactionHashesByPaymentId (paymentId : Hash) (pool : TransactionPool) : list Hash :=
  map info_hash (mi_equal_range (Some paymentId) (transactions pool)).

Definition pool_flush (pool : TransactionPool) : TransactionPool :=
  fold_left (fun pool tx => snd (removeTransaction tx pool)) (getTransactionHashes pool) pool.
End Pool.

(** ** The comparator *)

(** Two-word numbers compare like the numbers they stand for. *)
Lemma words_lt x y : 0 <= x -> 0 <= y ->
  (y / 2 ^ 64 <? x / 2 ^ 64) || ((x / 2 ^ 64 =? y / 2 ^ 64) && (y mod 2 ^ 64 <? x mod 2 ^ 64)) = (y <? x).
Proof. intros. pose proof (Z.div_mod x (2 ^ 64)). pose proof (Z.div_mod y (2 ^ 64)).
  pose proof (Z.mod_pos_bound x (2 ^ 64)). pose proof (Z.mod_pos_bound y (2 ^ 64)). mlia. Qed.

Lemma words_eq x y :
  (x / 2 ^ 64 =? y / 2 ^ 64) && (x mod 2 ^ 64 =? y mod 2 ^ 64) = (x =? y).
Proof.
  pose proof (Z.div_mod x (2 ^ 64)). pose proof (Z.div_mod y (2 ^ 64)).
  destruct (Z.eqb_spec x y) as [->|]; [by rewrite !Z.eqb_refl|]. mlia.
Qed.

Definition pending_ok (i : PendingTransactionInfo) : Prop :=
  is_CachedTransaction (cachedTransaction i).

Lemma blobSize_range i : pending_ok i -> 0 < blobSize (cachedTransaction i) < 2 ^ 64.
Proof.
  intros H. pose proof (binary_nonempty _ H). pose proof (ct_size _ H). unfold blobSize. lia.
Qed.

(** The comparator orders by price, then by size, then by age. *)
Lemma comparator_spec lhs rhs : pending_ok lhs -> pending_ok rhs ->
  TransactionPriorityComparator lhs rhs =
  let left := cachedTransaction lhs in
  let right := cachedTransaction rhs in
  let x := fee left * blobSize right in
  let y := fee right * blobSize left in
  (y <? x) || (x =? y) && ((blobSize left <? blobSize right) ||
    (blobSize left =? blobSize right) && (receiveTime lhs <? receiveTime rhs)).
Proof.
  intros Hl Hr. apply blobSize_range in Hl, Hr. unfold TransactionPriorityComparator.
  pose proof (getTransactionFee_u64 (getTransaction (cachedTransaction lhs))) as Fl.
  pose proof (getTransactionFee_u64 (getTransaction (cachedTransaction rhs))) as Fr.
  fold (fee (cachedTransaction lhs)) in Fl. fold (fee (cachedTransaction rhs)) in Fr.
  rewrite !mul128_eq by (assumption || mlia). cbv zeta.
  set (x := fee (cachedTransaction lhs) * _). set (y := fee (cachedTransaction rhs) * _).
  assert (0 <= x /\ 0 <= y) as [] by mnia. rewrite words_lt, words_eq by done.
  destruct (y <? x), (x =? y), (blobSize _ <? _), (blobSize _ =? _); reflexivity.
Qed.

Lemma cross_lt a b k : 0 < k -> (a <? b) = (a * k <? b * k).
Proof. intros. destruct (Z.ltb_spec a b), (Z.ltb_spec (a * k) (b * k)); nia. Qed.

Lemma cross_eq a b k : 0 < k -> (a =? b) = (a * k =? b * k).
Proof. intros. destruct (Z.eqb_spec a b), (Z.eqb_spec (a * k) (b * k)); nia. Qed.

(** Over a common denominator the prices of three transactions are integers. *)
Lemma comparator_common a b c : pending_ok a -> pending_ok b -> pending_ok c ->
  let size i := blobSize (cachedTransaction i) in
  let p := fee (cachedTransaction a) * size b * size c in
  let q := fee (cachedTransaction b) * size a * size c in
  TransactionPriorityComparator a b =
  (q <? p) || (p =? q) && ((size a <? size b) || (size a =? size b) && (receiveTime a <? receiveTime b)).
Proof.
  intros Ha Hb Hc. cbv zeta. rewrite comparator_spec by done.
  pose proof (blobSize_range c Hc). cbv zeta.
  rewrite (cross_lt _ _ (blobSize (cachedTransaction c))), (cross_eq _ _ (blobSize (cachedTransaction c)))
    by lia. done.
Qed.

Lemma comparator_order : strict_weak_order pending_ok TransactionPriorityComparator.
Proof.
  split.
  - intros a Ha. rewrite comparator_spec by done. cbv zeta. lia.
  - intros a b c Ha Hb Hc. rewrite (comparator_common a b c), (comparator_common b c a),
      (comparator_common a c b) by done. cbv zeta.
    lia.
  - intros a b c Ha Hb Hc. rewrite (comparator_common a b c), (comparator_common b c a),
      (comparator_common a c b) by done. cbv zeta. lia.
Qed.

(** ** A container

    The elements in a list in the order of the ordered index; a new element
    goes behind the ones it is not ordered before. *)

Section ListIndex.
Variable key : PendingTransactionInfo -> Hash.
Variable lt : PendingTransactionInfo -> PendingTransactionInfo -> bool.
Variable D : PendingTransactionInfo -> Prop.

Fixpoint insert_ordered (i : PendingTransactionInfo) (l : list PendingTransactionInfo)
    : list PendingTransactionInfo :=
  match l with
  | [] => [i]
  | x :: l => if lt i x then i :: x :: l else x :: insert_ordered i l
  end.

Definition list_find_key (k : Hash) (l : list PendingTransactionInfo) : option PendingTransactionInfo :=
  find (fun i => bool_decide (key i = k)) l.

Definition ListIndex : MultiIndex (list PendingTransactionInfo) Hash := {|
  mi_empty := [];
  mi_find := list_find_key;
  mi_insert := fun i l =>
    match list_find_key (key i) l with Some _ => (l, false) | None => (insert_ordered i l, true) end;
  mi_erase := fun k l => filter (fun i => key i <> k) l;
  mi_ordered := fun l => l;
  mi_equal_range := fun p l => filter (fun i => paymentId i = p) l
|}.
#[local] Existing Instance ListIndex.

Lemma insert_ordered_perm i l : insert_ordered i l ≡ₚ i :: l.
Proof.
  induction l as [|x l IH]; cbn; [done|]. destruct (lt i x); [done|]. rewrite IH. apply Permutation_swap.
Qed.

Lemma insert_ordered_sorted i l : strict_weak_order D lt -> D i -> Forall D l ->
  StronglySorted (fun a b => lt b a = false) l ->
  StronglySorted (fun a b => lt b a = false) (insert_ordered i l).
Proof.
  intros Hswo Hi Hl. induction 1 as [|x l Hs IH Hx]; cbn; [repeat constructor|].
  apply Forall_cons in Hl as [Hdx Hdl]. destruct (lt i x) eqn:E.
  - assert (lt x i = false) as Exi.
    { apply not_true_is_false. intros E'. pose proof (swo_transitive _ _ Hswo i x i Hi Hdx Hi E E') as Ht.
      by rewrite (swo_irreflexive _ _ Hswo i Hi) in Ht. }
    constructor; [by constructor|]. constructor; [done|]. rewrite Forall_forall in *.
    intros y Hy. eapply (swo_incomparable _ _ Hswo y x i); auto.
  - constructor; [auto|]. rewrite insert_ordered_perm. by constructor.
Qed.

Lemma list_find_key_spec k l i : NoDup (map key l) ->
  list_find_key k l = Some i <-> i ∈ l /\ key i = k.
Proof.
  unfold list_find_key. intros Hn. split.
  - intros H. apply find_some in H as [Hin Hk%bool_decide_eq_true]. by rewrite list_elem_of_In.
  - intros [Hin Hk]. induction l as [|x l IH]; [by apply elem_of_nil in Hin|]. cbn in *.
    apply NoDup_cons in Hn as [Hx Hn]. apply elem_of_cons in Hin as [->|Hin].
    + by rewrite bool_decide_true.
    + rewrite bool_decide_false; [by apply IH|]. intros E. apply Hx. rewrite E, <- Hk.
      apply list_elem_of_fmap. eauto.
Qed.

Lemma list_find_key_None k l : list_find_key k l = None <-> k ∉ map key l.
Proof.
  unfold list_find_key. induction l as [|x l IH]; cbn; [split; [intros _; apply not_elem_of_nil|done]|].
  rewrite not_elem_of_cons. case_bool_decide as E; [split; [done|intros []; congruence]|].
  rewrite IH. split; [intros; split; congruence|tauto].
Qed.

Lemma StronglySorted_filter {A} (R : A -> A -> Prop) (P : A -> Prop) `{!forall x, Decision (P x)} l :
  StronglySorted R l -> StronglySorted R (filter P l).
Proof.
  induction 1 as [|x l Hs IH Hx]; [constructor|]. rewrite filter_cons. case_decide; [|done].
  constructor; [done|]. rewrite Forall_forall in *. intros y [_ Hy]%list_elem_of_filter. auto.
Qed.

Lemma StronglySorted_lookup {A} (R : A -> A -> Prop) l : StronglySorted R l ->
  forall i j a b, (i < j)%nat -> l !! i = Some a -> l !! j = Some b -> R a b.
Proof.
  induction 1 as [|x l Hs IH Hx]; intros i j a b Hij Ha Hb; [done|].
  destruct j as [|j]; [lia|]. destruct i as [|i]; cbn in *; [|eapply IH; [|done|done]; lia].
  simplify_eq. by eapply Forall_lookup_1.
Qed.

#[global] Program Instance ListIndexOk : MultiIndexOk (list PendingTransactionInfo) key lt D := {|
  mi_ok := fun l => Forall D l /\ NoDup (map key l) /\
    (strict_weak_order D lt -> StronglySorted (fun a b => lt b a = false) l)
|}.
Next Obligation. repeat split; constructor. Qed.
Next Obligation. done. Qed.
Next Obligation. by intros c (? & ? & ?). Qed.
Next Obligation. by intros c (? & ? & ?). Qed.
Next Obligation. intros c (? & ? & ?). auto. Qed.
Next Obligation. intros c k i (? & ? & ?). by apply list_find_key_spec. Qed.
Next Obligation. intros c i _ _ H. cbn in *. by destruct (list_find_key _ _). Qed.
Next Obligation.
  intros c i (HD & Hn & Hs) Hi H. cbn in *. rewrite H. eexists. split; [done|].
  split; [|apply insert_ordered_perm].
  split; [rewrite insert_ordered_perm; by constructor|].
  split; [|intros Hswo; apply insert_ordered_sorted; auto].
  change (map key) with (fmap (M := list) key). rewrite insert_ordered_perm. cbn.
  constructor; [by apply list_find_key_None|done].
Qed.
Next Obligation.
  intros c k (HD & Hn & Hs). cbn.
  split; [rewrite Forall_forall in *; intros x [_ Hx]%list_elem_of_filter; auto|].
  split; [by apply NoDup_map_filter|]. intros. apply StronglySorted_filter. auto.
Qed.
Next Obligation. done. Qed.
Next Obligation. done. Qed.
End ListIndex.

(** ** Refinement

    The pool of the specification is a map from hashes to transactions; it
    takes a transaction when neither its hash nor one of its key images is
    there. *)

Inductive pool_op :=
| OpPush (now : Z) (t : CachedTransaction)
| OpRemove (hash : Hash)
| OpFlush.

Definition is_key_input (i : TransactionInput) : bool := match i with InKey _ => true | InBase _ => false end.

(** What the validator establishes before it hands a transaction over: only
    key inputs, and no key image twice. *)
Definition poolable (t : CachedTransaction) : Prop :=
  is_CachedTransaction t /\ Forall is_key_input (inputs (getTransaction t)) /\ NoDup (spent t).

Definition op_ok (op : pool_op) : Prop := match op with OpPush _ t => poolable t | _ => True end.

Definition spent_state (t : CachedTransaction) : TransactionValidatorState :=
  {| spentKeyImages := list_to_set (spent t) |}.

Lemma exclude_inputs_eq ins : forall st, exclude_inputs st ins = st ∖ list_to_set (key_images ins).
Proof.
  induction ins as [|[i|i] ins IH]; intros st; cbn [exclude_inputs]; [set_solver|rewrite IH; done|].
  rewrite IH. change (key_images (InKey i :: ins)) with (keyImage i :: key_images ins).
  rewrite list_to_set_cons. set_solver.
Qed.

Lemma exclude_asserts_ok ins : forall st,
  Forall is_key_input ins -> NoDup (key_images ins) ->
  (forall k, k ∈ key_images ins -> k ∈ st) -> exclude_asserts st ins = true.
Proof.
  induction ins as [|[i|i] ins IH]; intros st Hk Hn Hs; cbn [exclude_asserts]; [done| |].
  - by apply Forall_cons in Hk as [? _].
  - apply Forall_cons in Hk as [_ Hk].
    change (key_images (InKey i :: ins)) with (keyImage i :: key_images ins) in *.
    apply NoDup_cons in Hn as [Hi Hn]. rewrite bool_decide_true by (apply Hs; set_solver).
    apply IH; [done|done|]. intros k Hin. apply elem_of_difference.
    split; [apply Hs; set_solver|]. intros ->%elem_of_singleton. done.
Qed.

Lemma hasIntersections_spec d s :
  hasIntersections d s = false <-> spentKeyImages d ## spentKeyImages s.
Proof.
  unfold hasIntersections. rewrite <- not_true_iff_false, existsb_exists. split.
  - intros H k Hd Hs. apply H. exists k. rewrite <- list_elem_of_In, elem_of_elements.
    split; [done|by apply bool_decide_eq_true].
  - intros H (k & Hk & Hd%bool_decide_eq_true). rewrite <- list_elem_of_In, elem_of_elements in Hk.
    by apply (H k).
Qed.

Section Refinement.
Variable cn_fast_hash : bytes -> Hash.
Context {C : Type} {MI : MultiIndex C Hash}
  {OK : MultiIndexOk C (info_hash cn_fast_hash) TransactionPriorityComparator pending_ok}.

Abbreviation pool := (TransactionPool (C := C)).
Abbreviation hash := (getTransactionHash cn_fast_hash).

(** One operation of the pool, with its answer. *)
Definition pool_step (op : pool_op) (p : pool) : bool * pool :=
  match op with
  | OpPush now t => pushTransaction cn_fast_hash now t (spent_state t) p
  | OpRemove h => removeTransaction h p
  | OpFlush => (true, pool_flush cn_fast_hash p)
  end.

Fixpoint pool_run (ops : list pool_op) (p : pool) : list bool * pool :=
  match ops with
  | [] => ([], p)
  | op :: ops => let '(b, p) := pool_step op p in let '(bs, p) := pool_run ops p in (b :: bs, p)
  end.

Definition map_spent (m : gmap Hash CachedTransaction) : gset KeyImage :=
  list_to_set (mjoin (map (spent ∘ snd) (map_to_list m))).

Definition spec_step (op : pool_op) (m : gmap Hash CachedTransaction)
    : bool * gmap Hash CachedTransaction :=
  match op with
  | OpPush _ t =>
      if bool_decide (m !! hash t = None /\ map_spent m ## list_to_set (spent t))
      then (true, <[hash t := t]> m) else (false, m)
  | OpRemove h => (bool_decide (is_Some (m !! h)), delete h m)
  | OpFlush => (true, ∅)
  end.

Fixpoint spec_run (ops : list pool_op) (m : gmap Hash CachedTransaction)
    : list bool * gmap Hash CachedTransaction :=
  match ops with
  | [] => ([], m)
  | op :: ops => let '(b, m) := spec_step op m in let '(bs, m) := spec_run ops m in (b :: bs, m)
  end.

(** The map a pool stands for. *)
Definition entries (l : list PendingTransactionInfo) : list (Hash * CachedTransaction) :=
  map (fun i => (info_hash cn_fast_hash i, cachedTransaction i)) l.
Definition pool_map (p : pool) : gmap Hash CachedTransaction :=
  list_to_map (entries (mi_ordered (transactions p))).

Definition list_spent (l : list PendingTransactionInfo) : list KeyImage :=
  mjoin (map (spent ∘ cachedTransaction) l).

Record pool_inv (p : pool) : Prop := {
  inv_container : mi_ok (transactions p);
  inv_poolable : Forall (poolable ∘ cachedTransaction) (mi_ordered (transactions p));
  inv_spent : NoDup (list_spent (mi_ordered (transactions p)));
  inv_state : spentKeyImages (poolState p) = list_to_set (list_spent (mi_ordered (transactions p)))
}.

Lemma entries_keys l : (entries l).*1 = map (info_hash cn_fast_hash) l.
Proof. unfold entries. rewrite <- list_fmap_compose. done. Qed.

#[local] Instance list_spent_proper : Proper ((≡ₚ) ==> (≡ₚ)) list_spent.
Proof.
  intros l l' H. unfold list_spent. apply (fmap_Permutation (spent ∘ cachedTransaction)) in H.
  change (map ?f ?l) with (f <$> l). by rewrite H.
Qed.

Lemma pool_map_lookup p h : mi_ok (transactions p) ->
  pool_map p !! h = cachedTransaction <$> mi_find h (transactions p).
Proof.
  intros Hok. pose proof (mi_unique _ Hok) as Hn. rewrite <- entries_keys in Hn.
  apply option_eq. intros t. unfold pool_map. rewrite <- elem_of_list_to_map by done.
  unfold entries. rewrite list_elem_of_fmap, fmap_Some. split.
  - intros (i & [= -> ->] & Hi). exists i. split; [|done]. by apply mi_find_spec.
  - intros (i & Hf & ->). apply mi_find_spec in Hf as [Hi <-]; [|done]. eauto.
Qed.

Lemma map_spent_pool p : mi_ok (transactions p) ->
  map_spent (pool_map p) = list_to_set (list_spent (mi_ordered (transactions p))).
Proof.
  intros Hok. pose proof (mi_unique _ Hok) as Hn. rewrite <- entries_keys in Hn.
  apply set_eq. intros k. unfold map_spent, list_spent. rewrite !elem_of_list_to_set.
  pose proof (map_to_list_to_map (M := gmap Hash) _ Hn) as Hp. fold (pool_map p) in Hp.
  change (map ?f ?l) with (f <$> l). rewrite Hp. unfold entries.
  change (map ?f ?l) with (f <$> l). by rewrite <- list_fmap_compose.
Qed.

Lemma pool_new_inv : pool_inv TransactionPool_new.
Proof.
  split; cbn.
  - apply mi_empty_ok.
  - rewrite mi_empty_elements. constructor.
  - rewrite mi_empty_elements. constructor.
  - by rewrite mi_empty_elements.
Qed.

Lemma push_refines now t p : pool_inv p -> poolable t ->
  let '(b, p') := pushTransaction cn_fast_hash now t (spent_state t) p in
  pool_inv p' /\ spec_step (OpPush now t) (pool_map p) = (b, pool_map p').
Proof.
  intros [Hok Hp Hn Hs] Ht. unfold pushTransaction. cbn [spec_step].
  set (i := {| receiveTime := u64 now |}).
  rewrite pool_map_lookup, map_spent_pool, <- Hs by done.
  change (info_hash cn_fast_hash i) with (hash t).
  destruct (mi_find (hash t) (transactions p)) as [j|] eqn:Hf.
  { split; [done|]. rewrite bool_decide_false; [done|]. by intros []. }
  destruct (hasIntersections (poolState p) (spent_state t)) eqn:Hi.
  { split; [done|]. rewrite bool_decide_false; [done|]. intros [_ Hd].
    apply (hasIntersections_spec (poolState p) (spent_state t)) in Hd. congruence. }
  apply hasIntersections_spec in Hi. cbn in Hi. rewrite bool_decide_true by done.
  destruct (mi_insert_new (transactions p) i Hok) as (c' & E & Hok' & Hperm); [by apply Ht|done|].
  rewrite E. assert (list_spent (mi_ordered c') ≡ₚ spent t ++ list_spent (mi_ordered (transactions p))) as Hl
    by (by rewrite Hperm).
  split; [split; cbn; [done|rewrite Hperm; by constructor|..]|].
  - rewrite Hl. apply NoDup_app. split; [apply Ht|]. split; [|done]. intros k Hk1 Hk2.
    apply (Hi k); [rewrite Hs|]; by apply elem_of_list_to_set.
  - rewrite Hs, Hl. rewrite list_to_set_app_L. set_solver.
  - f_equal. unfold pool_map. cbn [transactions].
    rewrite (list_to_map_proper (entries (mi_ordered c')) ((hash t, t) :: entries (mi_ordered (transactions p)))); [done| |].
    + rewrite entries_keys. by apply (mi_unique c').
    + unfold entries. change (map ?f ?l) with (f <$> l). by rewrite Hperm.
Qed.

Lemma list_spent_erase l k : NoDup (map (info_hash cn_fast_hash) l) -> forall i, i ∈ l ->
  info_hash cn_fast_hash i = k ->
  l ≡ₚ i :: filter (fun j => info_hash cn_fast_hash j <> k) l.
Proof.
  induction l as [|x l IH]; cbn [map]; intros Hn i Hi Hk; [by apply elem_of_nil in Hi|].
  apply NoDup_cons in Hn as [Hx Hn]. rewrite filter_cons. apply elem_of_cons in Hi as [->|Hi].
  - rewrite decide_False by auto. f_equiv. rewrite filter_all; [done|].
    apply Forall_forall. intros y Hy Ey. apply Hx. rewrite Hk, <- Ey. apply list_elem_of_fmap. eauto.
  - rewrite decide_True; [rewrite (IH Hn i Hi Hk) at 1; apply Permutation_swap|].
    intros E. apply Hx. rewrite E, <- Hk. apply list_elem_of_fmap. eauto.
Qed.

Lemma remove_refines h p : pool_inv p ->
  let '(b, p') := removeTransaction h p in
  pool_inv p' /\ spec_step (OpRemove h) (pool_map p) = (b, pool_map p').
Proof.
  intros [Hok Hp Hn Hs]. unfold removeTransaction. cbn [spec_step]. rewrite pool_map_lookup by done.
  destruct (mi_find h (transactions p)) as [i|] eqn:Hf; cbn [fmap option_fmap option_map].
  2: { split; [done|]. rewrite bool_decide_false by (by intros [? ?]).
       rewrite delete_id; [done|]. by rewrite pool_map_lookup, Hf. }
  rewrite bool_decide_true by eauto.
  pose proof (mi_erase_ok _ h Hok) as Hok'. pose proof (mi_erase_elements _ h Hok) as Hperm.
  pose proof (mi_unique _ Hok) as Hu. apply mi_find_spec in Hf as [Hi Hh]; [|done].
  pose proof (list_spent_erase _ h Hu i Hi Hh) as Hl. rewrite <- Hperm in Hl.
  assert (list_spent (mi_ordered (transactions p)) ≡ₚ
    spent (cachedTransaction i) ++ list_spent (mi_ordered (mi_erase h (transactions p)))) as Hls
    by (by rewrite Hl).
  rewrite Hl in Hp. rewrite Hls in Hn. apply NoDup_app in Hn as (Hn1 & Hd & Hn2).
  apply Forall_cons in Hp as [_ Hp].
  split; [split; [done|done|done|]|].
  - cbn. rewrite exclude_inputs_eq, Hs, Hls, list_to_set_app_L. fold (spent (cachedTransaction i)).
    apply set_eq. intros k. rewrite elem_of_difference, elem_of_union, !elem_of_list_to_set.
    split; [tauto|]. intros Hk. split; [tauto|]. intros Hk'. by apply (Hd k).
  - f_equal. apply map_eq. intros k. rewrite lookup_delete, !pool_map_lookup by done. cbn [transactions].
    apply option_eq. intros t. rewrite fmap_Some.
    assert (forall j, mi_find k (mi_erase h (transactions p)) = Some j <->
      mi_find k (transactions p) = Some j /\ k <> h) as Hj.
    { intros j. rewrite !mi_find_spec by done. rewrite Hperm, list_elem_of_filter. naive_solver. }
    case_decide as Ek.
    + split; [done|]. intros (j & [_ ?]%Hj & _). congruence.
    + rewrite fmap_Some. split; intros (j & ? & ?); exists j; rewrite Hj in *; naive_solver.
Qed.

Lemma flush_loop hs : forall p, pool_inv p ->
  let p' := fold_left (fun p tx => snd (removeTransaction tx p)) hs p in
  pool_inv p' /\ forall h, pool_map p' !! h = if decide (h ∈ hs) then None else pool_map p !! h.
Proof.
  induction hs as [|x hs IH]; intros p Hp; cbn [fold_left].
  - split; [done|]. intros h. rewrite decide_False; [done|]. apply not_elem_of_nil.
  - pose proof (remove_refines x p Hp) as H. destruct (removeTransaction x p) as [b q].
    destruct H as [Hq [= _ Eq]]. destruct (IH q Hq) as [Hr El]. split; [done|]. intros h.
    rewrite El, <- Eq, lookup_delete. destruct (decide (x = h)) as [->|].
    + rewrite (decide_True (P := h ∈ h :: hs)) by set_solver. by case_decide.
    + destruct (decide (h ∈ hs)); [rewrite decide_True by set_solver|rewrite decide_False by set_solver]; done.
Qed.

Lemma flush_refines p : pool_inv p ->
  pool_inv (pool_flush cn_fast_hash p) /\ pool_map (pool_flush cn_fast_hash p) = ∅.
Proof.
  intros Hp. destruct (flush_loop (getTransactionHashes cn_fast_hash p) p Hp) as [Hq El].
  split; [done|]. apply map_eq. intros h. rewrite lookup_empty. unfold pool_flush. rewrite El.
  case_decide as Hh; [done|]. rewrite pool_map_lookup by apply Hp.
  destruct (mi_find h (transactions p)) as [i|] eqn:Hf; [|done]. exfalso. apply Hh.
  apply mi_find_spec in Hf as [Hi <-]; [|apply Hp]. apply list_elem_of_fmap. eauto.
Qed.

Lemma step_refines op p : pool_inv p -> op_ok op ->
  let '(b, p') := pool_step op p in pool_inv p' /\ spec_step op (pool_map p) = (b, pool_map p').
Proof.
  destruct op as [now t|h|]; intros Hp Ho.
  - by apply push_refines.
  - by apply remove_refines.
  - destruct (flush_refines p Hp) as [? E]. cbn. by rewrite E.
Qed.

Lemma run_refines ops : forall p, pool_inv p -> Forall op_ok ops ->
  let '(bs, p') := pool_run ops p in pool_inv p' /\ spec_run ops (pool_map p) = (bs, pool_map p').
Proof.
  induction ops as [|op ops IH]; intros p Hp Ho; cbn [pool_run spec_run]; [done|].
  apply Forall_cons in Ho as [Ho Hos]. pose proof (step_refines op p Hp Ho) as H.
  destruct (pool_step op p) as [b q]. destruct H as [Hq ->]. specialize (IH q Hq Hos).
  destruct (pool_run ops q) as [bs r]. destruct IH as [Hr ->]. done.
Qed.

Lemma pool_new_map : pool_map TransactionPool_new = ∅.
Proof. unfold pool_map. cbn. by rewrite mi_empty_elements. Qed.

(** C35. From the empty pool on, every sequence of pushes of validated
    transactions, removals and flushes answers exactly as the map of the
    specification does and ends in the pool that stands for its map; and the
    set of spent key images, which the source keeps apart, is exactly the set
    of the key images of the transactions in the pool, each of them once. *)
Theorem TransactionPool_refines ops :
  Forall op_ok ops ->
  let '(answers, p) := pool_run ops TransactionPool_new in
  spec_run ops ∅ = (answers, pool_map p) /\
  spentKeyImages (poolState p) = map_spent (pool_map p) /\
  NoDup (mjoin (map spent (getPoolTransactions p))).
Proof.
  intros Ho. pose proof (run_refines ops _ pool_new_inv Ho) as H. rewrite pool_new_map in H.
  destruct (pool_run ops TransactionPool_new) as [bs p]. destruct H as [Hp Hr].
  split; [done|]. rewrite map_spent_pool by apply Hp. split; [apply Hp|].
  unfold getPoolTransactions. change (map ?f ?l) with (f <$> l). rewrite <- list_fmap_compose.
  apply (inv_spent _ Hp).
Qed.

(** The assertions of [excludeFromState] hold whenever a transaction is
    removed from a pool that was filled through its interface: all inputs are
    key inputs, and the set of the pool contains their key images. *)
Theorem removal_asserts_hold ops h t :
  Forall op_ok ops ->
  let p := snd (pool_run ops TransactionPool_new) in
  pool_getTransaction h p = Some t ->
  exclude_asserts (spentKeyImages (poolState p)) (inputs (getTransaction t)) = true.
Proof.
  intros Ho p. subst p. pose proof (run_refines ops _ pool_new_inv Ho) as H.
  destruct (pool_run ops TransactionPool_new) as [bs p]. destruct H as [[Hok Hp Hn Hs] _].
  intros (i & Hf & ->)%fmap_Some. apply mi_find_spec in Hf as [Hi _]; [|done].
  rewrite Forall_forall in Hp. destruct (Hp i Hi) as (_ & Hk & Hd).
  apply exclude_asserts_ok; [done|done|]. intros k Hin. cbn [snd]. rewrite Hs.
  apply elem_of_list_to_set, list_elem_of_join. exists (spent (cachedTransaction i)).
  split; [done|]. apply list_elem_of_fmap. eauto.
Qed.

(** The pool lists its transactions by price: of any two, the first pays
    at least as much per byte, and at the same price is not larger, and at the
    same size is not younger. *)
Theorem pool_priority ops a b i j :
  Forall op_ok ops ->
  let l := mi_ordered (transactions (snd (pool_run ops TransactionPool_new))) in
  (i < j)%nat -> l !! i = Some a -> l !! j = Some b ->
  let x := fee (cachedTransaction a) * blobSize (cachedTransaction b) in
  let y := fee (cachedTransaction b) * blobSize (cachedTransaction a) in
  y < x \/ y = x /\ (blobSize (cachedTransaction a) < blobSize (cachedTransaction b) \/
    blobSize (cachedTransaction a) = blobSize (cachedTransaction b) /\ receiveTime a <= receiveTime b).
Proof.
  intros Ho l. subst l. pose proof (run_refines ops _ pool_new_inv Ho) as H.
  destruct (pool_run ops TransactionPool_new) as [bs p]. destruct H as [[Hok _ _ _] _]. cbn [snd].
  intros Hij Ha Hb. pose proof (mi_sorted _ Hok comparator_order) as Hsort.
  pose proof (mi_domain _ Hok) as HD.
  assert (TransactionPriorityComparator b a = false) as E
    by exact (StronglySorted_lookup _ _ Hsort i j a b Hij Ha Hb).
  rewrite comparator_spec in E by (by eapply Forall_lookup_1). cbv zeta in *. lia.
Qed.
End Refinement.

(** ** A run *)

Definition run_ops : list pool_op :=
  [OpPush 100 (sample_tx 1 50 40); OpPush 101 (sample_tx 1 50 30); OpPush 102 (sample_tx 2 90 30)].
Definition sum_key (data : bytes) : Hash := le_bytes 32 (fold_left (fun s b => 31 * s + b) data 7).

#[local] Instance run_index : MultiIndex (list PendingTransactionInfo) Hash :=
  ListIndex (info_hash sum_key) TransactionPriorityComparator.

Lemma run_ops_ok : Forall op_ok run_ops.
Proof. repeat constructor; evaluate. Qed.

Lemma TransactionPool_refines_witness :
  let '(answers, p) := pool_run sum_key run_ops TransactionPool_new in
  spec_run sum_key run_ops ∅ = (answers, pool_map sum_key p) /\
  spentKeyImages (poolState p) = map_spent (pool_map sum_key p) /\
  NoDup (mjoin (map spent (getPoolTransactions p))).
Proof. apply (TransactionPool_refines sum_key (OK := ListIndexOk _ _ _) run_ops run_ops_ok). Defined.

(** The second transaction spends the key image of the first. *)
Example run_answers : fst (pool_run sum_key run_ops TransactionPool_new) = [true; false; true].
Proof. vm_compute. reflexivity. Qed.

Lemma removal_asserts_hold_witness :
  exclude_asserts (spentKeyImages (poolState (snd (pool_run sum_key run_ops TransactionPool_new))))
    (inputs (getTransaction (sample_tx 2 90 30))) = true.
Proof.
  apply (removal_asserts_hold sum_key (OK := ListIndexOk _ _ _) run_ops
    (getTransactionHash sum_key (sample_tx 2 90 30)) _ run_ops_ok). vm_compute. reflexivity.
Defined.

Lemma pool_priority_witness :
  let x := fee (sample_tx 2 90 30) * blobSize (sample_tx 1 50 40) in
  let y := fee (sample_tx 1 50 40) * blobSize (sample_tx 2 90 30) in
  y < x \/ y = x /\ (blobSize (sample_tx 2 90 30) < blobSize (sample_tx 1 50 40) \/
    blobSize (sample_tx 2 90 30) = blobSize (sample_tx 1 50 40) /\ 102 <= 100).
Proof.
  apply (pool_priority sum_key (OK := ListIndexOk _ _ _) run_ops
    {| receiveTime := 102; cachedTransaction := sample_tx 2 90 30; paymentId := None |}
    {| receiveTime := 100; cachedTransaction := sample_tx 1 50 40; paymentId := None |} 0 1 run_ops_ok);
    [lia|vm_compute; reflexivity|vm_compute; reflexivity].
Defined.
