(* ===== verification/Currency.v ===== *)
(** * Money: rewards, fees, fusion and address parameters
      ([src/mevacoin_core/currency.cpp], [currency.h],
      [mevacoin_basic_impl.cpp])

    The parameters of a [Currency] object are a record; [CurrencyBuilder] gives
    the ones of the network.  [assert]s are preconditions of the theorems. *)

From stdpp Require Import sorting.
From S2P Require Import Prelude Config IntUtil StringTools Serializer Transaction Amounts TxExtra Block.

Record Currency := {
  m_maxBlockHeight : Z;
  m_maxBlockBlobSize : Z;
  m_maxTxSize : Z;
  m_publicAddressBase58Prefix : Z;
  m_minedMoneyUnlockWindow : Z;
  m_timestampCheckWindow : Z;
  m_blockFutureTimeLimit : Z;
  m_moneySupply : Z;
  m_emissionSpeedFactor : Z;
  m_genesisBlockReward : Z;
  m_rewardBlocksWindow : Z;
  m_zawyDifficultyBlockIndex : Z;
  m_zawyDifficultyV2 : Z;
  m_zawyDifficultyBlockVersion : Z;
  m_blockGrantedFullRewardZone : Z;
  m_minerTxBlobReservedSize : Z;
  m_numberOfDecimalPlaces : nat;
  m_mininumFee : Z;
  m_defaultDustThreshold : Z;
  m_difficultyTarget : Z;
  m_difficultyWindow : Z;
  m_difficultyLag : Z;
  m_difficultyCut : Z;
  m_maxBlockSizeInitial : Z;
  m_maxBlockSizeGrowthSpeedNumerator : Z;
  m_maxBlockSizeGrowthSpeedDenominator : Z;
  m_lockedTxAllowedDeltaSeconds : Z;
  m_lockedTxAllowedDeltaBlocks : Z;
  m_mempoolTxLiveTime : Z;
  m_numberOfPeriodsToForgetTxDeletedFromPool : Z;
  m_fusionTxMaxSize : Z;
  m_fusionTxMinInputCount : Z;
  m_fusionTxMinInOutCountRatio : Z;
  m_upgradeHeightV2 : Z;
  m_upgradeHeightV3 : Z;
  m_upgradeHeightV4 : Z;
  m_upgradeHeightV5 : Z;
  m_upgradeVotingThreshold : Z;
  m_upgradeVotingWindow : Z;
  m_upgradeWindow : Z;
  m_testnet : bool
}.

(** [CurrencyBuilder::CurrencyBuilder] *)
Definition CurrencyBuilder : Currency :=
  {| m_maxBlockHeight := MEVACOIN_MAX_BLOCK_NUMBER;
     m_maxBlockBlobSize := MEVACOIN_MAX_BLOCK_BLOB_SIZE;
     m_maxTxSize := MEVACOIN_MAX_TX_SIZE;
     m_publicAddressBase58Prefix := MEVACOIN_PUBLIC_ADDRESS_BASE58_PREFIX;
     m_minedMoneyUnlockWindow := MEVACOIN_MINED_MONEY_UNLOCK_WINDOW;
     m_timestampCheckWindow := BLOCKCHAIN_TIMESTAMP_CHECK_WINDOW;
     m_blockFutureTimeLimit := MEVACOIN_BLOCK_FUTURE_TIME_LIMIT;
     m_moneySupply := MONEY_SUPPLY;
     m_emissionSpeedFactor := EMISSION_SPEED_FACTOR;
     m_genesisBlockReward := GENESIS_BLOCK_REWARD;
     m_rewardBlocksWindow := MEVACOIN_REWARD_BLOCKS_WINDOW;
     m_zawyDifficultyBlockIndex := ZAWY_DIFFICULTY_BLOCK_INDEX;
     m_zawyDifficultyV2 := ZAWY_DIFFICULTY_V2;
     m_zawyDifficultyBlockVersion := ZAWY_DIFFICULTY_DIFFICULTY_BLOCK_VERSION;
     m_blockGrantedFullRewardZone := MEVACOIN_BLOCK_GRANTED_FULL_REWARD_ZONE;
     m_minerTxBlobReservedSize := MEVACOIN_COINBASE_BLOB_RESERVED_SIZE;
     m_numberOfDecimalPlaces := MEVACOIN_DISPLAY_DECIMAL_POINT;
     m_mininumFee := MINIMUM_FEE;
     m_defaultDustThreshold := DEFAULT_DUST_THRESHOLD;
     m_difficultyTarget := DIFFICULTY_TARGET;
     m_difficultyWindow := DIFFICULTY_WINDOW;
     m_difficultyLag := DIFFICULTY_LAG;
     m_difficultyCut := DIFFICULTY_CUT;
     m_maxBlockSizeInitial := MAX_BLOCK_SIZE_INITIAL;
     m_maxBlockSizeGrowthSpeedNumerator := MAX_BLOCK_SIZE_GROWTH_SPEED_NUMERATOR;
     m_maxBlockSizeGrowthSpeedDenominator := MAX_BLOCK_SIZE_GROWTH_SPEED_DENOMINATOR;
     m_lockedTxAllowedDeltaSeconds := MEVACOIN_LOCKED_TX_ALLOWED_DELTA_SECONDS;
     m_lockedTxAllowedDeltaBlocks := MEVACOIN_LOCKED_TX_ALLOWED_DELTA_BLOCKS;
     m_mempoolTxLiveTime := MEVACOIN_MEMPOOL_TX_LIVETIME;
     m_numberOfPeriodsToForgetTxDeletedFromPool :=
       MEVACOIN_NUMBER_OF_PERIODS_TO_FORGET_TX_DELETED_FROM_POOL;
     m_fusionTxMaxSize := FUSION_TX_MAX_SIZE;
     m_fusionTxMinInputCount := FUSION_TX_MIN_INPUT_COUNT;
     m_fusionTxMinInOutCountRatio := FUSION_TX_MIN_IN_OUT_COUNT_RATIO;
     m_upgradeHeightV2 := UPGRADE_HEIGHT_V2;
     m_upgradeHeightV3 := UPGRADE_HEIGHT_V3;
     m_upgradeHeightV4 := UPGRADE_HEIGHT_V4;
     m_upgradeHeightV5 := UPGRADE_HEIGHT_V5;
     m_upgradeVotingThreshold := UPGRADE_VOTING_THRESHOLD;
     m_upgradeVotingWindow := UPGRADE_VOTING_WINDOW;
     m_upgradeWindow := UPGRADE_WINDOW;
     m_testnet := false |}.

(** ** The penalty for large blocks *)

Definition getPenalizedAmount (amount medianSize currentBlockSize : Z) : Z :=
  if amount =? 0 then 0
  else if currentBlockSize <=? medianSize then amount
  else
    let '(productLo, productHi) :=
      mul128 amount (u64 (currentBlockSize * u64 (u64 (2 * medianSize) - currentBlockSize))) in
    let '(hi, lo, _) := div128_32 productHi productLo (u32 medianSize) in
    let '(_, penalizedAmountLo, _) := div128_32 hi lo (u32 medianSize) in
    penalizedAmountLo.

(** ** Parameters that depend on the version or the height *)

Section Currency.
Variable c : Currency.

Definition timestampCheckWindow (blockHeight : Z) : Z :=
  if LWMA_2_DIFFICULTY_BLOCK_INDEX_V3 <=? blockHeight then BLOCKCHAIN_TIMESTAMP_CHECK_WINDOW_V3
  else m_timestampCheckWindow c.

Definition blockFutureTimeLimit (blockHeight : Z) : Z :=
  if LWMA_2_DIFFICULTY_BLOCK_INDEX_V2 <=? blockHeight then MEVACOIN_BLOCK_FUTURE_TIME_LIMIT_V4
  else if LWMA_2_DIFFICULTY_BLOCK_INDEX <=? blockHeight then MEVACOIN_BLOCK_FUTURE_TIME_LIMIT_V3
  else m_blockFutureTimeLimit c.

Definition defaultDustThreshold (height : Z) : Z :=
  if DUST_THRESHOLD_V2_HEIGHT <=? height then DEFAULT_DUST_THRESHOLD_V2 else m_defaultDustThreshold c.

Definition defaultFusionDustThreshold (height : Z) : Z :=
  if FUSION_DUST_THRESHOLD_HEIGHT_V2 <=? height then DEFAULT_DUST_THRESHOLD_V2
  else m_defaultDustThreshold c.

Definition difficultyWindowByBlockVersion (blockMajorVersion : Z) : Z :=
  if BLOCK_MAJOR_VERSION_3 <=? blockMajorVersion then m_difficultyWindow c
  else if blockMajorVersion =? BLOCK_MAJOR_VERSION_2 then DIFFICULTY_WINDOW_V2
  else DIFFICULTY_WINDOW_V1.

Definition difficultyLagByBlockVersion (blockMajorVersion : Z) : Z :=
  if BLOCK_MAJOR_VERSION_3 <=? blockMajorVersion then m_difficultyLag c
  else if blockMajorVersion =? BLOCK_MAJOR_VERSION_2 then DIFFICULTY_LAG_V2
  else DIFFICULTY_LAG_V1.

Definition difficultyCutByBlockVersion (blockMajorVersion : Z) : Z :=
  if BLOCK_MAJOR_VERSION_3 <=? blockMajorVersion then m_difficultyCut c
  else if blockMajorVersion =? BLOCK_MAJOR_VERSION_2 then DIFFICULTY_CUT_V2
  else DIFFICULTY_CUT_V1.

Definition difficultyBlocksCountByBlockVersion (blockMajorVersion height : Z) : Z :=
  if LWMA_2_DIFFICULTY_BLOCK_INDEX <=? height then DIFFICULTY_BLOCKS_COUNT_V3
  else u64 (difficultyWindowByBlockVersion blockMajorVersion
            + difficultyLagByBlockVersion blockMajorVersion).

Definition blockGrantedFullRewardZoneByBlockVersion (blockMajorVersion : Z) : Z :=
  if BLOCK_MAJOR_VERSION_3 <=? blockMajorVersion then m_blockGrantedFullRewardZone c
  else if blockMajorVersion =? BLOCK_MAJOR_VERSION_2 then MEVACOIN_BLOCK_GRANTED_FULL_REWARD_ZONE_V2
  else MEVACOIN_BLOCK_GRANTED_FULL_REWARD_ZONE_V1.

Definition upgradeHeight (majorVersion : Z) : Z :=
  if majorVersion =? BLOCK_MAJOR_VERSION_2 then m_upgradeHeightV2 c
  else if majorVersion =? BLOCK_MAJOR_VERSION_3 then m_upgradeHeightV3 c
  else if majorVersion =? BLOCK_MAJOR_VERSION_4 then m_upgradeHeightV4 c
  else if majorVersion =? BLOCK_MAJOR_VERSION_5 then m_upgradeHeightV5 c
  else u32 (-1).

Definition maxBlockCumulativeSize (height : Z) : Z :=
  u64 (m_maxBlockSizeInitial c
       + u64 (height * m_maxBlockSizeGrowthSpeedNumerator c) / m_maxBlockSizeGrowthSpeedDenominator c).

(** ** Block rewards *)

(** [(reward, emissionChange)], or nothing for a block that is too big. *)
Definition getBlockReward (blockMajorVersion medianSize currentBlockSize alreadyGeneratedCoins fee : Z)
  : option (Z * Z) :=
  let baseReward :=
    if (alreadyGeneratedCoins =? 0) && negb (m_genesisBlockReward c =? 0) then m_genesisBlockReward c
    else Z.shiftr (u64 (m_moneySupply c - alreadyGeneratedCoins)) (m_emissionSpeedFactor c) in
  let medianSize :=
    Z.max medianSize (blockGrantedFullRewardZoneByBlockVersion blockMajorVersion) in
  if u64 (2 * medianSize) <? currentBlockSize then None
  else
    let penalizedBaseReward := getPenalizedAmount baseReward medianSize currentBlockSize in
    let penalizedFee :=
      if BLOCK_MAJOR_VERSION_2 <=? blockMajorVersion
      then getPenalizedAmount fee medianSize currentBlockSize else fee in
    Some (u64 (penalizedBaseReward + penalizedFee),
          i64 (u64 (penalizedBaseReward - u64 (fee - penalizedFee)))).

(** ** Coinbase transactions *)

(** [while (maxOuts < outAmounts.size())]: the last two amounts become one. *)
Fixpoint merge_outs (fuel maxOuts : nat) (outAmounts : list Z) : list Z :=
  match fuel with
  | O => outAmounts
  | S fuel =>
      let size := length outAmounts in
      if (maxOuts <? size)%nat then
        let merged := u64 (nth (size - 2) outAmounts 0 + nth (size - 1) outAmounts 0) in
        merge_outs fuel maxOuts (take (size - 2) outAmounts ++ [merged])
      else outAmounts
  end.

Section MinerTx.
(** The elliptic-curve operations: [crypto::generate_key_derivation] and
    [crypto::derive_public_key]. *)
Variable generate_key_derivation : PublicKey -> SecretKey -> option bytes.
Variable derive_public_key : bytes -> nat -> PublicKey -> option PublicKey.

(** The loop over [outAmounts] from index [no] on. *)
Fixpoint miner_outputs (minerAddress : AccountPublicAddress) (txkey : KeyPair) (no : nat)
    (outAmounts : list Z) : option (list TransactionOutput) :=
  match outAmounts with
  | [] => Some []
  | amount :: outAmounts =>
      derivation ← generate_key_derivation (viewPublicKey minerAddress) (secretKey txkey);
      outEphemeralPubKey ← derive_public_key derivation no (spendPublicKey minerAddress);
      outs ← miner_outputs minerAddress txkey (S no) outAmounts;
      Some ({| to_amount := amount; target := OutKey {| key := outEphemeralPubKey |} |} :: outs)
  end.

(** [txkey] is the pair [generateKeyPair()] returns; [sigs] the signatures of
    the transaction passed in, which stay. *)
Definition constructMinerTx (blockMajorVersion height medianSize alreadyGeneratedCoins
    currentBlockSize fee : Z) (minerAddress : AccountPublicAddress) (extraNonce : bytes)
    (maxOuts : nat) (txkey : KeyPair) (sigs : list (list Signature)) : option Transaction :=
  let extra := addTransactionPublicKeyToExtra [] (publicKey txkey) in
  match (match extraNonce with [] => (true, extra)
         | _ => addExtraNonceToTransactionExtra extra extraNonce end) with
  | (false, _) => None
  | (true, extra) =>
      match getBlockReward blockMajorVersion medianSize currentBlockSize alreadyGeneratedCoins fee with
      | None => None
      | Some (blockReward, _) =>
          let outAmounts := decompose_amount_into_digits blockReward (defaultDustThreshold height) in
          if negb (1 <=? maxOuts)%nat then None else
          let outAmounts := merge_outs (length outAmounts) maxOuts outAmounts in
          outs ← miner_outputs minerAddress txkey 0 outAmounts;
          let summaryAmounts := fold_left (fun sum amount => u64 (sum + amount)) outAmounts 0 in
          if negb (summaryAmounts =? blockReward) then None else
          Some {| tx_prefix := {| version := CURRENT_TRANSACTION_VERSION;
                    unlockTime := u32 (height + m_minedMoneyUnlockWindow c);
                    inputs := [InBase {| blockIndex := height |}];
                    outputs := outs; extra := extra |};
                  signatures := sigs |}
      end
  end.
End MinerTx.

(** ** Fusion transactions *)

(** [Currency::PRETTY_AMOUNTS] *)
Definition PRETTY_AMOUNTS : list Z :=
  flat_map (fun k => map (fun d => Z.of_nat d * 10 ^ Z.of_nat k) (seq 1 9)) (seq 0 19)
  ++ [10 ^ 19].

(** [std::sort] of unsigned numbers. *)
Definition std_sort (l : list Z) : list Z := merge_sort Z.le l.

(** The sum of the inputs, or nothing when one is below the threshold. *)
Fixpoint fusion_inputs (threshold inputAmount : Z) (inputsAmounts : list Z) : option Z :=
  match inputsAmounts with
  | [] => Some inputAmount
  | amount :: inputsAmounts =>
      if amount <? threshold then None
      else fusion_inputs threshold (u64 (inputAmount + amount)) inputsAmounts
  end.

Definition isFusionTransaction (inputsAmounts outputsAmounts : list Z) (size height : Z) : bool :=
  if m_fusionTxMaxSize c <? size then false
  else if Z.of_nat (length inputsAmounts) <? m_fusionTxMinInputCount c then false
  else if Z.of_nat (length inputsAmounts)
          <? u64 (Z.of_nat (length outputsAmounts) * m_fusionTxMinInOutCountRatio c) then false
  else
    match fusion_inputs (defaultFusionDustThreshold height) 0 inputsAmounts with
    | None => false
    | Some inputAmount =>
        bool_decide (std_sort (decomposeAmount inputAmount (defaultFusionDustThreshold height))
                     = outputsAmounts)
    end.

(** [isFusionTransaction(transaction, size, height)] *)
Definition isFusionTransaction_tx (transaction : Transaction) (size height : Z) : bool :=
  isFusionTransaction (getInputsAmounts transaction) (map to_amount (outputs transaction)) size height.

(** [std::lower_bound]: the position of the first element that is not less. *)
Fixpoint lower_bound (l : list Z) (x : Z) : nat :=
  match l with
  | [] => O
  | y :: l => if y <? x then S (lower_bound l x) else O
  end.

(** [isAmountApplicableInFusionTransactionInput]: the power of ten. *)
Definition isAmountApplicableInFusionTransactionInput (amount threshold height : Z) : option Z :=
  if threshold <=? amount then None
  else if amount <? defaultFusionDustThreshold height then None
  else
    let it := lower_bound PRETTY_AMOUNTS amount in
    match PRETTY_AMOUNTS !! it with
    | None => None
    | Some y => if negb (amount =? y) then None else Some (u8 (Z.of_nat (Nat.div it 9)))
    end.

(** ** Transaction sizes *)

Definition getApproximateMaximumInputCount (transactionSize outputCount mixinCount : Z) : Z :=
  let outputsSize := u64 (outputCount * (1 + 32 + 10)) in
  let headerSize := 1 + 8 + 1 + 32 in
  let inputSize := u64 (1 + 10 + 32 + 64 + 1 + 4 + u64 (mixinCount * (4 + 64))) in
  u64 (u64 (transactionSize - headerSize) - outputsSize) / inputSize.

(** ** The genesis block *)

Definition generateGenesisBlock : option BlockTemplate :=
  minerTxBlob ← fromHex GENESIS_COINBASE_TX_HEX;
  tx ← fromBinaryArray serialize_Transaction minerTxBlob;
  Some {| header := {| majorVersion := BLOCK_MAJOR_VERSION_1; minorVersion := BLOCK_MINOR_VERSION_0;
            nonce := if m_testnet c then 71 else 70; timestamp := 0;
            previousBlockHash := NULL_HASH |};
          parentBlock := no_parent; baseTransaction := tx; transactionHashes := [] |}.
End Currency.

(** ** The penalty *)

(** Above the median the amount is scaled by [size * (2 * median - size) / median ^ 2]. *)
Definition penalized (amount median size : Z) : Z :=
  if size <=? median then amount else amount * (size * (2 * median - size)) / (median * median).

Lemma penalty_factor median size :
  0 <= median -> median < size <= 2 * median ->
  0 <= size * (2 * median - size) < median * median.
Proof. intros. split; nia. Qed.

Lemma penalized_bounds amount median size :
  0 <= amount -> 0 <= median -> 0 <= size <= 2 * median ->
  0 <= penalized amount median size <= amount.
Proof.
  intros Ha Hm Hs. unfold penalized. destruct (Z.leb_spec size median); [lia|].
  pose proof (penalty_factor median size Hm ltac:(lia)). split.
  - apply Z.div_pos; nia.
  - apply Z.div_le_upper_bound; nia.
Qed.

Lemma getPenalizedAmount_eq amount median size :
  is_u64 amount -> is_u32 median -> is_u32 size -> size <= 2 * median ->
  getPenalizedAmount amount median size = penalized amount median size.
Proof.
  intros Ha Hm Hs Hle. unfold getPenalizedAmount, penalized.
  destruct (Z.eqb_spec amount 0) as [->|Hne].
  { destruct (Z.leb_spec size median); [done|].
    by rewrite Z.mul_0_l, Z.div_0_l by (destruct Hm, Hs; nia). }
  destruct (Z.leb_spec size median); [done|].
  pose proof (penalty_factor median size ltac:(apply Hm) ltac:(lia)) as Hf.
  assert (0 < median < 2 ^ 32) as Hm' by (destruct Hm, Hs; lia).
  assert (median * median < 2 ^ 64) by mnia.
  rewrite (wrap_small 64 (2 * median)) by mlia.
  rewrite (wrap_small 64 (2 * median - size)) by mlia.
  set (f := size * (2 * median - size)) in *. rewrite (wrap_small 64 f) by (split; lia).
  rewrite (wrap_small 32 median) by done.
  rewrite mul128_eq by (done || (split; lia)). set (n := amount * f).
  assert (0 <= n < 2 ^ 64 * 2 ^ 64) as Hn by (destruct Ha; unfold n;
    split; [apply Z.mul_nonneg_nonneg|apply Z.mul_lt_mono_nonneg]; lia).
  assert (forall x, 0 <= x < 2 ^ 64 * 2 ^ 64 -> is_u64 (x / 2 ^ 64) /\ is_u64 (x mod 2 ^ 64) /\
    x / 2 ^ 64 * 2 ^ 64 + x mod 2 ^ 64 = x) as Hsplit.
  { intros x Hx. split; [split; [apply Z.div_pos; lia|apply Z.div_lt_upper_bound; lia]|].
    split; [apply Z.mod_pos_bound; lia|]. pose proof (Z.div_mod x (2 ^ 64)). lia. }
  destruct (Hsplit n Hn) as (H1 & H2 & E). rewrite div128_32_spec, E by done.
  assert (0 <= n / median < 2 ^ 64 * 2 ^ 64) as Hq.
  { split; [apply Z.div_pos; lia|]. apply Z.le_lt_trans with n; [|lia].
    apply Z.div_le_upper_bound; nia. }
  destruct (Hsplit (n / median) Hq) as (H3 & H4 & E').
  rewrite div128_32_spec, E' by done. rewrite Z.div_div by lia.
  apply Z.mod_small. pose proof (penalized_bounds amount median size) as B.
  unfold penalized in B. rewrite (proj2 (Z.leb_gt _ _)) in B by lia. fold f n in B.
  destruct Ha, Hs. lia.
Qed.

(** ** Rewards *)

Lemma swrap_small w x : 0 < w -> - 2 ^ (w - 1) <= x < 2 ^ (w - 1) -> swrap w (wrap w x) = x.
Proof.
  intros Hw Hx. unfold swrap, wrap. rewrite Z.add_mod_idemp_l.
  - rewrite Z.mod_small; [lia|]. assert (2 ^ w = 2 * 2 ^ (w - 1)) as ->; [|lia].
    rewrite <- Z.pow_succ_r by lia. f_equal. lia.
  - apply Z.pow_nonzero; lia.
Qed.

(** What the builder and the sources guarantee of the parameters.  The builder
    also accepts 64 for the speed factor, by which a shift is undefined. *)
Record wf_Currency (c : Currency) : Prop := {
  wf_supply : 0 <= m_moneySupply c < 2 ^ 62;
  wf_factor : 0 < m_emissionSpeedFactor c < 64;
  wf_genesis : 0 <= m_genesisBlockReward c <= m_moneySupply c;
  wf_zone : 0 <= m_blockGrantedFullRewardZone c < 2 ^ 31;
  wf_dust : is_u64 (m_defaultDustThreshold c)
}.

Lemma CurrencyBuilder_wf : wf_Currency CurrencyBuilder.
Proof. split; done. Qed.

Section Rewards.
Context (c : Currency) (Hc : wf_Currency c).

(** The coins left, shifted by the emission speed, and the size of block
    from which on the penalty applies. *)
Definition base_reward (already : Z) : Z :=
  if (already =? 0) && negb (m_genesisBlockReward c =? 0) then m_genesisBlockReward c
  else (m_moneySupply c - already) / 2 ^ m_emissionSpeedFactor c.

Definition effective_median (v median : Z) : Z :=
  Z.max median (blockGrantedFullRewardZoneByBlockVersion c v).

Definition collected_fee (v median size fee : Z) : Z :=
  if BLOCK_MAJOR_VERSION_2 <=? v then penalized fee (effective_median v median) size else fee.

Lemma base_reward_bounds already :
  0 <= already <= m_moneySupply c -> 0 <= base_reward already <= m_moneySupply c - already.
Proof using Hc.
  intros Ha. destruct Hc as [Hs Hf Hg _ _].
  assert (0 < 2 ^ m_emissionSpeedFactor c) by (apply Z.pow_pos_nonneg; lia).
  assert (0 <= (m_moneySupply c - already) / 2 ^ m_emissionSpeedFactor c <= m_moneySupply c - already)
    by (split; [apply Z.div_pos; lia|apply Z.div_le_upper_bound; nia]).
  unfold base_reward. destruct (Z.eqb_spec already 0) as [->|]; [|done].
  destruct (_ =? _); cbn [andb negb]; lia.
Qed.

Lemma effective_median_fits v median :
  0 <= median < 2 ^ 31 -> 0 <= effective_median v median < 2 ^ 31.
Proof using Hc.
  intros Hm. unfold effective_median, blockGrantedFullRewardZoneByBlockVersion.
  pose proof (wf_zone c Hc). change (2 ^ 31) with 2147483648 in *.
  repeat case_match; lia.
Qed.

Lemma getBlockReward_eq v median size already fee :
  0 <= median < 2 ^ 31 -> 0 <= size -> 0 <= already <= m_moneySupply c -> 0 <= fee < 2 ^ 63 ->
  getBlockReward c v median size already fee =
    if 2 * effective_median v median <? size then None
    else let reward := penalized (base_reward already) (effective_median v median) size
                       + collected_fee v median size fee in
         Some (reward, reward - fee).
Proof using Hc.
  intros Hm Hs Ha Hf. pose proof (effective_median_fits v median Hm) as Hem.
  pose proof (base_reward_bounds already Ha) as Hb. destruct Hc as [Hsup Hfac _ _ _].
  assert (is_u64 (base_reward already)) as Hbu by (split; [lia|]; change (2 ^ 62) with 4611686018427387904 in *; mlia).
  unfold getBlockReward. fold (effective_median v median).
  assert ((if (already =? 0) && negb (m_genesisBlockReward c =? 0) then m_genesisBlockReward c
    else Z.shiftr (u64 (m_moneySupply c - already)) (m_emissionSpeedFactor c)) = base_reward already) as ->.
  { unfold base_reward. destruct (_ && _); [done|]. rewrite Z.shiftr_div_pow2 by lia.
    rewrite wrap_small; [done|]. change (2 ^ 62) with 4611686018427387904 in *. mlia. }
  set (m := effective_median v median) in *. change (2 ^ 31) with 2147483648 in *.
  rewrite (wrap_small 64 (2 * m)) by mlia.
  destruct (Z.ltb_spec (2 * m) size); [done|]. cbv zeta. f_equal.
  assert (is_u32 m) by mlia. assert (is_u32 size) by mlia. assert (is_u64 fee) by mlia.
  assert ((if BLOCK_MAJOR_VERSION_2 <=? v then getPenalizedAmount fee m size else fee)
    = collected_fee v median size fee) as ->.
  { unfold collected_fee. fold m. destruct (_ <=? _); [|done]. by apply getPenalizedAmount_eq. }
  rewrite getPenalizedAmount_eq by done.
  pose proof (penalized_bounds (base_reward already) m size ltac:(lia) ltac:(lia) ltac:(lia)) as B1.
  assert (0 <= collected_fee v median size fee <= fee) as B2.
  { unfold collected_fee. fold m. destruct (_ <=? _); [|lia]. apply penalized_bounds; lia. }
  change (2 ^ 62) with 4611686018427387904 in *. rewrite wrap_small by mlia.
  rewrite wrap_sub_r, swrap_small by (try change (64 - 1) with 63; mlia). f_equal. lia.
Qed.

Lemma collected_fee_bounds v median size fee :
  0 <= median < 2 ^ 31 -> 0 <= size <= 2 * effective_median v median -> 0 <= fee ->
  0 <= collected_fee v median size fee <= fee.
Proof using Hc.
  intros Hm Hs Hf. pose proof (effective_median_fits v median Hm). unfold collected_fee.
  destruct (_ <=? _); [|lia]. apply penalized_bounds; lia.
Qed.

(** One block: the fees it collects are coins already generated. *)
Inductive emission_step (already : Z) : Z -> Prop :=
| emit v median size fee reward change :
    0 <= median < 2 ^ 31 -> 0 <= size -> 0 <= fee <= already ->
    getBlockReward c v median size already fee = Some (reward, change) ->
    emission_step already (u64 (already + change)).

Lemma emission_step_bounded already already' :
  0 <= already <= m_moneySupply c -> emission_step already already' ->
  0 <= already' <= m_moneySupply c.
Proof using Hc.
  intros Ha H. destruct H as [v median size fee reward change Hm Hs Hf H].
  pose proof (wf_supply c Hc) as Hsup. change (2 ^ 62) with 4611686018427387904 in *.
  rewrite getBlockReward_eq in H by (done || mlia).
  destruct (Z.ltb_spec (2 * effective_median v median) size); [done|]. injection H as <- <-.
  pose proof (effective_median_fits v median Hm) as Hem.
  pose proof (base_reward_bounds already Ha) as Hb.
  pose proof (penalized_bounds (base_reward already) (effective_median v median) size
    ltac:(lia) ltac:(lia) ltac:(lia)).
  pose proof (collected_fee_bounds v median size fee Hm ltac:(lia) ltac:(lia)).
  rewrite wrap_small by mlia. lia.
Qed.
End Rewards.

Lemma getBlockReward_u64 c v median size already fee reward change :
  wf_Currency c -> 0 <= median < 2 ^ 31 -> 0 <= size -> 0 <= already <= m_moneySupply c ->
  0 <= fee < 2 ^ 63 -> getBlockReward c v median size already fee = Some (reward, change) ->
  is_u64 reward.
Proof.
  intros Hc Hm Hs Ha Hf H. rewrite getBlockReward_eq in H by done.
  destruct (Z.ltb_spec (2 * effective_median c v median) size); [done|]. injection H as <- _.
  pose proof (effective_median_fits c Hc v median Hm) as Hem.
  pose proof (base_reward_bounds c Hc already Ha) as Hb. pose proof (wf_supply c Hc).
  pose proof (penalized_bounds (base_reward c already) (effective_median c v median) size
    ltac:(lia) ltac:(lia) ltac:(lia)).
  pose proof (collected_fee_bounds c Hc v median size fee Hm ltac:(lia) ltac:(lia)).
  change (2 ^ 62) with 4611686018427387904 in *. mlia.
Qed.

(** ** Coinbase outputs *)

Lemma split_last_two {A} (l : list A) :
  (2 <= length l)%nat -> exists l' a b, l = l' ++ [a; b].
Proof.
  intros Hl. destruct l as [|b l _] using rev_ind; [simpl in Hl; lia|].
  rewrite length_app in Hl. destruct l as [|a l _] using rev_ind; [simpl in Hl; lia|].
  exists l, a, b. by rewrite <- app_assoc.
Qed.

Lemma sumZ_cons x l : sumZ (x :: l) = x + sumZ l.
Proof. done. Qed.

Lemma merge_outs_spec fuel maxOuts : forall l,
  (1 <= maxOuts)%nat -> (length l - maxOuts <= fuel)%nat ->
  Forall (fun x => 0 <= x) l -> sumZ l < 2 ^ 64 ->
  sumZ (merge_outs fuel maxOuts l) = sumZ l /\ (length (merge_outs fuel maxOuts l) <= maxOuts)%nat.
Proof.
  induction fuel as [|fuel IH]; intros l Hm Hf Hl Hs; [split; [done|simpl; lia]|].
  cbn [merge_outs]. destruct (Nat.ltb_spec maxOuts (length l)) as [Hlt|]; [|split; [done|lia]].
  destruct (split_last_two l ltac:(lia)) as (l' & a & b & ->). rewrite !length_app in *.
  cbn [length] in *. rewrite !Nat.add_sub in *.
  replace (length l' + 2 - 1)%nat with (S (length l')) by lia.
  rewrite take_app_length, !app_nth2, Nat.sub_diag, Nat.sub_succ_l, Nat.sub_diag by lia. cbn [nth].
  apply Forall_app in Hl as [Hl' Hab]. apply Forall_cons in Hab as [Ha Hab]. apply Forall_cons in Hab as [Hb _].
  rewrite !sumZ_app, !sumZ_cons in *. cbn [sumZ foldr] in *.
  assert (0 <= sumZ l') by (clear -Hl'; induction Hl'; unfold sumZ in *; simpl; lia).
  rewrite wrap_small by (split; lia).
  destruct (IH (l' ++ [a + b])) as [E L].
  - done.
  - rewrite length_app. simpl. lia.
  - apply Forall_app. split; [done|]. constructor; [lia|constructor].
  - rewrite sumZ_app. cbn [sumZ foldr]. lia.
  - rewrite E, sumZ_app. cbn [sumZ foldr]. split; [lia|done].
Qed.

Lemma fold_sum_plain l : 0 <= sumZ l < 2 ^ 64 -> fold_left (fun s x => u64 (s + x)) l 0 = sumZ l.
Proof.
  intros H. pose proof (fold_sum (fun x => x) l 0) as E. rewrite map_id in E.
  change (u64 0) with 0 in E. rewrite E. by apply wrap_small.
Qed.

Section MinerOutputs.
Context (gen : PublicKey -> SecretKey -> option bytes)
        (derive : bytes -> nat -> PublicKey -> option PublicKey).

Lemma miner_outputs_amounts adr k l : forall no outs,
  miner_outputs gen derive adr k no l = Some outs -> map to_amount outs = l.
Proof.
  induction l as [|x l IH]; intros no outs H; cbn [miner_outputs] in H; [by simplify_eq|].
  apply bind_Some in H as (d & _ & H). apply bind_Some in H as (pk & _ & H).
  apply bind_Some in H as (rest & Hr & [= <-]). cbn [map to_amount]. f_equal. by eapply IH.
Qed.

(** The curve operations succeed, as they do on valid keys. *)
Definition keys_derive : Prop :=
  (forall pub sec, gen pub sec <> None) /\ (forall d no pub, derive d no pub <> None).

Lemma miner_outputs_total adr k l : forall no,
  keys_derive -> exists outs, miner_outputs gen derive adr k no l = Some outs.
Proof.
  induction l as [|x l IH]; intros no [Hg Hd]; cbn [miner_outputs]; [eauto|].
  destruct (gen _ _) as [d|] eqn:E; [|by apply Hg in E]. cbn.
  destruct (derive _ _ _) as [pk|] eqn:E'; [|by apply Hd in E']. cbn.
  destruct (IH (S no)) as [outs ->]; [done|]. cbn. eauto.
Qed.
End MinerOutputs.

(** ** Fusion *)

Lemma fusion_inputs_Some t l : forall acc s,
  fusion_inputs t (u64 acc) l = Some s -> s = u64 (acc + sumZ l) /\ Forall (fun x => t <= x) l.
Proof.
  induction l as [|x l IH]; intros acc s H; cbn [fusion_inputs] in H.
  - injection H as <-. rewrite Z.add_0_r. done.
  - destruct (Z.ltb_spec x t); [done|]. rewrite wrap_add_l in H by lia.
    apply IH in H as [-> HF]. split; [f_equal; rewrite sumZ_cons; lia|by constructor].
Qed.

Lemma sumZ_Permutation l l' : l ≡ₚ l' -> sumZ l = sumZ l'.
Proof. unfold sumZ. induction 1; simpl; lia. Qed.

#[global] Instance sumZ_Proper : Proper (Permutation ==> eq) sumZ.
Proof. intros l l'. apply sumZ_Permutation. Qed.

(** The amount at position [i] of the table. *)
Definition pretty_at (i : nat) : Z := Z.of_nat (i mod 9 + 1) * 10 ^ Z.of_nat (i / 9).

Lemma PRETTY_AMOUNTS_table i : (i < 172)%nat ->
  lower_bound PRETTY_AMOUNTS (pretty_at i) = i /\ PRETTY_AMOUNTS !! i = Some (pretty_at i).
Proof.
  intros Hi.
  pose (P := fun i => bool_decide (lower_bound PRETTY_AMOUNTS (pretty_at i) = i /\
    PRETTY_AMOUNTS !! i = Some (pretty_at i))).
  assert (forallb P (seq 0 172) = true) as H by (vm_compute; reflexivity).
  rewrite forallb_forall in H. apply (bool_decide_unpack _). apply Is_true_true. apply H.
  apply in_seq. lia.
Qed.

Lemma length_PRETTY_AMOUNTS : length PRETTY_AMOUNTS = 172%nat.
Proof. reflexivity. Qed.

(** ** Theorems *)

(** C40. The reward of a block is exact and conserves money: whenever the block
    is not too big, reward equals newly emitted coins plus fees, with both
    computed at 64 bits; the penalty only ever lowers base reward and fees. *)
Theorem getBlockReward_exact c v median size already fee :
  wf_Currency c -> 0 <= median < 2 ^ 31 -> 0 <= size ->
  0 <= already <= m_moneySupply c -> 0 <= fee < 2 ^ 63 ->
  match getBlockReward c v median size already fee with
  | None => 2 * effective_median c v median < size
  | Some (reward, emissionChange) =>
      reward = emissionChange + fee /\
      reward = penalized (base_reward c already) (effective_median c v median) size
               + collected_fee c v median size fee /\
      0 <= penalized (base_reward c already) (effective_median c v median) size
        <= base_reward c already /\
      0 <= collected_fee c v median size fee <= fee
  end.
Proof.
  intros Hc Hm Hs Ha Hf. rewrite getBlockReward_eq by done.
  destruct (Z.ltb_spec (2 * effective_median c v median) size); [done|].
  pose proof (effective_median_fits c Hc v median Hm).
  pose proof (base_reward_bounds c Hc already Ha). cbv zeta.
  split; [lia|]. split; [done|]. split; [apply penalized_bounds; lia|].
  apply collected_fee_bounds; done || lia.
Qed.

Lemma getBlockReward_exact_witness :
  match getBlockReward CurrencyBuilder 5 0 150000 0 1000 with
  | None => 2 * effective_median CurrencyBuilder 5 0 < 150000
  | Some (reward, emissionChange) =>
      reward = emissionChange + 1000 /\
      reward = penalized (base_reward CurrencyBuilder 0) (effective_median CurrencyBuilder 5 0) 150000
               + collected_fee CurrencyBuilder 5 0 150000 1000 /\
      0 <= penalized (base_reward CurrencyBuilder 0) (effective_median CurrencyBuilder 5 0) 150000
        <= base_reward CurrencyBuilder 0 /\
      0 <= collected_fee CurrencyBuilder 5 0 150000 1000 <= 1000
  end.
Proof.
  apply (getBlockReward_exact CurrencyBuilder 5 0 150000 0 1000);
    [apply CurrencyBuilder_wf|lia|lia|done|lia].
Defined.

(** The penalty of [getPenalizedAmount], computed with 128-bit products
    and two divisions, is the exact floor of the formula, and an amount above
    zero in a block above the median shrinks. *)
Theorem getPenalizedAmount_exact amount median size :
  is_u64 amount -> is_u32 median -> is_u32 size -> size <= 2 * median ->
  getPenalizedAmount amount median size = penalized amount median size /\
  (0 < amount -> median < size -> getPenalizedAmount amount median size < amount).
Proof.
  intros Ha Hm Hs Hle. rewrite getPenalizedAmount_eq by done. split; [done|]. intros Hp Hlt.
  unfold penalized. rewrite (proj2 (Z.leb_gt _ _)) by lia.
  pose proof (penalty_factor median size ltac:(apply Hm) ltac:(lia)).
  apply Z.div_lt_upper_bound; nia.
Qed.

Lemma getPenalizedAmount_exact_witness :
  getPenalizedAmount 1000000 100000 150000 = penalized 1000000 100000 150000 /\
  (0 < 1000000 -> 100000 < 150000 -> getPenalizedAmount 1000000 100000 150000 < 1000000).
Proof. apply (getPenalizedAmount_exact 1000000 100000 150000); [mlia|mlia|mlia|lia]. Defined.

(** The money supply is a hard cap: whatever blocks are added, in whatever
    order and with whatever sizes and fees, the generated coins stay between
    zero and [m_moneySupply]. *)
Theorem emission_capped c already :
  wf_Currency c -> rtc (emission_step c) 0 already -> 0 <= already <= m_moneySupply c.
Proof.
  intros Hc H. assert (forall x y, rtc (emission_step c) x y ->
    0 <= x <= m_moneySupply c -> 0 <= y <= m_moneySupply c) as Hind.
  { induction 1 as [|x y z Hxy _ IH]; [done|]. intros Hx. apply IH.
    by apply (emission_step_bounded c Hc x). }
  apply (Hind 0); [done|]. destruct (wf_supply c Hc). lia.
Qed.

Lemma emission_capped_witness :
  0 <= u64 (0 + 37252902) <= m_moneySupply CurrencyBuilder.
Proof.
  apply (emission_capped CurrencyBuilder (u64 (0 + 37252902))); [apply CurrencyBuilder_wf|].
  apply rtc_once. apply (emit CurrencyBuilder 0 5 0 0 0 37252902 37252902); [lia..|].
  vm_compute. reflexivity.
Defined.

(** A coinbase transaction built by [constructMinerTx] pays out exactly the
    block reward, in at most [maxOuts] outputs, from one base input that names
    the height, and is locked for the unlock window.  It is built unless the
    block is too big, provided the nonce fits and the keys derive. *)
Theorem constructMinerTx_pays gen derive c v height median already size fee adr nonce maxOuts txkey sigs :
  wf_Currency c -> 0 <= median < 2 ^ 31 -> 0 <= size -> 0 <= already <= m_moneySupply c ->
  0 <= fee < 2 ^ 63 -> keys_derive gen derive -> (length nonce <= 255)%nat -> (1 <= maxOuts)%nat ->
  match getBlockReward c v median size already fee with
  | None => constructMinerTx c gen derive v height median already size fee adr nonce maxOuts txkey sigs = None
  | Some (reward, _) =>
      exists tx, constructMinerTx c gen derive v height median already size fee adr nonce maxOuts txkey sigs
                   = Some tx /\
        sumZ (map to_amount (outputs tx)) = reward /\ (length (outputs tx) <= maxOuts)%nat /\
        inputs tx = [InBase {| blockIndex := height |}] /\
        unlockTime tx = u32 (height + m_minedMoneyUnlockWindow c) /\ signatures tx = sigs
  end.
Proof.
  intros Hc Hm Hs Ha Hf Hk Hn Hmax. unfold constructMinerTx.
  assert (exists extra, match nonce with [] => (true, addTransactionPublicKeyToExtra [] (publicKey txkey))
    | _ => addExtraNonceToTransactionExtra (addTransactionPublicKeyToExtra [] (publicKey txkey)) nonce end
    = (true, extra)) as [extra ->].
  { destruct nonce; [eauto|]. unfold addExtraNonceToTransactionExtra, TX_EXTRA_NONCE_MAX_COUNT.
    destruct (Z.ltb_spec 255 (Z.of_nat (length (z :: nonce)))); [lia|eauto]. }
  destruct (getBlockReward c v median size already fee) as [[reward change]|] eqn:E; [|done].
  assert (is_u64 reward) as Hr by (by eapply getBlockReward_u64).
  assert (0 <= defaultDustThreshold c height) as Hd.
  { unfold defaultDustThreshold. destruct (_ <=? _); [lia|apply Hc]. }
  destruct (decompose_parts reward _ Hr Hd) as [Esum HF]. unfold decomposeAmount in Esum, HF.
  set (l := decompose_amount_into_digits reward (defaultDustThreshold c height)) in *.
  destruct (merge_outs_spec (length l) maxOuts l Hmax ltac:(lia)) as [Em Lm].
  { eapply Forall_impl; [exact HF|]. simpl. lia. }
  { rewrite Esum. apply Hr. }
  destruct (Nat.leb_spec 1 maxOuts); [|lia]. cbn [negb].
  set (l' := merge_outs (length l) maxOuts l) in *.
  destruct (miner_outputs_total gen derive adr txkey l' 0 Hk) as [outs Eo]. rewrite Eo. cbn [mbind option_bind].
  rewrite fold_sum_plain by (rewrite Em, Esum; apply Hr). rewrite Em, Esum, Z.eqb_refl. cbn [negb].
  apply miner_outputs_amounts in Eo. eexists. split; [reflexivity|]. cbn [tx_prefix outputs inputs unlockTime signatures].
  rewrite Eo. split; [lia|]. split; [|done]. by rewrite <- (length_map to_amount outs), Eo.
Qed.

(** Key derivation that always succeeds. *)
Definition toy_gen (pub : PublicKey) (sec : SecretKey) : option bytes := Some (pub ++ sec).
Definition toy_derive (d : bytes) (no : nat) (pub : PublicKey) : option PublicKey := Some pub.
Definition toy_address : AccountPublicAddress :=
  {| spendPublicKey := replicate 32 1; viewPublicKey := replicate 32 2 |}.
Definition toy_keys : KeyPair := {| publicKey := replicate 32 3; secretKey := replicate 32 4 |}.

Lemma constructMinerTx_pays_witness :
  match getBlockReward CurrencyBuilder 5 0 500 1000 7 with
  | None => constructMinerTx CurrencyBuilder toy_gen toy_derive 5 10 0 1000 500 7 toy_address [1] 3
              toy_keys [] = None
  | Some (reward, _) =>
      exists tx, constructMinerTx CurrencyBuilder toy_gen toy_derive 5 10 0 1000 500 7 toy_address [1] 3
                   toy_keys [] = Some tx /\
        sumZ (map to_amount (outputs tx)) = reward /\ (length (outputs tx) <= 3)%nat /\
        inputs tx = [InBase {| blockIndex := 10 |}] /\
        unlockTime tx = u32 (10 + m_minedMoneyUnlockWindow CurrencyBuilder) /\ signatures tx = []
  end.
Proof.
  apply (constructMinerTx_pays toy_gen toy_derive CurrencyBuilder 5 10 0 1000 500 7 toy_address [1] 3
    toy_keys []); [apply CurrencyBuilder_wf|lia|lia|done|lia|done|simpl; lia|lia].
Defined.

(** A fusion transaction takes no fee and shrinks the output set: outputs
    add up to the inputs, there are at least twelve inputs, none of them dust,
    and at least four inputs per output. *)
Theorem isFusionTransaction_conserves c ins outs size height :
  0 <= defaultFusionDustThreshold c height -> sumZ ins < 2 ^ 64 -> Forall is_u64 ins ->
  0 <= Z.of_nat (length outs) * m_fusionTxMinInOutCountRatio c < 2 ^ 64 ->
  isFusionTransaction c ins outs size height = true ->
  sumZ outs = sumZ ins /\ size <= m_fusionTxMaxSize c /\
  m_fusionTxMinInputCount c <= Z.of_nat (length ins) /\
  Z.of_nat (length outs) * m_fusionTxMinInOutCountRatio c <= Z.of_nat (length ins) /\
  Forall (fun x => defaultFusionDustThreshold c height <= x) ins.
Proof.
  intros Ht Hs Hu Hr H. unfold isFusionTransaction in H.
  destruct (Z.ltb_spec (m_fusionTxMaxSize c) size); [done|].
  destruct (Z.ltb_spec (Z.of_nat (length ins)) (m_fusionTxMinInputCount c)); [done|].
  rewrite (wrap_small 64 _ Hr) in H.
  destruct (Z.ltb_spec (Z.of_nat (length ins)) (Z.of_nat (length outs) * m_fusionTxMinInOutCountRatio c)); [done|].
  destruct (fusion_inputs _ _ _) as [s|] eqn:E; [|done]. case_bool_decide as Eo; [|done].
  change 0 with (u64 0) in E. apply fusion_inputs_Some in E as [-> HF].
  pose proof (sumZ_nonneg ins Hu). rewrite Z.add_0_l, wrap_small in Eo by (split; lia).
  split; [|split_and!; done || lia]. rewrite <- Eo. unfold std_sort. rewrite merge_sort_Permutation.
  apply (decompose_parts (sumZ ins) _ ltac:(split; lia) Ht).
Qed.

Lemma isFusionTransaction_conserves_witness :
  sumZ [20; 100] = sumZ (replicate 12 10) /\ 100 <= m_fusionTxMaxSize CurrencyBuilder /\
  m_fusionTxMinInputCount CurrencyBuilder <= Z.of_nat (length (replicate 12 10)) /\
  Z.of_nat (length [20; 100]) * m_fusionTxMinInOutCountRatio CurrencyBuilder
    <= Z.of_nat (length (replicate 12 10)) /\
  Forall (fun x => defaultFusionDustThreshold CurrencyBuilder 900000 <= x) (replicate 12 10).
Proof.
  apply (isFusionTransaction_conserves CurrencyBuilder (replicate 12 10) [20; 100] 100 900000);
    [done|done|evaluate|done|vm_compute; reflexivity].
Defined.

(** The amounts accepted as fusion inputs are exactly the round ones: one
    digit followed by zeros, at least dust and below the threshold; the power
    returned is the number of zeros. *)
Theorem fusion_input_round c amount threshold height k :
  is_u64 amount ->
  isAmountApplicableInFusionTransactionInput c amount threshold height = Some k <->
  defaultFusionDustThreshold c height <= amount < threshold /\
  0 <= k <= 19 /\ exists d, 1 <= d <= 9 /\ amount = d * 10 ^ k.
Proof.
  intros Hu. unfold isAmountApplicableInFusionTransactionInput. split.
  - generalize (lower_bound PRETTY_AMOUNTS amount) as i. intros i H.
    destruct (Z.leb_spec threshold amount); [done|].
    destruct (Z.ltb_spec amount (defaultFusionDustThreshold c height)); [done|].
    destruct (PRETTY_AMOUNTS !! _) as [y|] eqn:E; [|done].
    destruct (Z.eqb_spec amount y) as [<-|]; [|done].
    assert (k = u8 (Z.of_nat (i / 9))) as -> by (cbn [negb] in H; congruence). clear H.
    pose proof (lookup_lt_Some _ _ _ E) as Hl. rewrite length_PRETTY_AMOUNTS in Hl.
    destruct (PRETTY_AMOUNTS_table i Hl) as [_ E'].
    rewrite E' in E. injection E as E. pose proof (Nat.mod_upper_bound i 9).
    assert (i / 9 <= 19)%nat by (apply Nat.Div0.div_le_upper_bound; lia).
    rewrite wrap_small by mlia. split; [lia|]. split; [lia|].
    exists (Z.of_nat (i mod 9 + 1)). split; [lia|]. by rewrite <- E.
  - intros (Hr & Hk & d & Hd & ->). destruct (Z.leb_spec threshold (d * 10 ^ k)); [lia|].
    destruct (Z.ltb_spec (d * 10 ^ k) (defaultFusionDustThreshold c height)); [lia|].
    assert (k = 19 -> d = 1) as H19.
    { intros ->. destruct Hu as [_ Hu]. change (10 ^ 19) with 10000000000000000000 in Hu. mlia. }
    pose (i := (9 * Z.to_nat k + Z.to_nat (d - 1))%nat).
    assert (i / 9 = Z.to_nat k)%nat as Ei.
    { unfold i. symmetry. apply (Nat.div_unique _ 9 _ (Z.to_nat (d - 1))); lia. }
    assert (i mod 9 = Z.to_nat (d - 1))%nat as Em.
    { unfold i. symmetry. apply (Nat.mod_unique _ 9 (Z.to_nat k)); lia. }
    destruct (PRETTY_AMOUNTS_table i ltac:(unfold i; lia)) as [L A].
    assert (pretty_at i = d * 10 ^ k) as Ep.
    { unfold pretty_at. rewrite Ei, Em. f_equal; [lia|]. f_equal. lia. }
    rewrite Ep in *. rewrite L, A, Z.eqb_refl. cbn [negb]. change (Nat.div i 9) with (i / 9)%nat.
    rewrite Ei, wrap_small by mlia. f_equal. lia.
Qed.

Lemma fusion_input_round_witness :
  isAmountApplicableInFusionTransactionInput CurrencyBuilder 700 1000 900000 = Some 2 <->
  defaultFusionDustThreshold CurrencyBuilder 900000 <= 700 < 1000 /\
  0 <= 2 <= 19 /\ exists d, 1 <= d <= 9 /\ 700 = d * 10 ^ 2.
Proof. apply (fusion_input_round CurrencyBuilder 700 1000 900000 2). mlia. Defined.

(** The hard-coded genesis coinbase parses: the genesis block is
    well-formed, its coinbase names block 0, pays the genesis reward and is
    locked for the unlock window. *)
Theorem generateGenesisBlock_ok :
  exists b, generateGenesisBlock CurrencyBuilder = Some b /\ is_BlockTemplate b /\
    getBlockIndex b = 0 /\
    sumZ (map to_amount (outputs (baseTransaction b))) = m_genesisBlockReward CurrencyBuilder /\
    unlockTime (baseTransaction b) = m_minedMoneyUnlockWindow CurrencyBuilder.
Proof.
  eexists. split; [vm_compute; reflexivity|]. split; [evaluate|]. by vm_compute.
Qed.
