(* ===== verification/AmountText.v ===== *)
(** * Amounts as text ([Currency::formatAmount] and [Currency::parseAmount] of
      [src/mevacoin_core/currency.cpp])

    [boost::algorithm::trim] is a variable: all that is used of it is that it
    leaves a text alone that neither begins nor ends with white space. *)

From S2P Require Import Prelude Config StringTools Currency.

(** ** Decimal numbers *)

Definition is_digit (ch : Z) : bool := (48 <=? ch) && (ch <=? 57).

(** [std::to_string(uint64_t)]; twenty digits are enough. *)
Fixpoint to_string_loop (fuel : nat) (n : Z) : bytes :=
  match fuel with
  | O => []
  | S fuel => if n <? 10 then [48 + n] else to_string_loop fuel (n / 10) ++ [48 + n mod 10]
  end.

Definition to_string (n : Z) : bytes := to_string_loop 20 n.

(** The value of a string of digits. *)
Definition decimal_value (text : bytes) : Z := fold_left (fun v ch => 10 * v + (ch - 48)) text 0.

(** [common::fromString<uint64_t>] on a non-empty string of digits: extraction
    fails when the value does not fit. *)
Definition fromString (text : bytes) : option Z :=
  if decimal_value text <? 2 ^ 64 then Some (decimal_value text) else None.

(** ** [Currency] *)

Section AmountText.
Variable trim : bytes -> bytes.
Variable c : Currency.

Definition formatAmount (amount : Z) : bytes :=
  let places := m_numberOfDecimalPlaces c in
  let s := to_string amount in
  let s := if (length s <? places + 1)%nat then replicate (places + 1 - length s) 48 ++ s else s in
  take (length s - places) s ++ [46] ++ drop (length s - places) s.

(** [formatAmount(int64_t)]; the magnitude of the least number is itself
    after the conversion to unsigned. *)
Definition formatAmount_signed (amount : Z) : bytes :=
  let s := formatAmount (u64 (Z.abs amount)) in
  if amount <? 0 then 45 :: s else s.

(** Zeros beyond the decimal places are dropped from the end. *)
Fixpoint drop_zeros (fuel : nat) (strAmount : bytes) (fractionSize : nat) : bytes * nat :=
  match fuel with
  | O => (strAmount, fractionSize)
  | S fuel =>
      if (m_numberOfDecimalPlaces c <? fractionSize)%nat
         && (nth (length strAmount - 1) strAmount 0 =? 48)
      then drop_zeros fuel (take (length strAmount - 1) strAmount) (fractionSize - 1)
      else (strAmount, fractionSize)
  end.

Definition parseAmount (text : bytes) : option Z :=
  let strAmount := trim text in
  let split :=
    match find_char 46 strAmount with
    | Some pointIndex =>
        let fractionSize := (length strAmount - pointIndex - 1)%nat in
        let '(strAmount, fractionSize) := drop_zeros fractionSize strAmount fractionSize in
        if (m_numberOfDecimalPlaces c <? fractionSize)%nat then None
        else Some (take pointIndex strAmount ++ drop (S pointIndex) strAmount, fractionSize)
    | None => Some (strAmount, 0%nat)
    end in
  match split with
  | None => None
  | Some (strAmount, fractionSize) =>
      if bool_decide (strAmount = []) then None
      else if negb (forallb is_digit strAmount) then None
      else fromString (strAmount ++ replicate (m_numberOfDecimalPlaces c - fractionSize) 48)
  end.

(** ** Decimal numbers, proofs *)

Lemma decimal_value_app a b :
  decimal_value (a ++ b) = decimal_value a * 10 ^ Z.of_nat (length b) + decimal_value b.
Proof.
  unfold decimal_value. rewrite fold_left_app.
  assert (forall v, fold_left (fun v ch => 10 * v + (ch - 48)) b v =
    v * 10 ^ Z.of_nat (length b) + fold_left (fun v ch => 10 * v + (ch - 48)) b 0) as H; [|apply H].
  induction b as [|x b IH]; intros v; [simpl; lia|]. cbn [fold_left length].
  rewrite IH, (IH (10 * 0 + _)), Nat2Z.inj_succ, Z.pow_succ_r by lia. lia.
Qed.

Lemma to_string_loop_spec fuel : forall n, 0 <= n < 10 ^ Z.of_nat fuel -> (0 < fuel)%nat ->
  decimal_value (to_string_loop fuel n) = n /\ Forall (fun x => is_digit x = true) (to_string_loop fuel n) /\
  to_string_loop fuel n <> [].
Proof.
  induction fuel as [|fuel IH]; intros n Hn Hf; [lia|]. cbn [to_string_loop].
  destruct (Z.ltb_spec n 10).
  - split; [unfold decimal_value; simpl; lia|]. split; [|done].
    constructor; [unfold is_digit; lia|constructor].
  - pose proof (Z.mod_pos_bound n 10 ltac:(lia)). pose proof (Z.div_mod n 10).
    rewrite Nat2Z.inj_succ, Z.pow_succ_r in Hn by lia.
    assert (0 <= n / 10 < 10 ^ Z.of_nat fuel) as Hq by lia.
    assert (0 < fuel)%nat by (destruct fuel; [simpl in Hn; lia|lia]).
    destruct (IH (n / 10) Hq ltac:(lia)) as (V & D & N). rewrite decimal_value_app, V.
    split; [unfold decimal_value; simpl; lia|]. split.
    + apply Forall_app. split; [done|]. constructor; [unfold is_digit; lia|constructor].
    + intros E. by apply app_eq_nil in E as [? _].
Qed.

Lemma decimal_value_zeros n : decimal_value (replicate n 48) = 0.
Proof.
  unfold decimal_value. induction n as [|n IH]; simpl; [done|]. exact IH.
Qed.

Lemma find_char_app ch a b : ch ∉ a -> find_char ch (a ++ ch :: b) = Some (length a).
Proof.
  induction a as [|x a IH]; simpl; [by rewrite Z.eqb_refl|].
  rewrite not_elem_of_cons. intros [??]. destruct (Z.eqb_spec x ch); [congruence|]. by rewrite IH.
Qed.

(** What is used of [boost::algorithm::trim]. *)
Hypothesis trim_clean : forall text x y,
  head text = Some x -> last text = Some y ->
  is_whitespace x = false -> is_whitespace y = false -> trim text = text.

Lemma digit_not_space x : is_digit x = true -> is_whitespace x = false.
Proof. unfold is_digit, is_whitespace. lia. Qed.

(** A text with a point between two strings of digits, the second as long as
    the decimal places, parses to the value of the digits. *)
Lemma parse_digits a b :
  a <> [] -> Forall (fun x => is_digit x = true) (a ++ b) -> length b = m_numberOfDecimalPlaces c ->
  (0 < m_numberOfDecimalPlaces c)%nat -> decimal_value (a ++ b) < 2 ^ 64 ->
  parseAmount (a ++ [46] ++ b) = Some (decimal_value (a ++ b)).
Proof using trim_clean.
  intros Ha Hd Hb Hpos Hv. apply Forall_app in Hd as [Da Db]. unfold parseAmount.
  assert (46 ∉ a) as Hpt.
  { intros Hin. rewrite Forall_forall in Da. by specialize (Da _ Hin). }
  assert (trim (a ++ [46] ++ b) = a ++ [46] ++ b) as ->.
  { destruct a as [|x a]; [done|]. destruct b as [|y b _] using rev_ind; [simpl in Hb; lia|].
    apply (trim_clean _ x y); [done| |by apply digit_not_space; apply Forall_cons in Da as [? _]|].
    - by rewrite !app_assoc, last_snoc.
    - apply Forall_app in Db as [_ Db]. apply Forall_cons in Db as [Dy _]. by apply digit_not_space. }
  cbn [app]. rewrite find_char_app by done.
  replace (length (a ++ 46%Z :: b) - length a - 1)%nat with (m_numberOfDecimalPlaces c)
    by (rewrite length_app; simpl; lia).
  assert (drop_zeros (m_numberOfDecimalPlaces c) (a ++ 46 :: b) (m_numberOfDecimalPlaces c)
    = (a ++ 46 :: b, m_numberOfDecimalPlaces c)) as ->.
  { destruct (m_numberOfDecimalPlaces c) as [|p] eqn:E; [done|]. cbn [drop_zeros]. rewrite E.
    by rewrite Nat.ltb_irrefl. }
  rewrite Nat.ltb_irrefl, take_app_length.
  replace (drop (S (length a)) (a ++ 46 :: b)) with b
    by (rewrite cons_middle, app_assoc; replace (S (length a)) with (length (a ++ [46]))
          by (rewrite length_app; simpl; lia); by rewrite drop_app_length).
  rewrite bool_decide_false by (intros E; by apply app_eq_nil in E as [? _]).
  replace (forallb is_digit (a ++ b)) with true.
  - cbn [negb]. rewrite Nat.sub_diag, app_nil_r. unfold fromString.
    by rewrite (proj2 (Z.ltb_lt _ _)).
  - symmetry. apply forallb_forall. intros x Hx. apply list_elem_of_In, elem_of_app in Hx.
    rewrite Forall_forall in Da, Db. destruct Hx; auto.
Qed.

(** ** Theorem *)

(** [parseAmount] reads back what [formatAmount] prints, for every 64-bit
    amount. *)
Theorem parseAmount_formatAmount amount :
  is_u64 amount -> (0 < m_numberOfDecimalPlaces c)%nat ->
  parseAmount (formatAmount amount) = Some amount.
Proof using trim_clean.
  intros Ha Hp. unfold formatAmount. set (places := m_numberOfDecimalPlaces c) in *.
  destruct (to_string_loop_spec 20 amount) as (V & D & N).
  { change (10 ^ Z.of_nat 20) with 100000000000000000000. mlia. } { lia. }
  fold (to_string amount) in V, D, N.
  set (s := if (length (to_string amount) <? places + 1)%nat then _ else _).
  assert (decimal_value s = amount /\ Forall (fun x => is_digit x = true) s /\ (places < length s)%nat)
    as (Vs & Ds & Ls).
  { unfold s. destruct (Nat.ltb_spec (length (to_string amount)) (places + 1)).
    - rewrite decimal_value_app, decimal_value_zeros. split; [lia|].
      split; [|rewrite length_app, length_replicate; lia].
      apply Forall_app. split; [by apply Forall_replicate|done].
    - split; [done|]. split; [done|lia]. }
  clearbody s. rewrite <- (take_drop (length s - places) s) in Vs, Ds.
  rewrite parse_digits.
  - by rewrite Vs.
  - intros E. apply (f_equal length) in E. rewrite length_take in E. simpl in E. lia.
  - done.
  - rewrite length_drop. fold places. lia.
  - done.
  - rewrite Vs. apply Ha.
Qed.
End AmountText.

Lemma trim_clean_ok text x y :
  head text = Some x -> last text = Some y ->
  is_whitespace x = false -> is_whitespace y = false -> trim text = text.
Proof.
  intros Hx Hy Wx Wy. unfold trim. assert (rightTrim text = text) as ->.
  { unfold rightTrim. destruct text as [|z text _] using rev_ind; [done|].
    rewrite last_snoc in Hy. injection Hy as ->. rewrite rev_unit. cbn [leftTrim]. rewrite Wy.
    cbn [rev]. by rewrite rev_involutive. }
  destruct text as [|z text]; [done|]. injection Hx as ->. cbn [leftTrim]. by rewrite Wx.
Qed.

Lemma parseAmount_formatAmount_witness :
  parseAmount trim CurrencyBuilder (formatAmount CurrencyBuilder 1234567) = Some 1234567.
Proof.
  apply (parseAmount_formatAmount trim CurrencyBuilder trim_clean_ok 1234567); [mlia|evaluate].
Defined.
