(* ===== verification/Difficulty.v ===== *)
(** * Difficulty adjustment
      ([src/mevacoin_core/difficulty.cpp], [difficulty.h],
      [Currency::nextDifficulty] of [currency.cpp])

    A division by zero is [None].  [timestamps] and [cumulativeDifficulties]
    are vectors of 64-bit numbers of the same size.  Signed 64-bit results that
    do not fit are wrapped, as the targets of this code do; the theorems
    exclude them. *)

From S2P Require Import Prelude Config IntUtil Currency.

Definition at_ (l : list Z) (i : Z) : Z := nth (Z.to_nat i) l 0.

(** Unsigned and signed division. *)
Definition udiv (a b : Z) : option Z := if b =? 0 then None else Some (a / b).
Definition sdiv (a b : Z) : option Z := if b =? 0 then None else Some (i64 (Z.quot a b)).

(** ** LWMA-3 *)

(** The loop from index [i] on, over the remaining timestamps:
    [(L, sum_3_ST)]. *)
Fixpoint v6_loop (N i previousTimestamp L sum_3_ST : Z) (timestamps : list Z) : Z * Z :=
  match timestamps with
  | [] => (L, sum_3_ST)
  | t :: timestamps =>
      let thisTimestamp := if previousTimestamp <? t then t else u64 (previousTimestamp + 1) in
      let ST := Z.min (6 * DIFFICULTY_TARGET) (u64 (thisTimestamp - previousTimestamp)) in
      let L := u64 (L + u64 (ST * i)) in
      let sum_3_ST := if u64 (N - 3) <? i then u64 (sum_3_ST + ST) else sum_3_ST in
      v6_loop N (i + 1) thisTimestamp L sum_3_ST timestamps
  end.

Definition nextDifficultyV6 (timestamps cumulativeDifficulties : list Z) : option Z :=
  let T := DIFFICULTY_TARGET in
  let size := Z.of_nat (length timestamps) in
  if size <=? 10 then Some 10000
  else
    let N := if size <? DIFFICULTY_BLOCKS_COUNT_V3 then size - 1 else DIFFICULTY_WINDOW_V3 in
    let '(L, sum_3_ST) :=
      v6_loop N 1 (at_ timestamps 0) 0 0 (take (Z.to_nat N) (drop 1 timestamps)) in
    let work := u64 (at_ cumulativeDifficulties N - at_ cumulativeDifficulties 0) in
    next_D ← udiv (u64 (u64 (u64 (work * T) * (N + 1)) * 99)) (u64 (100 * 2 * L));
    let prev_D := u64 (at_ cumulativeDifficulties N - at_ cumulativeDifficulties (N - 1)) in
    let next_D := Z.max (u64 (prev_D * 67) / 100) (Z.min next_D (u64 (prev_D * 150) / 100)) in
    Some (if sum_3_ST <? 8 * T / 10 then Z.max next_D (u64 (prev_D * 108) / 100) else next_D).

(** ** LWMA-2 *)

Definition clamp (n lower upper : Z) : Z := Z.max lower (Z.min n upper).

(** [static_cast<int64_t>(t) - static_cast<int64_t>(previous)] *)
Definition time_diff (previous t : Z) : Z := i64 (i64 t - i64 previous).

(** The solve time of a block in each version. *)
Definition solve_time_V5 (previous t : Z) : Z :=
  Z.max (-4 * DIFFICULTY_TARGET) (Z.min (time_diff previous t) (6 * DIFFICULTY_TARGET)).
Definition solve_time_V4 (previous t : Z) : Z :=
  clamp (-6 * DIFFICULTY_TARGET) (time_diff previous t) (6 * DIFFICULTY_TARGET).
Definition solve_time_V3 (previous t : Z) : Z :=
  Z.max (- MEVACOIN_BLOCK_FUTURE_TIME_LIMIT_V3) (Z.min (time_diff previous t) (6 * DIFFICULTY_TARGET)).

(** The loop from index [i] on: [(L, sum_3_ST)]. *)
Fixpoint lwma_loop (solve_time : Z -> Z -> Z) (N i previous L sum_3_ST : Z) (timestamps : list Z)
  : Z * Z :=
  match timestamps with
  | [] => (L, sum_3_ST)
  | t :: timestamps =>
      let ST := solve_time previous t in
      lwma_loop solve_time N (i + 1) t (i64 (L + i64 (ST * i)))
        (if N - 3 <? i then i64 (sum_3_ST + ST) else sum_3_ST) timestamps
  end.

(** What the three versions share: [(next_D, prev_D, sum_3_ST)] before the
    limits. *)
Definition lwma (solve_time : Z -> Z -> Z) (timestamps cumulativeDifficulties : list Z)
  : option (Z * Z * Z) :=
  let T := DIFFICULTY_TARGET in
  let N := DIFFICULTY_WINDOW_V3 in
  let '(L, sum_3_ST) :=
    lwma_loop solve_time N 1 (at_ timestamps 0) 0 0 (take (Z.to_nat N) (drop 1 timestamps)) in
  let work := i64 (u64 (at_ cumulativeDifficulties N - at_ cumulativeDifficulties 0)) in
  next_D ← sdiv (i64 (i64 (i64 (work * T) * (N + 1)) * 99)) (i64 (100 * 2 * L));
  let prev_D := i64 (u64 (at_ cumulativeDifficulties N - at_ cumulativeDifficulties (N - 1))) in
  Some (next_D, prev_D, sum_3_ST).

Definition percent (prev_D p : Z) : Z := Z.quot (i64 (prev_D * p)) 100.

Definition nextDifficultyV5 (timestamps cumulativeDifficulties : list Z) : option Z :=
  if Z.of_nat (length timestamps) <? DIFFICULTY_WINDOW_V3 + 1 then Some 10000
  else
    '(next_D, prev_D, sum_3_ST) ← lwma solve_time_V5 timestamps cumulativeDifficulties;
    let next_D := Z.max (percent prev_D 67) (Z.min next_D (percent prev_D 150)) in
    Some (u64 (if sum_3_ST <? 8 * DIFFICULTY_TARGET / 10
               then Z.max next_D (percent prev_D 108) else next_D)).

Definition nextDifficultyV4 (timestamps cumulativeDifficulties : list Z) : option Z :=
  if Z.of_nat (length timestamps) <=? DIFFICULTY_WINDOW_V3 then Some 10000
  else
    '(next_D, prev_D, sum_3_ST) ← lwma solve_time_V4 timestamps cumulativeDifficulties;
    let next_D := Z.max (percent prev_D 67) (Z.min next_D (percent prev_D 150)) in
    Some (u64 (if sum_3_ST <? 8 * DIFFICULTY_TARGET / 10
               then Z.max next_D (percent prev_D 110) else next_D)).

Definition nextDifficultyV3 (timestamps cumulativeDifficulties : list Z) : option Z :=
  if Z.of_nat (length timestamps) <=? DIFFICULTY_WINDOW_V3 then Some 10000
  else
    '(next_D, prev_D, sum_3_ST) ← lwma solve_time_V3 timestamps cumulativeDifficulties;
    let next_D := Z.max (percent prev_D 70) (Z.min next_D (percent prev_D 107)) in
    Some (u64 (if sum_3_ST <? 8 * DIFFICULTY_TARGET / 10 then percent prev_D 110 else next_D)).

(** ** The original algorithm and its Zawy variants *)

(** [(cutBegin, cutEnd)] *)
Definition cut_range (length window cut : Z) : Z * Z :=
  let kept := window - 2 * cut in
  if length <=? kept then (0, length)
  else let cutBegin := (length - kept + 1) / 2 in (cutBegin, cutBegin + kept).

(** [(timeSpan, totalWork)] over a cut window; the timestamps are sorted. *)
Definition span_work (timestamps cumulativeDifficulties : list Z) (window cut : Z) : Z * Z :=
  let sorted := std_sort timestamps in
  let '(cutBegin, cutEnd) := cut_range (Z.of_nat (length timestamps)) window cut in
  let timeSpan := u64 (at_ sorted (cutEnd - 1) - at_ sorted cutBegin) in
  (if timeSpan =? 0 then 1 else timeSpan,
   u64 (at_ cumulativeDifficulties (cutEnd - 1) - at_ cumulativeDifficulties cutBegin)).

(** The low word of [totalWork * m_difficultyTarget], or nothing when the
    quotient cannot be computed. *)
Definition scaled_work (c : Currency) (timeSpan totalWork : Z) : option Z :=
  let '(low, high) := mul128 totalWork (m_difficultyTarget c) in
  if negb (high =? 0) || (2 ^ 64 - 1 - low <? timeSpan - 1) then None else Some low.

Definition nextDifficulty (c : Currency) (version blockIndex : Z)
    (timestamps cumulativeDifficulties : list Z) : Z :=
  let timestamps_o := timestamps in
  let cumulativeDifficulties_o := cumulativeDifficulties in
  let c_difficultyWindow := difficultyWindowByBlockVersion c version in
  let c_difficultyCut := difficultyCutByBlockVersion c version in
  let timestamps := take (Z.to_nat c_difficultyWindow) timestamps in
  let cumulativeDifficulties := take (Z.to_nat c_difficultyWindow) cumulativeDifficulties in
  if Z.of_nat (length timestamps) <=? 1 then 1
  else
    let '(timeSpan, totalWork) :=
      span_work timestamps cumulativeDifficulties c_difficultyWindow c_difficultyCut in
    match scaled_work c timeSpan totalWork with
    | None => 0
    | Some low =>
      let zawyVersion :=
        if negb (m_zawyDifficultyV2 c =? 0) then 2 else m_zawyDifficultyBlockVersion c in
      if (zawyVersion <=? version) && negb (zawyVersion =? 0) then low / timeSpan
      else if negb (m_zawyDifficultyBlockIndex c =? 0) && (m_zawyDifficultyBlockIndex c <=? blockIndex) then
        let t_difficultyWindow := Nat.min 17 (length timestamps) in
        let last_n (l : list Z) := drop (length l - t_difficultyWindow) l in
        if Z.of_nat t_difficultyWindow <=? 1 then 1
        else
          let '(timeSpan, totalWork) :=
            span_work (last_n timestamps_o) (last_n cumulativeDifficulties_o) 17 0 in
          match scaled_work c timeSpan totalWork with
          | None => 0
          | Some low => Z.max (low / timeSpan) 100
          end
      else u64 (u64 (low + timeSpan) - 1) / timeSpan
    end.

Definition getNextDifficulty (c : Currency) (version blockIndex : Z)
    (timestamps cumulativeDifficulties : list Z) : option Z :=
  if LWMA_3_DIFFICULTY_BLOCK_INDEX <=? blockIndex then nextDifficultyV6 timestamps cumulativeDifficulties
  else if LWMA_2_DIFFICULTY_BLOCK_INDEX_V3 <=? blockIndex
  then nextDifficultyV5 timestamps cumulativeDifficulties
  else if LWMA_2_DIFFICULTY_BLOCK_INDEX_V2 <=? blockIndex
  then nextDifficultyV4 timestamps cumulativeDifficulties
  else if LWMA_2_DIFFICULTY_BLOCK_INDEX <=? blockIndex
  then nextDifficultyV3 timestamps cumulativeDifficulties
  else Some (nextDifficulty c version blockIndex timestamps cumulativeDifficulties).

(** ** LWMA-3: the weighted sum *)

Lemma v6_solve_time prev t : is_u64 prev -> is_u64 t ->
  let this := if prev <? t then t else u64 (prev + 1) in
  is_u64 this /\ 1 <= Z.min (6 * DIFFICULTY_TARGET) (u64 (this - prev)) <= 1080.
Proof.
  intros Hp Ht this. unfold this. destruct (Z.ltb_spec prev t).
  - split; [done|]. rewrite wrap_small by mlia. lia.
  - split; [apply wrap_fits; lia|]. rewrite wrap_sub_l by lia.
    replace (prev + 1 - prev) with 1 by lia. change (u64 1) with 1. lia.
Qed.

(** Every round adds at least one and at most [1080 * 60] to [L]. *)
Lemma v6_loop_bounds ts : forall N i prev L s,
  Forall is_u64 ts -> is_u64 prev -> 1 <= i -> i + Z.of_nat (length ts) <= 61 ->
  i - 1 <= L <= 64800 * (i - 1) ->
  i - 1 + Z.of_nat (length ts) <= (v6_loop N i prev L s ts).1
    <= 64800 * (i - 1 + Z.of_nat (length ts)).
Proof.
  induction ts as [|t ts IH]; intros N i prev L s Hts Hp Hi Hn HL; cbn [v6_loop length] in *.
  - simpl. lia.
  - apply Forall_cons in Hts as [Ht Hts]. destruct (v6_solve_time prev t Hp Ht) as [Hthis HST].
    set (this := if prev <? t then t else _) in *. set (ST := Z.min _ _) in *.
    assert (1 <= ST * i <= 64800) as HSTi by nia.
    rewrite (wrap_small 64 (ST * i)) by mlia. rewrite (wrap_small 64 (L + ST * i)) by mlia.
    specialize (IH N (i + 1) this (L + ST * i)
      (if u64 (N - 3) <? i then u64 (s + ST) else s) Hts Hthis ltac:(lia) ltac:(lia) ltac:(lia)).
    lia.
Qed.

(** The number of solve times that are weighed. *)
Definition v6_window (timestamps : list Z) : Z :=
  let size := Z.of_nat (length timestamps) in
  if size <? DIFFICULTY_BLOCKS_COUNT_V3 then size - 1 else DIFFICULTY_WINDOW_V3.

Lemma v6_window_bounds ts : (10 < length ts)%nat ->
  10 <= v6_window ts <= 60 /\ v6_window ts < Z.of_nat (length ts).
Proof.
  intros. unfold v6_window.
  destruct (Z.ltb_spec (Z.of_nat (length ts)) (60 + 1)); lia.
Qed.

Lemma Forall_nth_u64 l i : Forall is_u64 l -> is_u64 (at_ l i).
Proof.
  intros H. unfold at_. destruct (nth_in_or_default (Z.to_nat i) l 0) as [Hin| ->]; [|mlia].
  rewrite Forall_forall in H. apply H. by apply list_elem_of_In.
Qed.

Lemma v6_L ts : Forall is_u64 ts -> (10 < length ts)%nat ->
  let N := v6_window ts in
  10 <= (v6_loop N 1 (at_ ts 0) 0 0 (take (Z.to_nat N) (drop 1 ts))).1 <= 64800 * 60.
Proof.
  intros Hts Hl N. pose proof (v6_window_bounds ts Hl) as [HN HN']. fold N in HN, HN'.
  assert (length (take (Z.to_nat N) (drop 1 ts)) = Z.to_nat N) as El
    by (rewrite length_take, length_drop; lia).
  pose proof (v6_loop_bounds (take (Z.to_nat N) (drop 1 ts)) N 1 (at_ ts 0) 0 0) as B.
  rewrite El in B. specialize (B ltac:(by apply Forall_take, Forall_drop) ltac:(by apply Forall_nth_u64)
    ltac:(lia) ltac:(lia) ltac:(lia)). lia.
Qed.

(** ** LWMA-2 *)

(** Equal timestamps leave the weighted sum at zero. *)
Lemma lwma_loop_still solve t n : forall N i L s,
  solve t t = 0 -> L = 0 -> (lwma_loop solve N i t L s (replicate n t)).1 = 0.
Proof.
  induction n as [|n IH]; intros N i L s Hs HL; cbn [replicate lwma_loop]; [done|].
  apply IH; [done|]. by rewrite Hs, HL.
Qed.

Lemma time_diff_same t : time_diff t t = 0.
Proof. unfold time_diff. by rewrite Z.sub_diag. Qed.

Lemma lwma_still solve t cds : solve t t = 0 -> lwma solve (replicate 61 t) cds = None.
Proof.
  intros Hs. unfold lwma. pose proof (lwma_loop_still solve t 60 DIFFICULTY_WINDOW_V3 1 0 0 Hs eq_refl) as E.
  change (take (Z.to_nat DIFFICULTY_WINDOW_V3) (drop 1 (replicate 61 t))) with (replicate 60 t).
  change (at_ (replicate 61 t) 0) with t.
  destruct (lwma_loop _ _ _ _ _ _ _) as [L s]. simpl in E. by subst.
Qed.

(** ** The original algorithm *)

Lemma scaled_work_eq c span work :
  is_u64 work -> is_u64 (m_difficultyTarget c) -> 1 <= span ->
  scaled_work c span work =
    if work * m_difficultyTarget c + span - 1 <? 2 ^ 64 then Some (work * m_difficultyTarget c) else None.
Proof.
  intros Hw Ht Hs. unfold scaled_work. rewrite mul128_eq by done.
  set (p := work * m_difficultyTarget c). assert (0 <= p) by (destruct Hw, Ht; unfold p; nia).
  pose proof (Z.div_mod p (2 ^ 64)) as E. pose proof (Z.mod_pos_bound p (2 ^ 64) ltac:(lia)).
  destruct (Z.eqb_spec (p / 2 ^ 64) 0) as [E0|N0]; cbn [negb orb].
  - rewrite E0 in E. assert (p mod 2 ^ 64 = p) as -> by lia.
    destruct (Z.ltb_spec (2 ^ 64 - 1 - p) (span - 1)), (Z.ltb_spec (p + span - 1) (2 ^ 64)); lia || done.
  - assert (1 <= p / 2 ^ 64) by (pose proof (Z.div_pos p (2 ^ 64)); lia).
    destruct (Z.ltb_spec (p + span - 1) (2 ^ 64)); [nia|done].
Qed.

(** ** Theorems *)

(** LWMA-3 always gives a difficulty (it never divides by zero, whatever
    the timestamps), and the new difficulty lies between 67% and 150% of the
    difficulty of the last block. *)
Theorem nextDifficultyV6_bounded timestamps cumulativeDifficulties :
  Forall is_u64 timestamps -> (10 < length timestamps)%nat ->
  let N := v6_window timestamps in
  let prev_D := u64 (at_ cumulativeDifficulties N - at_ cumulativeDifficulties (N - 1)) in
  prev_D * 150 < 2 ^ 64 ->
  exists d, nextDifficultyV6 timestamps cumulativeDifficulties = Some d /\
    prev_D * 67 / 100 <= d <= prev_D * 150 / 100.
Proof.
  intros Hts Hl N prev_D Hp. pose proof (v6_L timestamps Hts Hl) as HL. cbv zeta in HL.
  fold N in HL. unfold nextDifficultyV6. rewrite (proj2 (Z.leb_gt _ _)) by lia.
  fold (v6_window timestamps). fold N. destruct (v6_loop _ _ _ _ _ _) as [L s]. cbn [fst] in HL.
  rewrite (wrap_small 64 (100 * 2 * L)) by mlia. unfold udiv.
  destruct (Z.eqb_spec (100 * 2 * L) 0); [lia|]. cbn [mbind option_bind]. fold prev_D.
  assert (0 <= prev_D) by (apply wrap_fits; lia).
  rewrite !(wrap_small 64 (prev_D * _)) by mlia.
  assert (prev_D * 67 / 100 <= prev_D * 150 / 100) by (apply Z.div_le_mono; lia).
  assert (prev_D * 108 / 100 <= prev_D * 150 / 100) by (apply Z.div_le_mono; lia).
  eexists. split; [reflexivity|]. destruct (_ <? _); lia.
Qed.

Lemma nextDifficultyV6_bounded_witness :
  exists d, nextDifficultyV6 (replicate 12 5) [0; 1; 2; 3; 4; 5; 6; 7; 8; 9; 10; 1010] = Some d /\
    1000 * 67 / 100 <= d <= 1000 * 150 / 100.
Proof.
  apply (nextDifficultyV6_bounded (replicate 12 5) [0; 1; 2; 3; 4; 5; 6; 7; 8; 9; 10; 1010]);
    [evaluate|simpl; lia|vm_compute; reflexivity].
Defined.

(** LWMA-2 limits the change of difficulty the same way, when its signed
    products do not overflow and it does not divide by zero. *)
Theorem nextDifficultyV5_bounded timestamps cumulativeDifficulties d :
  let N := DIFFICULTY_WINDOW_V3 in
  let prev_D := i64 (u64 (at_ cumulativeDifficulties N - at_ cumulativeDifficulties (N - 1))) in
  0 <= prev_D -> prev_D * 150 < 2 ^ 63 -> (60 < length timestamps)%nat ->
  nextDifficultyV5 timestamps cumulativeDifficulties = Some d ->
  prev_D * 67 / 100 <= d <= prev_D * 150 / 100.
Proof.
  intros N prev_D H0 Hp Hl H. unfold nextDifficultyV5 in H.
  rewrite (proj2 (Z.ltb_ge _ _)) in H by lia.
  apply bind_Some in H as ([[next p] s] & E & H). unfold lwma in E.
  destruct (lwma_loop _ _ _ _ _ _ _) as [L s']. apply bind_Some in E as (n & _ & E).
  assert (p = prev_D) as -> by (unfold prev_D, N; congruence). clear E.
  assert (forall q, 0 <= q <= 150 -> percent prev_D q = prev_D * q / 100) as Ep.
  { intros q Hq. unfold percent. assert (swrap 64 (prev_D * q) = prev_D * q) as ->.
    - rewrite <- (swrap_small 64 (prev_D * q)) at 2 by (try change (64 - 1) with 63; mnia).
      f_equal. symmetry. apply wrap_small. mnia.
    - apply Z.quot_div_nonneg; nia. }
  rewrite !Ep in H by lia. injection H as <-.
  assert (prev_D * 67 / 100 <= prev_D * 150 / 100) by (apply Z.div_le_mono; lia).
  assert (prev_D * 108 / 100 <= prev_D * 150 / 100) by (apply Z.div_le_mono; lia).
  assert (0 <= prev_D * 67 / 100) by (apply Z.div_pos; lia).
  assert (prev_D * 150 / 100 <= prev_D * 150) by (apply Z.div_le_upper_bound; lia).
  rewrite wrap_small; [destruct (_ <? _); lia|]. destruct (_ <? _); mlia.
Qed.

(** Sixty-one blocks, 180 seconds and 1000 units of work apart. *)
Definition steady_times : list Z := map (fun i => 180 * Z.of_nat i) (seq 0 61).
Definition steady_work : list Z := map (fun i => 1000 * Z.of_nat i) (seq 0 61).

Lemma nextDifficultyV5_bounded_witness : 1000 * 67 / 100 <= 990 <= 1000 * 150 / 100.
Proof.
  apply (nextDifficultyV5_bounded steady_times steady_work 990);
    [done|done|simpl; lia|vm_compute; reflexivity].
Defined.

(** The LWMA-2 versions divide by zero when the weighted sum of the solve
    times is zero, in particular on 61 equal timestamps: the limits that
    follow the division do not prevent it. *)
Theorem lwma2_divides_by_zero t cumulativeDifficulties :
  nextDifficultyV5 (replicate 61 t) cumulativeDifficulties = None /\
  nextDifficultyV4 (replicate 61 t) cumulativeDifficulties = None /\
  nextDifficultyV3 (replicate 61 t) cumulativeDifficulties = None.
Proof.
  unfold nextDifficultyV5, nextDifficultyV4, nextDifficultyV3. rewrite !length_replicate.
  cbn [Z.of_nat Z.ltb Z.leb]. rewrite !lwma_still; [done|..].
  - unfold solve_time_V3. by rewrite time_diff_same.
  - unfold solve_time_V4. by rewrite time_diff_same.
  - unfold solve_time_V5. by rewrite time_diff_same.
Qed.

(** The arguments of [clamp] in the second LWMA-2 version are in the wrong
    order: a solve time above six times the target is not cut. *)
Theorem solve_time_V4_unbounded previous t :
  0 <= previous -> t < 2 ^ 63 -> 6 * DIFFICULTY_TARGET < t - previous ->
  solve_time_V4 previous t = t - previous.
Proof.
  intros Hp Ht Hd. unfold solve_time_V4, clamp, time_diff in *.
  assert (forall x, 0 <= x < 2 ^ 63 -> i64 x = x) as E.
  { intros x Hx. rewrite <- (swrap_small 64 x) at 2 by (try change (64 - 1) with 63; mlia).
    f_equal. symmetry. apply wrap_small. mlia. }
  rewrite (E t), (E previous), E by mlia. lia.
Qed.

Lemma solve_time_V4_unbounded_witness : solve_time_V4 0 100000 = 100000 - 0.
Proof. apply (solve_time_V4_unbounded 0 100000); lia. Defined.

(** Before the Zawy variants the next difficulty is the exact ceiling of
    work times target over the time span of the cut window; it is zero, which
    the caller rejects, only when that does not fit in 64 bits. *)
Theorem nextDifficulty_ceiling c version blockIndex timestamps cumulativeDifficulties :
  version < m_zawyDifficultyBlockVersion c -> m_zawyDifficultyV2 c = 0 ->
  blockIndex < m_zawyDifficultyBlockIndex c -> is_u64 (m_difficultyTarget c) ->
  let window := difficultyWindowByBlockVersion c version in
  let timestamps' := take (Z.to_nat window) timestamps in
  let '(span, work) := span_work timestamps' (take (Z.to_nat window) cumulativeDifficulties) window
                         (difficultyCutByBlockVersion c version) in
  1 < Z.of_nat (length timestamps') ->
  let d := nextDifficulty c version blockIndex timestamps cumulativeDifficulties in
  if work * m_difficultyTarget c + span - 1 <? 2 ^ 64
  then (d - 1) * span < work * m_difficultyTarget c <= d * span
  else d = 0.
Proof.
  intros Hv Hz Hb Ht. cbv zeta. unfold nextDifficulty.
  destruct (span_work _ _ _ _) as [span work] eqn:E. intros Hl.
  rewrite (proj2 (Z.leb_gt _ _)) by lia.
  assert (1 <= span /\ is_u64 work) as [Hs Hw].
  { unfold span_work in E. destruct (cut_range _ _ _) as [b e]. injection E as <- <-.
    split; [|apply wrap_fits; lia]. match goal with |- context [u64 ?x] =>
      pose proof (wrap_fits 64 ltac:(lia) x) as [F _] end.
    destruct (Z.eqb_spec (u64 (at_ (std_sort (take (Z.to_nat (difficultyWindowByBlockVersion c version))
      timestamps)) (e - 1) - at_ (std_sort (take (Z.to_nat (difficultyWindowByBlockVersion c version))
      timestamps)) b)) 0); lia. }
  rewrite scaled_work_eq by done.
  destruct (Z.ltb_spec (work * m_difficultyTarget c + span - 1) (2 ^ 64)) as [L|]; [|done].
  rewrite Hz. cbn [Z.eqb negb]. rewrite (proj2 (Z.leb_gt _ _)) by lia. cbn [andb].
  rewrite (proj2 (Z.leb_gt (m_zawyDifficultyBlockIndex c) blockIndex)) by lia. rewrite andb_false_r.
  set (p := work * m_difficultyTarget c) in *. assert (0 <= p) by (destruct Hw, Ht; unfold p; nia).
  rewrite wrap_sub_l, wrap_small by (try split; lia).
  pose proof (Z.div_mod (p + span - 1) span ltac:(lia)) as E'.
  pose proof (Z.mod_pos_bound (p + span - 1) span ltac:(lia)). nia.
Qed.

Lemma nextDifficulty_ceiling_witness :
  (1000 - 1) * 360 < 2000 * 180 <= 1000 * 360.
Proof.
  exact (nextDifficulty_ceiling CurrencyBuilder 1 100 [0; 180; 360] [0; 1000; 2000]
    eq_refl eq_refl eq_refl ltac:(evaluate) eq_refl).
Defined.
