(* ===== verification/Rules.v ===== *)
(** * Rules by height
      ([src/mevacoin_core/mixins.h], [src/mevacoin_core/upgrade_manager.cpp],
      [src/mevacoin_core/upgrade_detector.cpp])

    Which ring sizes and which block version are allowed at a height. *)

From stdpp Require Import sorting.
From S2P Require Import Prelude Config Transaction Currency Cached.

(** ** Mixins *)

Module Mixins.

(** [(minMixin, maxMixin, defaultMixin)] *)
Definition getMixinAllowableRange (height : Z) : Z * Z * Z :=
  if MIXIN_LIMITS_V4_HEIGHT <=? height then (MINIMUM_MIXIN_V4, MAXIMUM_MIXIN_V4, DEFAULT_MIXIN_V4)
  else if MIXIN_LIMITS_V3_HEIGHT <=? height then (MINIMUM_MIXIN_V3, MAXIMUM_MIXIN_V3, DEFAULT_MIXIN_V3)
  else if MIXIN_LIMITS_V2_HEIGHT <=? height then (MINIMUM_MIXIN_V2, MAXIMUM_MIXIN_V2, DEFAULT_MIXIN_V2)
  else if MIXIN_LIMITS_V1_HEIGHT <=? height then (MINIMUM_MIXIN_V1, MAXIMUM_MIXIN_V1, DEFAULT_MIXIN_V1)
  else (0, 2 ^ 64 - 1, DEFAULT_MIXIN_V0).

Inductive mixin_error := MIXIN_BELOW_THRESHOLD | MIXIN_ABOVE_THRESHOLD.

(** [validate(mixin, height)]; [None] is success. *)
Definition validate_mixin (mixin height : Z) : option mixin_error :=
  let '(minMixin, maxMixin, _) := getMixinAllowableRange height in
  if mixin <? minMixin then Some MIXIN_BELOW_THRESHOLD
  else if maxMixin <? mixin then Some MIXIN_ABOVE_THRESHOLD
  else None.

(** The loop over the inputs: the largest ring. *)
Fixpoint ring_size (ringSize : Z) (inputs : list TransactionInput) : Z :=
  match inputs with
  | [] => ringSize
  | InKey input :: inputs =>
      let currentRingSize := Z.of_nat (length (outputIndexes input)) in
      ring_size (if ringSize <? currentRingSize then currentRingSize else ringSize) inputs
  | InBase _ :: inputs => ring_size ringSize inputs
  end.

(** [validate(transaction, minMixin, maxMixin)] *)
Definition validate_transaction (transaction : CachedTransaction) (minMixin maxMixin : Z) : bool :=
  let mixin := ring_size 1 (inputs (getTransaction transaction)) - 1 in
  if maxMixin <? mixin then false else if mixin <? minMixin then false else true.

(** [validate(transactions, height)]: [false] at the first failure. *)
Fixpoint validate_loop (minMixin maxMixin : Z) (transactions : list CachedTransaction) : bool :=
  match transactions with
  | [] => true
  | transaction :: transactions =>
      if validate_transaction transaction minMixin maxMixin then validate_loop minMixin maxMixin transactions
      else false
  end.

Definition validate (transactions : list CachedTransaction) (height : Z) : bool :=
  let '(minMixin, maxMixin, _) := getMixinAllowableRange height in
  validate_loop minMixin maxMixin transactions.

(** The rings of a transaction. *)
Definition rings (t : CachedTransaction) : list Z :=
  omap (fun i => match i with InKey k => Some (Z.of_nat (length (outputIndexes k))) | _ => None end)
    (inputs (getTransaction t)).

Lemma ring_size_spec ins : forall r x,
  let rs := omap (fun i => match i with InKey k => Some (Z.of_nat (length (outputIndexes k))) | _ => None end) ins in
  (ring_size r ins <= x <-> r <= x /\ Forall (fun y => y <= x) rs) /\
  (x <= ring_size r ins <-> x <= r \/ Exists (fun y => x <= y) rs).
Proof.
  induction ins as [|[i|i] ins IH]; intros r x; cbn [ring_size omap list_omap].
  - rewrite Forall_nil, Exists_nil. intuition.
  - apply IH.
  - set (n := Z.of_nat _). destruct (IH (if r <? n then n else r) x) as [-> ->].
    rewrite Forall_cons, Exists_cons. destruct (Z.ltb_spec r n); intuition lia.
Qed.

Lemma validate_loop_spec lo hi ts : 0 <= lo -> 0 <= hi ->
  validate_loop lo hi ts = true <->
  Forall (fun t => Forall (fun r => r <= hi + 1) (rings t) /\
    (lo = 0 \/ Exists (fun r => lo + 1 <= r) (rings t))) ts.
Proof.
  intros Hlo Hhi. induction ts as [|t ts IH]; cbn [validate_loop]; [split; [constructor|done]|].
  rewrite Forall_cons, <- IH. clear IH. unfold validate_transaction. fold (rings t).
  destruct (ring_size_spec (inputs (getTransaction t)) 1 (hi + 1)) as [H1 _].
  destruct (ring_size_spec (inputs (getTransaction t)) 1 (lo + 1)) as [_ H2].
  fold (rings t) in H1, H2. set (s := ring_size 1 _) in *.
  destruct (Z.ltb_spec hi (s - 1)); [|destruct (Z.ltb_spec (s - 1) lo)].
  - split; [done|]. intros [[Hf _] _]. assert (s <= hi + 1) by (apply H1; split; [lia|done]). lia.
  - split; [done|]. intros [[_ He] _]. assert (lo + 1 <= s) by (apply H2; destruct He; [left; lia|by right]). lia.
  - assert (s <= hi + 1) as Hs by lia. apply H1 in Hs as [_ Hs].
    assert (lo + 1 <= s) as Hs' by lia. apply H2 in Hs'. intuition lia.
Qed.

Lemma range_sane height :
  let '(lo, hi, d) := getMixinAllowableRange height in 0 <= lo <= d /\ d <= hi.
Proof. unfold getMixinAllowableRange. repeat case_match; simplify_eq; vm_compute; intuition congruence. Qed.

(** Which mixins a block at a height may have: the rings of every
    transaction are at most [maxMixin + 1] large, and, where a mixin is
    required, the transaction has one ring of [minMixin + 1].  The minimum is
    not asked of each ring. *)
Theorem mixin_rule transactions height :
  let '(minMixin, maxMixin, _) := getMixinAllowableRange height in
  validate transactions height = true <->
  Forall (fun t => Forall (fun r => r <= maxMixin + 1) (rings t) /\
    (minMixin = 0 \/ Exists (fun r => minMixin + 1 <= r) (rings t))) transactions.
Proof.
  unfold validate. pose proof (range_sane height) as H.
  destruct (getMixinAllowableRange height) as [[lo hi] d]. apply validate_loop_spec; lia.
Qed.
End Mixins.

(** ** Block versions *)

Module Upgrades.

(** [SimpleUpgradeDetector] *)
Record UpgradeDetector := { targetVersion : Z; upgradeIndex : Z }.

Definition UpgradeManager := list UpgradeDetector.

Definition addMajorBlockVersion (version height : Z) (m : UpgradeManager) : UpgradeManager :=
  m ++ [{| targetVersion := version; upgradeIndex := height |}].

(** The loop over the detectors, the last one first. *)
Fixpoint version_loop (blockIndex : Z) (rdetectors : list UpgradeDetector) : Z :=
  match rdetectors with
  | [] => BLOCK_MAJOR_VERSION_1
  | it :: rdetectors =>
      if upgradeIndex it <? blockIndex then targetVersion it else version_loop blockIndex rdetectors
  end.

Definition getBlockMajorVersion (blockIndex : Z) (m : UpgradeManager) : Z := version_loop blockIndex (rev m).

(** The versions the constructor of [Core] registers. *)
Definition core_upgrades (c : Currency) : UpgradeManager :=
  addMajorBlockVersion BLOCK_MAJOR_VERSION_5 (upgradeHeight c BLOCK_MAJOR_VERSION_5)
    (addMajorBlockVersion BLOCK_MAJOR_VERSION_4 (upgradeHeight c BLOCK_MAJOR_VERSION_4)
      (addMajorBlockVersion BLOCK_MAJOR_VERSION_3 (upgradeHeight c BLOCK_MAJOR_VERSION_3)
        (addMajorBlockVersion BLOCK_MAJOR_VERSION_2 (upgradeHeight c BLOCK_MAJOR_VERSION_2) []))).

(** The assertion of [addMajorBlockVersion]. *)
Definition versions_increase (m : UpgradeManager) : Prop :=
  StronglySorted (fun a b => targetVersion a < targetVersion b) m /\
  Forall (fun d => BLOCK_MAJOR_VERSION_1 < targetVersion d) m.

Lemma version_loop_spec i m : versions_increase m ->
  (version_loop i (rev m) = BLOCK_MAJOR_VERSION_1 \/
   exists d, d ∈ m /\ upgradeIndex d < i /\ version_loop i (rev m) = targetVersion d) /\
  BLOCK_MAJOR_VERSION_1 <= version_loop i (rev m) /\
  Forall (fun d => upgradeIndex d < i -> targetVersion d <= version_loop i (rev m)) m.
Proof.
  induction m as [|d m IH] using rev_ind; intros [Hs Hf].
  - cbn. split; [by left|]. split; [lia|constructor].
  - apply StronglySorted_app in Hs as (Hlt & Hs & _). apply Forall_app in Hf as [Hf [Hd _]%Forall_cons].
    destruct (IH (conj Hs Hf)) as (H1 & H2 & H3). rewrite rev_unit. cbn [version_loop].
    destruct (Z.ltb_spec (upgradeIndex d) i).
    + split; [right; exists d; split; [set_solver|done]|]. split; [lia|].
      apply Forall_app. split; [|by repeat constructor]. rewrite Forall_forall. intros x Hx _.
      assert (targetVersion x < targetVersion d) by (apply Hlt; set_solver). lia.
    + split; [|split; [done|]].
      * destruct H1 as [H1|(x & ? & ? & ?)]; [by left|right; exists x; split; [set_solver|done]].
      * apply Forall_app. split; [done|]. constructor; [lia|constructor].
Qed.

(** Along the chain the block version never falls, and at each index it is
    the largest registered version whose upgrade height lies below. *)
Theorem block_version_rule m i j :
  versions_increase m -> i <= j ->
  getBlockMajorVersion i m <= getBlockMajorVersion j m /\
  (forall d, d ∈ m -> upgradeIndex d < i -> targetVersion d <= getBlockMajorVersion i m) /\
  (getBlockMajorVersion i m = BLOCK_MAJOR_VERSION_1 \/
   exists d, d ∈ m /\ upgradeIndex d < i /\ getBlockMajorVersion i m = targetVersion d).
Proof.
  intros Hm Hij. unfold getBlockMajorVersion.
  destruct (version_loop_spec i m Hm) as (H1 & _ & H2). destruct (version_loop_spec j m Hm) as (_ & H3 & H4).
  rewrite Forall_forall in H2, H4. split; [|by split].
  destruct H1 as [->|(d & Hd & Hi & ->)]; [done|]. apply H4; [done|lia].
Qed.

Lemma block_version_rule_witness :
  getBlockMajorVersion 3 (core_upgrades CurrencyBuilder) <= getBlockMajorVersion 9 (core_upgrades CurrencyBuilder) /\
  (forall d, d ∈ core_upgrades CurrencyBuilder -> upgradeIndex d < 3 ->
    targetVersion d <= getBlockMajorVersion 3 (core_upgrades CurrencyBuilder)) /\
  (getBlockMajorVersion 3 (core_upgrades CurrencyBuilder) = BLOCK_MAJOR_VERSION_1 \/
   exists d, d ∈ core_upgrades CurrencyBuilder /\ upgradeIndex d < 3 /\
     getBlockMajorVersion 3 (core_upgrades CurrencyBuilder) = targetVersion d).
Proof.
  apply block_version_rule; [|lia]. split; [|evaluate].
  repeat (constructor; [|evaluate]). constructor.
Defined.

(** The versions of the network by index. *)
Example core_versions :
  map (fun i => getBlockMajorVersion i (core_upgrades CurrencyBuilder)) [0; 1; 2; 3; 4; 5; 1000000] =
  [1; 1; 2; 3; 4; 5; 5].
Proof. reflexivity. Qed.
End Upgrades.
