(* ===== verification/PoolCleaner.v ===== *)
(** * The pool cleaner
      ([src/mevacoin_core/itransaction_pool.h], [transaction_pool_cleaner.cpp])

    [ITransactionPool] is a class of operations with laws; [TransactionPool] is
    an instance.  The cleaning wrapper is modelled over any instance, and its
    theorems use the laws only. *)

From stdpp Require Import gmap.
From S2P Require Import Prelude Config StringTools Transaction Amounts TxExtra Cached Pool Rules.

(** ** The interface *)

Class ITransactionPool (P : Type) := {
  ip_push : Z -> CachedTransaction -> TransactionValidatorState -> P -> bool * P;
  ip_get : Hash -> P -> option CachedTransaction;
  ip_remove : Hash -> P -> bool * P;
  ip_hashes : P -> list Hash;
  ip_transactions : P -> list CachedTransaction;
  ip_state : P -> TransactionValidatorState;
  ip_receiveTime : Hash -> P -> option Z;
  ip_flush : P -> P
}.

(** The promise: a map from hashes to transactions and the times of their
    arrival, in which no key image is spent twice. *)
Class TransactionPoolLaws (cn_fast_hash : bytes -> Hash) (P : Type) `{!ITransactionPool P} := {
  ip_ok : P -> Prop;
  ip_map : P -> gmap Hash (CachedTransaction * Z);
  ip_get_map p h : ip_ok p -> ip_get h p = fst <$> ip_map p !! h;
  ip_receiveTime_map p h : ip_ok p -> ip_receiveTime h p = snd <$> ip_map p !! h;
  ip_hashes_map p h : ip_ok p -> h ∈ ip_hashes p <-> is_Some (ip_map p !! h);
  ip_hashes_NoDup p : ip_ok p -> NoDup (ip_hashes p);
  ip_transactions_hashes p : ip_ok p -> map (getTransactionHash cn_fast_hash) (ip_transactions p) = ip_hashes p;
  ip_transactions_get p t : ip_ok p -> t ∈ ip_transactions p ->
    fst <$> ip_map p !! getTransactionHash cn_fast_hash t = Some t;
  ip_transactions_poolable p : ip_ok p -> Forall poolable (ip_transactions p);
  ip_remove_ok p h : ip_ok p -> ip_ok (snd (ip_remove h p));
  ip_remove_map p h : ip_ok p -> ip_map (snd (ip_remove h p)) = delete h (ip_map p);
  ip_push_ok now t p : ip_ok p -> poolable t -> ip_ok (snd (ip_push now t (spent_state t) p));
  ip_push_map now t p : ip_ok p -> poolable t ->
    ip_map (snd (ip_push now t (spent_state t) p)) =
    if fst (ip_push now t (spent_state t) p)
    then <[getTransactionHash cn_fast_hash t := (t, u64 now)]> (ip_map p) else ip_map p;
  ip_unspent p h1 h2 t1 t2 k : ip_ok p -> ip_map p !! h1 = Some t1 -> ip_map p !! h2 = Some t2 ->
    k ∈ spent t1.1 -> k ∈ spent t2.1 -> h1 = h2
}.

(** ** The pool as an instance *)

Section Instance.
Variable cn_fast_hash : bytes -> Hash.
Context {C : Type} {MI : MultiIndex C Hash}
  {OK : MultiIndexOk C (info_hash cn_fast_hash) TransactionPriorityComparator pending_ok}.

#[global] Instance TransactionPool_ITransactionPool : ITransactionPool (TransactionPool (C := C)) := {|
  ip_push := pushTransaction cn_fast_hash;
  ip_get := pool_getTransaction;
  ip_remove := removeTransaction;
  ip_hashes := getTransactionHashes cn_fast_hash;
  ip_transactions := getPoolTransactions;
  ip_state := poolState;
  ip_receiveTime := getTransactionReceiveTime;
  ip_flush := pool_flush cn_fast_hash
|}.

Definition timed_map (p : TransactionPool (C := C)) : gmap Hash (CachedTransaction * Z) :=
  list_to_map (map (fun i => (info_hash cn_fast_hash i, (cachedTransaction i, receiveTime i)))
    (mi_ordered (transactions p))).

Lemma timed_map_lookup p h : mi_ok (transactions p) ->
  timed_map p !! h = (fun i => (cachedTransaction i, receiveTime i)) <$> mi_find h (transactions p).
Proof.
  intros Hok. pose proof (mi_unique _ Hok) as Hn. apply option_eq. intros t. unfold timed_map.
  rewrite <- elem_of_list_to_map.
  - rewrite list_elem_of_fmap, fmap_Some. split.
    + intros (i & [= -> ->] & Hi). exists i. split; [|done]. by apply mi_find_spec.
    + intros (i & Hf & ->). apply mi_find_spec in Hf as [Hi <-]; [|done]. eauto.
  - change (map ?f ?l) with (f <$> l). rewrite <- list_fmap_compose. done.
Qed.

Lemma find_insert c c' i k : mi_ok c -> pending_ok i -> mi_insert i c = (c', true) ->
  mi_find k c' = if decide (info_hash cn_fast_hash i = k) then Some i else mi_find k c.
Proof.
  intros Hok Hi E. destruct (mi_find (info_hash cn_fast_hash i) c) as [x|] eqn:Hf.
  { rewrite mi_insert_old in E by (done || by rewrite Hf). done. }
  destruct (mi_insert_new c i Hok Hi Hf) as (c'' & E' & Hok' & Hp).
  rewrite E in E'. injection E' as <-.
  apply option_eq. intros j. rewrite (mi_find_spec c' k j Hok'), Hp, elem_of_cons.
  case_decide as Ek.
  - split; [|naive_solver]. intros [[->|Hj] Hk]; [done|]. exfalso.
    assert (mi_find k c = Some j) by (by apply (mi_find_spec c k j Hok)). congruence.
  - rewrite (mi_find_spec c k j Hok). naive_solver.
Qed.

Lemma find_erase c h k : mi_ok c ->
  mi_find k (mi_erase h c) = if decide (h = k) then None else mi_find k c.
Proof.
  intros Hok. apply option_eq. intros j. rewrite mi_find_spec by (by apply mi_erase_ok).
  rewrite mi_erase_elements, list_elem_of_filter by done.
  case_decide; [naive_solver|]. rewrite (mi_find_spec c k j Hok). naive_solver.
Qed.

Lemma mjoin_NoDup_unique {A B} (f : A -> list B) l x y k :
  NoDup (mjoin (map f l)) -> x ∈ l -> y ∈ l -> k ∈ f x -> k ∈ f y -> x = y.
Proof.
  induction l as [|z l IH]; cbn; intros Hn Hx Hy Hkx Hky; [by apply elem_of_nil in Hx|].
  apply NoDup_app in Hn as (_ & Hd & Hn).
  assert (forall w, w ∈ l -> k ∈ f w -> k ∈ mjoin (map f l)) as Hj.
  { intros w Hw Hk. apply list_elem_of_join. exists (f w). split; [done|]. apply list_elem_of_fmap. eauto. }
  apply elem_of_cons in Hx as [->|Hx], Hy as [->|Hy]; [done| | |auto]; exfalso; eapply Hd; eauto.
Qed.

#[global] Program Instance TransactionPool_laws : TransactionPoolLaws cn_fast_hash (TransactionPool (C := C)) := {|
  ip_ok := pool_inv cn_fast_hash;
  ip_map := timed_map
|}.
Next Obligation.
  intros p h [Hok _ _ _]. cbn. unfold pool_getTransaction. rewrite timed_map_lookup by done.
  by rewrite <- option_fmap_compose.
Qed.
Next Obligation.
  intros p h [Hok _ _ _]. cbn. unfold getTransactionReceiveTime. rewrite timed_map_lookup by done.
  by rewrite <- option_fmap_compose.
Qed.
Next Obligation.
  intros p h [Hok _ _ _]. cbn. unfold getTransactionHashes. rewrite timed_map_lookup, fmap_is_Some by done.
  rewrite list_elem_of_fmap. unfold is_Some. setoid_rewrite mi_find_spec; [|done]. naive_solver.
Qed.
Next Obligation. intros p [Hok _ _ _]. by apply mi_unique. Qed.
Next Obligation. intros p _. cbn. unfold getPoolTransactions, getTransactionHashes. by rewrite map_map. Qed.
Next Obligation.
  intros p t [Hok _ _ _] Ht. cbn in Ht. unfold getPoolTransactions in Ht. apply list_elem_of_fmap in Ht as (i & -> & Hi).
  rewrite timed_map_lookup by done. change (getTransactionHash cn_fast_hash (cachedTransaction i)) with (info_hash cn_fast_hash i).
  by rewrite (proj2 (mi_find_spec (transactions p) (info_hash cn_fast_hash i) i Hok) (conj Hi eq_refl)).
Qed.
Next Obligation. intros p [_ Hp _ _]. cbn. unfold getPoolTransactions. by apply Forall_fmap. Qed.
Next Obligation.
  intros p h Hp. cbn. pose proof (remove_refines cn_fast_hash h p Hp) as H.
  destruct (removeTransaction h p). by destruct H.
Qed.
Next Obligation.
  intros p h Hp. cbn. pose proof (remove_refines cn_fast_hash h p Hp) as H.
  unfold removeTransaction in *. destruct (mi_find h (transactions p)) as [i|] eqn:Hf; cbn [snd].
  - destruct H as [Hq _]. apply map_eq. intros k.
    rewrite lookup_delete, !timed_map_lookup by (apply Hq || apply Hp). cbn [transactions].
    rewrite find_erase by apply Hp. by case_decide.
  - rewrite delete_id; [done|]. rewrite timed_map_lookup by apply Hp. by rewrite Hf.
Qed.
Next Obligation.
  intros now t p Hp Ht. cbn. pose proof (push_refines cn_fast_hash now t p Hp Ht) as H.
  destruct (pushTransaction cn_fast_hash now t (spent_state t) p). by destruct H.
Qed.
Next Obligation.
  intros now t p Hp Ht. cbn. pose proof (push_refines cn_fast_hash now t p Hp Ht) as H.
  unfold pushTransaction in *. destruct (mi_find _ _) as [x|] eqn:Hf; [done|].
  destruct (hasIntersections _ _) eqn:Hi; [done|].
  set (i := {| receiveTime := u64 now |}) in *. destruct (mi_insert i (transactions p)) as [c' b] eqn:E.
  destruct H as [Hq _]. cbn [fst snd].
  destruct (mi_insert_new (transactions p) i) as (c'' & E' & _ & _); [apply Hp|apply Ht|done|].
  rewrite E in E'. injection E' as <- ->. apply map_eq. intros k.
  rewrite lookup_insert, !timed_map_lookup by (apply Hq || apply Hp). cbn [transactions].
  rewrite (find_insert (transactions p) c' i) by (apply Hp || apply Ht || done).
  change (info_hash cn_fast_hash i) with (getTransactionHash cn_fast_hash t). by case_decide.
Qed.
Next Obligation.
  intros p h1 h2 t1 t2 k Hp H1 H2 K1 K2. rewrite timed_map_lookup in H1, H2 by apply Hp.
  apply fmap_Some in H1 as (i & F1 & ->), H2 as (j & F2 & ->). cbn in *.
  apply mi_find_spec in F1 as [Hi <-], F2 as [Hj <-]; [|apply Hp..]. f_equal.
  eapply (mjoin_NoDup_unique (spent ∘ cachedTransaction)); [apply Hp|done|done|done|done].
Qed.
End Instance.

(** ** The wrapper *)

(** [hex2ascii] of text made of hexadecimal digits, the only text it is used
    with: two digits a byte. *)
Fixpoint hex2ascii (hex : bytes) : option bytes :=
  match hex with
  | [] => Some []
  | [c] => v ← fromHex_char c; Some [v]
  | c1 :: c2 :: hex =>
      v1 ← fromHex_char c1; v2 ← fromHex_char c2; rest ← hex2ascii hex;
      Some (Z.lor (Z.shiftl v1 4) v2 :: rest)
  end.

Section Wrapper.
Variable cn_fast_hash : bytes -> Hash.
Context {P : Type} `{!ITransactionPool P}.

(** [nlohmann::json::parse] and [.at("t").get<uint64_t>()]; [None] is an
    exception. *)
Context {json : Type}.
Variable json_parse : bytes -> option json.
Variable json_at_t : json -> option Z.

Record TransactionPoolCleanWrapper := {
  transactionPool : P;
  recentlyDeletedTransactions : gmap Hash Z;
  timeout : Z
}.

(** One [try] block of [trimExtra]: [substr] throws behind the end. *)
Definition trim_at (pos : nat) (extra : bytes) : option json :=
  if (length extra <? pos)%nat then None else payload ← hex2ascii (drop pos extra); json_parse payload.

Definition trimExtra (extra : bytes) : option json :=
  match trim_at 66 extra with
  | Some j => Some j
  | None =>
      match trim_at 78 extra with
      | Some j => Some j
      | None => json_parse (str "{ 't': 0 }")
      end
  end.

Definition isTransactionRecentlyDeleted (hash : Hash) (w : TransactionPoolCleanWrapper) : bool :=
  match recentlyDeletedTransactions w !! hash with
  | Some time => timeout w <=? time
  | None => false
  end.

Definition set_pool (p : P) (w : TransactionPoolCleanWrapper) : TransactionPoolCleanWrapper :=
  {| transactionPool := p; recentlyDeletedTransactions := recentlyDeletedTransactions w; timeout := timeout w |}.

Definition clean_pushTransaction (now : Z) (tx : CachedTransaction) (state : TransactionValidatorState)
    (w : TransactionPoolCleanWrapper) : bool * TransactionPoolCleanWrapper :=
  if isTransactionRecentlyDeleted (getTransactionHash cn_fast_hash tx) w then (false, w)
  else let '(b, p) := ip_push now tx state (transactionPool w) in (b, set_pool p w).

Definition clean_removeTransaction (hash : Hash) (w : TransactionPoolCleanWrapper)
    : bool * TransactionPoolCleanWrapper :=
  let '(b, p) := ip_remove hash (transactionPool w) in (b, set_pool p w).

(** The conditions under which [clean] deletes a transaction. *)
Definition expired (timeout currentTime height : Z) (tx : CachedTransaction) (receiveTime : Z) : bool :=
  let transactionAge := u64 (currentTime - receiveTime) in
  let extra := extra (getTransaction tx) in
  let tx_extra_data_size := Z.of_nat (length extra) in
  if negb (Mixins.validate [tx] height) then true
  else if timeout <=? transactionAge then true
  else if MAX_EXTRA_SIZE_BLOCK <? tx_extra_data_size then
    if (MEVACOIN_MEMPOOL_TX_LIVETIME <=? transactionAge) || (MAX_EXTRA_SIZE_POOL <=? tx_extra_data_size)
    then true
    else
      match j ← trimExtra (toHex extra); json_at_t j with
      | Some box_time =>
          let boxed_transaction_age := u64 (currentTime - box_time / 1000) in
          MEVACOIN_MEMPOOL_TX_LIVETIME <=? boxed_transaction_age
      | None => true
      end
  else false.

(** [recentlyDeletedTransactions.emplace(hash, currentTime)] keeps an entry
    that is already there; then the transaction is removed. *)
Definition delete_transaction (currentTime : Z) (hash : Hash) (w : TransactionPoolCleanWrapper)
    : TransactionPoolCleanWrapper :=
  {| transactionPool := snd (ip_remove hash (transactionPool w));
     recentlyDeletedTransactions :=
       match recentlyDeletedTransactions w !! hash with
       | Some _ => recentlyDeletedTransactions w
       | None => <[hash := currentTime]> (recentlyDeletedTransactions w)
       end;
     timeout := timeout w |}.

(** The loop of [clean]; [None] where the pool would assert that it knows a
    hash. *)
Fixpoint clean_loop (currentTime height : Z) (hashes : list Hash) (w : TransactionPoolCleanWrapper)
    (deleted : list Hash) : option (list Hash * TransactionPoolCleanWrapper) :=
  match hashes with
  | [] => Some (deleted, w)
  | hash :: hashes =>
      time ← ip_receiveTime hash (transactionPool w);
      tx ← ip_get hash (transactionPool w);
      if expired (timeout w) currentTime height tx time then
        clean_loop currentTime height hashes (delete_transaction currentTime hash w) (deleted ++ [hash])
      else clean_loop currentTime height hashes w deleted
  end.

Definition cleanRecentlyDeletedTransactions (currentTime : Z) (w : TransactionPoolCleanWrapper)
    : TransactionPoolCleanWrapper :=
  {| transactionPool := transactionPool w;
     recentlyDeletedTransactions :=
       filter (fun it => ~ timeout w <= u64 (currentTime - it.2)) (recentlyDeletedTransactions w);
     timeout := timeout w |}.

Definition clean (currentTime height : Z) (w : TransactionPoolCleanWrapper)
    : option (list Hash * TransactionPoolCleanWrapper) :=
  '(deleted, w) ← clean_loop currentTime height (ip_hashes (transactionPool w)) w [];
  Some (deleted, cleanRecentlyDeletedTransactions currentTime w).

Definition clean_flush (w : TransactionPoolCleanWrapper) : TransactionPoolCleanWrapper :=
  set_pool (ip_flush (transactionPool w)) w.

(** *** What cleaning does *)

Context `{!TransactionPoolLaws cn_fast_hash P}.

Definition wrapper_map (w : TransactionPoolCleanWrapper) : gmap Hash (CachedTransaction * Z) :=
  ip_map (transactionPool w).

(** [clean_loop] over [hs] deleted [more] and left [w']. *)
Record cleaned (now height : Z) (hs : list Hash) (w : TransactionPoolCleanWrapper) (more : list Hash)
    (w' : TransactionPoolCleanWrapper) : Prop := {
  cl_ok : ip_ok (transactionPool w');
  cl_timeout : timeout w' = timeout w;
  cl_sublist : more `sublist_of` hs;
  cl_deleted : forall h, h ∈ more <-> exists e, h ∈ hs /\ wrapper_map w !! h = Some e /\
    expired (timeout w) now height e.1 e.2 = true;
  cl_map : forall h, wrapper_map w' !! h = if decide (h ∈ more) then None else wrapper_map w !! h;
  cl_recent : forall h, recentlyDeletedTransactions w' !! h =
    match recentlyDeletedTransactions w !! h with
    | Some t => Some t | None => if decide (h ∈ more) then Some now else None end
}.

Lemma cleaned_nil now height w : ip_ok (transactionPool w) -> cleaned now height [] w [] w.
Proof.
  intros Hok. split; [done|done|done| |done|].
  - intros h. split; [by intros ?%elem_of_nil|by intros (e & ?%elem_of_nil & _)].
  - intros h. by destruct (recentlyDeletedTransactions w !! h).
Qed.

Lemma cleaned_keep now height h hs w e more w' :
  wrapper_map w !! h = Some e -> expired (timeout w) now height e.1 e.2 = false ->
  cleaned now height hs w more w' -> cleaned now height (h :: hs) w more w'.
Proof.
  intros He Hx [H1 H2 H3 H4 H5 H6]. split; try done; [by constructor|]. intros k. rewrite H4.
  split; intros (e' & Hk & He' & Hx'); exists e'; [set_solver|].
  apply elem_of_cons in Hk as [->|Hk]; [congruence|done].
Qed.

Lemma delete_transaction_map now h w k : ip_ok (transactionPool w) ->
  wrapper_map (delete_transaction now h w) !! k = if decide (h = k) then None else wrapper_map w !! k.
Proof. intros Hok. unfold wrapper_map. cbn. by rewrite ip_remove_map, lookup_delete. Qed.

Lemma delete_transaction_recent now h w k :
  recentlyDeletedTransactions (delete_transaction now h w) !! k =
  match recentlyDeletedTransactions w !! k with
  | Some t => Some t | None => if decide (h = k) then Some now else None end.
Proof.
  cbn. destruct (decide (h = k)) as [->|].
  - destruct (recentlyDeletedTransactions w !! k) eqn:E; [done|apply lookup_insert_eq].
  - destruct (recentlyDeletedTransactions w !! h) eqn:E; [|rewrite lookup_insert_ne by done]; by case_match.
Qed.

Lemma decide_cons {A B} `{!EqDecision A} (h k : A) l (x y : B) :
  (if decide (k ∈ h :: l) then x else y) = if decide (h = k) then x else if decide (k ∈ l) then x else y.
Proof. repeat case_decide; set_solver. Qed.

Lemma cleaned_delete now height h hs w e more w' :
  ip_ok (transactionPool w) -> h ∉ hs ->
  wrapper_map w !! h = Some e -> expired (timeout w) now height e.1 e.2 = true ->
  cleaned now height hs (delete_transaction now h w) more w' ->
  cleaned now height (h :: hs) w (h :: more) w'.
Proof.
  intros Hok Hh He Hx [H1 H2 H3 H4 H5 H6]. split; [done|done|by constructor|..].
  - intros k. rewrite elem_of_cons, H4. setoid_rewrite delete_transaction_map; [|done]. split.
    + intros [->|(e' & Hk & He' & Hx')]; [exists e; set_solver|]. case_decide; [done|].
      exists e'. set_solver.
    + intros (e' & [->|Hk]%elem_of_cons & He' & Hx'); [by left|]. right. exists e'.
      rewrite decide_False by congruence. done.
  - intros k. rewrite H5, delete_transaction_map, decide_cons by done. by repeat case_decide.
  - intros k. rewrite H6, delete_transaction_recent, decide_cons.
    destruct (recentlyDeletedTransactions w !! k); [done|]. by repeat case_decide.
Qed.

Lemma clean_loop_spec now height hs : forall w deleted,
  ip_ok (transactionPool w) -> NoDup hs -> (forall h, h ∈ hs -> is_Some (wrapper_map w !! h)) ->
  exists more w', clean_loop now height hs w deleted = Some (deleted ++ more, w') /\
    cleaned now height hs w more w'.
Proof.
  induction hs as [|h hs IH]; intros w deleted Hok Hn Hin; cbn [clean_loop].
  - exists [], w. rewrite app_nil_r. split; [done|by apply cleaned_nil].
  - apply NoDup_cons in Hn as [Hh Hn]. destruct (Hin h ltac:(set_solver)) as [e He].
    rewrite ip_receiveTime_map, ip_get_map by done. fold (wrapper_map w). rewrite He. cbn.
    destruct (expired (timeout w) now height e.1 e.2) eqn:Ex.
    + destruct (IH (delete_transaction now h w) (deleted ++ [h])) as (more & w' & E & Hc);
        [by apply ip_remove_ok|done| |].
      { intros k Hk. rewrite delete_transaction_map by done. rewrite decide_False by set_solver.
        apply Hin. set_solver. }
      exists (h :: more), w'. rewrite E, <- app_assoc. split; [done|]. by eapply cleaned_delete.
    + destruct (IH w deleted) as (more & w' & E & Hc); [done|done|intros k Hk; apply Hin; set_solver|].
      exists more, w'. split; [done|]. by eapply cleaned_keep.
Qed.

Lemma clean_effect now height w :
  ip_ok (transactionPool w) ->
  exists deleted w', clean now height w = Some (deleted, w') /\
    ip_ok (transactionPool w') /\ NoDup deleted /\
    (forall h, h ∈ deleted <-> exists e, wrapper_map w !! h = Some e /\
      expired (timeout w) now height e.1 e.2 = true) /\
    (forall h, wrapper_map w' !! h = if decide (h ∈ deleted) then None else wrapper_map w !! h) /\
    (forall h t, recentlyDeletedTransactions w' !! h = Some t <->
      ~ timeout w <= u64 (now - t) /\
      (recentlyDeletedTransactions w !! h = Some t \/
       recentlyDeletedTransactions w !! h = None /\ h ∈ deleted /\ t = now)).
Proof.
  intros Hok. unfold clean.
  destruct (clean_loop_spec now height (ip_hashes (transactionPool w)) w []) as (more & w' & E & [H1 H2 H3 H4 H5 H6]);
    [done|by apply ip_hashes_NoDup|by intros h ?%ip_hashes_map|].
  rewrite E. cbn. exists more, (cleanRecentlyDeletedTransactions now w'). split; [done|]. split; [done|].
  split; [exact (sublist_NoDup _ _ (ip_hashes_NoDup _ Hok) H3)|]. split; [|split; [done|]].
  - intros h. rewrite H4. split; intros (e & ?); exists e; [tauto|].
    rewrite ip_hashes_map by done. split; [exists e|]; tauto.
  - intros h t. cbn. rewrite H2, map_lookup_filter_Some, H6. cbn.
    destruct (recentlyDeletedTransactions w !! h); [naive_solver|]. case_decide; naive_solver.
Qed.

(** C38. Cleaning never fails, over any pool that keeps the laws of the
    interface.  It deletes exactly the transactions that are out of the mixin
    limits of the height, too old, or carry an extra field that is too large or
    out of date, each of them once, keeps all others, and remembers the time of
    deletion. *)
Theorem clean_spec now height w :
  ip_ok (transactionPool w) ->
  exists deleted w', clean now height w = Some (deleted, w') /\
    ip_ok (transactionPool w') /\ NoDup deleted /\
    (forall h, h ∈ deleted <-> exists e, wrapper_map w !! h = Some e /\
      expired (timeout w) now height e.1 e.2 = true) /\
    (forall h, wrapper_map w' !! h = if decide (h ∈ deleted) then None else wrapper_map w !! h) /\
    (forall h t, recentlyDeletedTransactions w' !! h = Some t <->
      ~ timeout w <= u64 (now - t) /\
      (recentlyDeletedTransactions w !! h = Some t \/
       recentlyDeletedTransactions w !! h = None /\ h ∈ deleted /\ t = now)).
Proof. apply clean_effect. Qed.

(** A transaction that was deleted is not in the pool. *)
Definition clean_inv (w : TransactionPoolCleanWrapper) : Prop :=
  ip_ok (transactionPool w) /\
  forall h t, recentlyDeletedTransactions w !! h = Some t -> timeout w <= t /\ wrapper_map w !! h = None.

(** What can happen to the pool, as the node uses it. *)
Inductive wrapper_step (w : TransactionPoolCleanWrapper) : TransactionPoolCleanWrapper -> Prop :=
| step_push now t : poolable t -> wrapper_step w (snd (clean_pushTransaction now t (spent_state t) w))
| step_remove h : wrapper_step w (snd (clean_removeTransaction h w))
| step_clean now height deleted w' : timeout w <= now < 2 ^ 64 ->
    clean now height w = Some (deleted, w') -> wrapper_step w w'.

Lemma push_clean_inv now t w : poolable t -> clean_inv w ->
  clean_inv (snd (clean_pushTransaction now t (spent_state t) w)).
Proof.
  intros Ht [Hok Hr]. unfold clean_pushTransaction.
  destruct (isTransactionRecentlyDeleted _ w) eqn:Ed; [by split|].
  pose proof (ip_push_ok now t _ Hok Ht) as Hok'. pose proof (ip_push_map now t _ Hok Ht) as Hm.
  destruct (ip_push now t (spent_state t) (transactionPool w)) as [b p]. cbn in *.
  split; [done|]. intros h x Hx. destruct (Hr h x Hx) as [Ht' Hn]. split; [done|].
  unfold wrapper_map in *. cbn. rewrite Hm. destruct b; [|done]. rewrite lookup_insert_ne; [done|].
  intros <-. unfold isTransactionRecentlyDeleted in Ed. cbn in Hx. rewrite Hx in Ed. lia.
Qed.

Lemma remove_clean_inv h w : clean_inv w -> clean_inv (snd (clean_removeTransaction h w)).
Proof.
  intros [Hok Hr]. unfold clean_removeTransaction.
  pose proof (ip_remove_ok _ h Hok) as Hok'. pose proof (ip_remove_map _ h Hok) as Hm.
  destruct (ip_remove h (transactionPool w)) as [b p]. cbn in *. split; [done|].
  intros k x Hx. destruct (Hr k x Hx) as [? Hn]. split; [done|]. unfold wrapper_map in *. cbn.
  rewrite Hm, lookup_delete. by case_decide.
Qed.

Lemma clean_clean_inv now height deleted w w' :
  timeout w <= now -> clean now height w = Some (deleted, w') -> clean_inv w -> clean_inv w'.
Proof.
  intros Ht Hc [Hok Hr]. destruct (clean_effect now height w Hok) as (d & v & E & H1 & _ & H3 & H4 & H5).
  rewrite Hc in E. injection E as <- <-. split; [done|]. intros h t Hh. rewrite H4.
  assert (timeout w' = timeout w) as ->.
  { unfold clean in Hc. destruct (clean_loop_spec now height (ip_hashes (transactionPool w)) w [])
      as (more & u & E & [? Hto _ _ _ _]); [done|by apply ip_hashes_NoDup|by intros ? ?%ip_hashes_map|].
    rewrite E in Hc. cbn in Hc. simplify_eq. done. }
  apply H5 in Hh as [_ [Hh|(Hh & Hd & ->)]]; [|split; [done|by rewrite decide_True]].
  destruct (Hr _ _ Hh) as [? Hn]. split; [done|]. rewrite Hn. by case_decide.
Qed.

Lemma wrapper_steps_inv w w' : clean_inv w -> rtc wrapper_step w w' -> clean_inv w'.
Proof.
  intros Hw. induction 1 as [|w v u Hs _ IH]; [done|]. apply IH.
  inversion Hs; subst; [by apply push_clean_inv|by apply remove_clean_inv|].
  eapply clean_clean_inv; [|done|done]. lia.
Qed.

(** A transaction that [clean] deletes does not come back at once: in every
    state the node can reach from a fresh pool, pushing a transaction that was
    just deleted fails and changes nothing. *)
Theorem deleted_stays_out w0 w now height deleted w' now' t state :
  ip_ok (transactionPool w0) -> recentlyDeletedTransactions w0 = ∅ ->
  rtc wrapper_step w0 w -> 0 < timeout w <= now -> clean now height w = Some (deleted, w') ->
  getTransactionHash cn_fast_hash t ∈ deleted ->
  clean_pushTransaction now' t state w' = (false, w').
Proof.
  intros Hok0 He Hs [Hp Ht] Hc Hd.
  assert (clean_inv w) as Hi
    by (eapply wrapper_steps_inv; [split; [exact Hok0|intros ? ?; by rewrite He, lookup_empty]|done]).
  pose proof (clean_clean_inv _ _ _ _ _ Ht Hc Hi) as [_ Hi'].
  destruct Hi as [Hok Hr]. destruct (clean_effect now height w Hok) as (d & v & E & _ & _ & H3 & _ & H5).
  rewrite Hc in E. injection E as <- <-. destruct (proj1 (H3 _) Hd) as (e & Hm & _).
  assert (recentlyDeletedTransactions w' !! getTransactionHash cn_fast_hash t = Some now) as Hn.
  { apply H5. rewrite Z.sub_diag. change (u64 0) with 0. split; [lia|]. right. split; [|done].
    destruct (recentlyDeletedTransactions w !! _) eqn:Er; [|done]. destruct (Hr _ _ Er). congruence. }
  unfold clean_pushTransaction, isTransactionRecentlyDeleted. rewrite Hn.
  destruct (Hi' _ _ Hn) as [Hle _]. by replace (timeout w' <=? now) with true by lia.
Qed.
End Wrapper.

(** ** A run *)

#[local] Existing Instance run_index.
#[local] Instance run_pool : ITransactionPool (TransactionPool (C := list PendingTransactionInfo)) :=
  TransactionPool_ITransactionPool sum_key.
#[local] Instance run_pool_laws : TransactionPoolLaws sum_key (TransactionPool (C := list PendingTransactionInfo)) :=
  TransactionPool_laws sum_key (OK := ListIndexOk _ _ _).

Definition run_json (payload : bytes) : option Z := None.

Definition run_wrapper : TransactionPoolCleanWrapper (P := TransactionPool) :=
  {| transactionPool := TransactionPool_new; recentlyDeletedTransactions := ∅;
     timeout := MEVACOIN_MEMPOOL_TX_LIVETIME |}.
Definition run_pushed : TransactionPoolCleanWrapper :=
  snd (clean_pushTransaction sum_key 100 (sample_tx 1 50 40) (spent_state (sample_tx 1 50 40)) run_wrapper).
Definition run_deleted : list Hash := [getTransactionHash sum_key (sample_tx 1 50 40)].

Lemma run_pushed_ok : ip_ok (cn_fast_hash := sum_key) (transactionPool run_pushed).
Proof.
  apply (push_clean_inv sum_key 100 (sample_tx 1 50 40) run_wrapper); [repeat split; evaluate|].
  split; [apply pool_new_inv|done].
Qed.

Lemma clean_spec_witness :
  exists deleted w', clean run_json (fun t => Some t) 100000 7 run_pushed = Some (deleted, w') /\
    ip_ok (cn_fast_hash := sum_key) (transactionPool w') /\ NoDup deleted /\
    (forall h, h ∈ deleted <-> exists e, wrapper_map sum_key run_pushed !! h = Some e /\
      expired run_json (fun t => Some t) (timeout run_pushed) 100000 7 e.1 e.2 = true) /\
    (forall h, wrapper_map sum_key w' !! h =
      if decide (h ∈ deleted) then None else wrapper_map sum_key run_pushed !! h) /\
    (forall h t, recentlyDeletedTransactions w' !! h = Some t <->
      ~ timeout run_pushed <= u64 (100000 - t) /\
      (recentlyDeletedTransactions run_pushed !! h = Some t \/
       recentlyDeletedTransactions run_pushed !! h = None /\ h ∈ deleted /\ t = 100000)).
Proof. apply (clean_spec sum_key run_json (fun t => Some t)). apply run_pushed_ok. Defined.

Definition run_cleaned : TransactionPoolCleanWrapper (P := TransactionPool) :=
  match clean run_json (fun t => Some t) 100000 7 run_pushed with Some (_, w) => w | None => run_wrapper end.

Lemma deleted_stays_out_witness :
  clean_pushTransaction sum_key 100001 (sample_tx 1 50 40) (spent_state (sample_tx 1 50 40)) run_cleaned =
  (false, run_cleaned).
Proof.
  apply (deleted_stays_out sum_key run_json (fun t => Some t) run_wrapper run_pushed 100000 7 run_deleted).
  - apply pool_new_inv.
  - done.
  - apply rtc_once, step_push. repeat split; evaluate.
  - vm_compute. split; [reflexivity|discriminate].
  - vm_compute. reflexivity.
  - apply list_elem_of_singleton. done.
Defined.
