(* ===== verification/Checkpoints.v ===== *)
(** * Checkpoints ([src/mevacoin_core/checkpoints.cpp])

    The hashes some blocks must have.  A file is its bytes; [std::getline] and
    [std::stoull] are modelled as far as the loader uses them. *)

From stdpp Require Import gmap.
From S2P Require Import Prelude StringTools Transaction AmountText.

(** [std::map<uint32_t, crypto::Hash> points] *)
Abbreviation Checkpoints := (gmap Z Hash).

(** ** Streams of lines *)

(** [std::getline(file, text, delimiter)]: the text, whether the stream is
    still good for a condition, and what is left; [None] is a stream at its end. *)
Definition getline (delimiter : Z) (file : option bytes) : bytes * bool * option bytes :=
  match file with
  | None => ([], false, None)
  | Some data =>
      match find_char delimiter data with
      | Some p => (take p data, true, Some (drop (S p) data))
      | None => (data, negb (bool_decide (data = [])), None)
      end
  end.

Inductive stoull_result := Parsed (value : Z) | OutOfRange | InvalidArgument.

Fixpoint take_digits (text : bytes) : bytes :=
  match text with
  | ch :: text => if is_digit ch then ch :: take_digits text else []
  | [] => []
  end.

(** [std::stoull]: white space, a sign, and the digits that follow; a negative
    number is taken modulo 2^64. *)
Definition stoull (text : bytes) : stoull_result :=
  let text := leftTrim text in
  let '(negative, text) :=
    match text with
    | 43 :: text => (false, text)
    | 45 :: text => (true, text)
    | _ => (false, text)
    end in
  match take_digits text with
  | [] => InvalidArgument
  | digits =>
      if 2 ^ 64 <=? decimal_value digits then OutOfRange
      else Parsed (if negative then u64 (- decimal_value digits) else decimal_value digits)
  end.

(** ** Operations *)

Definition addCheckpoint (index : Z) (hash_str : bytes) (points : Checkpoints) : bool * Checkpoints :=
  match podFromHex 32 hash_str with
  | None => (false, points)
  | Some h =>
      match points !! index with
      | Some _ => (false, points)
      | None => (true, <[index := h]> points)
      end
  end.

(** [Undefined] is the use of [index] before it has a value. *)
Inductive load_result := Loaded (ok : bool) (points : Checkpoints) | Undefined | OutOfFuel.

(** The loop of [loadCheckpointsFromFile].  A height out of range is logged,
    and the loop goes on with the height it had before. *)
Fixpoint load_loop (fuel : nat) (file : option bytes) (index : option Z) (points : Checkpoints)
    : load_result :=
  match fuel with
  | O => OutOfFuel
  | S fuel =>
      let '(indexString, _, file) := getline 44 file in
      let '(hash, good, file) := getline 10 file in
      if negb good then Loaded true points
      else
        match stoull indexString with
        | InvalidArgument => Loaded false points
        | parsed =>
            match match parsed with Parsed value => Some value | _ => index end with
            | None => Undefined
            | Some index =>
                let '(added, points) := addCheckpoint (u32 index) hash points in
                if negb added then Loaded false points else load_loop fuel file (Some index) points
            end
        end
  end.

(** [file] is [None] when the file does not open. *)
Definition loadCheckpointsFromFile (file : option bytes) (points : Checkpoints) : load_result :=
  match file with
  | None => Loaded false points
  | Some data => load_loop (S (length data)) (Some data) None points
  end.

(** The key before [points.end()]. *)
Definition last_index (points : Checkpoints) : option Z :=
  foldr (fun i m => match m with Some j => Some (Z.max i j) | None => Some i end) None
    (map fst (map_to_list points)).

Definition isInCheckpointZone (index : Z) (points : Checkpoints) : bool :=
  match last_index points with Some last => index <=? last | None => false end.

(** [(result, isCheckpoint)] *)
Definition checkBlock (index : Z) (h : Hash) (points : Checkpoints) : bool * bool :=
  match points !! index with
  | None => (true, false)
  | Some expected => (bool_decide (expected = h), true)
  end.

(** ** Termination *)

Definition remaining (file : option bytes) : nat := match file with Some data => length data | None => 0 end.

Lemma getline_shrinks d file t g file' : getline d file = (t, g, Some file') ->
  (length file' < remaining file)%nat.
Proof.
  destruct file as [data|]; [|done]. cbn. destruct (find_char d data) as [p|] eqn:E; [|done].
  intros [= <- <- <-]. apply find_char_Some in E as [E _]. apply (f_equal length) in E.
  rewrite length_app in E. cbn in E. lia.
Qed.

Lemma load_loop_terminates fuel : forall file index points,
  (remaining file < fuel)%nat -> load_loop fuel file index points <> OutOfFuel.
Proof.
  induction fuel as [|fuel IH]; intros file index points Hf; [lia|]. cbn [load_loop].
  destruct (getline 44 file) as [[s g] file1] eqn:E1. destruct (getline 10 file1) as [[h good] file2] eqn:E2.
  destruct good; cbn [negb]; [|done].
  destruct file1 as [data1|]; [|done]. apply getline_shrinks in E1.
  assert (remaining file2 < fuel)%nat as Hr.
  { destruct file2 as [data2|]; cbn; [apply getline_shrinks in E2; cbn in E2|]; lia. }
  destruct (stoull s); [| |done]; repeat case_match; auto; simplify_eq.
Qed.

(** ** Round trip *)

(** The file that lists checkpoints, one to a line. *)
Definition print_checkpoints (l : list (Z * Hash)) : bytes :=
  mjoin (map (fun '(i, h) => to_string i ++ [44] ++ toHex h ++ [10]) l).

Lemma take_digits_all text : Forall (fun x => is_digit x = true) text -> take_digits text = text.
Proof. induction 1 as [|x text Hx _ IH]; [done|]. cbn. by rewrite Hx, IH. Qed.

Lemma stoull_to_string n : is_u64 n -> stoull (to_string n) = Parsed n.
Proof.
  intros Hn. unfold stoull, to_string.
  destruct (to_string_loop_spec 20 n) as (Hv & Hd & Hne); [mlia|lia|].
  destruct (to_string_loop 20 n) as [|x text] eqn:E; [done|].
  pose proof (proj1 (Forall_cons_1 _ _ _ Hd)) as Hx. cbn [leftTrim]. rewrite digit_not_space by done.
  assert (x <> 43 /\ x <> 45) as [] by (unfold is_digit in Hx; lia).
  replace (match x with 43 => (false, text) | 45 => (true, text) | _ => (false, x :: text) end)
    with (false, x :: text) by (repeat (case_match; try done)).
  rewrite take_digits_all, Hv by done. by replace (2 ^ 64 <=? n) with false by mlia.
Qed.

Lemma toHex_lines data : is_bytes data -> 10 ∉ toHex data.
Proof.
  induction 1 as [|b data Hb _ IH]; [apply not_elem_of_nil|]. cbn [toHex].
  assert (10 <> hexDigit (Z.shiftr b 4) /\ 10 <> hexDigit (Z.land b 15)) as [].
  { pose (P := fun b => negb (10 =? hexDigit (Z.shiftr b 4)) && negb (10 =? hexDigit (Z.land b 15))).
    assert (P b = true) by (apply byte_forall; [vm_compute; reflexivity|done]). unfold P in *. lia. }
  by rewrite !not_elem_of_cons.
Qed.

Lemma to_string_no_comma n : is_u64 n -> 44 ∉ to_string n.
Proof.
  intros Hn Hin. destruct (to_string_loop_spec 20 n) as (_ & Hd & _); [mlia|lia|].
  rewrite Forall_forall in Hd. by apply Hd in Hin.
Qed.

Lemma getline_print d text rest : d ∉ text ->
  getline d (Some (text ++ [d] ++ rest)) = (text, true, Some rest).
Proof.
  intros Hd. cbn [getline app]. rewrite find_char_app by done.
  rewrite take_app_length. change (text ++ d :: rest) with (text ++ [d] ++ rest).
  rewrite app_assoc, drop_app_length' by (rewrite length_app; cbn; lia). done.
Qed.

Lemma load_loop_print l : forall fuel index points, (length l < fuel)%nat ->
  Forall (fun '(i, h) => is_u32 i /\ is_bytes h /\ length h = 32%nat) l -> NoDup (map fst l) ->
  Forall (fun '(i, _) => points !! i = None) l ->
  load_loop fuel (Some (print_checkpoints l)) index points = Loaded true (list_to_map l ∪ points).
Proof.
  induction l as [|[i h] l IH]; intros [|fuel] index points Hf Hl Hn Hp; try (cbn in Hf; lia).
  - cbn. by rewrite (left_id_L ∅ (∪)).
  - apply Forall_cons in Hl as [(Hi & Hb & Hh) Hl], Hp as [Hp Hps].
    cbn [map fst] in Hn. apply NoDup_cons in Hn as [Hnot Hn].
    assert (is_u64 i) as Hi64 by mlia. cbn [load_loop].
    change (print_checkpoints ((i, h) :: l))
      with ((to_string i ++ [44] ++ toHex h ++ [10]) ++ print_checkpoints l).
    rewrite <- !app_assoc, getline_print by (by apply to_string_no_comma).
    rewrite getline_print by (by apply toHex_lines). cbn [negb].
    rewrite stoull_to_string, (wrap_small 32 i) by done. unfold addCheckpoint.
    rewrite <- Hh, podFromHex_toHex, Hp by done. cbn [negb].
    rewrite IH; [|cbn in Hf; lia|done|done|].
    + f_equal. cbn [list_to_map foldr]. assert (list_to_map (M := gmap Z Hash) l !! i = None) as Hnone
        by (by apply not_elem_of_list_to_map_1).
      rewrite <- insert_union_r, insert_union_l by done. done.
    + rewrite Forall_forall in *. intros [j g] Hj. specialize (Hps _ Hj). cbn in *.
      rewrite lookup_insert_ne; [done|]. intros ->. apply Hnot. apply list_elem_of_fmap. by exists (j, g).
Qed.

Lemma last_index_spec points x :
  match last_index points with Some m => x <= m | None => False end <->
  exists i h, points !! i = Some h /\ x <= i.
Proof.
  unfold last_index. setoid_rewrite <- elem_of_map_to_list.
  induction (map_to_list points) as [|[i h] l IH]; cbn.
  - split; [done|by intros (? & ? & ?%elem_of_nil & _)].
  - assert ((exists j g, (j, g) ∈ (i, h) :: l /\ x <= j) <-> x <= i \/ exists j g, (j, g) ∈ l /\ x <= j) as ->.
    { setoid_rewrite elem_of_cons. split.
      - intros (j & g & [[= -> ->]|Hin] & Hx); [by left|right; eauto].
      - intros [Hx|(j & g & Hin & Hx)]; [exists i, h|exists j, g]; auto. }
    rewrite <- IH. destruct (foldr _ _ _); [lia|tauto].
Qed.

Lemma length_print_checkpoints l : (length l <= length (print_checkpoints l))%nat.
Proof.
  induction l as [|[i h] l IH]; [cbn; lia|].
  change (print_checkpoints ((i, h) :: l))
    with ((to_string i ++ [44] ++ toHex h ++ [10]) ++ print_checkpoints l).
  rewrite !length_app. cbn [length]. lia.
Qed.

(** A file of checkpoints with distinct heights loads completely, and then
    exactly the listed blocks are checked: a block passes unless its height is
    listed with another hash, and the checkpoint zone reaches up to the largest
    height of the file. *)
Theorem checkpoints_loaded l :
  Forall (fun '(i, h) => is_u32 i /\ is_bytes h /\ length h = 32%nat) l -> NoDup (map fst l) ->
  exists points, loadCheckpointsFromFile (Some (print_checkpoints l)) ∅ = Loaded true points /\
    (forall i h, fst (checkBlock i h points) = true <-> forall g, (i, g) ∈ l -> g = h) /\
    (forall i h, snd (checkBlock i h points) = true <-> i ∈ map fst l) /\
    (forall i, isInCheckpointZone i points = true <-> exists j g, (j, g) ∈ l /\ i <= j).
Proof.
  intros Hl Hn. exists (list_to_map l). cbn [loadCheckpointsFromFile].
  pose proof (length_print_checkpoints l).
  rewrite load_loop_print; [|lia|done|done|apply Forall_forall; intros [i h] _; apply lookup_empty].
  rewrite (right_id_L ∅ (∪)). split; [done|].
  assert (forall i g, list_to_map (M := gmap Z Hash) l !! i = Some g <-> (i, g) ∈ l) as Hlk
    by (intros; by rewrite <- elem_of_list_to_map).
  split; [|split].
  - intros i h. unfold checkBlock. destruct (list_to_map l !! i) as [g|] eqn:E; cbn [fst].
    + rewrite bool_decide_eq_true. split; [|intros Hg; apply Hg, Hlk, E].
      intros <- g' Hg'%Hlk. congruence.
    + split; [|done]. intros _ g Hg%Hlk. congruence.
  - intros i h. unfold checkBlock. destruct (list_to_map l !! i) as [g|] eqn:E; cbn [snd].
    + split; [|done]. intros _. apply list_elem_of_fmap. exists (i, g). split; [done|]. by apply Hlk.
    + split; [done|]. intros ([j g] & -> & Hg%Hlk)%list_elem_of_fmap. cbn in E. congruence.
  - intros i. unfold isInCheckpointZone. setoid_rewrite <- Hlk. rewrite <- last_index_spec.
    destruct (last_index _); [|done]. by rewrite Z.leb_le.
Qed.

Lemma checkpoints_loaded_witness :
  let l := [(100, replicate 32 1); (5, replicate 32 250)] in
  exists points, loadCheckpointsFromFile (Some (print_checkpoints l)) ∅ = Loaded true points /\
    (forall i h, fst (checkBlock i h points) = true <-> forall g, (i, g) ∈ l -> g = h) /\
    (forall i h, snd (checkBlock i h points) = true <-> i ∈ map fst l) /\
    (forall i, isInCheckpointZone i points = true <-> exists j g, (j, g) ∈ l /\ i <= j).
Proof.
  apply (checkpoints_loaded [(100, replicate 32 1); (5, replicate 32 250)]).
  - repeat constructor; evaluate.
  - evaluate.
Defined.

(** Loading never runs forever, and a file whose first height does not fit
    in 64 bits makes it use a height that was never set. *)
Theorem checkpoints_terminate :
  (forall file points, loadCheckpointsFromFile file points <> OutOfFuel) /\
  loadCheckpointsFromFile (Some (str "18446744073709551616,00
")) ∅ = Undefined.
Proof.
  split; [|vm_compute; reflexivity]. intros [data|] points; [|done].
  apply load_loop_terminates. cbn. lia.
Qed.
