(* ===== verification/Segments.v ===== *)
(** * Chain segments ([src/mevacoin_core/blockchain_cache.cpp])

    The block chain is a tree of segments; each has a pointer to its parent and
    answers what it can itself and asks its parent for the rest.  A segment with
    its ancestors is a list here, the segment itself first, and an operation on
    a null parent is an operation on the empty list.  The multi-index containers
    are lists or maps with the uniqueness their declarations ask for: an insert
    that would break it does nothing.  [BlockchainStorage] keeps the raw blocks
    of a segment in a vector. *)

From stdpp Require Import gmap.
From S2P Require Import Prelude Config Transaction Amounts TxExtra Block Cached Pool Currency Difficulty Rules.

Module BlockchainCache.

(** ** Data *)

Record PackedOutIndex := { poi_blockIndex : Z; poi_transactionIndex : Z; poi_outputIndex : Z }.

Record CachedTransactionInfo := {
  cti_blockIndex : Z;
  cti_transactionIndex : Z;
  cti_transactionHash : Hash;
  cti_unlockTime : Z;
  cti_outputs : list TransactionOutputTarget;
  cti_globalIndexes : list Z
}.

Record CachedBlockInfo := {
  blockHash : Hash;
  cbi_timestamp : Z;
  cumulativeDifficulty : Z;
  alreadyGeneratedCoins : Z;
  alreadyGeneratedTransactions : Z;
  blockSize : Z
}.

Record OutputGlobalIndexesForAmount := { og_startIndex : Z; og_outputs : list PackedOutIndex }.

Record segment := {
  startIndex : Z;
  transactions : list CachedTransactionInfo;
  spentKeyImages : gmap KeyImage Z;
  blockInfos : list CachedBlockInfo;
  keyOutputsGlobalIndexes : gmap Z OutputGlobalIndexesForAmount;
  (** payment id and transaction hash *)
  paymentIds : list (Hash * Hash);
  storage : list RawBlock
}.

(** A block with the hash [CachedBlock::getBlockHash] computes. *)
Record CachedBlock := { getBlock : BlockTemplate; getBlockHash : Hash }.
Definition cb_index (b : CachedBlock) : Z := getBlockIndex (getBlock b).

(** The first place of a range whose element does not satisfy [p], where
    [std::lower_bound] points when the range is partitioned by [p]. *)
Fixpoint partition_point {A} (p : A -> bool) (l : list A) : nat :=
  match l with
  | x :: l => if p x then S (partition_point p l) else 0
  | [] => 0
  end.

(** [std::lower_bound] as it halves the range.  Timestamps of blocks need not
    be sorted, so where it searches them the result depends on the places it
    looks at. *)
Fixpoint lower_bound_loop {A} (fuel : nat) (p : A -> bool) (l : list A) (first len : nat) : nat :=
  match fuel with
  | O => first
  | S fuel =>
      if bool_decide (len = 0%nat) then first
      else
        let half := (len / 2)%nat in
        match l !! (first + half)%nat with
        | Some x =>
            if p x then lower_bound_loop fuel p l (first + half + 1) (len - half - 1)
            else lower_bound_loop fuel p l first half
        | None => first
        end
  end.
Definition lower_bound_search {A} (p : A -> bool) (l : list A) : nat := lower_bound_loop (length l) p l 0 (length l).

(** ** Queries *)

Definition getBlockCount (s : segment) : Z := u32 (Z.of_nat (length (blockInfos s))).
Definition getTopBlockIndex (s : segment) : Z :=
  u32 (startIndex s + u32 (Z.of_nat (length (blockInfos s))) - 1).
Definition hasBlock (h : Hash) (s : segment) : bool :=
  existsb (fun b => bool_decide (blockHash b = h)) (blockInfos s).

(** [None] is the exception "no such block". *)
Definition segment_getBlockIndex (h : Hash) (s : segment) : option Z :=
  '(i, _) ← list_find (fun b => blockHash b = h) (blockInfos s);
  Some (u32 (u32 (Z.of_nat i) + startIndex s)).

Fixpoint segment_getBlockHash (blockIndex : Z) (c : list segment) : option Hash :=
  match c with
  | [] => None
  | s :: parents =>
      if blockIndex <? startIndex s then segment_getBlockHash blockIndex parents
      else blockHash <$> blockInfos s !! Z.to_nat (blockIndex - startIndex s)
  end.

Fixpoint getBlockHashes (startBlockIndex : Z) (maxCount : nat) (c : list segment) : list Hash :=
  match c with
  | [] => []
  | s :: parents =>
      let hashes := map blockHash (blockInfos s) in
      if startBlockIndex <? startIndex s then
        let first := getBlockHashes startBlockIndex maxCount parents in
        first ++ take (Nat.min (maxCount - length first) (length hashes)) hashes
      else
        let start := Z.to_nat (startBlockIndex - startIndex s) in
        take (Nat.min (length hashes - start) maxCount) (drop start hashes)
  end.

Fixpoint getKeyOutputsCountForAmount (amount blockIndex : Z) (c : list segment) : Z :=
  match c with
  | [] => 0
  | s :: parents =>
      match keyOutputsGlobalIndexes s !! amount with
      | None => getKeyOutputsCountForAmount amount blockIndex parents
      | Some e =>
          og_startIndex e
          + Z.of_nat (partition_point (fun o => poi_blockIndex o <? blockIndex) (og_outputs e))
      end
  end.

Fixpoint checkIfSpent (keyImage : KeyImage) (blockIndex : Z) (c : list segment) : bool :=
  match c with
  | [] => false
  | s :: parents =>
      if blockIndex <? startIndex s then checkIfSpent keyImage blockIndex parents
      else
        match spentKeyImages s !! keyImage with
        | None => checkIfSpent keyImage blockIndex parents
        | Some spent => spent <=? blockIndex
        end
  end.

Fixpoint checkIfSpent_ever (keyImage : KeyImage) (c : list segment) : bool :=
  match c with
  | [] => false
  | s :: parents =>
      match spentKeyImages s !! keyImage with
      | Some _ => true
      | None => checkIfSpent_ever keyImage parents
      end
  end.

Fixpoint getAlreadyGeneratedCoins (blockIndex : Z) (c : list segment) : option Z :=
  match c with
  | [] => None
  | s :: parents =>
      if blockIndex <? startIndex s then getAlreadyGeneratedCoins blockIndex parents
      else alreadyGeneratedCoins <$> blockInfos s !! Z.to_nat (blockIndex - startIndex s)
  end.

Fixpoint getAlreadyGeneratedTransactions (blockIndex : Z) (c : list segment) : option Z :=
  match c with
  | [] => None
  | s :: parents =>
      if blockIndex <? startIndex s then getAlreadyGeneratedTransactions blockIndex parents
      else alreadyGeneratedTransactions <$> blockInfos s !! Z.to_nat (blockIndex - startIndex s)
  end.

(** This one does not ask the parent; [at] throws behind the end. *)
Definition getCurrentCumulativeDifficulty (blockIndex : Z) (c : list segment) : option Z :=
  match c with
  | [] => None
  | s :: _ => cumulativeDifficulty <$> blockInfos s !! Z.to_nat (u32 (blockIndex - startIndex s))
  end.

Definition top_of (c : list segment) : Z := match c with s :: _ => getTopBlockIndex s | [] => 0 end.

Fixpoint getLastUnits (count : nat) (blockIndex : Z) (useGenesis : bool)
    (pred : CachedBlockInfo -> Z) (c : list segment) : list Z :=
  match c with
  | [] => []
  | s :: parents =>
      let to := if blockIndex <? startIndex s then 0%nat else Z.to_nat (blockIndex - startIndex s + 1) in
      let realCount := Nat.min count to in
      let from := (to - realCount)%nat in
      let skip := negb useGenesis && bool_decide (from = 0%nat) && negb (bool_decide (realCount = 0%nat))
        && bool_decide (length parents = 0%nat) in
      let from := if skip then (from + 1)%nat else from in
      let realCount := if skip then (realCount - 1)%nat else realCount in
      let result :=
        if (realCount <? count)%nat && negb (bool_decide (length parents = 0%nat)) then
          getLastUnits (count - realCount) (Z.min blockIndex (top_of parents)) useGenesis pred parents
        else [] in
      result ++ map pred (take (to - from) (drop from (blockInfos s)))
  end.

Definition getLastTimestamps (count : nat) (blockIndex : Z) (useGenesis : bool) (c : list segment) : list Z :=
  getLastUnits count blockIndex useGenesis cbi_timestamp c.
Definition getLastBlocksSizes (count : nat) (blockIndex : Z) (useGenesis : bool) (c : list segment) : list Z :=
  getLastUnits count blockIndex useGenesis blockSize c.
Definition getLastCumulativeDifficulties (count : nat) (blockIndex : Z) (useGenesis : bool)
    (c : list segment) : list Z :=
  getLastUnits count blockIndex useGenesis cumulativeDifficulty c.

Definition getDifficultyForNextBlock (cur : Currency) (blockIndex : Z) (c : list segment) : option Z :=
  let nextBlockMajorVersion := Upgrades.getBlockMajorVersion (u32 (blockIndex + 1)) (Upgrades.core_upgrades cur) in
  let count := Z.to_nat (difficultyBlocksCountByBlockVersion cur nextBlockMajorVersion blockIndex) in
  let timestamps := getLastTimestamps count blockIndex false c in
  let commulativeDifficulties := getLastCumulativeDifficulties count blockIndex false c in
  getNextDifficulty cur nextBlockMajorVersion blockIndex timestamps commulativeDifficulties.

Inductive ExtractError := INVALID_GLOBAL_INDEX | OUTPUT_LOCKED.

Definition find_in_block (b t : Z) (l : list CachedTransactionInfo) : option CachedTransactionInfo :=
  find (fun i => (cti_blockIndex i =? b) && (cti_transactionIndex i =? t)) l.
Definition find_hash (h : Hash) (l : list CachedTransactionInfo) : option CachedTransactionInfo :=
  find (fun i => bool_decide (cti_transactionHash i = h)) l.

(** What [extractKeyOutputs] passes to its callback, and what it collects;
    the first error ends it. *)
Section Extract.
Context {A : Type}.
Variable pred : CachedTransactionInfo -> PackedOutIndex -> Z -> A + ExtractError.

Fixpoint extract_loop (startGlobalIndex : Z) (outputs : list PackedOutIndex)
    (txs : list CachedTransactionInfo) (globalIndexes : list Z) : list A + ExtractError :=
  match globalIndexes with
  | [] => inl []
  | globalIndex :: globalIndexes =>
      match outputs !! Z.to_nat (u32 (globalIndex - startGlobalIndex)) with
      | None => inr INVALID_GLOBAL_INDEX
      | Some outputIndex =>
          match find_in_block (poi_blockIndex outputIndex) (poi_transactionIndex outputIndex) txs with
          | None => inr INVALID_GLOBAL_INDEX
          | Some info =>
              match pred info outputIndex globalIndex with
              | inr e => inr e
              | inl a =>
                  match extract_loop startGlobalIndex outputs txs globalIndexes with
                  | inr e => inr e
                  | inl rest => inl (a :: rest)
                  end
              end
          end
      end
  end.

Fixpoint extractKeyOutputs (amount blockIndex : Z) (globalIndexes : list Z) (c : list segment)
    : list A + ExtractError :=
  match c with
  | [] => inr INVALID_GLOBAL_INDEX
  | s :: parents =>
      match keyOutputsGlobalIndexes s !! amount with
      | Some e =>
          if blockIndex <? startIndex s then extractKeyOutputs amount blockIndex globalIndexes parents
          else
            let startGlobalIndex := og_startIndex e in
            let offset := partition_point (fun g => g <? startGlobalIndex) globalIndexes in
            let head :=
              if bool_decide (offset = 0%nat) then inl []
              else extractKeyOutputs amount blockIndex (take offset globalIndexes) parents in
            match head with
            | inr e => inr e
            | inl found =>
                match extract_loop startGlobalIndex (og_outputs e) (transactions s) (drop offset globalIndexes) with
                | inr e => inr e
                | inl rest => inl (found ++ rest)
                end
            end
      | None => extractKeyOutputs amount blockIndex globalIndexes parents
      end
  end.
End Extract.

(** [isTransactionSpendTimeUnlocked(unlockTime, blockIndex)] at the time [now]. *)
Definition isTransactionSpendTimeUnlocked (cur : Currency) (now unlockTime blockIndex : Z) : bool :=
  if unlockTime <? m_maxBlockHeight cur
  then unlockTime <=? u64 (blockIndex + m_lockedTxAllowedDeltaBlocks cur)
  else unlockTime <=? u64 (u64 now + m_lockedTxAllowedDeltaSeconds cur).

(** The callback of [extractKeyOutputKeys]; an output index behind the end of
    the outputs has no value in the source. *)
Definition key_of_output (cur : Currency) (now blockIndex : Z) (info : CachedTransactionInfo)
    (index : PackedOutIndex) (globalIndex : Z) : PublicKey + ExtractError :=
  if negb (isTransactionSpendTimeUnlocked cur now (cti_unlockTime info) blockIndex) then inr OUTPUT_LOCKED
  else
    match cti_outputs info !! Z.to_nat (poi_outputIndex index) with
    | Some (OutKey o) => inl (key o)
    | None => inr INVALID_GLOBAL_INDEX
    end.

Definition extractKeyOutputKeys (cur : Currency) (now amount blockIndex : Z) (globalIndexes : list Z)
    (c : list segment) : list PublicKey + ExtractError :=
  extractKeyOutputs (key_of_output cur now blockIndex) amount blockIndex globalIndexes c.

(** *** By time *)

Fixpoint getBlockHeightForTimestamp (timestamp : Z) (c : list segment) : bool * Z :=
  match c with
  | [] => (false, 0)
  | s :: parents =>
      match head (blockInfos s), last (blockInfos s) with
      | Some front, Some back =>
          if cbi_timestamp back <? timestamp then (false, 0)
          else if timestamp <=? cbi_timestamp front then
            (true, startIndex s + Z.of_nat (lower_bound_search (fun b => cbi_timestamp b <? timestamp) (blockInfos s)))
          else getBlockHeightForTimestamp timestamp parents
      | _, _ => (false, 0)
      end
  end.

(** [None] is the exception "no blocks for this timestamp, too large". *)
Fixpoint getTimestampLowerBoundBlockIndex (timestamp : Z) (c : list segment) : option Z :=
  match c with
  | [] => None
  | s :: parents =>
      match head (blockInfos s), last (blockInfos s) with
      | Some front, Some back =>
          if cbi_timestamp back <? timestamp then None
          else if cbi_timestamp front <? timestamp then
            Some (u32 (startIndex s + u32 (Z.of_nat
              (lower_bound_search (fun b => cbi_timestamp b <? timestamp) (blockInfos s)))))
          else if bool_decide (length parents = 0%nat) then Some 0
          else
            match getTimestampLowerBoundBlockIndex timestamp parents with
            | Some blockIndex => if blockIndex =? 2 ^ 32 - 1 then Some (startIndex s) else Some blockIndex
            | None => Some (startIndex s)
            end
      | _, _ => None
      end
  end.

(** *** Transactions *)

Definition hasTransaction (h : Hash) (s : segment) : bool := bool_decide (is_Some (find_hash h (transactions s))).
Definition getTransactionGlobalIndexes (h : Hash) (s : segment) : option (list Z) :=
  cti_globalIndexes <$> find_hash h (transactions s).
Definition getBlockIndexContainingTx (h : Hash) (s : segment) : option Z :=
  cti_blockIndex <$> find_hash h (transactions s).
Fixpoint getTransactionCount (c : list segment) : nat :=
  match c with [] => 0 | s :: parents => getTransactionCount parents + length (transactions s) end.
Fixpoint getTransactionHashesByPaymentId (paymentId : Hash) (c : list segment) : list Hash :=
  match c with
  | [] => []
  | s :: parents =>
      getTransactionHashesByPaymentId paymentId parents
      ++ map snd (filter (fun p => fst p = paymentId) (paymentIds s))
  end.
Definition fillOutputsSpentByBlock (blockIndex : Z) (s : segment) : TransactionValidatorState :=
  {| Pool.spentKeyImages := dom (filter (fun p => snd p = blockIndex) (spentKeyImages s)) |}.

(** ** Pushing blocks *)

Definition set_outputs (m : gmap Z OutputGlobalIndexesForAmount) (s : segment) : segment :=
  {| startIndex := startIndex s; transactions := transactions s; spentKeyImages := spentKeyImages s;
     blockInfos := blockInfos s; keyOutputsGlobalIndexes := m; paymentIds := paymentIds s;
     storage := storage s |}.

(** The global index of the new output, and the segment with it. *)
Definition insertKeyOutputToGlobalIndex (amount : Z) (output : PackedOutIndex) (blockIndex : Z)
    (parents : list segment) (s : segment) : Z * segment :=
  let e :=
    match keyOutputsGlobalIndexes s !! amount with
    | Some e => {| og_startIndex := og_startIndex e; og_outputs := og_outputs e ++ [output] |}
    | None =>
        {| og_startIndex :=
             if bool_decide (length parents = 0%nat) then 0
             else u32 (getKeyOutputsCountForAmount amount blockIndex parents);
           og_outputs := [output] |}
    end in
  (u32 (og_startIndex e + u32 (Z.of_nat (length (og_outputs e))) - 1),
   set_outputs (<[amount := e]> (keyOutputsGlobalIndexes s)) s).

(** The loop of [pushTransaction] over the outputs. *)
Fixpoint push_outputs (blockIndex transactionInBlockIndex : Z) (outputCount : nat)
    (outputs : list TransactionOutput) (parents : list segment) (s : segment) : list Z * segment :=
  match outputs with
  | [] => ([], s)
  | output :: outputs =>
      let poi := {| poi_blockIndex := blockIndex; poi_transactionIndex := u16 transactionInBlockIndex;
                    poi_outputIndex := u16 (Z.of_nat outputCount) |} in
      let '(globalIndex, s) :=
        insertKeyOutputToGlobalIndex (to_amount output) poi blockIndex parents s in
      let '(globalIndexes, s) :=
        push_outputs blockIndex transactionInBlockIndex (S outputCount) outputs parents s in
      (globalIndex :: globalIndexes, s)
  end.

(** [transactions.insert]: unique by place in the chain and by hash. *)
Definition insert_transaction (info : CachedTransactionInfo) (l : list CachedTransactionInfo)
    : list CachedTransactionInfo :=
  match find_in_block (cti_blockIndex info) (cti_transactionIndex info) l,
        find_hash (cti_transactionHash info) l with
  | None, None => l ++ [info]
  | _, _ => l
  end.

(** [paymentIds.insert]: unique by transaction hash. *)
Definition insert_paymentId (p : Hash * Hash) (l : list (Hash * Hash)) : list (Hash * Hash) :=
  if existsb (fun q => bool_decide (snd q = snd p)) l then l else l ++ [p].

Section Push.
Variable cn_fast_hash : bytes -> Hash.

Definition segment_pushTransaction (t : CachedTransaction) (blockIndex transactionInBlockIndex : Z)
    (parents : list segment) (s : segment) : segment :=
  let tx := getTransaction t in
  let hash := getTransactionHash cn_fast_hash t in
  let '(globalIndexes, s) := push_outputs blockIndex transactionInBlockIndex 0 (outputs tx) parents s in
  {| startIndex := startIndex s;
     transactions := insert_transaction
       {| cti_blockIndex := blockIndex; cti_transactionIndex := u16 transactionInBlockIndex;
          cti_transactionHash := hash; cti_unlockTime := unlockTime tx;
          cti_outputs := map target (outputs tx); cti_globalIndexes := globalIndexes |} (transactions s);
     spentKeyImages := spentKeyImages s; blockInfos := blockInfos s;
     keyOutputsGlobalIndexes := keyOutputsGlobalIndexes s;
     paymentIds :=
       match getPaymentIdFromTxExtra (extra tx) with
       | Some paymentId => insert_paymentId (paymentId, hash) (paymentIds s)
       | None => paymentIds s
       end;
     storage := storage s |}.

Fixpoint push_transactions (ts : list CachedTransaction) (blockIndex : Z) (transactionBlockIndex : nat)
    (parents : list segment) (s : segment) : segment :=
  match ts with
  | [] => s
  | t :: ts =>
      push_transactions ts blockIndex (S transactionBlockIndex) parents
        (segment_pushTransaction t blockIndex (Z.of_nat transactionBlockIndex) parents s)
  end.

(** [spentKeyImages.insert]: unique by key image. *)
Definition addSpentKeyImage (keyImage : KeyImage) (blockIndex : Z) (m : gmap KeyImage Z) : gmap KeyImage Z :=
  match m !! keyImage with Some _ => m | None => <[keyImage := blockIndex]> m end.

(** The totals before the block: those of the last block, or of the parent's
    last block for the first one of a segment.  [at] may throw. *)
Definition previous_totals (c : list segment) (blockIndex : Z) : option (Z * Z * Z) :=
  match c with
  | [] => None
  | s :: parents =>
      match last (blockInfos s) with
      | Some lastBlockInfo =>
          Some (cumulativeDifficulty lastBlockInfo, alreadyGeneratedCoins lastBlockInfo,
                alreadyGeneratedTransactions lastBlockInfo)
      | None =>
          if bool_decide (length parents = 0%nat) then Some (0, 0, 0)
          else
            d ← getCurrentCumulativeDifficulty (u32 (blockIndex - 1)) parents;
            g ← getAlreadyGeneratedCoins (u32 (blockIndex - 1)) parents;
            t ← getAlreadyGeneratedTransactions (u32 (blockIndex - 1)) parents;
            Some (d, g, t)
      end
  end.

Definition doPushBlock (b : CachedBlock) (cachedTransactions : list CachedTransaction)
    (validatorState : TransactionValidatorState) (size generatedCoins blockDifficulty : Z)
    (rawBlock : RawBlock) (c : list segment) : option (list segment) :=
  match c with
  | [] => None
  | s :: parents =>
      '(difficulty, coins, txs) ← previous_totals c (cb_index b);
      base ← CachedTransaction_object (baseTransaction (getBlock b));
      let info := {| blockHash := getBlockHash b; cbi_timestamp := timestamp (getBlock b);
                     cumulativeDifficulty := u64 (difficulty + blockDifficulty);
                     alreadyGeneratedCoins := u64 (coins + generatedCoins);
                     alreadyGeneratedTransactions :=
                       u64 (txs + Z.of_nat (length cachedTransactions) + 1);
                     blockSize := u32 size |} in
      let s := {| startIndex := startIndex s; transactions := transactions s;
                  spentKeyImages := foldr (fun k => addSpentKeyImage k (cb_index b)) (spentKeyImages s)
                    (elements (Pool.spentKeyImages validatorState));
                  blockInfos := blockInfos s ++ [info];
                  keyOutputsGlobalIndexes := keyOutputsGlobalIndexes s; paymentIds := paymentIds s;
                  storage := storage s |} in
      let s := push_transactions (base :: cachedTransactions) (cb_index b) 0 parents s in
      Some ({| startIndex := startIndex s; transactions := transactions s;
               spentKeyImages := spentKeyImages s; blockInfos := blockInfos s;
               keyOutputsGlobalIndexes := keyOutputsGlobalIndexes s; paymentIds := paymentIds s;
               storage := storage s ++ [rawBlock] |} :: parents)
  end.
End Push.

(** ** Splitting *)

Definition is_entry (e : OutputGlobalIndexesForAmount) : bool := negb (bool_decide (length (og_outputs e) = 0%nat)).

(** [splitGlobalIndexes]: what one entry keeps, and what it hands over. *)
Definition split_keep (splitBlockIndex : Z) (e : OutputGlobalIndexesForAmount) : OutputGlobalIndexesForAmount :=
  let k := partition_point (fun o => poi_blockIndex o <? splitBlockIndex) (og_outputs e) in
  {| og_startIndex := og_startIndex e; og_outputs := take k (og_outputs e) |}.
Definition split_move (splitBlockIndex : Z) (e : OutputGlobalIndexesForAmount) : OutputGlobalIndexesForAmount :=
  let k := partition_point (fun o => poi_blockIndex o <? splitBlockIndex) (og_outputs e) in
  let newCacheOutputsCount := u32 (Z.of_nat (length (og_outputs e) - k)) in
  {| og_startIndex := u32 (og_startIndex e + u32 (Z.of_nat (length (og_outputs e))) - newCacheOutputsCount);
     og_outputs := drop k (og_outputs e) |}.

Definition splitGlobalIndexes (splitBlockIndex : Z) (m : gmap Z OutputGlobalIndexesForAmount)
    : gmap Z OutputGlobalIndexesForAmount * gmap Z OutputGlobalIndexesForAmount :=
  (filter (fun p => is_entry (snd p) = true) (split_keep splitBlockIndex <$> m),
   filter (fun p => is_entry (snd p) = true) (split_move splitBlockIndex <$> m)).

(** The lower part, which the segment remains, and the new upper part. *)
Definition split (splitBlockIndex : Z) (s : segment) : segment * segment :=
  let moved := filter (fun t => splitBlockIndex <= cti_blockIndex t) (transactions s) in
  let is_moved (p : Hash * Hash) := bool_decide (is_Some (find_hash (snd p) moved)) in
  let bound := Z.to_nat (splitBlockIndex - startIndex s) in
  let '(kept_outputs, moved_outputs) := splitGlobalIndexes splitBlockIndex (keyOutputsGlobalIndexes s) in
  ({| startIndex := startIndex s;
      transactions := filter (fun t => ~ splitBlockIndex <= cti_blockIndex t) (transactions s);
      spentKeyImages := filter (fun p => ~ splitBlockIndex <= snd p) (spentKeyImages s);
      blockInfos := take bound (blockInfos s);
      keyOutputsGlobalIndexes := kept_outputs;
      paymentIds := filter (fun p => is_moved p = false) (paymentIds s);
      storage := take bound (storage s) |},
   {| startIndex := splitBlockIndex;
      transactions := moved;
      spentKeyImages := filter (fun p => splitBlockIndex <= snd p) (spentKeyImages s);
      blockInfos := drop bound (blockInfos s);
      keyOutputsGlobalIndexes := moved_outputs;
      paymentIds := filter (fun p => is_moved p = true) (paymentIds s);
      storage := drop bound (storage s) |}).
End BlockchainCache.
