(* ===== verification/ChainSpec.v ===== *)
(** * Segmented chains against flat ones ([src/mevacoin_core/blockchain_cache.cpp])

    The abstract block chain is one list of blocks, one map of spent key images
    and, for every amount, one list of outputs.  A segmented chain stands for
    the concatenation of its segments.  Every query on a segmented chain is
    proved to give what it should on the flat chain, a split to leave the flat
    chain as it is, and a push to append to it. *)

From stdpp Require Import gmap sorting.
From S2P Require Import Prelude Config Transaction Amounts TxExtra Block Cached Pool Currency Difficulty Rules Segments.
Import BlockchainCache.

(** ** The flat chain *)

Fixpoint chain_blocks (c : list segment) : list CachedBlockInfo :=
  match c with [] => [] | s :: parents => chain_blocks parents ++ blockInfos s end.
Fixpoint chain_txs (c : list segment) : list CachedTransactionInfo :=
  match c with [] => [] | s :: parents => chain_txs parents ++ transactions s end.
Fixpoint chain_spent (c : list segment) : gmap KeyImage Z :=
  match c with [] => ∅ | s :: parents => spentKeyImages s ∪ chain_spent parents end.
Definition segment_outputs (amount : Z) (s : segment) : list PackedOutIndex :=
  match keyOutputsGlobalIndexes s !! amount with Some e => og_outputs e | None => [] end.
Fixpoint chain_outputs (amount : Z) (c : list segment) : list PackedOutIndex :=
  match c with [] => [] | s :: parents => chain_outputs amount parents ++ segment_outputs amount s end.

Definition height (c : list segment) : Z := Z.of_nat (length (chain_blocks c)).
Definition in_segment (s : segment) (i : Z) : Prop :=
  startIndex s <= i < startIndex s + Z.of_nat (length (blockInfos s)).

(** What a segment keeps towards its ancestors. *)
Record segment_wf (s : segment) (parents : list segment) : Prop := {
  wf_start : startIndex s = height parents;
  wf_parent : match parents with p :: _ => blockInfos p <> [] | [] => True end;
  wf_height : height (s :: parents) < 2 ^ 32;
  wf_spent k b : spentKeyImages s !! k = Some b -> in_segment s b /\ chain_spent parents !! k = None;
  wf_txs : Forall (fun t => in_segment s (cti_blockIndex t)) (transactions s);
  wf_entry a e : keyOutputsGlobalIndexes s !! a = Some e ->
    og_startIndex e = Z.of_nat (length (chain_outputs a parents)) /\ og_outputs e <> [] /\
    StronglySorted (fun o p => poi_blockIndex o <= poi_blockIndex p) (og_outputs e) /\
    Forall (fun o => in_segment s (poi_blockIndex o)) (og_outputs e);
  wf_outputs a : Z.of_nat (length (chain_outputs a (s :: parents))) < 2 ^ 32
}.

Fixpoint chain_wf (c : list segment) : Prop :=
  match c with [] => True | s :: parents => segment_wf s parents /\ chain_wf parents end.

(** The chain from the first segment on that does not begin above the index. *)
Fixpoint chain_from (i : Z) (c : list segment) : list segment :=
  match c with [] => [] | s :: parents => if i <? startIndex s then chain_from i parents else c end.

Lemma chain_from_wf i c : chain_wf c -> chain_wf (chain_from i c).
Proof. induction c as [|s c IH]; [done|]. intros Hwf. cbn [chain_from]. destruct (_ <? _); [|done]. by apply IH, Hwf. Qed.

Lemma chain_from_start i c : match chain_from i c with s :: _ => startIndex s <= i | [] => True end.
Proof. induction c as [|s c IH]; [done|]. cbn [chain_from]. destruct (Z.ltb_spec i (startIndex s)); [done|lia]. Qed.

Lemma height_cons s c : height (s :: c) = height c + Z.of_nat (length (blockInfos s)).
Proof. unfold height. cbn. rewrite length_app. lia. Qed.

Lemma height_nonneg c : 0 <= height c.
Proof. unfold height. lia. Qed.

Lemma top_height s c : segment_wf s c -> blockInfos s <> [] -> getTopBlockIndex s = height (s :: c) - 1.
Proof.
  intros [Hs _ Hh _ _ _ _] Hne. rewrite height_cons in *. unfold getTopBlockIndex. pose proof (height_nonneg c).
  destruct (blockInfos s); [done|]. cbn [length] in *. rewrite Hs, (wrap_small 32 (Z.of_nat _)) by mlia.
  rewrite wrap_small by mlia. lia.
Qed.

(** ** Spent key images *)

Lemma checkIfSpent_flat c k i : chain_wf c ->
  checkIfSpent k i c = match chain_spent c !! k with Some b => b <=? i | None => false end.
Proof.
  induction c as [|s c IH]; [done|]. intros [Hs Hc]. cbn [checkIfSpent chain_spent].
  rewrite IH by done. destruct (spentKeyImages s !! k) as [b|] eqn:E.
  - rewrite (lookup_union_Some_l _ _ _ _ E). destruct (wf_spent _ _ Hs k b E) as [Hb ->].
    unfold in_segment in Hb. destruct (Z.ltb_spec i (startIndex s)); [|done]. symmetry. apply Z.leb_gt. lia.
  - rewrite lookup_union_r by done. by destruct (i <? startIndex s).
Qed.

(** ** Blocks by index *)

Lemma chain_blocks_lookup s c i : startIndex s = height c -> 0 <= i ->
  chain_blocks (s :: c) !! Z.to_nat i =
  if i <? startIndex s then chain_blocks c !! Z.to_nat i else blockInfos s !! Z.to_nat (i - startIndex s).
Proof.
  intros Hs Hi. cbn [chain_blocks]. unfold height in Hs. destruct (Z.ltb_spec i (startIndex s)).
  - rewrite lookup_app_l by lia. done.
  - rewrite lookup_app_r by lia. f_equal. lia.
Qed.

Lemma getAlreadyGeneratedCoins_flat c i : chain_wf c -> 0 <= i ->
  getAlreadyGeneratedCoins i c = alreadyGeneratedCoins <$> chain_blocks c !! Z.to_nat i.
Proof.
  induction c as [|s c IH]; [done|]. intros [Hs Hc] Hi. cbn [getAlreadyGeneratedCoins].
  rewrite chain_blocks_lookup, IH by (apply Hs || done). by destruct (i <? startIndex s).
Qed.

Lemma getAlreadyGeneratedTransactions_flat c i : chain_wf c -> 0 <= i ->
  getAlreadyGeneratedTransactions i c = alreadyGeneratedTransactions <$> chain_blocks c !! Z.to_nat i.
Proof.
  induction c as [|s c IH]; [done|]. intros [Hs Hc] Hi. cbn [getAlreadyGeneratedTransactions].
  rewrite chain_blocks_lookup, IH by (apply Hs || done). by destruct (i <? startIndex s).
Qed.

Lemma getBlockHash_flat c i : chain_wf c -> 0 <= i ->
  segment_getBlockHash i c = blockHash <$> chain_blocks c !! Z.to_nat i.
Proof.
  induction c as [|s c IH]; [done|]. intros [Hs Hc] Hi. cbn [segment_getBlockHash].
  rewrite chain_blocks_lookup, IH by (apply Hs || done). by destruct (i <? startIndex s).
Qed.

(** ** The last blocks *)

Definition lastn {A} (n : nat) (l : list A) : list A := drop (length l - n) l.

Lemma lastn_app {A} n (l k : list A) : lastn n (l ++ k) = lastn (n - length k) l ++ lastn n k.
Proof.
  unfold lastn. rewrite length_app, drop_app. f_equal; [|f_equal; lia].
  destruct (Nat.le_gt_cases (length k) n); [f_equal; lia|]. rewrite !drop_ge by lia. done.
Qed.

Lemma lastn_0 {A} (l : list A) : lastn 0 l = [].
Proof. unfold lastn. rewrite Nat.sub_0_r. apply drop_all. Qed.

(** The blocks up to an index, with or without the first. *)
Definition blocks_upto (useGenesis : bool) (i : Z) (l : list CachedBlockInfo) : list CachedBlockInfo :=
  let l := take (Z.to_nat (i + 1)) l in if useGenesis then l else drop 1 l.

Lemma slice_lastn {A} (l : list A) to count : (to <= length l)%nat ->
  take (to - (to - Nat.min count to)) (drop (to - Nat.min count to) l) = lastn count (take to l).
Proof.
  intros Hl. unfold lastn. rewrite length_take, (Nat.min_l to), take_drop_commute by lia.
  f_equal; [lia|]. f_equal. lia.
Qed.

(** The root leaves out its first block when it would be among the last ones. *)
Lemma slice_root {A} (l : list A) to count : (1 <= to <= length l)%nat ->
  let real := Nat.min count to in
  let skip := bool_decide ((to - real)%nat = 0%nat) && negb (bool_decide (real = 0%nat)) in
  let from := if skip then (to - real + 1)%nat else (to - real)%nat in
  take (to - from) (drop from l) = lastn count (drop 1 (take to l)).
Proof.
  intros Hl real skip from. unfold lastn. rewrite length_drop, length_take, (Nat.min_l to) by lia.
  rewrite drop_drop, take_drop_commute. assert (from <= to)%nat as Hf
    by (subst from skip; repeat case_bool_decide; cbn; lia).
  replace (from + (to - from))%nat with to by lia.
  f_equal. subst from skip. repeat case_bool_decide; cbn; lia.
Qed.

Lemma blocks_upto_app useGenesis i l k : 0 <= i -> l <> [] ->
  blocks_upto useGenesis i (l ++ k) =
  blocks_upto useGenesis (Z.min i (Z.of_nat (length l) - 1)) l ++ take (Z.to_nat (i + 1) - length l) k.
Proof.
  intros Hi Hl. unfold blocks_upto. rewrite take_app. destruct l as [|x l]; [done|]. cbn [length].
  replace (take (Z.to_nat (Z.min i (Z.of_nat (S (length l)) - 1) + 1)) (x :: l))
    with (take (Z.to_nat (i + 1)) (x :: l)).
  - destruct useGenesis; [done|]. replace (Z.to_nat (i + 1)) with (S (Z.to_nat i)) by lia. done.
  - destruct (Z.le_gt_cases i (Z.of_nat (length l))); [f_equal; lia|].
    rewrite !take_ge by (cbn [length]; lia). done.
Qed.

Lemma getLastUnits_step s ps count i useGenesis pred : ps <> [] ->
  let to := if i <? startIndex s then 0%nat else Z.to_nat (i - startIndex s + 1) in
  let real := Nat.min count to in
  getLastUnits count i useGenesis pred (s :: ps) =
  (if (real <? count)%nat then getLastUnits (count - real) (Z.min i (top_of ps)) useGenesis pred ps else [])
  ++ map pred (take (to - (to - real)) (drop (to - real) (blockInfos s))).
Proof.
  intros Hps. cbn [getLastUnits]. rewrite (bool_decide_false (length ps = 0%nat)) by (by destruct ps).
  by rewrite !andb_false_r, andb_true_r.
Qed.

Lemma getLastUnits_flat s c count i useGenesis pred :
  chain_wf (s :: c) -> blockInfos s <> [] -> 0 <= i < height (s :: c) ->
  getLastUnits count i useGenesis pred (s :: c) =
  map pred (lastn count (blocks_upto useGenesis i (chain_blocks (s :: c)))).
Proof.
  revert s count i. induction c as [|p c IH]; intros s count i [Hs Hc] Hne Hi.
  - rewrite height_cons in Hi. pose proof (wf_start _ _ Hs) as H0. change (height []) with 0 in *.
    cbn [getLastUnits chain_blocks app length]. rewrite H0.
    rewrite (bool_decide_true (0%nat = 0%nat)) by done. cbn [negb].
    replace (i <? 0) with false by lia. rewrite Z.sub_0_r, !andb_false_r, !andb_true_r. cbn [app].
    f_equal. assert (1 <= Z.to_nat (i + 1) <= length (blockInfos s))%nat by lia.
    unfold blocks_upto. destruct useGenesis; cbn [negb andb];
      [apply slice_lastn; lia|apply slice_root; lia].
  - pose proof (wf_start _ _ Hs) as H0. pose proof (wf_parent _ _ Hs) as Hp. destruct Hc as [Hps Hc].
    rewrite getLastUnits_step by done. cbv zeta. change (chain_blocks (s :: p :: c)) with (chain_blocks (p :: c) ++ blockInfos s).
    assert (chain_blocks (p :: c) <> []) as Hpc by (cbn; by intros [_ ?]%app_nil).
    rewrite (height_cons s) in Hi.
    rewrite blocks_upto_app, lastn_app, map_app by (done || lia).
    set (to := if i <? startIndex s then 0%nat else Z.to_nat (i - startIndex s + 1)).
    assert (to = Z.to_nat (i + 1) - length (chain_blocks (p :: c)))%nat as Eto
      by (subst to; unfold height in H0; destruct (Z.ltb_spec i (startIndex s)); lia).
    assert (to <= length (blockInfos s))%nat by (unfold height in *; lia).
    rewrite <- Eto, length_take, (Nat.min_l to) by lia. f_equal; [|f_equal; apply slice_lastn; lia].
    cbn [top_of]. rewrite (top_height p c) by done. destruct (Nat.ltb_spec (Nat.min count to) count) as [Hlt|Hlt].
    + assert (0 < height (p :: c)) by (unfold height; destruct (chain_blocks (p :: c)); [done|cbn [length]; lia]).
      rewrite IH by (done || lia). by replace (count - Nat.min count to)%nat with (count - to)%nat by lia.
    + replace (count - to)%nat with 0%nat by lia. by rewrite lastn_0.
Qed.

(** ** Outputs by global index *)

Lemma chain_outputs_range c a : chain_wf c ->
  Forall (fun o => 0 <= poi_blockIndex o < height c) (chain_outputs a c).
Proof.
  induction c as [|s c IH]; [constructor|]. intros [Hs Hc]. cbn [chain_outputs]. rewrite height_cons.
  apply Forall_app. split.
  - eapply Forall_impl; [by apply IH|]. cbn. lia.
  - unfold segment_outputs. destruct (keyOutputsGlobalIndexes s !! a) as [e|] eqn:E; [|constructor].
    destruct (wf_entry _ _ Hs a e E) as (_ & _ & _ & Hr). eapply Forall_impl; [exact Hr|].
    unfold in_segment. rewrite (wf_start _ _ Hs). pose proof (height_nonneg c). cbn. lia.
Qed.

Lemma chain_txs_range c : chain_wf c -> Forall (fun t => 0 <= cti_blockIndex t < height c) (chain_txs c).
Proof.
  induction c as [|s c IH]; [constructor|]. intros [Hs Hc]. cbn [chain_txs]. rewrite height_cons.
  apply Forall_app. split.
  - eapply Forall_impl; [by apply IH|]. cbn. lia.
  - eapply Forall_impl; [apply (wf_txs _ _ Hs)|]. unfold in_segment. rewrite (wf_start _ _ Hs).
    pose proof (height_nonneg c). cbn. lia.
Qed.

Lemma find_in_block_none b t l : Forall (fun i => cti_blockIndex i <> b) l -> find_in_block b t l = None.
Proof.
  unfold find_in_block. induction 1 as [|i l Hi _ IH]; [done|]. cbn.
  destruct (Z.eqb_spec (cti_blockIndex i) b); [done|]. apply IH.
Qed.

Lemma find_app_r {A} (p : A -> bool) l k : find p l = None -> find p (l ++ k) = find p k.
Proof. induction l as [|x l IH]; [done|]. cbn. by destruct (p x). Qed.

Lemma find_app_l {A} (p : A -> bool) l k : find p k = None -> find p (l ++ k) = find p l.
Proof. intros Hk. induction l as [|x l IH]; [done|]. cbn. by destruct (p x). Qed.

(** On a sorted range [std::lower_bound] separates what is below. *)
Lemma partition_point_spec {A} (R : A -> A -> Prop) (p : A -> bool) l :
  (forall x y, R x y -> p y = true -> p x = true) -> StronglySorted R l ->
  Forall (fun x => p x = true) (take (partition_point p l) l) /\
  Forall (fun x => p x = false) (drop (partition_point p l) l).
Proof.
  intros Hp. induction 1 as [|x l Hs IH Hx]; cbn [partition_point]; [split; constructor|].
  destruct (p x) eqn:E; cbn [take drop].
  - destruct IH as [IH1 IH2]. split; [by constructor|done].
  - split; [constructor|]. constructor; [done|]. eapply Forall_impl; [exact Hx|]. cbn. intros y Hy.
    apply not_true_is_false. intros Ey. rewrite (Hp x y Hy Ey) in E. done.
Qed.

(** The halving search needs no order to end between an element below and one
    that is not. *)
Lemma lower_bound_loop_spec {A} (p : A -> bool) l fuel first len : (len <= fuel)%nat -> (first + len <= length l)%nat ->
  (first = 0%nat \/ exists x, l !! (first - 1)%nat = Some x /\ p x = true) ->
  (forall x, l !! (first + len)%nat = Some x -> p x = false) ->
  let r := lower_bound_loop fuel p l first len in
  (r <= length l)%nat /\ (r = 0%nat \/ exists x, l !! (r - 1)%nat = Some x /\ p x = true) /\
  (forall x, l !! r = Some x -> p x = false).
Proof.
  revert first len. induction fuel as [|fuel IH]; intros first len Hf Hl Hlo Hhi; cbn [lower_bound_loop].
  { assert (len = 0%nat) as -> by lia. rewrite Nat.add_0_r in Hhi. split; [lia|done]. }
  case_bool_decide as H0; [subst; rewrite Nat.add_0_r in Hhi; split; [lia|done]|].
  pose proof (Nat.div_lt len 2 ltac:(lia) ltac:(lia)). destruct (lookup_lt_is_Some_2 l (first + len / 2)) as [x Hx]; [lia|].
  rewrite Hx. destruct (p x) eqn:Ex; apply IH; try lia; try done.
  - right. exists x. by rewrite Nat.add_sub.
  - by replace (first + len / 2 + 1 + (len - len / 2 - 1))%nat with (first + len)%nat by lia.
  - intros y Hy. by simplify_eq.
Qed.

Lemma lower_bound_search_spec {A} (p : A -> bool) l : let r := lower_bound_search p l in
  (r <= length l)%nat /\ (r = 0%nat \/ exists x, l !! (r - 1)%nat = Some x /\ p x = true) /\
  (forall x, l !! r = Some x -> p x = false).
Proof.
  apply lower_bound_loop_spec; [lia|lia|by left|]. intros x Hx. apply lookup_lt_Some in Hx. lia.
Qed.

Lemma partition_point_le {A} (p : A -> bool) l : (partition_point p l <= length l)%nat.
Proof. induction l as [|x l IH]; cbn; [lia|]. destruct (p x); lia. Qed.

Section Extract.
Context {A : Type}.
Variable pred : CachedTransactionInfo -> PackedOutIndex -> Z -> A + ExtractError.

Definition sum_app (x y : list A + ExtractError) : list A + ExtractError :=
  match x with
  | inr e => inr e
  | inl a => match y with inr e => inr e | inl b => inl (a ++ b) end
  end.

Lemma extract_loop_app st outs txs g1 g2 :
  extract_loop pred st outs txs (g1 ++ g2) =
  sum_app (extract_loop pred st outs txs g1) (extract_loop pred st outs txs g2).
Proof.
  induction g1 as [|g g1 IH]; cbn [extract_loop app]; [by destruct (extract_loop pred st outs txs g2)|].
  rewrite IH. destruct (outs !! _) as [o|]; [|done]. destruct (find_in_block _ _ _) as [i|]; [|done].
  destruct (pred i o g) as [x|]; [|done]. destruct (extract_loop pred st outs txs g1); [|done].
  by destruct (extract_loop pred st outs txs g2).
Qed.

Lemma extract_loop_ext st outs txs st' outs' txs' gs :
  Forall (fun g => outs !! Z.to_nat (u32 (g - st)) = outs' !! Z.to_nat (u32 (g - st')) /\
    forall o, outs !! Z.to_nat (u32 (g - st)) = Some o ->
      find_in_block (poi_blockIndex o) (poi_transactionIndex o) txs =
      find_in_block (poi_blockIndex o) (poi_transactionIndex o) txs') gs ->
  extract_loop pred st outs txs gs = extract_loop pred st' outs' txs' gs.
Proof.
  induction 1 as [|g gs [Ho Hf] _ IH]; [done|]. cbn [extract_loop]. rewrite <- Ho, IH.
  destruct (outs !! _) as [o|]; [|done]. by rewrite Hf.
Qed.

(** Below the outputs of a segment the ancestors are asked. *)
Lemma extract_below s c a gs outs :
  segment_wf s c -> chain_wf c -> Forall is_u32 gs ->
  Forall (fun g => g < Z.of_nat (length (chain_outputs a c))) gs \/ outs = [] ->
  extract_loop pred 0 (chain_outputs a c ++ outs) (chain_txs (s :: c)) gs =
  extract_loop pred 0 (chain_outputs a c) (chain_txs c) gs.
Proof.
  intros Hs Hc Hg Hlt. apply extract_loop_ext. rewrite Forall_forall in *. intros g Hin.
  pose proof (Hg g Hin) as Hu. rewrite Z.sub_0_r, wrap_small by done.
  assert ((chain_outputs a c ++ outs) !! Z.to_nat g = chain_outputs a c !! Z.to_nat g) as El.
  { destruct Hlt as [Hlt| ->]; [|by rewrite app_nil_r]. specialize (Hlt g Hin). cbn in Hlt.
    apply lookup_app_l. mlia. }
  split; [done|]. intros o Ho. rewrite El in Ho. apply find_app_l, find_in_block_none.
  pose proof (Forall_lookup_1 _ _ _ _ (chain_outputs_range c a Hc) Ho) as Hr. cbn in Hr.
  eapply Forall_impl; [apply (wf_txs _ _ Hs)|]. unfold in_segment. rewrite (wf_start _ _ Hs). cbn. lia.
Qed.

(** From them on the segment answers itself. *)
Lemma extract_within s c a e gs :
  segment_wf s c -> chain_wf c -> keyOutputsGlobalIndexes s !! a = Some e ->
  Forall is_u32 gs -> Forall (fun g => Z.of_nat (length (chain_outputs a c)) <= g) gs ->
  extract_loop pred 0 (chain_outputs a c ++ og_outputs e) (chain_txs (s :: c)) gs =
  extract_loop pred (og_startIndex e) (og_outputs e) (transactions s) gs.
Proof.
  intros Hs Hc He Hg Hge. destruct (wf_entry _ _ Hs a e He) as (-> & _ & _ & Hr).
  apply extract_loop_ext. rewrite Forall_forall in Hg, Hge |- *. intros g Hin.
  pose proof (Hg g Hin) as Hu. pose proof (Hge g Hin) as Hle. rewrite Z.sub_0_r, !wrap_small by mlia.
  assert ((chain_outputs a c ++ og_outputs e) !! Z.to_nat g =
    og_outputs e !! Z.to_nat (g - Z.of_nat (length (chain_outputs a c)))) as El
    by (rewrite lookup_app_r by lia; f_equal; lia).
  split; [done|]. intros o Ho. rewrite El in Ho. apply find_app_r, find_in_block_none.
  pose proof (Forall_lookup_1 _ _ _ _ Hr Ho) as Hb. unfold in_segment in Hb. cbn in Hb.
  eapply Forall_impl; [apply (chain_txs_range c Hc)|]. rewrite (wf_start _ _ Hs) in Hb. cbn. lia.
Qed.

Lemma extractKeyOutputs_flat c a i gs :
  chain_wf c -> match c with s :: _ => startIndex s <= i | [] => True end ->
  gs <> [] -> StronglySorted Z.lt gs -> Forall is_u32 gs ->
  extractKeyOutputs pred a i gs c = extract_loop pred 0 (chain_outputs a c) (chain_txs c) gs.
Proof.
  revert gs. induction c as [|s c IH]; intros gs Hwf Hi Hne Hsort Hu.
  - destruct gs; [done|]. cbn. done.
  - destruct Hwf as [Hs Hc].
    assert (match c with p :: _ => startIndex p <= i | [] => True end) as Hip.
    { destruct c as [|p c]; [done|]. destruct Hc as [Hp _]. rewrite (wf_start _ _ Hs), height_cons in Hi.
      rewrite (wf_start _ _ Hp). lia. }
    cbn [extractKeyOutputs chain_outputs]. unfold segment_outputs.
    destruct (keyOutputsGlobalIndexes s !! a) as [e|] eqn:E.
    + replace (i <? startIndex s) with false by lia.
      destruct (wf_entry _ _ Hs a e E) as (Est & _ & _ & _).
      destruct (partition_point_spec Z.lt (fun g => g <? og_startIndex e) gs) as [Hlt Hge]; [lia|done|].
      assert (forall l, Forall (fun g => (g <? og_startIndex e) = true) l ->
        Forall (fun g => g < Z.of_nat (length (chain_outputs a c))) l) as Hlt'
        by (intros l H; eapply Forall_impl; [exact H|]; cbn; lia).
      assert (forall l, Forall (fun g => (g <? og_startIndex e) = false) l ->
        Forall (fun g => Z.of_nat (length (chain_outputs a c)) <= g) l) as Hge'
        by (intros l H; eapply Forall_impl; [exact H|]; cbn; lia).
      set (k := partition_point _ gs) in *.
      replace (extract_loop pred 0 (chain_outputs a c ++ og_outputs e) (chain_txs (s :: c)) gs)
        with (extract_loop pred 0 (chain_outputs a c ++ og_outputs e) (chain_txs (s :: c)) (take k gs ++ drop k gs))
        by (by rewrite take_drop). rewrite extract_loop_app.
      rewrite (extract_within s c a e (drop k gs)) by (auto; by apply Forall_drop).
      rewrite (extract_below s c a (take k gs) (og_outputs e)); [|done|done|by apply Forall_take|by left; apply Hlt'].
      case_bool_decide as Hk; [rewrite Hk; cbn; by destruct (extract_loop _ _ _ _ _)|].
      rewrite IH; [by destruct (extract_loop _ _ _ _ (take k gs))|done|done| | |by apply Forall_take].
      * destruct k, gs; done.
      * rewrite <- (take_drop k gs) in Hsort. by apply StronglySorted_app in Hsort as (_ & ? & _).
    + rewrite (extract_below s c a gs []) by (done || by right). by apply IH.
Qed.

(** The segments that begin above the index are passed over. *)
Lemma extractKeyOutputs_from c a i gs : extractKeyOutputs pred a i gs c = extractKeyOutputs pred a i gs (chain_from i c).
Proof.
  induction c as [|s c IH]; [done|]. cbn [chain_from]. destruct (i <? startIndex s) eqn:Hi; [|done].
  rewrite <- IH. cbn [extractKeyOutputs]. rewrite Hi. by destruct (_ !! a).
Qed.
End Extract.

(** ** Splitting *)

Section Split.
Variables (s : segment) (c : list segment) (k : Z).
Hypothesis Hs : segment_wf s c.
Hypothesis Hc : chain_wf c.
Hypothesis Hne : blockInfos s <> [].
Hypothesis Hk : startIndex s < k <= getTopBlockIndex s.

Let lower := fst (split k s).
Let upper := snd (split k s).
Let bound := Z.to_nat (k - startIndex s).
Let point (e : OutputGlobalIndexesForAmount) := partition_point (fun o => poi_blockIndex o <? k) (og_outputs e).

Lemma bound_range : (0 < bound < length (blockInfos s))%nat.
Proof using Hs Hk Hne.
  rewrite (top_height s c Hs Hne), height_cons, <- (wf_start _ _ Hs) in Hk. unfold bound. lia.
Qed.

Lemma lookup_entries f a (m : gmap Z OutputGlobalIndexesForAmount) e :
  filter (fun p => is_entry (snd p) = true) (f <$> m) !! a = Some e <->
  exists e0, m !! a = Some e0 /\ e = f e0 /\ og_outputs e <> [].
Proof.
  rewrite map_lookup_filter_Some, lookup_fmap, fmap_Some. unfold is_entry. cbn.
  assert (negb (bool_decide (length (og_outputs e) = 0%nat)) = true <-> og_outputs e <> []) as ->.
  { destruct (og_outputs e); cbn; rewrite negb_true_iff, bool_decide_eq_false; naive_solver. }
  naive_solver.
Qed.

Lemma outputs_entries f a (m : gmap Z OutputGlobalIndexesForAmount) :
  match filter (fun p => is_entry (snd p) = true) (f <$> m) !! a with Some e => og_outputs e | None => [] end =
  match m !! a with Some e => og_outputs (f e) | None => [] end.
Proof.
  destruct (filter _ (f <$> m) !! a) as [e|] eqn:E.
  - apply lookup_entries in E as (e0 & -> & -> & _). done.
  - destruct (m !! a) as [e0|] eqn:E0; [|done]. destruct (og_outputs (f e0)) eqn:Ef; [done|]. exfalso.
    assert (filter (fun p => is_entry (snd p) = true) (f <$> m) !! a = Some (f e0)); [|congruence].
    apply lookup_entries. exists e0. rewrite Ef. done.
Qed.

Lemma split_outputs a :
  segment_outputs a lower = match keyOutputsGlobalIndexes s !! a with Some e => take (point e) (og_outputs e) | None => [] end /\
  segment_outputs a upper = match keyOutputsGlobalIndexes s !! a with Some e => drop (point e) (og_outputs e) | None => [] end.
Proof. unfold segment_outputs. cbn. by rewrite !outputs_entries. Qed.

Lemma split_chain_outputs a : chain_outputs a (upper :: lower :: c) = chain_outputs a (s :: c).
Proof.
  cbn [chain_outputs]. destruct (split_outputs a) as [-> ->]. rewrite <- app_assoc. f_equal.
  unfold segment_outputs. destruct (keyOutputsGlobalIndexes s !! a); [apply take_drop|done].
Qed.

Lemma split_chain_blocks : chain_blocks (upper :: lower :: c) = chain_blocks (s :: c).
Proof. cbn. by rewrite <- app_assoc, take_drop. Qed.

Lemma split_chain_spent : chain_spent (upper :: lower :: c) = chain_spent (s :: c).
Proof. cbn. by rewrite (assoc_L (∪)), map_filter_union_complement. Qed.

Lemma split_chain_txs : chain_txs (upper :: lower :: c) ≡ₚ chain_txs (s :: c).
Proof. cbn. rewrite <- app_assoc, (Permutation_app_comm (filter _ _)). by rewrite filter_app_complement. Qed.

Lemma split_height : height (lower :: c) = k.
Proof using Hs Hk Hne.
  rewrite height_cons. cbn. rewrite length_take, <- (wf_start _ _ Hs). pose proof bound_range.
  fold bound. lia.
Qed.

Lemma entry_sorted_parts a e : keyOutputsGlobalIndexes s !! a = Some e ->
  Forall (fun o => startIndex s <= poi_blockIndex o < k) (take (point e) (og_outputs e)) /\
  Forall (fun o => k <= poi_blockIndex o < startIndex s + Z.of_nat (length (blockInfos s))) (drop (point e) (og_outputs e)).
Proof using Hs Hk.
  intros E. destruct (wf_entry _ _ Hs a e E) as (_ & _ & Hsort & Hr).
  destruct (partition_point_spec (fun o p => poi_blockIndex o <= poi_blockIndex p)
    (fun o => poi_blockIndex o <? k) (og_outputs e)) as [H1 H2]; [lia|exact Hsort|].
  split; (eapply Forall_impl; [apply Forall_and; split|]).
  - exact H1.
  - apply Forall_take, Hr.
  - unfold in_segment. cbn. lia.
  - exact H2.
  - apply Forall_drop, Hr.
  - unfold in_segment. cbn. lia.
Qed.

Lemma split_lower_wf : segment_wf lower c.
Proof using Hs Hk Hne.
  pose proof bound_range as Hb. pose proof (wf_height _ _ Hs) as Hh. split.
  - apply (wf_start _ _ Hs).
  - apply (wf_parent _ _ Hs).
  - rewrite split_height. rewrite (top_height s c Hs Hne) in Hk. lia.
  - cbn. intros ki b [E Hlt]%map_lookup_filter_Some. destruct (wf_spent _ _ Hs ki b E) as [Hr Hn]. split; [|done].
    unfold in_segment in *. cbn in *. fold bound. rewrite length_take. lia.
  - rewrite Forall_forall. cbn. intros t [Hlt Ht]%list_elem_of_filter. pose proof (wf_txs _ _ Hs) as Hr.
    rewrite Forall_forall in Hr. specialize (Hr t Ht). unfold in_segment in *. cbn in *. fold bound.
    rewrite length_take. lia.
  - cbn. intros a e (e0 & E & -> & Hn)%lookup_entries. destruct (wf_entry _ _ Hs a e0 E) as (H1 & _ & H3 & _).
    destruct (entry_sorted_parts a e0 E) as [H4 _]. cbn in *. fold (point e0) in *. repeat split; [done|done| |].
    + rewrite <- (take_drop (point e0) (og_outputs e0)) in H3. by apply StronglySorted_app in H3 as (_ & ? & _).
    + eapply Forall_impl; [exact H4|]. unfold in_segment. cbn. fold bound. rewrite length_take. lia.
  - intros a. pose proof (wf_outputs _ _ Hs a) as Ho. rewrite <- split_chain_outputs in Ho.
    cbn [chain_outputs] in *. rewrite !length_app in *. lia.
Qed.

Lemma split_upper_wf : segment_wf upper (lower :: c).
Proof using Hs Hk Hne.
  pose proof bound_range as Hb. pose proof (wf_height _ _ Hs) as Hh.
  assert (forall i, in_segment upper i <-> k <= i /\ i < startIndex s + Z.of_nat (length (blockInfos s))) as Hin.
  { intros i. unfold in_segment. cbn. fold bound. rewrite length_drop. lia. }
  split.
  - by rewrite split_height.
  - cbn. fold bound. destruct (blockInfos s); [done|]. by destruct bound; [lia|].
  - unfold height. rewrite split_chain_blocks. exact Hh.
  - cbn. intros ki b [E Hlt]%map_lookup_filter_Some. destruct (wf_spent _ _ Hs ki b E) as [Hr Hn]. cbn in *.
    split; [apply Hin; unfold in_segment in Hr; lia|]. apply lookup_union_None. split; [|done].
    apply map_lookup_filter_None. right. intros b' Hb' Hlt'. cbn in Hlt'. by simplify_eq.
  - rewrite Forall_forall. cbn. intros t [Hlt Ht]%list_elem_of_filter. pose proof (wf_txs _ _ Hs) as Hr.
    rewrite Forall_forall in Hr. specialize (Hr t Ht). unfold in_segment in Hr. apply Hin. cbn in Hr. lia.
  - cbn [upper]. intros a e (e0 & E & -> & Hn)%lookup_entries. destruct (wf_entry _ _ Hs a e0 E) as (H1 & _ & H3 & _).
    destruct (entry_sorted_parts a e0 E) as [_ H4]. cbn [split_move og_outputs og_startIndex] in *.
    fold (point e0) in *. repeat split; [|done| |].
    + cbn [chain_outputs]. destruct (split_outputs a) as [-> _]. rewrite E, length_app, length_take.
      pose proof (wf_outputs _ _ Hs a) as Ho. cbn [chain_outputs] in Ho. rewrite length_app in Ho.
      unfold segment_outputs in Ho. rewrite E in Ho.
      assert (point e0 <= length (og_outputs e0))%nat by apply partition_point_le.
      rewrite H1, !(wrap_small 32 (Z.of_nat _)) by mlia. rewrite wrap_small by mlia. lia.
    + rewrite <- (take_drop (point e0) (og_outputs e0)) in H3. by apply StronglySorted_app in H3 as (_ & _ & ?).
    + eapply Forall_impl; [exact H4|]. cbn. intros o Ho. by apply Hin.
  - intros a. rewrite split_chain_outputs. apply (wf_outputs _ _ Hs a).
Qed.
End Split.

(** ** Pushing *)

Lemma partition_point_all {A} (p : A -> bool) l : Forall (fun x => p x = true) l -> partition_point p l = length l.
Proof. induction 1 as [|x l Hx _ IH]; [done|]. cbn. by rewrite Hx, IH. Qed.

Lemma outputs_count_flat c a b : chain_wf c -> height c <= b ->
  getKeyOutputsCountForAmount a b c = Z.of_nat (length (chain_outputs a c)).
Proof.
  induction c as [|s c IH]; [done|]. intros [Hs Hc] Hb. cbn [getKeyOutputsCountForAmount chain_outputs].
  rewrite height_cons in Hb. unfold segment_outputs. rewrite length_app.
  destruct (keyOutputsGlobalIndexes s !! a) as [e|] eqn:E.
  - destruct (wf_entry _ _ Hs a e E) as (-> & _ & _ & Hr). rewrite partition_point_all; [lia|].
    eapply Forall_impl; [exact Hr|]. unfold in_segment. rewrite (wf_start _ _ Hs). cbn. lia.
  - rewrite IH by (done || lia). cbn. lia.
Qed.

Lemma previous_totals_flat s c : chain_wf (s :: c) ->
  previous_totals (s :: c) (height (s :: c)) =
  Some match last (chain_blocks (s :: c)) with
       | Some i => (cumulativeDifficulty i, alreadyGeneratedCoins i, alreadyGeneratedTransactions i)
       | None => (0, 0, 0)
       end.
Proof.
  intros [Hs Hc]. cbn [previous_totals chain_blocks]. rewrite last_app.
  destruct (last (blockInfos s)) as [i|] eqn:El; [done|]. apply last_None in El.
  destruct c as [|p c]; [done|]. rewrite bool_decide_false by done.
  pose proof (wf_parent _ _ Hs) as Hp. pose proof (wf_height _ _ Hs) as Hh.
  rewrite height_cons, El in *. cbn [length] in *. rewrite Z.add_0_r in *.
  assert (0 < height (p :: c)) as Hpos
    by (rewrite height_cons; pose proof (height_nonneg c); destruct (blockInfos p); [done|cbn [length]; lia]).
  rewrite (wrap_small 32) by mlia.
  assert (last (chain_blocks (p :: c)) = chain_blocks (p :: c) !! Z.to_nat (height (p :: c) - 1)) as Elast
    by (rewrite last_lookup; f_equal; unfold height; lia).
  rewrite getAlreadyGeneratedCoins_flat, getAlreadyGeneratedTransactions_flat, <- Elast by (done || lia).
  destruct Hc as [Hps Hc]. unfold getCurrentCumulativeDifficulty.
  pose proof (wf_start _ _ Hps) as Hst. pose proof (height_cons p c) as Hhp. pose proof (height_nonneg c).
  assert (0 < Z.of_nat (length (blockInfos p))) by (destruct (blockInfos p); [done|cbn [length]; lia]).
  rewrite (wrap_small 32) by mlia.
  rewrite chain_blocks_lookup in Elast by (apply Hps || lia).
  replace (height (p :: c) - 1 <? startIndex p) with false in Elast by lia.
  rewrite <- Elast. destruct (last (chain_blocks (p :: c))) as [i|] eqn:E; [done|].
  apply last_None in E. unfold height in Hpos. rewrite E in Hpos. done.
Qed.

(** The outputs of one amount among the outputs of a transaction. *)
Definition out_place (b t : Z) (n : nat) : PackedOutIndex :=
  {| poi_blockIndex := b; poi_transactionIndex := u16 t; poi_outputIndex := u16 (Z.of_nat n) |}.
Fixpoint new_outputs (a b t : Z) (n : nat) (outs : list TransactionOutput) : list PackedOutIndex :=
  match outs with
  | [] => []
  | o :: outs => (if to_amount o =? a then [out_place b t n] else []) ++ new_outputs a b t (S n) outs
  end.

(** A segment while the block [b], its last one, is pushed; [n] outputs are
    still to come. *)
Record pushing (s : segment) (c : list segment) (b : Z) (n : nat) : Prop := {
  ps_last : b = startIndex s + Z.of_nat (length (blockInfos s)) - 1;
  ps_height : height c <= b;
  ps_txs : Forall (fun t => in_segment s (cti_blockIndex t)) (transactions s);
  ps_entry a e : keyOutputsGlobalIndexes s !! a = Some e ->
    og_startIndex e = Z.of_nat (length (chain_outputs a c)) /\ og_outputs e <> [] /\
    StronglySorted (fun o p => poi_blockIndex o <= poi_blockIndex p) (og_outputs e) /\
    Forall (fun o => in_segment s (poi_blockIndex o)) (og_outputs e);
  ps_bound a : Z.of_nat (length (chain_outputs a (s :: c)) + n) < 2 ^ 32
}.

Lemma in_segment_last s c b n : pushing s c b n -> startIndex s = height c -> in_segment s b.
Proof. intros [Hb Hh _ _ _] Hs. unfold in_segment. lia. Qed.

Lemma insert_output s c b n amount o :
  chain_wf c -> startIndex s = height c -> pushing s c b (S n) -> poi_blockIndex o = b ->
  let '(g, s') := insertKeyOutputToGlobalIndex amount o b c s in
  pushing s' c b n /\ s' = set_outputs (keyOutputsGlobalIndexes s') s /\
  (forall a, segment_outputs a s' = segment_outputs a s ++ if amount =? a then [o] else []) /\
  g = Z.of_nat (length (chain_outputs amount (s :: c))).
Proof.
  intros Hc Hst Hp Ho. pose proof (in_segment_last _ _ _ _ Hp Hst) as Hin. destruct Hp as [Hb Hh Ht He Hbd].
  unfold insertKeyOutputToGlobalIndex.
  set (e := match keyOutputsGlobalIndexes s !! amount with Some _ => _ | None => _ end).
  assert (og_outputs e = segment_outputs amount s ++ [o]) as Eo
    by (unfold e, segment_outputs; by destruct (keyOutputsGlobalIndexes s !! amount)).
  assert (og_startIndex e = Z.of_nat (length (chain_outputs amount c))) as Es.
  { unfold e. destruct (keyOutputsGlobalIndexes s !! amount) as [e0|] eqn:E; [by apply (He amount e0)|]. cbn.
    pose proof (Hbd amount) as Hb'. cbn [chain_outputs] in Hb'. rewrite length_app in Hb'.
    destruct c; [done|]. rewrite bool_decide_false, outputs_count_flat by done. apply wrap_small. mlia. }
  assert (forall a, segment_outputs a (set_outputs (<[amount:=e]> (keyOutputsGlobalIndexes s)) s) =
    segment_outputs a s ++ if amount =? a then [o] else []) as Eall.
  { intros a. unfold segment_outputs at 1. cbn. destruct (Z.eqb_spec amount a) as [<-|Hne].
    - by rewrite lookup_insert_eq.
    - by rewrite lookup_insert_ne, app_nil_r. }
  pose proof (Hbd amount) as Hb'. cbn [chain_outputs] in Hb'. rewrite length_app in Hb'.
  split; [|split; [done|split; [done|]]].
  - split; [done|done|done| |].
    + cbn. intros a e'. destruct (decide (amount = a)) as [<-|Hne]; [|rewrite lookup_insert_ne by done; apply He].
      rewrite lookup_insert_eq. intros [= <-]. rewrite Eo, Es. split; [done|]. split; [by destruct (segment_outputs _ _)|].
      unfold segment_outputs. destruct (keyOutputsGlobalIndexes s !! amount) as [e0|] eqn:E; cbn [app].
      * destruct (He amount e0 E) as (_ & _ & H3 & H4). split; [|apply Forall_app; split; [done|constructor; [by rewrite Ho|constructor]]].
        apply StronglySorted_app. split; [|split; [done|repeat constructor]]. intros x y Hx ->%list_elem_of_singleton.
        rewrite Forall_forall in H4. specialize (H4 x Hx). unfold in_segment in *. cbn in H4. lia.
      * split; [repeat constructor|]. constructor; [by rewrite Ho|constructor].
    + intros a. cbn [chain_outputs]. rewrite Eall. specialize (Hbd a). cbn [chain_outputs] in Hbd.
      rewrite !length_app in *. destruct (amount =? a); cbn [length]; lia.
  - rewrite Es, Eo, length_app. cbn [length chain_outputs]. rewrite length_app.
    rewrite (wrap_small 32 (Z.of_nat _)) by mlia. rewrite wrap_small by mlia. lia.
Qed.

Lemma push_outputs_spec c b t m outs : chain_wf c -> forall n s,
  startIndex s = height c -> pushing s c b (length outs + m) ->
  let '(gs, s') := push_outputs b t n outs c s in
  pushing s' c b m /\ s' = set_outputs (keyOutputsGlobalIndexes s') s /\
  (forall a, segment_outputs a s' = segment_outputs a s ++ new_outputs a b t n outs) /\
  (forall i o, outs !! i = Some o -> exists g, gs !! i = Some g /\
    chain_outputs (to_amount o) (s' :: c) !! Z.to_nat g = Some (out_place b t (n + i))).
Proof.
  intros Hc. induction outs as [|o outs IH]; intros n s Hst Hp; cbn [push_outputs].
  - split; [done|]. split; [by destruct s|]. split; [intros a; by rewrite app_nil_r|done].
  - pose proof (insert_output s c b (length outs + m) (to_amount o) (out_place b t n) Hc Hst Hp eq_refl) as H1.
    change {| poi_blockIndex := b; poi_transactionIndex := u16 t; poi_outputIndex := u16 (Z.of_nat n) |}
      with (out_place b t n).
    destruct (insertKeyOutputToGlobalIndex _ _ _ _ _) as [g s1]. destruct H1 as (Hp1 & E1 & O1 & ->).
    assert (startIndex s1 = height c) as Hst1 by (by rewrite E1).
    specialize (IH (S n) s1 Hst1 Hp1). destruct (push_outputs b t (S n) outs c s1) as [gs s2].
    destruct IH as (Hp2 & E2 & O2 & G2). split; [done|]. split; [by rewrite E2, E1|]. split.
    + intros a. rewrite O2, O1, <- app_assoc. done.
    + intros [|i] x Hx; cbn in Hx.
      * simplify_eq. eexists. split; [done|]. rewrite Nat2Z.id, Nat.add_0_r. cbn [chain_outputs].
        rewrite O2, O1, Z.eqb_refl, !app_assoc, lookup_app_l.
        -- by rewrite list_lookup_middle.
        -- rewrite !length_app. cbn. lia.
      * destruct (G2 i x Hx) as (g & Hg & Hl). exists g. split; [done|].
        rewrite Hl. do 2 f_equal. lia.
Qed.

Section PushTransactions.
Variable cn_fast_hash : bytes -> Hash.

Lemma insert_transaction_in info l : forall x, x ∈ insert_transaction info l -> x ∈ l \/ x = info.
Proof.
  intros x. unfold insert_transaction.
  destruct (find_in_block (cti_blockIndex info) (cti_transactionIndex info) l),
    (find_hash (cti_transactionHash info) l); try (by left).
  rewrite elem_of_app, list_elem_of_singleton. done.
Qed.

Definition block_outputs (a b : Z) (n : nat) (ts : list CachedTransaction) : list PackedOutIndex :=
  mjoin (imap (fun i t => new_outputs a b (Z.of_nat (n + i)) 0 (outputs (getTransaction t))) ts).
Definition outputs_count (ts : list CachedTransaction) : nat :=
  sum_list_with (fun t => length (outputs (getTransaction t))) ts.

Lemma push_transaction_spec c b m t n s : chain_wf c ->
  startIndex s = height c -> pushing s c b (length (outputs (getTransaction t)) + m) ->
  let s' := segment_pushTransaction cn_fast_hash t b n c s in
  pushing s' c b m /\ startIndex s' = startIndex s /\ blockInfos s' = blockInfos s /\
  spentKeyImages s' = spentKeyImages s /\ storage s' = storage s /\
  (forall a, segment_outputs a s' = segment_outputs a s ++ new_outputs a b n 0 (outputs (getTransaction t))).
Proof.
  intros Hc Hst Hp. unfold segment_pushTransaction.
  pose proof (push_outputs_spec c b n m _ Hc 0 s Hst Hp) as H.
  destruct (push_outputs b n 0 _ c s) as [gs s1]. destruct H as (Hp1 & E1 & O1 & _). cbv zeta.
  assert (startIndex s1 = startIndex s /\ blockInfos s1 = blockInfos s /\ spentKeyImages s1 = spentKeyImages s /\
    storage s1 = storage s) as (F1 & F2 & F3 & F4) by (rewrite E1; done).
  split; [|cbn; repeat split; [done..|exact O1]].
  pose proof (in_segment_last _ _ _ _ Hp1 (eq_trans F1 Hst)) as Hin.
  destruct Hp1 as [Hb Hh Ht He Hbd]. split; [done|done| |done|done].
  rewrite Forall_forall in *. cbn. intros x [Hx| ->]%insert_transaction_in; [by apply Ht|done].
Qed.

Lemma push_transactions_spec c b ts : chain_wf c -> forall n s m,
  startIndex s = height c -> pushing s c b (outputs_count ts + m) ->
  let s' := push_transactions cn_fast_hash ts b n c s in
  pushing s' c b m /\ startIndex s' = startIndex s /\ blockInfos s' = blockInfos s /\
  spentKeyImages s' = spentKeyImages s /\ storage s' = storage s /\
  (forall a, segment_outputs a s' = segment_outputs a s ++ block_outputs a b n ts).
Proof.
  intros Hc. induction ts as [|t ts IH]; intros n s m Hst Hp; cbn [push_transactions].
  - split; [exact Hp|]. do 4 (split; [done|]). intros a. by rewrite app_nil_r.
  - cbn [outputs_count sum_list_with] in Hp. rewrite <- Nat.add_assoc in Hp.
    destruct (push_transaction_spec c b _ t (Z.of_nat n) s Hc Hst Hp) as (Hp1 & F1 & F2 & F3 & F4 & O1).
    set (s1 := segment_pushTransaction _ _ _ _ _ _) in *.
    destruct (IH (S n) s1 m) as (Hp2 & G1 & G2 & G3 & G4 & O2); [by rewrite F1|done|].
    split; [done|]. split; [congruence|]. split; [congruence|]. split; [congruence|]. split; [congruence|].
    intros a. rewrite O2, O1, <- app_assoc. unfold block_outputs. cbn [imap mjoin list_join]. f_equal.
    rewrite Nat.add_0_r. f_equal. f_equal. apply imap_ext. intros i x _. cbn. do 2 f_equal. lia.
Qed.
End PushTransactions.

Lemma add_spent_lookup (b : Z) (m : gmap KeyImage Z) l k :
  foldr (fun k => addSpentKeyImage k b) m l !! k =
  match m !! k with Some v => Some v | None => if decide (k ∈ l) then Some b else None end.
Proof.
  induction l as [|x l IH]; cbn [foldr]; [by destruct (m !! k)|]. unfold addSpentKeyImage at 1.
  set (m' := foldr _ m l) in *. destruct (decide (x = k)) as [->|Hne].
  - rewrite (decide_True (P := k ∈ k :: l)) by (apply elem_of_cons; by left).
    destruct (m' !! k) as [v|] eqn:E; [|rewrite lookup_insert_eq; by destruct (m !! k)].
    rewrite E. destruct (m !! k); [done|]. by case_decide.
  - assert (m' !! k = (match m' !! x with Some _ => m' | None => <[x:=b]> m' end) !! k) as <-
      by (destruct (m' !! x); [done|by rewrite lookup_insert_ne]).
    rewrite IH. destruct (m !! k); [done|].
    assert (k ∈ l <-> k ∈ x :: l) as Hiff by (rewrite elem_of_cons; naive_solver).
    repeat case_decide; tauto.
Qed.

(** The entry of a block in the flat chain. *)
Definition block_info (b : CachedBlock) (txs : list CachedTransaction) (size coins difficulty : Z)
    (chain : list CachedBlockInfo) : CachedBlockInfo :=
  let '(d, g, t) :=
    match last chain with
    | Some i => (cumulativeDifficulty i, alreadyGeneratedCoins i, alreadyGeneratedTransactions i)
    | None => (0, 0, 0)
    end in
  {| blockHash := getBlockHash b; cbi_timestamp := timestamp (getBlock b);
     cumulativeDifficulty := u64 (d + difficulty); alreadyGeneratedCoins := u64 (g + coins);
     alreadyGeneratedTransactions := u64 (t + Z.of_nat (length txs) + 1); blockSize := u32 size |}.

Section PushBlock.
Variable cn_fast_hash : bytes -> Hash.
Variables (s : segment) (c : list segment) (b : CachedBlock) (base : CachedTransaction)
  (txs : list CachedTransaction) (state : TransactionValidatorState) (size coins difficulty : Z) (raw : RawBlock).
Hypothesis Hwf : chain_wf (s :: c).
Hypothesis Hindex : cb_index b = height (s :: c).
Hypothesis Hheight : height (s :: c) + 1 < 2 ^ 32.
Hypothesis Hbase : CachedTransaction_object (baseTransaction (getBlock b)) = Some base.
Hypothesis Hfresh : forall k, k ∈ Pool.spentKeyImages state -> chain_spent (s :: c) !! k = None.
Hypothesis Hbound : forall a,
  Z.of_nat (length (chain_outputs a (s :: c)) + outputs_count (base :: txs)) < 2 ^ 32.

Let info := block_info b txs size coins difficulty (chain_blocks (s :: c)).
Let spent := foldr (fun k => addSpentKeyImage k (cb_index b)) (spentKeyImages s)
  (elements (Pool.spentKeyImages state)).
Let s1 : segment := {| startIndex := startIndex s; transactions := transactions s;
  spentKeyImages := spent; blockInfos := blockInfos s ++ [info];
  keyOutputsGlobalIndexes := keyOutputsGlobalIndexes s; paymentIds := paymentIds s; storage := storage s |}.

Lemma in_segment_grow i : in_segment s i -> in_segment s1 i.
Proof. unfold in_segment. cbn. rewrite length_app. cbn. lia. Qed.

Lemma push_start : pushing s1 c (cb_index b) (outputs_count (base :: txs) + 0).
Proof using Hwf Hindex Hbound.
  destruct Hwf as [Hs Hc]. split.
  - cbn. rewrite length_app, Hindex, height_cons, (wf_start _ _ Hs). cbn. lia.
  - rewrite Hindex, height_cons. lia.
  - eapply Forall_impl; [apply (wf_txs _ _ Hs)|]. intros t. apply in_segment_grow.
  - cbn. intros a e E. destruct (wf_entry _ _ Hs a e E) as (? & ? & ? & Hr). repeat split; try done.
    eapply Forall_impl; [exact Hr|]. intros o. apply in_segment_grow.
  - intros a. rewrite Nat.add_0_r. apply Hbound.
Qed.

Lemma pushed_wf s2 :
  pushing s2 c (cb_index b) 0 -> startIndex s2 = startIndex s -> blockInfos s2 = blockInfos s ++ [info] ->
  spentKeyImages s2 = spent -> segment_wf s2 c.
Proof using Hwf Hindex Hheight Hfresh.
  intros [Hb Hh Ht He Hbd] E1 E2 E3. destruct Hwf as [Hs Hc]. split.
  - rewrite E1. apply (wf_start _ _ Hs).
  - apply (wf_parent _ _ Hs).
  - rewrite height_cons, E2, length_app. rewrite height_cons in Hheight. cbn. lia.
  - intros k v. rewrite E3. unfold spent. rewrite add_spent_lookup.
    destruct (spentKeyImages s !! k) as [w|] eqn:E.
    + intros [= <-]. destruct (wf_spent _ _ Hs k w E) as [Hr Hn]. split; [|done].
      unfold in_segment in *. rewrite E1, E2, length_app. cbn. lia.
    + case_decide as Hk; [|done]. intros [= <-]. apply elem_of_elements, Hfresh in Hk.
      cbn in Hk. apply lookup_union_None in Hk as [_ Hk]. split; [|done].
      unfold in_segment. rewrite (wf_start _ _ Hs) in E1. lia.
  - done.
  - done.
  - intros a. specialize (Hbd a). rewrite Nat.add_0_r in Hbd. done.
Qed.

Let s2 := push_transactions cn_fast_hash (base :: txs) (cb_index b) 0 c s1.
Let s3 : segment := {| startIndex := startIndex s2; transactions := transactions s2;
  spentKeyImages := spentKeyImages s2; blockInfos := blockInfos s2;
  keyOutputsGlobalIndexes := keyOutputsGlobalIndexes s2; paymentIds := paymentIds s2;
  storage := storage s2 ++ [raw] |}.

Lemma doPushBlock_eq :
  doPushBlock cn_fast_hash b txs state size coins difficulty raw (s :: c) = Some (s3 :: c).
Proof using Hwf Hindex Hbase.
  pose proof (previous_totals_flat s c Hwf) as Hprev. rewrite <- Hindex in Hprev.
  unfold doPushBlock. rewrite Hprev, Hbase. unfold s3, s2, s1, info, block_info.
  by destruct (match last (chain_blocks (s :: c)) with Some _ => _ | None => _ end) as [[d g] t].
Qed.

Lemma push_block_flat :
  chain_wf (s3 :: c) /\
  chain_blocks (s3 :: c) = chain_blocks (s :: c) ++ [info] /\
  storage s3 = storage s ++ [raw] /\
  (forall k, chain_spent (s3 :: c) !! k =
    if decide (k ∈ Pool.spentKeyImages state) then Some (height (s :: c)) else chain_spent (s :: c) !! k) /\
  (forall a, chain_outputs a (s3 :: c) =
    chain_outputs a (s :: c) ++ block_outputs a (height (s :: c)) 0 (base :: txs)).
Proof using Hwf Hindex Hheight Hfresh Hbound.
  pose proof push_start as Hp. destruct Hwf as [Hs Hc].
  destruct (push_transactions_spec cn_fast_hash c (cb_index b) (base :: txs) Hc 0 s1 0 (wf_start _ _ Hs) Hp)
    as (Hp2 & F1 & F2 & F3 & F4 & O2). fold s2 in Hp2, F1, F2, F3, F4, O2.
  split; [split; [|done]|split; [|split; [|split]]].
  - assert (segment_wf s2 c) as [] by (by apply pushed_wf). by split.
  - change (chain_blocks (s3 :: c)) with (chain_blocks c ++ blockInfos s2). rewrite F2. apply app_assoc.
  - change (storage s3) with (storage s2 ++ [raw]). by rewrite F4.
  - intros k. change (chain_spent (s3 :: c)) with (spentKeyImages s2 ∪ chain_spent c).
    change (chain_spent (s :: c)) with (spentKeyImages s ∪ chain_spent c) in *.
    rewrite F3, <- Hindex. change (spentKeyImages s1) with spent. unfold spent. specialize (Hfresh k).
    case_decide as Hk.
    + specialize (Hfresh Hk). apply lookup_union_None in Hfresh as [Hk1 Hk2].
      apply lookup_union_Some_l. rewrite add_spent_lookup, Hk1, decide_True; [done|]. by apply elem_of_elements.
    + rewrite !lookup_union. f_equal. rewrite add_spent_lookup, decide_False by (by rewrite elem_of_elements).
      by destruct (spentKeyImages s !! k).
  - intros a. cbn [chain_outputs]. change (segment_outputs a s3) with (segment_outputs a s2).
    rewrite O2, app_assoc, <- Hindex. done.
Qed.

Lemma push_block_exists :
  exists s', doPushBlock cn_fast_hash b txs state size coins difficulty raw (s :: c) = Some (s' :: c) /\
  chain_wf (s' :: c) /\ chain_blocks (s' :: c) = chain_blocks (s :: c) ++ [info] /\
  storage s' = storage s ++ [raw] /\
  (forall k, chain_spent (s' :: c) !! k =
    if decide (k ∈ Pool.spentKeyImages state) then Some (height (s :: c)) else chain_spent (s :: c) !! k) /\
  (forall a, chain_outputs a (s' :: c) =
    chain_outputs a (s :: c) ++ block_outputs a (height (s :: c)) 0 (base :: txs)).
Proof using Type*. exists s3. split; [apply doPushBlock_eq|apply push_block_flat]. Qed.
End PushBlock.

(** ** Theorems *)

(** C33. However the chain is cut into segments, its queries answer for the
    whole: a key image counts as spent at an index when a block up to it spends
    it; hashes and generated coins are those of the block at the index; the last
    timestamps, sizes or difficulties are those of the last blocks up to the
    index.  The keys behind global output indexes, which have to be there and to
    increase, are those of the outputs at these places of one list of outputs of
    the amount.  This list does depend on the cut: it has all outputs when the
    index is in the top segment, and else those of the segments that do not
    begin above the index. *)
Theorem queries_flat cur now s c i :
  chain_wf (s :: c) -> blockInfos s <> [] -> 0 <= i < height (s :: c) ->
  (forall k, checkIfSpent k i (s :: c) =
    match chain_spent (s :: c) !! k with Some b => b <=? i | None => false end) /\
  segment_getBlockHash i (s :: c) = blockHash <$> chain_blocks (s :: c) !! Z.to_nat i /\
  getAlreadyGeneratedCoins i (s :: c) = alreadyGeneratedCoins <$> chain_blocks (s :: c) !! Z.to_nat i /\
  (forall count useGenesis pred, getLastUnits count i useGenesis pred (s :: c) =
    map pred (lastn count (blocks_upto useGenesis i (chain_blocks (s :: c))))) /\
  (forall a gs, gs <> [] -> StronglySorted Z.lt gs -> Forall is_u32 gs ->
    extractKeyOutputKeys cur now a i gs (s :: c) =
    extract_loop (key_of_output cur now i) 0 (chain_outputs a (chain_from i (s :: c))) (chain_txs (chain_from i (s :: c))) gs) /\
  (startIndex s <= i -> chain_from i (s :: c) = s :: c).
Proof.
  intros Hwf Hne Hi. split; [intros; by apply checkIfSpent_flat|]. split; [apply getBlockHash_flat; [done|lia]|].
  split; [apply getAlreadyGeneratedCoins_flat; [done|lia]|]. split; [intros; by apply getLastUnits_flat|].
  split; [|intros; cbn [chain_from]; by replace (i <? startIndex s) with false by lia].
  intros a gs Hg Hsort Hu. unfold extractKeyOutputKeys. rewrite extractKeyOutputs_from.
  by apply extractKeyOutputs_flat; [apply chain_from_wf|apply chain_from_start|..].
Qed.

(** C34. Splitting a segment leaves the chain what it was: both parts are
    well-formed, and blocks, spent key images, transactions and the global
    indexes of all outputs stay what they were. *)
Theorem split_transparent s c k :
  chain_wf (s :: c) -> blockInfos s <> [] -> startIndex s < k <= getTopBlockIndex s ->
  let '(lower, upper) := split k s in
  chain_wf (upper :: lower :: c) /\
  chain_blocks (upper :: lower :: c) = chain_blocks (s :: c) /\
  chain_spent (upper :: lower :: c) = chain_spent (s :: c) /\
  chain_txs (upper :: lower :: c) ≡ₚ chain_txs (s :: c) /\
  (forall a, chain_outputs a (upper :: lower :: c) = chain_outputs a (s :: c)).
Proof.
  intros [Hs Hc] Hne Hk. destruct (split k s) as [lower upper] eqn:E.
  assert (lower = fst (split k s) /\ upper = snd (split k s)) as [-> ->] by (by rewrite E).
  split; [|split; [by apply split_chain_blocks|split; [by apply split_chain_spent|split;
    [by apply split_chain_txs|by apply split_chain_outputs]]]].
  split; [by apply split_upper_wf|]. split; [by apply split_lower_wf|done].
Qed.

(** Pushing a block that spends no spent key image appends it to the flat
    chain: one block more, whose totals are those of the last block plus its
    own; its key images spent at its height; and its outputs, in the order of
    its transactions, behind the outputs of the same amount. *)
Theorem push_appends cn_fast_hash s c b base txs state size coins difficulty raw :
  chain_wf (s :: c) -> cb_index b = height (s :: c) -> height (s :: c) + 1 < 2 ^ 32 ->
  CachedTransaction_object (baseTransaction (getBlock b)) = Some base ->
  (forall k, k ∈ Pool.spentKeyImages state -> chain_spent (s :: c) !! k = None) ->
  (forall a, Z.of_nat (length (chain_outputs a (s :: c)) + outputs_count (base :: txs)) < 2 ^ 32) ->
  exists s', doPushBlock cn_fast_hash b txs state size coins difficulty raw (s :: c) = Some (s' :: c) /\
  chain_wf (s' :: c) /\
  chain_blocks (s' :: c) =
    chain_blocks (s :: c) ++ [block_info b txs size coins difficulty (chain_blocks (s :: c))] /\
  storage s' = storage s ++ [raw] /\
  (forall k, chain_spent (s' :: c) !! k =
    if decide (k ∈ Pool.spentKeyImages state) then Some (height (s :: c)) else chain_spent (s :: c) !! k) /\
  (forall a, chain_outputs a (s' :: c) =
    chain_outputs a (s :: c) ++ block_outputs a (height (s :: c)) 0 (base :: txs)).
Proof. apply push_block_exists. Qed.

(** [getBlockHeightForTimestamp] has its test the wrong way round: for a
    time after the first block of the root segment and not after its last, a
    block of that time or later exists, but the function denies it. *)
Theorem getBlockHeightForTimestamp_misses s front back t :
  head (blockInfos s) = Some front -> last (blockInfos s) = Some back ->
  cbi_timestamp front < t <= cbi_timestamp back ->
  getBlockHeightForTimestamp t [s] = (false, 0) /\
  exists b, b ∈ chain_blocks [s] /\ t <= cbi_timestamp b.
Proof.
  intros Hf Hb Ht. split; [|exists back; split; [by apply last_Some_elem_of|lia]].
  cbn. rewrite Hf, Hb. replace (cbi_timestamp back <? t) with false by lia.
  by replace (t <=? cbi_timestamp front) with false by lia.
Qed.

(** ** A chain *)

Definition sample_info (h t : Z) : CachedBlockInfo :=
  {| blockHash := replicate 32 h; cbi_timestamp := t; cumulativeDifficulty := h; alreadyGeneratedCoins := 100 * h;
     alreadyGeneratedTransactions := h; blockSize := 90 |}.
Definition sample_place (b : Z) : PackedOutIndex :=
  {| poi_blockIndex := b; poi_transactionIndex := 0; poi_outputIndex := 0 |}.
Definition sample_cti (b : Z) : CachedTransactionInfo :=
  {| cti_blockIndex := b; cti_transactionIndex := 0; cti_transactionHash := replicate 32 (100 + b);
     cti_unlockTime := 0; cti_outputs := [OutKey {| key := replicate 32 b |}]; cti_globalIndexes := [b] |}.
Definition sample_segment : segment :=
  {| startIndex := 0; transactions := [sample_cti 0; sample_cti 1; sample_cti 2];
     spentKeyImages := {[ replicate 32 7 := 1 ]};
     blockInfos := [sample_info 1 10; sample_info 2 20; sample_info 3 30];
     keyOutputsGlobalIndexes :=
       {[ 5 := {| og_startIndex := 0; og_outputs := [sample_place 0; sample_place 1; sample_place 2] |} ]};
     paymentIds := []; storage := map (fun h => {| rb_block := [h]; rb_transactions := [] |}) [1; 2; 3] |}.

Lemma sample_segment_wf : chain_wf [sample_segment].
Proof.
  split; [|done]. split; cbn.
  - done.
  - done.
  - done.
  - intros k b [<- <-]%lookup_singleton_Some. split; [split; done|done].
  - unfold in_segment. evaluate.
  - intros a e [<- <-]%lookup_singleton_Some. unfold in_segment. cbn. split; [done|]. split; [done|].
    split; [|evaluate]. repeat (constructor; [|evaluate]). constructor.
  - intros a. unfold segment_outputs. cbn. destruct (_ !! a) as [e|] eqn:E; [|done].
    apply lookup_singleton_Some in E as [<- <-]. done.
Qed.

Lemma queries_flat_witness :
  checkIfSpent (replicate 32 7) 2 [sample_segment] = true /\
  getLastUnits 2 2 false cbi_timestamp [sample_segment] = [20; 30] /\
  extractKeyOutputKeys CurrencyBuilder 0 5 2 [0; 2] [sample_segment] = inl [replicate 32 0; replicate 32 2].
Proof.
  destruct (queries_flat CurrencyBuilder 0 sample_segment [] 2 sample_segment_wf) as (H1 & _ & _ & H4 & H5 & _);
    [done|done|].
  split; [rewrite H1; vm_compute; reflexivity|]. split; [rewrite H4; vm_compute; reflexivity|].
  rewrite H5; [vm_compute; reflexivity|done| |evaluate].
  repeat (constructor; [|evaluate]). constructor.
Defined.

Lemma split_transparent_witness :
  let '(lower, upper) := split 2 sample_segment in
  chain_wf [upper; lower] /\
  chain_blocks [upper; lower] = chain_blocks [sample_segment] /\
  chain_spent [upper; lower] = chain_spent [sample_segment] /\
  chain_txs [upper; lower] ≡ₚ chain_txs [sample_segment] /\
  (forall a, chain_outputs a [upper; lower] = chain_outputs a [sample_segment]).
Proof. apply (split_transparent sample_segment [] 2 sample_segment_wf); [done|vm_compute; intuition congruence]. Defined.

Lemma getBlockHeightForTimestamp_misses_witness :
  getBlockHeightForTimestamp 15 [sample_segment] = (false, 0) /\
  exists b, b ∈ chain_blocks [sample_segment] /\ 15 <= cbi_timestamp b.
Proof.
  apply (getBlockHeightForTimestamp_misses sample_segment (sample_info 1 10) (sample_info 3 30)); [done|done|].
  cbn. lia.
Defined.

(** The other query finds the block. *)
Example getTimestampLowerBoundBlockIndex_finds :
  getTimestampLowerBoundBlockIndex 15 [sample_segment] = Some 1.
Proof. reflexivity. Qed.

(** The root before the first block, and the first block. *)
Definition empty_root : segment :=
  {| startIndex := 0; transactions := []; spentKeyImages := ∅; blockInfos := []; keyOutputsGlobalIndexes := ∅;
     paymentIds := []; storage := [] |}.
Definition first_block : CachedBlock :=
  {| getBlock := {| header := header sample_block; parentBlock := parentBlock sample_block;
       baseTransaction := genesis_coinbase; transactionHashes := [] |};
     getBlockHash := replicate 32 9 |}.
Definition first_base : CachedTransaction :=
  {| getTransaction := genesis_coinbase;
     getTransactionBinaryArray := default [] (toBinaryArray serialize_Transaction genesis_coinbase) |}.
Definition first_raw : RawBlock := {| rb_block := []; rb_transactions := [] |}.

Definition no_state : TransactionValidatorState := {| Pool.spentKeyImages := ∅ |}.

Lemma push_appends_witness :
  exists s', doPushBlock sum_key first_block [] no_state 80 7 1 first_raw [empty_root]
    = Some [s'] /\ chain_wf [s'] /\
  chain_blocks [s'] =
    chain_blocks [empty_root] ++ [block_info first_block [] 80 7 1 (chain_blocks [empty_root])] /\
  storage s' = storage empty_root ++ [first_raw] /\
  (forall k, chain_spent [s'] !! k =
    if decide (k ∈ Pool.spentKeyImages no_state) then Some (height [empty_root]) else chain_spent [empty_root] !! k) /\
  (forall a, chain_outputs a [s'] =
    chain_outputs a [empty_root] ++ block_outputs a (height [empty_root]) 0 [first_base]).
Proof.
  apply (push_appends sum_key empty_root [] first_block first_base [] no_state 80 7 1 first_raw).
  - split; [|done]. split; done.
  - vm_compute. reflexivity.
  - vm_compute. reflexivity.
  - vm_compute. reflexivity.
  - intros k Hk. by apply elem_of_empty in Hk.
  - intros a. cbn. unfold segment_outputs. cbn. rewrite lookup_empty. done.
Defined.
