(* ===== verification/Validation.v ===== *)
(** * Validation of transactions and blocks
      ([src/mevacoin_core/core.cpp], [src/mevacoin_core/currency.cpp],
      [src/mevacoin_core/cached_block.cpp], [src/common/math.h])

    [Core::validateSemantic], [validateTransaction] and [validateBlock] over a
    chain of segments, the proof-of-work checks of [Currency], and the decision
    of [Core::addBlock] whether a block is acceptable behind its predecessor.
    The elliptic curve and the slow hashes are variables. *)

From stdpp Require Import gmap sorting.
From S2P Require Import Prelude Config IntUtil CheckDifficulty TreeHash Stream Serializer Transaction Amounts TxExtra.
From S2P Require Import Block Cached Pool Currency Difficulty Rules Checkpoints Segments ChainSpec.
Import BlockchainCache.

(** ** Errors *)

Inductive ValidationError :=
(* TransactionValidationError *)
| EMPTY_INPUTS | INPUT_UNKNOWN_TYPE | INPUT_EMPTY_OUTPUT_USAGE | INPUT_INVALID_DOMAIN_KEYIMAGES
| INPUT_IDENTICAL_KEYIMAGES | INPUT_IDENTICAL_OUTPUT_INDEXES | INPUT_KEYIMAGE_ALREADY_SPENT
| INPUT_INVALID_GLOBAL_INDEX | INPUT_SPEND_LOCKED_OUT | INPUT_INVALID_SIGNATURES | INPUTS_AMOUNT_OVERFLOW
| INPUT_WRONG_COUNT | INPUT_UNEXPECTED_TYPE | BASE_INPUT_WRONG_BLOCK_INDEX | OUTPUT_ZERO_AMOUNT
| OUTPUT_INVALID_KEY | OUTPUTS_AMOUNT_OVERFLOW | WRONG_AMOUNT | WRONG_TRANSACTION_UNLOCK_TIME | INVALID_MIXIN
| BASE_INVALID_SIGNATURES_COUNT | INPUT_INVALID_SIGNATURES_COUNT
(* BlockValidationError *)
| WRONG_VERSION | PARENT_BLOCK_WRONG_VERSION | PARENT_BLOCK_SIZE_TOO_BIG | TIMESTAMP_TOO_FAR_IN_FUTURE
| TIMESTAMP_TOO_FAR_IN_PAST | DIFFICULTY_OVERHEAD | CUMULATIVE_BLOCK_SIZE_TOO_BIG | BLOCK_REWARD_MISMATCH
| CHECKPOINT_BLOCK_HASH_MISMATCH | PROOF_OF_WORK_TOO_WEAK | TRANSACTION_DUPLICATES | TRANSACTION_INCONSISTENCY
(* AddBlockErrorCode *)
| DESERIALIZATION_FAILED | REJECTED_AS_ORPHANED
(* CoreErrorCode and BlockValidationError of the other operations *)
| CORRUPTED_BLOCKCHAIN | TRANSACTION_ABSENT_IN_POOL
(* an exception that leaves the function, and behaviour the language leaves open *)
| Exception | UndefinedBehaviour.

(** A result or the first error. *)
Definition checked (A : Type) : Type := A + ValidationError.
#[global] Instance checked_ret : MRet checked := fun A a => inl a.
#[global] Instance checked_bind : MBind checked := fun A B f m => match m with inl a => f a | inr e => inr e end.
Definition guard_or (b : bool) (e : ValidationError) : checked unit := if b then inl tt else inr e.
Definition of_option {A} (o : option A) (e : ValidationError) : checked A :=
  match o with Some a => inl a | None => inr e end.

Lemma checked_bind_inl {A B} (m : checked A) (f : A -> checked B) b :
  (m ≫= f) = inl b <-> exists a, m = inl a /\ f a = inl b.
Proof. destruct m; cbn; naive_solver. Qed.

Lemma guard_or_inl b e u : guard_or b e = inl u <-> b = true.
Proof. destruct b, u; cbn; naive_solver. Qed.

Lemma of_option_inl {A} (o : option A) e a : of_option o e = inl a <-> o = Some a.
Proof. destruct o; cbn; naive_solver. Qed.

Lemma guard_bind_inl {B} b e (f : unit -> checked B) r :
  (guard_or b e ≫= f) = inl r <-> b = true /\ f tt = inl r.
Proof. destruct b; cbn; naive_solver. Qed.

Lemma option_bind_inl {A B} (o : option A) e (f : A -> checked B) r :
  (of_option o e ≫= f) = inl r <-> exists a, o = Some a /\ f a = inl r.
Proof. destruct o; cbn; naive_solver. Qed.

(** ** Medians *)

Definition medianValue (v : list Z) : Z :=
  match v with
  | [] => 0
  | [x] => x
  | _ =>
      let n := (length v / 2)%nat in
      let v := std_sort v in
      if Nat.odd (length v) then nth n v 0 else u64 (nth (n - 1) v 0 + nth n v 0) / 2
  end.

(** ** Proof of work *)

Section ProofOfWork.
Variable cn_fast_hash : bytes -> Hash.
Variables cn_slow_hash_v0 cn_lite_slow_hash_v1 cn_turtle_lite_slow_hash_v2 : bytes -> Hash.

Definition getBlockLongHash (block : BlockTemplate) : res Hash :=
  if majorVersion block =? BLOCK_MAJOR_VERSION_1 then
    ba ← getBlockHashingBinaryArray cn_fast_hash block; Ok (cn_slow_hash_v0 ba)
  else if (majorVersion block =? BLOCK_MAJOR_VERSION_2) || (majorVersion block =? BLOCK_MAJOR_VERSION_3) then
    ba ← getParentBlockHashingBinaryArray cn_fast_hash block true; Ok (cn_slow_hash_v0 ba)
  else if majorVersion block =? BLOCK_MAJOR_VERSION_4 then
    ba ← getParentBlockHashingBinaryArray cn_fast_hash block true; Ok (cn_lite_slow_hash_v1 ba)
  else if BLOCK_MAJOR_VERSION_5 <=? majorVersion block then
    ba ← getParentBlockHashingBinaryArray cn_fast_hash block true; Ok (cn_turtle_lite_slow_hash_v2 ba)
  else Throw (runtime_error "Unknown block major version.").

Definition checkProofOfWorkV1 (block : BlockTemplate) (currentDifficulty : Z) : res bool :=
  if negb (BLOCK_MAJOR_VERSION_1 =? majorVersion block) then Ok false
  else h ← getBlockLongHash block; Ok (check_hash h currentDifficulty).

(** The block hash has to be in the Merkle tree whose root the coinbase
    transaction of the parent block carries, at the place the genesis hash
    gives. *)
Definition checkProofOfWorkV2 (genesisHash : Hash) (block : BlockTemplate) (currentDifficulty : Z) : res bool :=
  if majorVersion block <? BLOCK_MAJOR_VERSION_2 then Ok false
  else
    h ← getBlockLongHash block;
    if negb (check_hash h currentDifficulty) then Ok false
    else
      match getMergeMiningTagFromExtra (extra (pb_baseTransaction (parentBlock block))) with
      | None => Ok false
      | Some mmTag =>
          let branch := blockchainBranch (parentBlock block) in
          if 8 * 32 <? Z.of_nat (length branch) then Ok false
          else
            aux ← getAuxiliaryBlockHeaderHash cn_fast_hash block;
            let auxBlocksMerkleRoot :=
              tree_hash_from_branch cn_fast_hash branch (length branch) aux (Some genesisHash) in
            Ok (bool_decide (auxBlocksMerkleRoot = merkleRoot mmTag))
      end.

Definition checkProofOfWork (genesisHash : Hash) (block : BlockTemplate) (currentDiffic : Z) : res bool :=
  if majorVersion block =? BLOCK_MAJOR_VERSION_1 then checkProofOfWorkV1 block currentDiffic
  else if (BLOCK_MAJOR_VERSION_2 <=? majorVersion block) && (majorVersion block <=? BLOCK_MAJOR_VERSION_5)
  then checkProofOfWorkV2 genesisHash block currentDiffic
  else Ok false.
End ProofOfWork.

(** ** Transactions *)

Section Transactions.
Variable check_key : PublicKey -> bool.
(** [scalarmultKey(keyImage, L) == I] *)
Variable in_prime_subgroup : KeyImage -> bool.

(** The outputs of [validateSemantic] and of [validateBlock]: their sum. *)
Fixpoint validate_outputs (summaryOutputAmount : Z) (outputs : list TransactionOutput) : checked Z :=
  match outputs with
  | [] => mret summaryOutputAmount
  | output :: outputs =>
      _ ← guard_or (negb (to_amount output =? 0)) OUTPUT_ZERO_AMOUNT;
      _ ← guard_or (match target output with OutKey o => check_key (key o) end) OUTPUT_INVALID_KEY;
      _ ← guard_or (negb (2 ^ 64 - 1 - to_amount output <? summaryOutputAmount)) OUTPUTS_AMOUNT_OVERFLOW;
      validate_outputs (u64 (summaryOutputAmount + to_amount output)) outputs
  end.

Fixpoint semantic_inputs (ki : gset KeyImage) (summaryInputAmount : Z) (inputs : list TransactionInput)
    : checked Z :=
  match inputs with
  | [] => mret summaryInputAmount
  | InKey input :: inputs =>
      _ ← guard_or (bool_decide (keyImage input ∉ ki)) INPUT_IDENTICAL_KEYIMAGES;
      _ ← guard_or (negb (bool_decide (length (outputIndexes input) = 0%nat))) INPUT_EMPTY_OUTPUT_USAGE;
      _ ← guard_or (in_prime_subgroup (keyImage input)) INPUT_INVALID_DOMAIN_KEYIMAGES;
      _ ← guard_or (forallb (fun o => negb (o =? 0)) (tail (outputIndexes input))) INPUT_IDENTICAL_OUTPUT_INDEXES;
      _ ← guard_or (negb (2 ^ 64 - 1 - ki_amount input <? summaryInputAmount)) INPUTS_AMOUNT_OVERFLOW;
      semantic_inputs ({[keyImage input]} ∪ ki) (u64 (summaryInputAmount + ki_amount input)) inputs
  | InBase _ :: _ => inr INPUT_UNKNOWN_TYPE
  end.

(** The fee of a transaction that makes sense by itself. *)
Definition validateSemantic (transaction : Transaction) : checked Z :=
  _ ← guard_or (negb (bool_decide (length (inputs transaction) = 0%nat))) EMPTY_INPUTS;
  summaryOutputAmount ← validate_outputs 0 (outputs transaction);
  summaryInputAmount ← semantic_inputs ∅ 0 (inputs transaction);
  _ ← guard_or (negb (summaryInputAmount <? summaryOutputAmount)) WRONG_AMOUNT;
  mret (u64 (summaryInputAmount - summaryOutputAmount)).

Variable cn_fast_hash : bytes -> Hash.
Variable checkRingSignature : Hash -> KeyImage -> list PublicKey -> list Signature -> bool.
Variables (cur : Currency) (checkpoints : gmap Z Hash) (now : Z).

(** The global indexes of a ring, in 32 bits. *)
Fixpoint absolute_indexes (previous : Z) (offsets : list Z) : list Z :=
  match offsets with
  | [] => []
  | o :: offsets => let g := u32 (previous + o) in g :: absolute_indexes g offsets
  end.

(** The checks outside the checkpoint zone. *)
Definition validate_input (t : CachedTransaction) (c : list segment) (blockIndex : Z) (inputIndex : nat)
    (input : KeyInput) : checked unit :=
  _ ← guard_or (negb (checkIfSpent (keyImage input) blockIndex c)) INPUT_KEYIMAGE_ALREADY_SPENT;
  let globalIndexes := absolute_indexes 0 (outputIndexes input) in
  outputKeys ← match extractKeyOutputKeys cur now (ki_amount input) blockIndex globalIndexes c with
               | inl keys => mret keys
               | inr BlockchainCache.INVALID_GLOBAL_INDEX => inr INPUT_INVALID_GLOBAL_INDEX
               | inr BlockchainCache.OUTPUT_LOCKED => inr INPUT_SPEND_LOCKED_OUT
               end;
  sigs ← of_option (signatures (getTransaction t) !! inputIndex) UndefinedBehaviour;
  _ ← guard_or (negb ((TRANSACTION_SIGNATURE_COUNT_VALIDATION_HEIGHT <=? blockIndex)
                      && negb (bool_decide (length outputKeys = length sigs)))) INPUT_INVALID_SIGNATURES_COUNT;
  guard_or (checkRingSignature (getTransactionPrefixHash cn_fast_hash t) (keyImage input) outputKeys sigs)
    INPUT_INVALID_SIGNATURES.

Fixpoint validate_inputs (t : CachedTransaction) (c : list segment) (blockIndex : Z) (inputIndex : nat)
    (state : gset KeyImage) (inputs : list TransactionInput) : checked (gset KeyImage) :=
  match inputs with
  | [] => mret state
  | InKey input :: inputs =>
      _ ← guard_or (bool_decide (keyImage input ∉ state)) INPUT_KEYIMAGE_ALREADY_SPENT;
      _ ← (if isInCheckpointZone (u32 (blockIndex + 1)) checkpoints then mret tt
           else validate_input t c blockIndex inputIndex input);
      validate_inputs t c blockIndex (S inputIndex) ({[keyImage input]} ∪ state) inputs
  | InBase _ :: _ => inr INPUT_UNKNOWN_TYPE
  end.

(** [(fee, state)] *)
Definition validateTransaction (t : CachedTransaction) (state : TransactionValidatorState) (c : list segment)
    (blockIndex : Z) : checked (Z * TransactionValidatorState) :=
  fee ← validateSemantic (getTransaction t);
  st ← validate_inputs t c blockIndex 0 (Pool.spentKeyImages state) (inputs (getTransaction t));
  mret (fee, {| Pool.spentKeyImages := st |}).

(** The loop of [addBlock]: the sum of the fees. *)
Fixpoint validate_transactions (ts : list CachedTransaction) (state : TransactionValidatorState)
    (c : list segment) (blockIndex cumulativeFee : Z) : checked (Z * TransactionValidatorState) :=
  match ts with
  | [] => mret (cumulativeFee, state)
  | t :: ts =>
      '(fee, state) ← validateTransaction t state c blockIndex;
      validate_transactions ts state c blockIndex (u64 (cumulativeFee + fee))
  end.

(** ** Blocks *)

Variables cn_slow_hash_v0 cn_lite_slow_hash_v1 cn_turtle_lite_slow_hash_v2 : bytes -> Hash.
Variable genesisHash : Hash.

(** [addGenesisBlock] of core.cpp *)
Definition addGenesisBlock : bool := true.

(** [cachedBlock.getParentBlockBinaryArray(false)] *)
Definition getParentBlockBinaryArray (block : BlockTemplate) : option bytes :=
  caught (put_ParentBlock cn_fast_hash false false (parentBlock block) (timestamp block) (nonce block)).

Definition validate_version (b : CachedBlock) : checked unit :=
  let block := getBlock b in
  _ ← guard_or (Upgrades.getBlockMajorVersion (cb_index b) (Upgrades.core_upgrades cur) =? majorVersion block)
    WRONG_VERSION;
  if BLOCK_MAJOR_VERSION_2 <=? majorVersion block then
    _ ← guard_or (negb ((majorVersion block =? BLOCK_MAJOR_VERSION_2)
                        && (BLOCK_MAJOR_VERSION_1 <? pb_majorVersion (parentBlock block))))
      PARENT_BLOCK_WRONG_VERSION;
    parent ← of_option (getParentBlockBinaryArray block) Exception;
    guard_or (negb (2048 <? Z.of_nat (length parent))) PARENT_BLOCK_SIZE_TOO_BIG
  else mret tt.

Definition validate_timestamp (block : BlockTemplate) (previousBlockIndex : Z) (c : list segment) : checked unit :=
  let next := u32 (previousBlockIndex + 1) in
  _ ← guard_or (negb (u64 (now + blockFutureTimeLimit cur next) <? timestamp block)) TIMESTAMP_TOO_FAR_IN_FUTURE;
  let window := timestampCheckWindow cur next in
  let timestamps := getLastTimestamps (Z.to_nat window) previousBlockIndex addGenesisBlock c in
  if window <=? Z.of_nat (length timestamps)
  then guard_or (negb (timestamp block <? medianValue timestamps)) TIMESTAMP_TOO_FAR_IN_PAST
  else mret tt.

Definition validate_coinbase (b : CachedBlock) (previousBlockIndex : Z) : checked unit :=
  let baseTransaction := baseTransaction (getBlock b) in
  match inputs baseTransaction with
  | [input] =>
      match input with
      | InBase i =>
          _ ← guard_or (blockIndex i =? u32 (previousBlockIndex + 1)) BASE_INPUT_WRONG_BLOCK_INDEX;
          _ ← guard_or (unlockTime baseTransaction =? u32 (u32 (previousBlockIndex + 1) + m_minedMoneyUnlockWindow cur))
            WRONG_TRANSACTION_UNLOCK_TIME;
          guard_or (negb ((TRANSACTION_SIGNATURE_COUNT_VALIDATION_HEIGHT <=? cb_index b)
                          && negb (bool_decide (length (signatures baseTransaction) = 0%nat))))
            BASE_INVALID_SIGNATURES_COUNT
      | InKey _ => inr INPUT_UNEXPECTED_TYPE
      end
  | _ => inr INPUT_WRONG_COUNT
  end.

(** What the coinbase transaction pays, for a block behind one of the first
    segment of the chain. *)
Definition validateBlock (b : CachedBlock) (c : list segment) : checked Z :=
  match c with
  | [] => inr Exception
  | cache :: _ =>
      let block := getBlock b in
      previousBlockIndex ← of_option (segment_getBlockIndex (previousBlockHash block) cache) Exception;
      _ ← validate_version b;
      _ ← validate_timestamp block previousBlockIndex c;
      _ ← validate_coinbase b previousBlockIndex;
      validate_outputs 0 (outputs (baseTransaction block))
  end.

(** [(transactions, cumulativeSize)]; [None] is [false]. *)
Fixpoint extractTransactions (rawTransactions : list bytes) : option (list CachedTransaction * Z) :=
  match rawTransactions with
  | [] => Some ([], 0)
  | raw :: rawTransactions =>
      if m_maxTxSize cur <? Z.of_nat (length raw) then None
      else
        t ← CachedTransaction_binary raw;
        '(ts, cumulativeSize) ← extractTransactions rawTransactions;
        Some (t :: ts, u64 (Z.of_nat (length raw) + cumulativeSize))
  end.

Fixpoint is_unique_loop (seen : gset Hash) (l : list Hash) : bool :=
  match l with
  | [] => true
  | h :: l => if bool_decide (h ∈ seen) then false else is_unique_loop ({[h]} ∪ seen) l
  end.
Definition is_unique (l : list Hash) : bool := is_unique_loop ∅ l.

(** From the shuffle check height on, the transactions are those the block
    names, in that order. *)
Definition check_shuffle (blockTemplate : BlockTemplate) (blockIndex : Z) (transactions : list CachedTransaction)
    : checked unit :=
  if BLOCK_BLOB_SHUFFLE_CHECK_HEIGHT <=? blockIndex then
    _ ← guard_or (is_unique (transactionHashes blockTemplate)) TRANSACTION_DUPLICATES;
    let hashes := map (getTransactionHash cn_fast_hash) transactions in
    _ ← guard_or (is_unique hashes) TRANSACTION_DUPLICATES;
    _ ← guard_or (forallb (fun h => bool_decide (h ∈ transactionHashes blockTemplate)) hashes)
      TRANSACTION_INCONSISTENCY;
    guard_or (bool_decide (transactionHashes blockTemplate = hashes)) TRANSACTION_INCONSISTENCY
  else mret tt.

Definition check_mixins (blockIndex : Z) (transactions : list CachedTransaction) : checked unit :=
  let mixinChangeWindow :=
    if MEVACOIN_MINED_MONEY_UNLOCK_WINDOW <? blockIndex
    then blockIndex - MEVACOIN_MINED_MONEY_UNLOCK_WINDOW else blockIndex in
  guard_or (Mixins.validate transactions blockIndex || Mixins.validate transactions mixinChangeWindow)
    INVALID_MIXIN.

(** The checkpoints decide in their zone, the work after it. *)
Definition check_work (b : CachedBlock) (currentDifficulty : Z) : checked unit :=
  if isInCheckpointZone (cb_index b) checkpoints
  then guard_or (checkBlock (cb_index b) (getBlockHash b) checkpoints).1 CHECKPOINT_BLOCK_HASH_MISMATCH
  else
    match checkProofOfWork cn_fast_hash cn_slow_hash_v0 cn_lite_slow_hash_v1 cn_turtle_lite_slow_hash_v2
            genesisHash (getBlock b) currentDifficulty with
    | Ok ok => guard_or ok PROOF_OF_WORK_TOO_WEAK
    | _ => inr Exception
    end.

(** What [addBlock] has of a block it goes on to push. *)
Record Accepted := {
  ac_transactions : list CachedTransaction;
  ac_state : TransactionValidatorState;
  ac_size : Z;
  ac_emissionChange : Z;
  ac_difficulty : Z
}.

(** [addBlock] from the segment of the previous block to the proof of work. *)
Definition acceptBlock (b : CachedBlock) (rawBlock : RawBlock) (c : list segment) : checked Accepted :=
  match c with
  | [] => inr REJECTED_AS_ORPHANED
  | cache :: _ =>
      let block := getBlock b in
      '(transactions, cumulativeSize) ← of_option (extractTransactions (rb_transactions rawBlock)) DESERIALIZATION_FAILED;
      let coinbaseTransactionSize :=
        match toBinaryArray serialize_Transaction (baseTransaction block) with
        | Some ba => Z.of_nat (length ba) | None => 2 ^ 64 - 1 end in
      let cumulativeBlockSize := u64 (coinbaseTransactionSize + cumulativeSize) in
      previousBlockIndex ← of_option (segment_getBlockIndex (previousBlockHash block) cache) Exception;
      _ ← guard_or (negb (maxBlockCumulativeSize cur (u32 (previousBlockIndex + 1)) <? cumulativeBlockSize))
        CUMULATIVE_BLOCK_SIZE_TOO_BIG;
      minerReward ← validateBlock b c;
      currentDifficulty ← of_option (getDifficultyForNextBlock cur previousBlockIndex c) UndefinedBehaviour;
      _ ← guard_or (negb (currentDifficulty =? 0)) DIFFICULTY_OVERHEAD;
      _ ← check_shuffle block (cb_index b) transactions;
      _ ← check_mixins (cb_index b) transactions;
      '(cumulativeFee, validatorState) ←
        validate_transactions transactions {| Pool.spentKeyImages := ∅ |} c previousBlockIndex 0;
      alreadyGeneratedCoins ← of_option (getAlreadyGeneratedCoins previousBlockIndex c) Exception;
      let lastBlocksSizes :=
        getLastBlocksSizes (Z.to_nat (m_rewardBlocksWindow cur)) previousBlockIndex addGenesisBlock c in
      '(reward, emissionChange) ←
        of_option (getBlockReward cur (majorVersion block) (medianValue lastBlocksSizes) cumulativeBlockSize
                     alreadyGeneratedCoins cumulativeFee) CUMULATIVE_BLOCK_SIZE_TOO_BIG;
      _ ← guard_or (minerReward =? reward) BLOCK_REWARD_MISMATCH;
      _ ← check_work b currentDifficulty;
      mret {| ac_transactions := transactions; ac_state := validatorState; ac_size := cumulativeBlockSize;
              ac_emissionChange := emissionChange; ac_difficulty := currentDifficulty |}
  end.

(** A block on top of a leaf segment. *)
Definition addBlock_on_top (b : CachedBlock) (rawBlock : RawBlock) (c : list segment) : checked (list segment) :=
  a ← acceptBlock b rawBlock c;
  of_option (doPushBlock cn_fast_hash b (ac_transactions a) (ac_state a) (ac_size a) (ac_emissionChange a)
               (ac_difficulty a) rawBlock c) Exception.
End Transactions.

(** ** What a valid transaction is *)

Section Semantics.
Variable check_key : PublicKey -> bool.
Variable in_prime_subgroup : KeyImage -> bool.

Definition good_output (o : TransactionOutput) : Prop :=
  to_amount o <> 0 /\ match target o with OutKey k => check_key (key k) = true end.

Definition good_input (i : TransactionInput) : Prop :=
  match i with
  | InKey k => outputIndexes k <> [] /\ in_prime_subgroup (keyImage k) = true
               /\ Forall (fun o => o <> 0) (tail (outputIndexes k))
  | InBase _ => False
  end.

Lemma nonzero_forall l : forallb (fun o => negb (o =? 0)) l = true <-> Forall (fun o => o <> 0) l.
Proof.
  induction l as [|o l IH]; cbn; [split; [constructor|done]|].
  by rewrite andb_true_iff, Forall_cons, IH, negb_true_iff, Z.eqb_neq.
Qed.

Lemma validate_outputs_spec outs : Forall (fun o => is_u64 (to_amount o)) outs -> forall acc sum, is_u64 acc ->
  validate_outputs check_key acc outs = inl sum <->
  Forall good_output outs /\ sum = acc + sumZ (map to_amount outs) /\ sum < 2 ^ 64.
Proof.
  induction 1 as [|o outs Ho Houts IH]; intros acc sum Hacc; cbn [validate_outputs map].
  - rewrite Forall_nil. unfold sumZ. cbn. split; [intros [= <-]; mlia|intros (_ & -> & _); f_equal; lia].
  - rewrite !guard_bind_inl, Forall_cons. unfold good_output at 1. destruct (target o) as [k].
    rewrite negb_true_iff, Z.eqb_neq, negb_true_iff, Z.ltb_ge.
    pose proof (sumZ_nonneg (map to_amount outs)
      ltac:(apply Forall_map; exact Houts)). change (sumZ (to_amount o :: ?l)) with (to_amount o + sumZ l).
    destruct (Z_le_gt_dec acc (2 ^ 64 - 1 - to_amount o)) as [Hle|Hgt].
    + rewrite IH by (apply wrap_fits; lia). rewrite wrap_small by mlia. intuition lia.
    + intuition lia.
Qed.

Lemma semantic_inputs_spec ins : Forall (fun i => is_u64 (input_amount i)) ins -> forall seen acc sum, is_u64 acc ->
  semantic_inputs in_prime_subgroup seen acc ins = inl sum <->
  Forall good_input ins /\ NoDup (key_images ins) /\ (forall k, k ∈ key_images ins -> k ∉ seen) /\
  sum = acc + sumZ (map input_amount ins) /\ sum < 2 ^ 64.
Proof.
  induction 1 as [|i ins Hi Hins IH]; intros seen acc sum Hacc; cbn [semantic_inputs map].
  - rewrite Forall_nil. unfold sumZ. cbn. split.
    + intros [= <-]. repeat split; try mlia; [constructor|]. by intros k ?%elem_of_nil.
    + intros (_ & _ & _ & -> & _). f_equal. lia.
  - rewrite Forall_cons. destruct i as [i|i]; cbn [good_input]; [intuition done|].
    rewrite !guard_bind_inl. change (key_images (InKey i :: ins)) with (keyImage i :: key_images ins).
    rewrite NoDup_cons, bool_decide_eq_true, negb_true_iff, bool_decide_eq_false, negb_true_iff, Z.ltb_ge.
    rewrite length_zero_iff_nil, nonzero_forall.
    change (sumZ (input_amount (InKey i) :: ?l)) with (ki_amount i + sumZ l). cbn [input_amount] in Hi.
    pose proof (sumZ_nonneg (map input_amount ins) ltac:(apply Forall_map; exact Hins)).
    assert ((forall k, k ∈ (keyImage i :: key_images ins) -> k ∉ seen) <->
      keyImage i ∉ seen /\ (forall k, k ∈ key_images ins -> k ∉ seen)) as -> by set_solver.
    destruct (Z_le_gt_dec acc (2 ^ 64 - 1 - ki_amount i)) as [Hle|Hgt]; [|intuition lia].
    rewrite IH by (apply wrap_fits; lia). rewrite wrap_small by mlia.
    assert ((forall k, k ∈ key_images ins -> k ∉ {[keyImage i]} ∪ seen) <->
      keyImage i ∉ key_images ins /\ (forall k, k ∈ key_images ins -> k ∉ seen)) as -> by set_solver.
    intuition lia.
Qed.

Lemma validateSemantic_spec (tx : Transaction) fee :
  Forall (fun i => is_u64 (input_amount i)) (inputs tx) -> Forall (fun o => is_u64 (to_amount o)) (outputs tx) ->
  validateSemantic check_key in_prime_subgroup tx = inl fee <->
  inputs tx <> [] /\ Forall good_output (outputs tx) /\ Forall good_input (inputs tx) /\
  NoDup (key_images (inputs tx)) /\ sumZ (map input_amount (inputs tx)) < 2 ^ 64 /\ 0 <= fee /\
  sumZ (map input_amount (inputs tx)) = sumZ (map to_amount (outputs tx)) + fee.
Proof.
  intros Hi Ho. unfold validateSemantic.
  rewrite guard_bind_inl, negb_true_iff, bool_decide_eq_false, length_zero_iff_nil, checked_bind_inl.
  setoid_rewrite checked_bind_inl. setoid_rewrite guard_bind_inl.
  setoid_rewrite validate_outputs_spec; [|done|mlia]. setoid_rewrite semantic_inputs_spec; [|done|mlia].
  setoid_rewrite negb_true_iff. setoid_rewrite Z.ltb_ge.
  assert (0 <= sumZ (map to_amount (outputs tx))) by by apply sumZ_nonneg, Forall_map.
  split.
  - intros (? & so & (? & -> & ?) & si & (? & ? & _ & -> & ?) & ? & [= <-]).
    rewrite wrap_small by mlia. intuition lia.
  - intros (? & ? & ? & ? & ? & ? & ?). split; [done|]. eexists. split; [split; [done|split; [done|lia]]|].
    eexists. split; [split; [done|split; [done|split; [set_solver|split; [done|lia]]]]|]. split; [lia|].
    unfold mret, checked_ret. f_equal. rewrite wrap_small by mlia. lia.
Qed.
End Semantics.

(** ** Rings *)

Section Rings.
Variables (cur : Currency) (now : Z).

(** A ring member: an output of the chain with the amount, whose transaction
    is unlocked. *)
Definition ring_member (a i : Z) (c : list segment) (g : Z) (k : PublicKey) : Prop :=
  exists place info o,
    chain_outputs a c !! Z.to_nat g = Some place /\
    find_in_block (poi_blockIndex place) (poi_transactionIndex place) (chain_txs c) = Some info /\
    isTransactionSpendTimeUnlocked cur now (cti_unlockTime info) i = true /\
    cti_outputs info !! Z.to_nat (poi_outputIndex place) = Some (OutKey o) /\ key o = k.

#[local] Ltac no_member :=
  split; [discriminate|intros (k & r & _ & (p & inf & o & ? & ? & ? & ? & ?) & _); congruence].

Lemma extract_loop_members a i c gs : Forall is_u32 gs -> forall keys,
  extract_loop (key_of_output cur now i) 0 (chain_outputs a c) (chain_txs c) gs = inl keys <->
  Forall2 (ring_member a i c) gs keys.
Proof.
  induction 1 as [|g gs Hg Hgs IH]; intros keys; cbn [extract_loop].
  - split; [intros [= <-]; constructor|by intros ->%Forall2_nil_inv_l].
  - transitivity (exists k rest, keys = k :: rest /\ ring_member a i c g k /\
      extract_loop (key_of_output cur now i) 0 (chain_outputs a c) (chain_txs c) gs = inl rest).
    + clear IH. unfold ring_member, key_of_output. rewrite Z.sub_0_r, wrap_small by mlia.
      destruct (_ !! _) as [place|]; [|no_member].
      destruct (find_in_block _ _ _) as [info|] eqn:E; [|no_member].
      destruct (isTransactionSpendTimeUnlocked _ _ _ _) eqn:Eu; cbn [negb]; [|no_member].
      destruct (cti_outputs info !! _) as [[o]|] eqn:Eo; [|no_member].
      destruct (extract_loop _ _ _ _ _) as [rest|]; [|split; [done|naive_solver]].
      split; [intros [= <-]; repeat (eexists || done || split)|].
      intros (k & r & -> & (p & inf & o' & ? & ? & ? & ? & ?) & ?). congruence.
    + setoid_rewrite IH. split; [intros (k & r & -> & ? & ?); by constructor|].
      intros (k & r & ? & ? & ->)%Forall2_cons_inv_l. eauto.
Qed.

(** The indexes of a ring, when their sum fits, go up. *)
Lemma absolute_sorted offsets : forall previous, 0 <= previous ->
  Forall is_u32 offsets -> Forall (fun o => o <> 0) offsets -> previous + sumZ offsets < 2 ^ 32 ->
  Forall (fun g => previous < g) (absolute_indexes previous offsets) /\
  StronglySorted Z.lt (absolute_indexes previous offsets).
Proof.
  induction offsets as [|o offsets IH]; intros p Hp Hu Hn Hs; cbn [absolute_indexes].
  - split; constructor.
  - apply Forall_cons in Hu as [Ho Hu], Hn as [Hno Hn].
    change (sumZ (o :: offsets)) with (o + sumZ offsets) in Hs.
    assert (0 <= sumZ offsets) by (clear -Hu; induction Hu as [|x l [??]]; cbn; unfold sumZ in *; lia).
    rewrite wrap_small by mlia. destruct (IH (p + o)) as [IH1 IH2]; [mlia|done..|lia|].
    split; constructor; try done; [mlia|]. eapply Forall_impl; [exact IH1|]. mlia.
Qed.

Lemma ring_sorted offsets : offsets <> [] -> Forall is_u32 offsets ->
  Forall (fun o => o <> 0) (tail offsets) -> sumZ offsets < 2 ^ 32 ->
  StronglySorted Z.lt (absolute_indexes 0 offsets).
Proof.
  destruct offsets as [|o offsets]; [done|]. intros _ [Ho Hu]%Forall_cons Hn Hs.
  change (sumZ (o :: offsets)) with (o + sumZ offsets) in Hs. cbn [absolute_indexes].
  rewrite Z.add_0_l, wrap_small by mlia. destruct (absolute_sorted offsets o) as [H1 H2]; [mlia|done..|].
  by constructor.
Qed.

Lemma absolute_range offsets : forall p, Forall is_u32 (absolute_indexes p offsets).
Proof. induction offsets; intros p; constructor; [apply wrap_fits; lia|done]. Qed.

Lemma absolute_length offsets : forall p, length (absolute_indexes p offsets) = length offsets.
Proof. induction offsets; intros p; cbn; auto. Qed.
End Rings.

(** ** Correctness of the transaction checks *)

Lemma tx_input_amounts (tx : Transaction) : is_Transaction tx -> Forall (fun i => is_u64 (input_amount i)) (inputs tx).
Proof.
  intros [[_ [_ [_ Hi] _ _]] _]. eapply Forall_impl; [exact Hi|]. intros [i|i]; cbn; [mlia|by intros []].
Qed.

Lemma tx_output_amounts (tx : Transaction) : is_Transaction tx -> Forall (fun o => is_u64 (to_amount o)) (outputs tx).
Proof. intros [[_ [_ _ [_ Ho] _]] _]. eapply Forall_impl; [exact Ho|]. by intros o []. Qed.

(** C8. [validateSemantic] accepts a transaction exactly when it has inputs,
    every output is positive and on the curve, every input spends from a
    non-empty ring without repetition with a key image in the prime-order
    subgroup, no key image occurs twice, the two totals fit in 64 bits and the
    outputs do not exceed the inputs; the fee is the exact difference. *)
Theorem validateSemantic_exact check_key in_prime_subgroup (tx : Transaction) fee :
  is_Transaction tx ->
  validateSemantic check_key in_prime_subgroup tx = inl fee <->
  inputs tx <> [] /\ Forall (good_output check_key) (outputs tx) /\
  Forall (good_input in_prime_subgroup) (inputs tx) /\ NoDup (key_images (inputs tx)) /\
  sumZ (map input_amount (inputs tx)) < 2 ^ 64 /\ 0 <= fee /\
  sumZ (map input_amount (inputs tx)) = sumZ (map to_amount (outputs tx)) + fee.
Proof. intros Hwf. apply validateSemantic_spec; [by apply tx_input_amounts|by apply tx_output_amounts]. Qed.

Section Validated.
Variable check_key : PublicKey -> bool.
Variable in_prime_subgroup : KeyImage -> bool.
Variable cn_fast_hash : bytes -> Hash.
Variable checkRingSignature : Hash -> KeyImage -> list PublicKey -> list Signature -> bool.
Variables (cur : Currency) (checkpoints : gmap Z Hash) (now : Z).

Abbreviation check_input := (validate_input cn_fast_hash checkRingSignature cur now).
Abbreviation check_inputs := (validate_inputs cn_fast_hash checkRingSignature cur checkpoints now).

(** What a key input needs outside the checkpoint zone. *)
Definition input_valid (t : CachedTransaction) (c : list segment) (i : Z) (n : nat) (input : KeyInput) : Prop :=
  checkIfSpent (keyImage input) i c = false /\
  exists keys sigs,
    extractKeyOutputKeys cur now (ki_amount input) i (absolute_indexes 0 (outputIndexes input)) c = inl keys /\
    signatures (getTransaction t) !! n = Some sigs /\
    (TRANSACTION_SIGNATURE_COUNT_VALIDATION_HEIGHT <= i -> length keys = length sigs) /\
    checkRingSignature (getTransactionPrefixHash cn_fast_hash t) (keyImage input) keys sigs = true.

Lemma validate_input_spec t c i n input : check_input t c i n input = inl tt <-> input_valid t c i n input.
Proof.
  unfold validate_input, input_valid. rewrite guard_bind_inl, negb_true_iff.
  destruct (extractKeyOutputKeys _ _ _ _ _ _) as [keys|[]]; cbn [mbind checked_bind mret checked_ret];
    [|naive_solver..].
  setoid_rewrite option_bind_inl. setoid_rewrite guard_bind_inl. setoid_rewrite guard_or_inl.
  setoid_rewrite negb_true_iff. setoid_rewrite andb_false_iff.
  setoid_rewrite Z.leb_gt. setoid_rewrite negb_false_iff. setoid_rewrite bool_decide_eq_true.
  split.
  - intros (? & sigs & ? & ? & ?). split; [done|]. exists keys, sigs. intuition lia.
  - intros (? & keys' & sigs & [= ->] & ? & Hl & ?). split; [done|]. exists sigs.
    destruct (Z_lt_le_dec i TRANSACTION_SIGNATURE_COUNT_VALIDATION_HEIGHT); intuition.
Qed.

Lemma validate_inputs_spec t c i ins : forall n st st',
  check_inputs t c i n st ins = inl st' <->
  Forall (fun x => exists k, x = InKey k) ins /\ NoDup (key_images ins) /\
  (forall k, k ∈ key_images ins -> k ∉ st) /\ st' = list_to_set (key_images ins) ∪ st /\
  (isInCheckpointZone (u32 (i + 1)) checkpoints = false ->
   forall j k, ins !! j = Some (InKey k) -> input_valid t c i (n + j) k).
Proof.
  induction ins as [|x ins IH]; intros n st st'; cbn [validate_inputs].
  - split; [intros [= <-]|intros (_ & _ & _ & -> & _); cbn; f_equal; set_solver].
    split; [constructor|]. split; [constructor|]. split; [set_solver|]. split; [cbn; set_solver|done].
  - rewrite Forall_cons. destruct x as [b|k]; [naive_solver|].
    change (key_images (InKey k :: ins)) with (keyImage k :: key_images ins).
    rewrite guard_bind_inl, checked_bind_inl, bool_decide_eq_true, NoDup_cons.
    assert ((exists a, (if isInCheckpointZone (u32 (i + 1)) checkpoints then mret tt
       else check_input t c i n k) = inl a) <->
      (isInCheckpointZone (u32 (i + 1)) checkpoints = false -> input_valid t c i n k)) as Hone.
    { destruct (isInCheckpointZone _ _); [naive_solver|]. rewrite <- validate_input_spec.
      split; [intros [[] ?]; done|naive_solver]. }
    assert ((exists a, (if isInCheckpointZone (u32 (i + 1)) checkpoints then mret tt
       else check_input t c i n k) = inl a /\ check_inputs t c i (S n) ({[keyImage k]} ∪ st) ins = inl st') <->
      (isInCheckpointZone (u32 (i + 1)) checkpoints = false -> input_valid t c i n k) /\
      check_inputs t c i (S n) ({[keyImage k]} ∪ st) ins = inl st') as -> by (rewrite <- Hone; naive_solver).
    rewrite IH. clear IH Hone. split.
    + intros (Hk & Hv & Hf & Hnd & Hd & -> & Hvs).
      split; [split; [by eexists|done]|]. split; [split; [set_solver|done]|].
      split; [set_solver|]. split; [cbn; set_solver|].
      intros Hz [|j] k'; cbn; [intros [= <-]; rewrite Nat.add_0_r; auto|].
      replace (n + S j)%nat with (S n + j)%nat by lia. auto.
    + intros ([_ Hf] & [Hn Hnd] & Hd & -> & Hv). split; [set_solver|]. split; [|split; [done|]; split; [done|];
        split; [set_solver|]; split; [cbn; set_solver|]].
      * intros Hz. specialize (Hv Hz 0%nat k eq_refl). by rewrite Nat.add_0_r in Hv.
      * intros Hz j k' Hj. replace (S n + j)%nat with (n + S j)%nat by lia. by apply Hv.
Qed.

(** What [validateTransaction] establishes of one input. *)
Lemma input_valid_ring t s c i n input :
  chain_wf (s :: c) -> startIndex s <= i < height (s :: c) -> is_KeyInput input ->
  good_input in_prime_subgroup (InKey input) -> input_valid t (s :: c) i n input ->
  (forall b, chain_spent (s :: c) !! keyImage input = Some b -> i < b) /\
  exists keys sigs,
    signatures (getTransaction t) !! n = Some sigs /\
    checkRingSignature (getTransactionPrefixHash cn_fast_hash t) (keyImage input) keys sigs = true /\
    (sumZ (outputIndexes input) < 2 ^ 32 ->
     Forall2 (ring_member cur now (ki_amount input) i (s :: c)) (absolute_indexes 0 (outputIndexes input)) keys).
Proof.
  intros Hwf Hi [_ [_ Hu] _] (Hne & _ & Hn) (Hs & keys & sigs & Hk & Hsig & _ & Hring). split.
  - intros b Hb. rewrite checkIfSpent_flat, Hb in Hs by done. by apply Z.leb_gt.
  - exists keys, sigs. split; [done|]. split; [done|]. intros Hsum.
    rewrite <- extract_loop_members by apply absolute_range. rewrite <- Hk. symmetry.
    unfold extractKeyOutputKeys. apply extractKeyOutputs_flat; try done; [lia| |by apply ring_sorted|apply absolute_range].
    by destruct (outputIndexes input).
Qed.

Lemma validateTransaction_spec t state c i fee state' : is_Transaction (getTransaction t) ->
  validateTransaction check_key in_prime_subgroup cn_fast_hash checkRingSignature cur checkpoints now
    t state c i = inl (fee, state') <->
  validateSemantic check_key in_prime_subgroup (getTransaction t) = inl fee /\
  (forall k, k ∈ spent t -> k ∉ Pool.spentKeyImages state) /\
  Pool.spentKeyImages state' = list_to_set (spent t) ∪ Pool.spentKeyImages state /\
  (isInCheckpointZone (u32 (i + 1)) checkpoints = false ->
   forall j k, inputs (getTransaction t) !! j = Some (InKey k) -> input_valid t c i j k).
Proof.
  intros Hwf. unfold validateTransaction. rewrite checked_bind_inl. split.
  - intros (f & Hf & Hv). apply checked_bind_inl in Hv as (st & Hv & [= <- <-]).
    by apply validate_inputs_spec in Hv as (? & ? & ? & -> & ?).
  - intros (Hf & Hd & Hst & Hv). exists fee. split; [done|]. apply checked_bind_inl. eexists.
    rewrite validate_inputs_spec. split.
    + pose proof Hf as Hs. apply validateSemantic_spec in Hs as (_ & _ & Hg & Hnd & _);
        [|by apply tx_input_amounts|by apply tx_output_amounts].
      split; [|done]. eapply Forall_impl; [exact Hg|]. intros [b|k]; [done|by eexists].
    + destruct state'. cbn in Hst. by rewrite Hst.
Qed.
End Validated.

(** C7. A transaction that [validateTransaction] accepts behind block [i] of a
    well-formed chain balances exactly, spends key images that are pairwise
    distinct and new to the block, which it adds to the block's state; and
    outside the checkpoint zone each of its key images is unspent in the chain
    up to [i], and each ring, unless its indexes exceed 32 bits, consists of
    outputs of that amount in the chain that are unlocked, over which the
    signature verifies. *)
Theorem validateTransaction_sound check_key in_prime_subgroup cn_fast_hash checkRingSignature cur checkpoints now
    t state s c i fee state' :
  is_Transaction (getTransaction t) -> chain_wf (s :: c) -> startIndex s <= i < height (s :: c) ->
  validateTransaction check_key in_prime_subgroup cn_fast_hash checkRingSignature cur checkpoints now
    t state (s :: c) i = inl (fee, state') ->
  sumZ (map input_amount (inputs (getTransaction t))) = sumZ (map to_amount (outputs (getTransaction t))) + fee /\
  0 <= fee < 2 ^ 64 /\ NoDup (spent t) /\
  (forall k, k ∈ spent t -> k ∉ Pool.spentKeyImages state) /\
  Pool.spentKeyImages state' = list_to_set (spent t) ∪ Pool.spentKeyImages state /\
  (isInCheckpointZone (i + 1) checkpoints = false -> forall n input,
   inputs (getTransaction t) !! n = Some (InKey input) ->
   (forall b, chain_spent (s :: c) !! keyImage input = Some b -> i < b) /\
   exists keys sigs,
     signatures (getTransaction t) !! n = Some sigs /\
     checkRingSignature (getTransactionPrefixHash cn_fast_hash t) (keyImage input) keys sigs = true /\
     (sumZ (outputIndexes input) < 2 ^ 32 ->
      Forall2 (ring_member cur now (ki_amount input) i (s :: c)) (absolute_indexes 0 (outputIndexes input)) keys)).
Proof.
  intros Hwf Hc Hi Hv. apply validateTransaction_spec in Hv as (Hf & Hd & Hst & Hin); [|done].
  apply validateSemantic_spec in Hf as (_ & _ & Hg & Hnd & Hlt & Hfee & Hsum);
    [|by apply tx_input_amounts|by apply tx_output_amounts].
  assert (0 <= sumZ (map to_amount (outputs (getTransaction t)))) by by apply sumZ_nonneg, Forall_map, tx_output_amounts.
  split; [done|]. split; [lia|]. repeat (split; [done|]). intros Hz n input Hn.
  pose proof (wf_height _ _ (proj1 Hc)). pose proof (height_nonneg c). pose proof (wf_start _ _ (proj1 Hc)).
  rewrite wrap_small in Hin by mlia.
  eapply input_valid_ring; [done|lia| |by eapply (Forall_lookup_1 _ _ _ _ Hg)|by apply Hin].
  destruct Hwf as [[_ [_ [_ Hins] _ _]] _]. exact (Forall_lookup_1 _ _ _ _ Hins Hn).
Qed.


(** ** Correctness of the block checks *)

Lemma chain_spent_range c k b : chain_wf c -> chain_spent c !! k = Some b -> 0 <= b < height c.
Proof.
  induction c as [|s c IH]; [done|]. intros [Hs Hc]. cbn [chain_spent]. rewrite height_cons.
  pose proof (height_nonneg c) as Hn. rewrite lookup_union_Some_raw. intros [H|[_ H]].
  - apply (wf_spent _ _ Hs) in H as [H _]. unfold in_segment in H. rewrite (wf_start _ _ Hs) in H. lia.
  - specialize (IH Hc H). lia.
Qed.

(** What a transaction leaves to the miner. *)
Definition tx_fee (t : CachedTransaction) : Z :=
  sumZ (map input_amount (inputs (getTransaction t))) - sumZ (map to_amount (outputs (getTransaction t))).

Section Accepted.
Variable check_key : PublicKey -> bool.
Variable in_prime_subgroup : KeyImage -> bool.
Variable cn_fast_hash : bytes -> Hash.
Variable checkRingSignature : Hash -> KeyImage -> list PublicKey -> list Signature -> bool.
Variables (cur : Currency) (checkpoints : gmap Z Hash) (now : Z).

Abbreviation check_transactions :=
  (validate_transactions check_key in_prime_subgroup cn_fast_hash checkRingSignature cur checkpoints now).

Lemma validate_transactions_spec c i ts : Forall (fun t => is_Transaction (getTransaction t)) ts ->
  forall state fee fee' state', is_u64 fee ->
  check_transactions ts state c i fee = inl (fee', state') ->
  NoDup (ts ≫= spent) /\ (forall k, k ∈ ts ≫= spent -> k ∉ Pool.spentKeyImages state) /\
  Pool.spentKeyImages state' = list_to_set (ts ≫= spent) ∪ Pool.spentKeyImages state /\
  Forall (fun t => 0 <= tx_fee t) ts /\ fee' = u64 (fee + sumZ (map tx_fee ts)) /\
  (isInCheckpointZone (u32 (i + 1)) checkpoints = false -> Forall (fun t => forall j k,
    inputs (getTransaction t) !! j = Some (InKey k) ->
    input_valid cn_fast_hash checkRingSignature cur now t c i j k) ts).
Proof.
  induction 1 as [|t ts Ht Hts IH]; intros state fee fee' state' Hfee; cbn [validate_transactions].
  - intros [= <- <-]. cbn. rewrite Z.add_0_r, wrap_small by done.
    repeat (split; [constructor || set_solver|]). done.
  - intros ([f st1] & H1 & H2)%checked_bind_inl.
    apply validateTransaction_spec in H1 as (Hs & Hd & Hst & Hin); [|done].
    apply validateSemantic_spec in Hs as (_ & _ & _ & Hnd & _ & Hf & Hsum);
      [|by apply tx_input_amounts|by apply tx_output_amounts].
    apply IH in H2 as (IH1 & IH2 & IH3 & IH4 & -> & IH6); [|apply wrap_fits; lia].
    rewrite Hst in *. assert (tx_fee t = f) as Ef by (unfold tx_fee; lia). cbn [mbind list_bind map].
    split; [apply NoDup_app; set_solver|]. split; [set_solver|].
    split; [rewrite IH3, list_to_set_app_L; set_solver|]. split; [constructor; [lia|done]|]. split.
    + change (sumZ (tx_fee t :: ?l)) with (tx_fee t + sumZ l). rewrite Ef, wrap_add_l by lia. f_equal. lia.
    + intros Hz. constructor; auto.
Qed.

Lemma extractTransactions_spec raws : forall ts size,
  Forall (fun raw => is_bytes raw /\ Z.of_nat (length raw) < 2 ^ 64) raws ->
  extractTransactions cur raws = Some (ts, size) ->
  map getTransactionBinaryArray ts = raws /\ Forall is_CachedTransaction ts.
Proof.
  induction raws as [|raw raws IH]; intros ts size Hb; cbn [extractTransactions].
  - intros [= <- <-]. done.
  - apply Forall_cons in Hb as [[Hb Hl] Hbs]. destruct (_ <? _); [done|].
    destruct (CachedTransaction_binary raw) as [t|] eqn:E; [|done]. cbn [mbind option_bind].
    destruct (extractTransactions cur raws) as [[ts' size']|] eqn:E'; [|done]. intros [= <- _].
    apply CachedTransaction_binary_ok in E as [Ht Er]; [|done..].
    destruct (IH ts' size' Hbs eq_refl) as [IH1 IH2]. cbn. by rewrite Er, IH1; split; [|constructor].
Qed.

Variables cn_slow_hash_v0 cn_lite_slow_hash_v1 cn_turtle_lite_slow_hash_v2 : bytes -> Hash.
Variable genesisHash : Hash.

Abbreviation accept := (acceptBlock check_key in_prime_subgroup cn_fast_hash checkRingSignature cur checkpoints now
  cn_slow_hash_v0 cn_lite_slow_hash_v1 cn_turtle_lite_slow_hash_v2 genesisHash).

(** What [addBlock] knows of a block it accepts behind block [i] of the first
    segment of [c]. *)
Record acceptance (b : CachedBlock) (raw : RawBlock) (c : list segment) (i : Z) (a : Accepted) : Prop := {
  acc_extract : exists size, extractTransactions cur (rb_transactions raw) = Some (ac_transactions a, size);
  acc_version : Upgrades.getBlockMajorVersion (cb_index b) (Upgrades.core_upgrades cur) = majorVersion (getBlock b);
  acc_timestamp : validate_timestamp cur now (getBlock b) i c = inl tt;
  acc_coinbase : validate_coinbase cur b i = inl tt;
  acc_difficulty : getDifficultyForNextBlock cur i c = Some (ac_difficulty a) /\ ac_difficulty a <> 0;
  acc_shuffle : check_shuffle cn_fast_hash (getBlock b) (cb_index b) (ac_transactions a) = inl tt;
  acc_mixins : check_mixins (cb_index b) (ac_transactions a) = inl tt;
  acc_reward : exists fee coins reward,
    check_transactions (ac_transactions a) {| Pool.spentKeyImages := ∅ |} c i 0 = inl (fee, ac_state a) /\
    getAlreadyGeneratedCoins i c = Some coins /\
    getBlockReward cur (majorVersion (getBlock b))
      (medianValue (getLastBlocksSizes (Z.to_nat (m_rewardBlocksWindow cur)) i true c)) (ac_size a) coins fee
      = Some (reward, ac_emissionChange a) /\
    validate_outputs check_key 0 (outputs (baseTransaction (getBlock b))) = inl reward;
  acc_work : check_work cn_fast_hash checkpoints cn_slow_hash_v0 cn_lite_slow_hash_v1 cn_turtle_lite_slow_hash_v2
    genesisHash b (ac_difficulty a) = inl tt
}.

Lemma acceptBlock_inv b raw s c i a :
  segment_getBlockIndex (previousBlockHash (getBlock b)) s = Some i ->
  accept b raw (s :: c) = inl a -> acceptance b raw (s :: c) i a.
Proof.
  intros Hi. unfold acceptBlock. rewrite !Hi.
  rewrite option_bind_inl. intros ([ts size] & Hts & H). rewrite option_bind_inl in H.
  destruct H as (? & [= <-] & H). rewrite guard_bind_inl in H. destruct H as [_ H].
  rewrite checked_bind_inl in H. destruct H as (minerReward & Hblock & H).
  rewrite option_bind_inl in H. destruct H as (d & Hd & H).
  rewrite guard_bind_inl, checked_bind_inl in H. destruct H as (Hd0 & [] & Hsh & H).
  rewrite checked_bind_inl in H. destruct H as ([] & Hmix & H).
  rewrite checked_bind_inl in H. destruct H as ([fee st] & Hvt & H).
  rewrite option_bind_inl in H. destruct H as (coins & Hcoins & H).
  rewrite option_bind_inl in H. destruct H as ([reward change] & Hr & H).
  rewrite guard_bind_inl, checked_bind_inl in H. destruct H as (Heq & [] & Hwork & [= <-]).
  unfold validateBlock in Hblock. rewrite Hi in Hblock. cbn [of_option mbind checked_bind] in Hblock.
  apply checked_bind_inl in Hblock as ([] & Hv & Hblock).
  apply checked_bind_inl in Hblock as ([] & Htime & Hblock).
  apply checked_bind_inl in Hblock as ([] & Hbase & Hout).
  unfold validate_version in Hv. rewrite guard_bind_inl in Hv. destruct Hv as [Hv _].
  apply Z.eqb_eq in Hv, Heq. subst. apply negb_true_iff, Z.eqb_neq in Hd0.
  split; cbn [ac_transactions ac_state ac_size ac_emissionChange ac_difficulty]; eauto 10.
Qed.

(** Where the block comes from. *)
Lemma coinbase_index b i : validate_coinbase cur b i = inl tt -> cb_index b = u32 (i + 1).
Proof.
  unfold validate_coinbase, cb_index, getBlockIndex.
  destruct (inputs _) as [|[k|k] [|]]; try done. rewrite guard_bind_inl. by intros [?%Z.eqb_eq _].
Qed.

(** Outside the checkpoint zone the work is there. *)
Lemma check_work_done b d : isInCheckpointZone (cb_index b) checkpoints = false ->
  check_work cn_fast_hash checkpoints cn_slow_hash_v0 cn_lite_slow_hash_v1 cn_turtle_lite_slow_hash_v2
    genesisHash b d = inl tt ->
  checkProofOfWork cn_fast_hash cn_slow_hash_v0 cn_lite_slow_hash_v1 cn_turtle_lite_slow_hash_v2
    genesisHash (getBlock b) d = Ok true.
Proof.
  unfold check_work. intros ->. destruct (checkProofOfWork _ _ _ _ _ _ _) as [[]|]; done.
Qed.

(** The key images of an accepted block are new to the chain. *)
Lemma accepted_fresh s c i ts : chain_wf (s :: c) -> i = height (s :: c) - 1 ->
  Forall (fun t => forall j k, inputs (getTransaction t) !! j = Some (InKey k) ->
    input_valid cn_fast_hash checkRingSignature cur now t (s :: c) i j k) ts ->
  forall k, k ∈ ts ≫= spent -> chain_spent (s :: c) !! k = None.
Proof.
  intros Hwf -> Hv k (t & Hk & Ht)%list_elem_of_bind. rewrite Forall_forall in Hv.
  apply list_elem_of_omap in Hk as ([?|input] & Hin & [= <-]).
  apply list_elem_of_lookup_1 in Hin as [j Hj]. destruct (Hv t Ht j input Hj) as [Hs _].
  destruct (chain_spent (s :: c) !! keyImage input) as [b'|] eqn:E; [|done].
  apply chain_spent_range in E as Hr; [|done]. rewrite checkIfSpent_flat, E in Hs by done.
  apply Z.leb_gt in Hs. lia.
Qed.
End Accepted.

(** C6. A block that [addBlock] accepts on top of a leaf, outside the
    checkpoint zone, extends the chain: the result is a well-formed chain with
    the block at its end; the transactions pushed are those of the raw block;
    their key images are pairwise distinct, were unspent in the whole chain and
    are spent at the new height now, and no other key image changes; the
    coinbase pays exactly the reward that [getBlockReward] computes from the
    fees; and the proof of work meets the chain's difficulty, which is not
    zero. *)
Theorem addBlock_extends check_key in_prime_subgroup cn_fast_hash checkRingSignature cur checkpoints now
    cn_slow_hash_v0 cn_lite_slow_hash_v1 cn_turtle_lite_slow_hash_v2 genesisHash b base raw s c chain :
  chain_wf (s :: c) -> height (s :: c) + 1 < 2 ^ 32 ->
  segment_getBlockIndex (previousBlockHash (getBlock b)) s = Some (height (s :: c) - 1) ->
  isInCheckpointZone (height (s :: c)) checkpoints = false ->
  CachedTransaction_object (baseTransaction (getBlock b)) = Some base ->
  is_Transaction (baseTransaction (getBlock b)) ->
  Forall (fun raw => is_bytes raw /\ Z.of_nat (length raw) < 2 ^ 64) (rb_transactions raw) ->
  (forall ts size a, extractTransactions cur (rb_transactions raw) = Some (ts, size) ->
    Z.of_nat (length (chain_outputs a (s :: c)) + outputs_count (base :: ts)) < 2 ^ 32) ->
  addBlock_on_top check_key in_prime_subgroup cn_fast_hash checkRingSignature cur checkpoints now
    cn_slow_hash_v0 cn_lite_slow_hash_v1 cn_turtle_lite_slow_hash_v2 genesisHash b raw (s :: c) = inl chain ->
  exists s' ts info size coins change difficulty,
    chain = s' :: c /\ chain_wf (s' :: c) /\
    chain_blocks (s' :: c) = chain_blocks (s :: c) ++ [info] /\ blockHash info = getBlockHash b /\
    map getTransactionBinaryArray ts = rb_transactions raw /\ NoDup (ts ≫= spent) /\
    (forall k, k ∈ ts ≫= spent -> chain_spent (s :: c) !! k = None) /\
    (forall k, chain_spent (s' :: c) !! k =
      if decide (k ∈ ts ≫= spent) then Some (height (s :: c)) else chain_spent (s :: c) !! k) /\
    getAlreadyGeneratedCoins (height (s :: c) - 1) (s :: c) = Some coins /\
    getBlockReward cur (majorVersion (getBlock b))
      (medianValue (getLastBlocksSizes (Z.to_nat (m_rewardBlocksWindow cur)) (height (s :: c) - 1) true (s :: c)))
      size coins (u64 (sumZ (map tx_fee ts)))
      = Some (sumZ (map to_amount (outputs (baseTransaction (getBlock b)))), change) /\
    getDifficultyForNextBlock cur (height (s :: c) - 1) (s :: c) = Some difficulty /\ difficulty <> 0 /\
    checkProofOfWork cn_fast_hash cn_slow_hash_v0 cn_lite_slow_hash_v1 cn_turtle_lite_slow_hash_v2
      genesisHash (getBlock b) difficulty = Ok true.
Proof.
  intros Hwf Hh Hprev Hzone Hbase Hbtx Hraw Hbound (a & Ha & Hpush)%checked_bind_inl.
  apply of_option_inl in Hpush. pose proof (acceptBlock_inv _ _ _ _ _ _ _ _ _ _ _ _ _ _ _ _ _ Hprev Ha) as H.
  destruct H as [[size Hex] _ _ Hcb [Hd Hd0] _ _ (fee & coins & reward & Hts & Hcoins & Hr & Hout) Hw].
  apply coinbase_index in Hcb as Hidx. pose proof (height_nonneg (s :: c)).
  rewrite Z.sub_add, wrap_small in Hidx by mlia. apply check_work_done in Hw; [|by rewrite Hidx].
  apply extractTransactions_spec in Hex as Hex2; [|done]. destruct Hex2 as [Hmap Htx].
  apply validate_transactions_spec in Hts as (Hnd & _ & Hst & _ & -> & Hin);
    [|eapply Forall_impl; [exact Htx|by intros t []]|mlia].
  rewrite Z.sub_add, wrap_small in Hin by mlia. cbn in Hst. rewrite union_empty_r_L in Hst.
  pose proof (accepted_fresh _ _ _ _ s c _ _ Hwf eq_refl (Hin Hzone)) as Hfresh.
  apply validate_outputs_spec in Hout as (_ & Hrew & _); [|by apply tx_output_amounts|mlia].
  destruct (push_block_exists cn_fast_hash s c b base (ac_transactions a) (ac_state a) (ac_size a)
    (ac_emissionChange a) (ac_difficulty a) raw) as (s' & Hpush' & Hwf' & Hblocks & _ & Hspent & _);
    [done..| |by intros; eapply Hbound|].
  { intros k. rewrite Hst, elem_of_list_to_set. apply Hfresh. }
  rewrite Hpush' in Hpush. injection Hpush as <-.
  rewrite Hrew, Z.add_0_l in Hr.
  exists s', (ac_transactions a). eexists _, (ac_size a), coins, (ac_emissionChange a), (ac_difficulty a).
  do 2 (split; [done|]). split; [exact Hblocks|]. split; [by unfold block_info; destruct (last _)|].
  do 3 (split; [done|]). split; [|done]. intros k. rewrite Hspent, Hst.
  apply decide_ext, elem_of_list_to_set.
Qed.

(** ** A block *)

(** Oracles that accept everything, to run the checks. *)
Definition any_key (k : PublicKey) : bool := true.
Definition any_signature (h : Hash) (i : KeyImage) (ks : list PublicKey) (s : list Signature) : bool := true.
Definition no_hash (b : bytes) : Hash := NULL_HASH.

Definition spend_tx : CachedTransaction :=
  let tx := {| tx_prefix := {| version := 1; unlockTime := 0; inputs := [InKey {| ki_amount := 5;
         outputIndexes := [0; 2]; keyImage := replicate 32 9 |}];
         outputs := [{| to_amount := 3; target := OutKey {| key := replicate 32 4 |} |}];
         extra := [] |};
       signatures := [[replicate 64 6; replicate 64 7]] |} in
  {| getTransaction := tx; getTransactionBinaryArray := default [] (toBinaryArray serialize_Transaction tx) |}.

Definition next_block : CachedBlock :=
  {| getBlock :=
       {| header := {| majorVersion := 3; minorVersion := 0; nonce := 7; timestamp := 40;
            previousBlockHash := replicate 32 3 |};
          parentBlock := parentBlock sample_block;
          baseTransaction := {| tx_prefix := {| version := 1; unlockTime := 23; inputs := [InBase {| blockIndex := 3 |}];
            outputs := [{| to_amount := 37252904; target := OutKey {| key := replicate 32 4 |} |}]; extra := [] |};
            signatures := [] |};
          transactionHashes := [replicate 32 8] |};
     getBlockHash := replicate 32 5 |}.
Definition next_base : CachedTransaction :=
  {| getTransaction := baseTransaction (getBlock next_block);
     getTransactionBinaryArray :=
       default [] (toBinaryArray serialize_Transaction (baseTransaction (getBlock next_block))) |}.
Definition next_raw : RawBlock := {| rb_block := []; rb_transactions := [getTransactionBinaryArray spend_tx] |}.

Lemma validateSemantic_exact_witness :
  validateSemantic any_key any_key (getTransaction spend_tx) = inl 2 <->
  inputs (getTransaction spend_tx) <> [] /\
  Forall (good_output any_key) (outputs (getTransaction spend_tx)) /\
  Forall (good_input any_key) (inputs (getTransaction spend_tx)) /\
  NoDup (key_images (inputs (getTransaction spend_tx))) /\
  sumZ (map input_amount (inputs (getTransaction spend_tx))) < 2 ^ 64 /\ 0 <= 2 /\
  sumZ (map input_amount (inputs (getTransaction spend_tx))) =
    sumZ (map to_amount (outputs (getTransaction spend_tx))) + 2.
Proof. apply (validateSemantic_exact any_key any_key (getTransaction spend_tx) 2). evaluate. Defined.

Lemma validateTransaction_sound_witness :
  spent spend_tx = [replicate 32 9] /\
  exists state', Pool.spentKeyImages state' = {[replicate 32 9]} /\
    validateTransaction any_key any_key no_hash any_signature CurrencyBuilder ∅ 100 spend_tx no_state
      [sample_segment] 2 = inl (2, state') /\
    (forall b, chain_spent [sample_segment] !! replicate 32 9 = Some b -> 2 < b).
Proof.
  split; [reflexivity|]. eexists. split; [|split; [vm_compute; reflexivity|]]; [reflexivity|].
  destruct (validateTransaction_sound any_key any_key no_hash any_signature CurrencyBuilder ∅ 100 spend_tx no_state
    sample_segment [] 2 2 {| Pool.spentKeyImages := {[replicate 32 9]} |}) as (_ & _ & _ & _ & _ & H);
    [evaluate|apply sample_segment_wf|done|vm_compute; reflexivity|].
  apply (proj1 (H eq_refl 0%nat _ eq_refl)).
Defined.

Lemma addBlock_extends_witness :
  exists s' info difficulty,
    addBlock_on_top any_key any_key no_hash any_signature CurrencyBuilder ∅ 100 no_hash no_hash no_hash NULL_HASH
      next_block next_raw [sample_segment] = inl [s'] /\
    chain_wf [s'] /\ chain_blocks [s'] = chain_blocks [sample_segment] ++ [info] /\
    blockHash info = replicate 32 5 /\ difficulty <> 0 /\
    checkProofOfWork no_hash no_hash no_hash no_hash NULL_HASH (getBlock next_block) difficulty = Ok true.
Proof.
  destruct (addBlock_on_top any_key any_key no_hash any_signature CurrencyBuilder ∅ 100 no_hash no_hash no_hash
    NULL_HASH next_block next_raw [sample_segment]) as [chain|e] eqn:E; [|vm_compute in E; discriminate].
  destruct (addBlock_extends any_key any_key no_hash any_signature CurrencyBuilder ∅ 100 no_hash no_hash no_hash
    NULL_HASH next_block next_base next_raw sample_segment [] chain) as
    (s' & ts & info & size & coins & change & d & -> & ? & ? & ? & _ & _ & _ & _ & _ & _ & _ & ? & ?);
    [apply sample_segment_wf|done|vm_compute; reflexivity|reflexivity|vm_compute; reflexivity|evaluate| | |exact E|].
  - evaluate.
  - intros ts size a H. destruct (decide (a = 5)) as [->|Ha].
    + vm_compute in H. injection H as <- _. vm_compute. reflexivity.
    + replace (chain_outputs a [sample_segment]) with (@nil PackedOutIndex)
        by (cbn; unfold segment_outputs; cbn; by rewrite lookup_singleton_ne).
      vm_compute in H. injection H as <- _. vm_compute. reflexivity.
  - exists s', info, d. split; [reflexivity|]. split; [assumption|]. split; [assumption|]. split; [assumption|].
    split; assumption.
Defined.
