(* ===== verification/Core.v ===== *)
(** * The tree of chain segments ([src/mevacoin_core/core.cpp])

    [Core] keeps the segments of the block chain in a tree: the leaves are the
    chains it knows, the first leaf is the main chain.  A block is added on top
    of a leaf, on top of an inner segment, or in the middle of a segment, which
    is split first; when an alternative chain becomes heavier than the main one
    they change places.  The segments are nodes of a map whose keys stand for
    their addresses. *)

From stdpp Require Import gmap fin_sets.
From S2P Require Import Prelude Config Stream Serializer Transaction Block Cached Pool Currency Rules PoolCleaner.
From S2P Require Import Checkpoints Segments Validation.
Import BlockchainCache.

(** What the core is built over: the curve, the hashes, the currency, the
    checkpoints and the hash of the genesis block. *)
Record Environment := {
  check_key : PublicKey -> bool;
  in_prime_subgroup : KeyImage -> bool;
  checkRingSignature : Hash -> KeyImage -> list PublicKey -> list Signature -> bool;
  cn_fast_hash : bytes -> Hash;
  cn_slow_hash_v0 : bytes -> Hash;
  cn_lite_slow_hash_v1 : bytes -> Hash;
  cn_turtle_lite_slow_hash_v2 : bytes -> Hash;
  currency : Currency;
  checkpoints : gmap Z Hash;
  genesisHash : Hash
}.

(** ** Nodes *)

Record node := { seg : segment; parent : option nat; children : list nat }.
Abbreviation tree := (gmap nat node).

Definition set_seg (s : segment) (n : node) : node := {| seg := s; parent := parent n; children := children n |}.
Definition setParent (p : option nat) (n : node) : node := {| seg := seg n; parent := p; children := children n |}.
Definition set_children (l : list nat) (n : node) : node := {| seg := seg n; parent := parent n; children := l |}.
Definition addChild (child : nat) (n : node) : node := set_children (children n ++ [child]) n.
Abbreviation getChildCount n := (length (children n)) (only parsing).

(** The node and its ancestors; a tree has no path longer than its size. *)
Fixpoint chain_ids (fuel : nat) (t : tree) (p : option nat) : list nat :=
  match fuel, p with
  | S fuel, Some id =>
      match t !! id with
      | Some n => id :: chain_ids fuel t (parent n)
      | None => []
      end
  | _, _ => []
  end.
Definition path (t : tree) (id : nat) : list nat := chain_ids (size t) t (Some id).
Definition segs (t : tree) (ids : list nat) : list segment := omap (fun i => seg <$> t !! i) ids.
Definition chain_of (t : tree) (id : nat) : list segment := segs t (path t id).

(** [createBlockchainCache(currency, cache, startIndex)] *)
Definition new_segment (start : Z) : segment :=
  {| startIndex := start; transactions := []; spentKeyImages := ∅; blockInfos := [];
     keyOutputsGlobalIndexes := ∅; paymentIds := []; storage := [] |}.

(** [cache->addChild(newCache)] for a new segment over [cache]. *)
Definition fork (cache new : nat) (start : Z) (t : tree) : tree :=
  <[new := {| seg := new_segment start; parent := Some cache; children := [] |}]>
    (alter (addChild new) cache t).

(** [cache->split(splitBlockIndex)]: the upper part becomes the node [upper],
    takes the children over and is the only child of the rest. *)
Definition split_node (cache upper : nat) (splitBlockIndex : Z) (t : tree) : tree :=
  match t !! cache with
  | None => t
  | Some n =>
      let '(lower, rest) := split splitBlockIndex (seg n) in
      <[upper := {| seg := rest; parent := Some cache; children := children n |}]>
        (<[cache := {| seg := lower; parent := parent n; children := [upper] |}]>
          (foldr (fun c t => alter (setParent (Some upper)) c t) t (children n)))
  end.

(** ** Blocks of a chain *)

Fixpoint getBlockByIndex (index : Z) (c : list segment) : option RawBlock :=
  match c with
  | [] => None
  | s :: parents =>
      if index <? startIndex s then getBlockByIndex index parents
      else storage s !! Z.to_nat (index - startIndex s)
  end.

(** [None] where the block does not parse. *)
Fixpoint getRawTransaction (cn_fast_hash : bytes -> Hash) (index transactionIndex : Z) (c : list segment)
    : option bytes :=
  match c with
  | [] => None
  | s :: parents =>
      if index <? startIndex s then getRawTransaction cn_fast_hash index transactionIndex parents
      else
        rawBlock ← storage s !! Z.to_nat (index - startIndex s);
        if transactionIndex =? 0 then
          block ← fromBinaryArray (serialize_BlockTemplate cn_fast_hash) (rb_block rawBlock);
          toBinaryArray serialize_Transaction (baseTransaction block)
        else rb_transactions rawBlock !! Z.to_nat (transactionIndex - 1)
  end.

(** [(foundTransactions, missedTransactions)] *)
Fixpoint getRawTransactions (cn_fast_hash : bytes -> Hash) (requested : list Hash) (c : list segment)
    : option (list bytes * list Hash) :=
  match requested with
  | [] => Some ([], [])
  | h :: requested =>
      match (match c with s :: _ => find_hash h (transactions s) | [] => None end) with
      | None => '(found, missed) ← getRawTransactions cn_fast_hash requested c; Some (found, h :: missed)
      | Some info =>
          tx ← getRawTransaction cn_fast_hash (cti_blockIndex info) (cti_transactionIndex info) c;
          '(found, missed) ← getRawTransactions cn_fast_hash requested c; Some (tx :: found, missed)
      end
  end.

(** The hashes of the transactions of a segment that are no coinbase. *)
Definition segment_getTransactionHashes (s : segment) : list Hash :=
  map cti_transactionHash (filter (fun t => negb (cti_transactionIndex t =? 0) = true) (transactions s)).

(** ** The core *)

(** What [addBlock] reports; the two failures of this enumeration,
    [REJECTED_AS_ORPHANED] and [DESERIALIZATION_FAILED], are constructors of
    [ValidationError] with the other reasons for a rejection. *)
Inductive AddBlockErrorCode :=
| ADDED_TO_MAIN | ADDED_TO_ALTERNATIVE | ADDED_TO_ALTERNATIVE_AND_SWITCHED | ALREADY_EXISTS.
#[global] Instance AddBlockErrorCode_eq_dec : EqDecision AddBlockErrorCode.
Proof. solve_decision. Defined.

Section Core.
Variable E : Environment.
Context {P : Type} `{!ITransactionPool P}.
(** The hashed index of a segment is walked in an order of its own. *)
Variable hash_order : list Hash -> list Hash.

Record Core := {
  chainsStorage : tree;
  chainsLeaves : list nat;
  mainChainSet : gset nat;
  pool : TransactionPoolCleanWrapper (P := P);
  mainChainStorage : list RawBlock;
  blockMedianSize : Z
}.

Definition set_tree (t : tree) (k : Core) : Core :=
  {| chainsStorage := t; chainsLeaves := chainsLeaves k; mainChainSet := mainChainSet k; pool := pool k;
     mainChainStorage := mainChainStorage k; blockMedianSize := blockMedianSize k |}.
Definition set_leaves (l : list nat) (k : Core) : Core :=
  {| chainsStorage := chainsStorage k; chainsLeaves := l; mainChainSet := mainChainSet k; pool := pool k;
     mainChainStorage := mainChainStorage k; blockMedianSize := blockMedianSize k |}.
Definition core_set_pool (p : TransactionPoolCleanWrapper) (k : Core) : Core :=
  {| chainsStorage := chainsStorage k; chainsLeaves := chainsLeaves k; mainChainSet := mainChainSet k; pool := p;
     mainChainStorage := mainChainStorage k; blockMedianSize := blockMedianSize k |}.
Definition set_storage (l : list RawBlock) (k : Core) : Core :=
  {| chainsStorage := chainsStorage k; chainsLeaves := chainsLeaves k; mainChainSet := mainChainSet k;
     pool := pool k; mainChainStorage := l; blockMedianSize := blockMedianSize k |}.

(** [chainsLeaves[0]] and its chain. *)
Definition main_leaf (k : Core) : nat := default 0%nat (head (chainsLeaves k)).
Definition main_chain (k : Core) : list segment := chain_of (chainsStorage k) (main_leaf k).
Definition core_getTopBlockIndex (k : Core) : Z := top_of (main_chain k).

Definition updateMainChainSet (k : Core) : Core :=
  {| chainsStorage := chainsStorage k; chainsLeaves := chainsLeaves k;
     mainChainSet := list_to_set (path (chainsStorage k) (main_leaf k)); pool := pool k;
     mainChainStorage := mainChainStorage k; blockMedianSize := blockMedianSize k |}.

Definition updateBlockMedianSize (k : Core) : Core :=
  let c := main_chain k in
  let version := Upgrades.getBlockMajorVersion (u32 (top_of c + 1)) (Upgrades.core_upgrades (currency E)) in
  let lastBlockSizes :=
    getLastBlocksSizes (Z.to_nat (m_rewardBlocksWindow (currency E))) (top_of c) false c in
  {| chainsStorage := chainsStorage k; chainsLeaves := chainsLeaves k; mainChainSet := mainChainSet k;
     pool := pool k; mainChainStorage := mainChainStorage k;
     blockMedianSize := Z.max (medianValue lastBlockSizes)
                          (blockGrantedFullRewardZoneByBlockVersion (currency E) version) |}.

(** *** Finding segments *)

Definition findIndexInChain (blockHash : Hash) (t : tree) (leaf : nat) : option nat :=
  find (fun id => match t !! id with Some n => hasBlock blockHash (seg n) | None => false end) (path t leaf).

Fixpoint first_in_chains (blockHash : Hash) (t : tree) (leaves : list nat) : option nat :=
  match leaves with
  | [] => None
  | leaf :: leaves =>
      match findIndexInChain blockHash t leaf with
      | Some id => Some id
      | None => first_in_chains blockHash t leaves
      end
  end.

Definition findMainChainSegmentContainingBlock (blockHash : Hash) (k : Core) : option nat :=
  findIndexInChain blockHash (chainsStorage k) (main_leaf k).
Definition findAlternativeSegmentContainingBlock (blockHash : Hash) (k : Core) : option nat :=
  first_in_chains blockHash (chainsStorage k) (tail (chainsLeaves k)).
Definition findSegmentContainingBlock (blockHash : Hash) (k : Core) : option nat :=
  match findMainChainSegmentContainingBlock blockHash k with
  | Some id => Some id
  | None => findAlternativeSegmentContainingBlock blockHash k
  end.
Definition core_hasBlock (blockHash : Hash) (k : Core) : bool :=
  bool_decide (is_Some (findSegmentContainingBlock blockHash k)).

(** *** The pool *)

(** [extractSpentOutputs] of a transaction. *)
Definition extractSpentOutputs (t : CachedTransaction) : TransactionValidatorState :=
  {| Pool.spentKeyImages := list_to_set (spent t) |}.

Definition getMaximumTransactionAllowedSize (blockSizeMedian : Z) : Z :=
  u64 (blockSizeMedian * 2 - m_minerTxBlobReservedSize (currency E)).

Abbreviation validate_tx := (validateTransaction (check_key E) (in_prime_subgroup E) (cn_fast_hash E)
  (checkRingSignature E) (currency E) (checkpoints E)).

(** The state of a transaction that may go to the pool. *)
Definition isTransactionValidForPool (now : Z) (t : CachedTransaction) (k : Core)
    : option TransactionValidatorState :=
  let size := Z.of_nat (length (getTransactionBinaryArray t)) in
  if negb (Mixins.validate [t] (core_getTopBlockIndex k)) then None
  else if MAX_EXTRA_SIZE_POOL <=? Z.of_nat (length (extra (getTransaction t))) then None
  else
    match validate_tx now t {| Pool.spentKeyImages := ∅ |} (main_chain k) (core_getTopBlockIndex k) with
    | inr _ => None
    | inl (fee, validatorState) =>
        if getMaximumTransactionAllowedSize (blockMedianSize k) <? size then None
        else
          let isFusion := (fee =? 0)
            && isFusionTransaction_tx (currency E) (getTransaction t) size (core_getTopBlockIndex k) in
          if negb isFusion && (fee <? m_mininumFee (currency E)) then None else Some validatorState
    end.

(** [addTransactionToPool(CachedTransaction &&)] *)
Definition addTransactionToPool (now : Z) (t : CachedTransaction) (k : Core) : bool * Core :=
  if bool_decide (is_Some (ip_get (getTransactionHash (cn_fast_hash E) t) (transactionPool (pool k)))) then (false, k)
  else
    match isTransactionValidForPool now t k with
    | None => (false, k)
    | Some validatorState =>
        let '(b, p) := clean_pushTransaction (cn_fast_hash E) now t validatorState (pool k) in (b, core_set_pool p k)
    end.

(** [addTransactionToPool(const BinaryArray &)] *)
Definition addRawTransactionToPool (now : Z) (transactionBinaryArray : bytes) (k : Core) : bool * Core :=
  match fromBinaryArray serialize_Transaction transactionBinaryArray ≫= CachedTransaction_object with
  | None => (false, k)
  | Some t => addTransactionToPool now t k
  end.

Definition remove_from_pool (hash : Hash) (k : Core) : Core :=
  core_set_pool (snd (clean_removeTransaction hash (pool k))) k.
Definition remove_all (ts : list CachedTransaction) (k : Core) : Core :=
  fold_left (fun k t => remove_from_pool (getTransactionHash (cn_fast_hash E) t) k) ts k.

(** Every transaction of the pool is taken out and tried again. *)
Definition actualizePoolTransactions (now : Z) (k : Core) : Core :=
  fold_left (fun k hash =>
    match ip_get hash (transactionPool (pool k)) with
    | None => k
    | Some t => snd (addTransactionToPool now t (remove_from_pool hash k))
    end) (ip_hashes (transactionPool (pool k))) k.

(** Those that meet the block's key images, or are too big now, are dropped. *)
Definition actualizePoolTransactionsLite (validatorState : TransactionValidatorState) (k : Core) : Core :=
  fold_left (fun k hash =>
    match ip_get hash (transactionPool (pool k)) with
    | None => k
    | Some t =>
        if hasIntersections validatorState (extractSpentOutputs t)
           || (getMaximumTransactionAllowedSize (blockMedianSize k) <? Z.of_nat (length (getTransactionBinaryArray t)))
        then remove_from_pool hash k else k
    end) (ip_hashes (transactionPool (pool k))) k.

(** The transactions of the segments of [alt] that are not in the main chain;
    [false] when a transaction cannot be read back. *)
Fixpoint copy_loop (now : Z) (ids : list nat) (k : Core) : bool * Core :=
  match ids with
  | [] => (true, k)
  | id :: ids =>
      if bool_decide (id ∈ mainChainSet k) then (true, k)
      else
        let c := chain_of (chainsStorage k) id in
        let hashes := match c with s :: _ => hash_order (segment_getTransactionHashes s) | [] => [] end in
        match getRawTransactions (cn_fast_hash E) hashes c with
        | None => (false, k)
        | Some (found, _) =>
            copy_loop now ids (fold_left (fun k raw => snd (addRawTransactionToPool now raw k)) found k)
        end
  end.
Definition copyTransactionsToPool (now : Z) (alt : nat) (k : Core) : bool * Core :=
  copy_loop now (path (chainsStorage k) alt) k.

(** *** The storage of the main chain *)

Definition indexes_from (first last : Z) : list Z :=
  map (fun i => first + Z.of_nat i) (seq 0 (Z.to_nat (last + 1 - first))).

(** [None] where a block is missing. *)
Definition switchMainChainStorage (splitBlockIndex : Z) (newChain : list segment) (blocks : list RawBlock)
    : option (list RawBlock) :=
  let blocksToPop := Z.to_nat (u32 (Z.of_nat (length blocks) - splitBlockIndex)) in
  pushed ← mapM (fun i => getBlockByIndex i newChain) (indexes_from splitBlockIndex (top_of newChain));
  Some (take (length blocks - blocksToPop) blocks ++ pushed).

(** *** Adding a block *)

Definition push_node (b : CachedBlock) (raw : RawBlock) (a : Accepted) (id : nat) (t : tree) : option tree :=
  n ← t !! id;
  chain ← doPushBlock (cn_fast_hash E) b (ac_transactions a) (ac_state a) (ac_size a) (ac_emissionChange a)
            (ac_difficulty a) raw (chain_of t id);
  s ← head chain;
  Some (<[id := set_seg s n]> t).

Definition cumulative_difficulty (t : tree) (id : nat) : option Z :=
  let c := chain_of t id in getCurrentCumulativeDifficulty (top_of c) c.

(** On top of the main chain.  The storage has the block before the segment. *)
Definition add_to_main (b : CachedBlock) (raw : RawBlock) (a : Accepted) (cache : nat) (k : Core)
    : checked AddBlockErrorCode * Core :=
  let k := set_storage (mainChainStorage k ++ [raw]) k in
  match push_node b raw a cache (chainsStorage k) with
  | None => (inr Exception, k)
  | Some t =>
      let k := remove_all (ac_transactions a) (updateBlockMedianSize (set_tree t k)) in
      (inl ADDED_TO_MAIN, actualizePoolTransactionsLite (ac_state a) k)
  end.

(** The leaf at [endpoint] changes places with the main one. *)
Definition switch_chain (now : Z) (a : Accepted) (endpoint : nat) (k : Core) : checked AddBlockErrorCode * Core :=
  let old := main_leaf k in
  let new := default 0%nat (chainsLeaves k !! endpoint) in
  let k := updateMainChainSet (set_leaves (<[0%nat := new]> (<[endpoint := old]> (chainsLeaves k))) k) in
  let k := remove_all (ac_transactions a) (updateBlockMedianSize k) in
  let '(copied, k) := copyTransactionsToPool now old (actualizePoolTransactions now k) in
  let c := main_chain k in
  let start := match c with s :: _ => startIndex s | [] => 0 end in
  match switchMainChainStorage start c (mainChainStorage k) with
  | Some blocks => if copied then (inl ADDED_TO_ALTERNATIVE_AND_SWITCHED, set_storage blocks k) else (inr Exception, k)
  | None => (inr Exception, k)
  end.

Definition index_of (id : nat) (l : list nat) : nat :=
  match list_find (fun x => x = id) l with Some (i, _) => i | None => length l end.

(** On top of another leaf. *)
Definition add_to_alternative (now : Z) (b : CachedBlock) (raw : RawBlock) (a : Accepted) (cache : nat) (k : Core)
    : checked AddBlockErrorCode * Core :=
  match push_node b raw a cache (chainsStorage k) with
  | None => (inr Exception, k)
  | Some t =>
      let k := set_tree t k in
      match cumulative_difficulty t cache, cumulative_difficulty t (main_leaf k) with
      | Some alternative, Some main =>
          if main <? alternative then switch_chain now a (index_of cache (chainsLeaves k)) k
          else (inl ADDED_TO_ALTERNATIVE, k)
      | _, _ => (inr Exception, k)
      end
  end.

(** A new leaf over [cache]. *)
Definition add_leaf (b : CachedBlock) (raw : RawBlock) (a : Accepted) (cache : nat) (start : Z) (k : Core)
    : checked AddBlockErrorCode * Core :=
  let new := fresh (dom (chainsStorage k)) in
  let k := set_leaves (chainsLeaves k ++ [new]) (set_tree (fork cache new start (chainsStorage k)) k) in
  match push_node b raw a new (chainsStorage k) with
  | None => (inr Exception, k)
  | Some t => (inl ADDED_TO_ALTERNATIVE, updateMainChainSet (set_tree t k))
  end.

(** The segment is split behind the previous block. *)
Definition split_core (cache : nat) (splitBlockIndex : Z) (k : Core) : Core :=
  let upper := fresh (dom (chainsStorage k)) in
  let t := split_node cache upper splitBlockIndex (chainsStorage k) in
  let leaves :=
    match t !! upper with
    | Some u => if (getChildCount u =? 0)%nat then map (fun id => if (id =? cache)%nat then upper else id) (chainsLeaves k)
                else chainsLeaves k
    | None => chainsLeaves k
    end in
  set_leaves leaves (set_tree t k).

Definition add_accepted (now : Z) (b : CachedBlock) (raw : RawBlock) (a : Accepted) (cache : nat) (n : node)
    (previousBlockIndex : Z) (k : Core) : checked AddBlockErrorCode * Core :=
  let start := u32 (previousBlockIndex + 1) in
  if getTopBlockIndex (seg n) =? previousBlockIndex then
    if (getChildCount n =? 0)%nat then
      if (cache =? main_leaf k)%nat then add_to_main b raw a cache k else add_to_alternative now b raw a cache k
    else
      let '(r, k) := add_leaf b raw a cache start k in
      (r, match r with inl _ => updateBlockMedianSize k | inr _ => k end)
  else add_leaf b raw a cache start (split_core cache start k).

(** [addBlock(const CachedBlock &, RawBlock &&)] *)
Definition addBlock (now : Z) (b : CachedBlock) (raw : RawBlock) (k : Core) : checked AddBlockErrorCode * Core :=
  if core_hasBlock (getBlockHash b) k then (inl ALREADY_EXISTS, k)
  else
    match findSegmentContainingBlock (previousBlockHash (getBlock b)) k with
    | None => (inr REJECTED_AS_ORPHANED, k)
    | Some cache =>
        match acceptBlock (check_key E) (in_prime_subgroup E) (cn_fast_hash E) (checkRingSignature E) (currency E)
                (checkpoints E) now (cn_slow_hash_v0 E) (cn_lite_slow_hash_v1 E) (cn_turtle_lite_slow_hash_v2 E)
                (genesisHash E) b raw (chain_of (chainsStorage k) cache), chainsStorage k !! cache with
        | inr e, _ => (inr e, k)
        | inl a, Some n =>
            match segment_getBlockIndex (previousBlockHash (getBlock b)) (seg n) with
            | Some previousBlockIndex => add_accepted now b raw a cache n previousBlockIndex k
            | None => (inr Exception, k)
            end
        | inl _, None => (inr Exception, k)
        end
    end.

(** [CachedBlock cachedBlock(blockTemplate)]: the hash may throw. *)
Definition CachedBlock_new (block : BlockTemplate) : option CachedBlock :=
  match Block.getBlockHash (cn_fast_hash E) block with
  | Ok h => Some {| getBlock := block; getBlockHash := h |}
  | Throw _ => None
  end.

(** [addBlock(RawBlock &&)] *)
Definition addRawBlock (now : Z) (raw : RawBlock) (k : Core) : checked AddBlockErrorCode * Core :=
  match fromBinaryArray (serialize_BlockTemplate (cn_fast_hash E)) (rb_block raw) with
  | None => (inr DESERIALIZATION_FAILED, k)
  | Some blockTemplate =>
      match CachedBlock_new blockTemplate with
      | None => (inr Exception, k)
      | Some b => addBlock now b raw k
      end
  end.
End Core.
