(* ===== verification/CoreSpec.v ===== *)
(** * The tree of chain segments as a tree of chains

    The invariant of the tree of [Core.v]: every path to the root is a
    well-formed chain, and parents and children agree.  A new top on a leaf, a
    new leaf and the split of a segment keep it, and change only the chains
    they should.  The weight of a chain is the sum of the difficulties of its
    blocks. *)

From stdpp Require Import gmap fin_sets sorting.
From S2P Require Import Prelude Config IntUtil Stream Serializer Transaction Amounts Block Cached Pool Currency Difficulty.
From S2P Require Import Rules PoolCleaner Checkpoints Segments ChainSpec Validation Core.
Import BlockchainCache.

(** ** Paths *)

Section Paths.
Implicit Types (t : tree) (l : list nat).

(** The nodes from [id] to the root. *)
Inductive is_path t : nat -> list nat -> Prop :=
| path_root id n : t !! id = Some n -> parent n = None -> is_path t id [id]
| path_step id n p l : t !! id = Some n -> parent n = Some p -> is_path t p l -> is_path t id (id :: l).

Lemma is_path_head t id l : is_path t id l -> exists r, l = id :: r.
Proof. destruct 1; eauto. Qed.

Lemma is_path_unique t id l : is_path t id l -> forall l', is_path t id l' -> l = l'.
Proof.
  induction 1 as [id n Hn Hp|id n p l Hn Hp Hl IH]; intros l' H; inversion H; simplify_eq; [done|].
  f_equal. by apply IH.
Qed.

Lemma is_path_elem t id l x : is_path t id l -> x ∈ l -> exists l', is_path t x l' /\ (length l' <= length l)%nat.
Proof.
  induction 1 as [id n Hn Hp|id n p l Hn Hp Hl IH]; intros Hx.
  - apply list_elem_of_singleton in Hx as ->. eexists. split; [by eapply path_root|done].
  - apply elem_of_cons in Hx as [->|Hx]; [eexists; split; [by eapply path_step|done]|].
    destruct (IH Hx) as (l' & ? & ?). exists l'. cbn. split; [done|lia].
Qed.

Lemma is_path_NoDup t id l : is_path t id l -> NoDup l.
Proof.
  induction 1 as [id n Hn Hp|id n p l Hn Hp Hl IH]; [apply NoDup_singleton|]. constructor; [|done].
  intros Hx. destruct (is_path_elem t p l id Hl Hx) as (l' & Hl' & Hle).
  rewrite (is_path_unique t id l' Hl' (id :: l)) in Hle by (by eapply path_step). cbn in Hle. lia.
Qed.

Lemma is_path_dom t id l : is_path t id l -> forall x, x ∈ l -> is_Some (t !! x).
Proof.
  induction 1 as [id n Hn Hp|id n p l Hn Hp Hl IH]; intros x Hx.
  - apply list_elem_of_singleton in Hx as ->. by eexists.
  - apply elem_of_cons in Hx as [->|Hx]; [by eexists|by apply IH].
Qed.

Lemma is_path_length t id l : is_path t id l -> (length l <= size t)%nat.
Proof.
  intros H. rewrite <- size_dom. rewrite <- (size_list_to_set (C := gset nat) l) by (by eapply is_path_NoDup).
  apply subseteq_size. intros x Hx. apply elem_of_list_to_set in Hx.
  apply elem_of_dom. by eapply is_path_dom.
Qed.

Lemma chain_ids_path t id l : is_path t id l -> forall fuel, (length l <= fuel)%nat -> chain_ids fuel t (Some id) = l.
Proof.
  induction 1 as [id n Hn Hp|id n p l Hn Hp Hl IH]; intros [|fuel] Hf; cbn in *; try lia; rewrite Hn, Hp.
  - by destruct fuel.
  - f_equal. apply IH. lia.
Qed.

(** The executable path is the path. *)
Lemma path_is t id l : is_path t id l -> path t id = l.
Proof. intros H. apply chain_ids_path; [done|by eapply is_path_length]. Qed.

(** Paths depend on the parents only. *)
Lemma is_path_parents t t' id l : is_path t id l ->
  (forall x, x ∈ l -> parent <$> t' !! x = parent <$> t !! x) -> is_path t' id l.
Proof.
  induction 1 as [id n Hn Hp|id n p l Hn Hp Hl IH]; intros Hx;
    (assert (parent <$> t' !! id = Some (parent n)) as Hi by (rewrite Hx by (by constructor); by rewrite Hn));
    apply fmap_Some in Hi as (n' & Hn' & Hp').
  - eapply path_root; [done|by rewrite <- Hp'].
  - eapply path_step; [done|by rewrite <- Hp'|]. apply IH. intros x ?. apply Hx. by constructor.
Qed.

Lemma segs_cons t id n l : t !! id = Some n -> segs t (id :: l) = seg n :: segs t l.
Proof. intros H. unfold segs. cbn. by rewrite H. Qed.

Lemma segs_ext t t' l : (forall x, x ∈ l -> seg <$> t' !! x = seg <$> t !! x) -> segs t' l = segs t l.
Proof.
  intros H. unfold segs. induction l as [|x l IH]; [done|]. cbn.
  rewrite H by constructor. rewrite IH; [done|]. intros y Hy. apply H. by constructor.
Qed.

Lemma chain_of_path t id l : is_path t id l -> chain_of t id = segs t l.
Proof. intros H. unfold chain_of. by rewrite (path_is t id l H). Qed.
End Paths.

(** ** Chains with the same content *)

(** Two ways to cut a chain into segments. *)
Record flat_eq (c c' : list segment) : Prop := {
  fe_blocks : chain_blocks c = chain_blocks c';
  fe_spent : chain_spent c = chain_spent c';
  fe_txs : chain_txs c ≡ₚ chain_txs c';
  fe_outputs a : chain_outputs a c = chain_outputs a c'
}.

#[global] Instance flat_eq_equivalence : Equivalence flat_eq.
Proof.
  split.
  - by split.
  - intros c c' [Hb Hs Ht Ho]. split; [congruence|congruence|by symmetry|]. intros a. by rewrite Ho.
  - intros c c' c'' [Hb Hs Ht Ho] [Hb' Hs' Ht' Ho']. split; [congruence|congruence|by etrans|].
    intros a. by rewrite Ho.
Qed.

#[global] Instance cons_flat_eq s : Proper (flat_eq ==> flat_eq) (cons s).
Proof.
  intros c c' [Hb Hs Ht Ho]. split; cbn; [congruence|congruence|by rewrite Ht|]. intros a. by rewrite Ho.
Qed.

#[global] Instance height_flat_eq : Proper (flat_eq ==> eq) height.
Proof. intros c c' [Hb _ _ _]. unfold height. by rewrite Hb. Qed.

Definition top_nonempty (c : list segment) : Prop := match c with s :: _ => blockInfos s <> [] | [] => True end.

Lemma segment_wf_flat s c c' : flat_eq c c' -> top_nonempty c' -> segment_wf s c -> segment_wf s c'.
Proof.
  intros He Hne [H1 H2 H3 H4 H5 H6 H7]. pose proof He as [Hb Hs _ Ho]. split.
  - by rewrite <- He.
  - done.
  - by rewrite <- He.
  - intros k b Hk. rewrite <- Hs. by apply H4.
  - done.
  - intros a e Ha. rewrite <- Ho. by apply H6.
  - intros a. cbn [chain_outputs]. rewrite <- Ho. apply (H7 a).
Qed.

(** ** The invariant of the tree *)

Record tree_wf (t : tree) : Prop := {
  tw_path id n : t !! id = Some n -> exists l, is_path t id l /\ chain_wf (segs t l);
  tw_nonempty id n : t !! id = Some n -> blockInfos (seg n) <> [];
  tw_NoDup id n : t !! id = Some n -> NoDup (children n);
  tw_children id n c : t !! id = Some n ->
    c ∈ children n <-> exists m, t !! c = Some m /\ parent m = Some id
}.

Lemma chain_of_cons t id n : tree_wf t -> t !! id = Some n ->
  chain_of t id = seg n :: match parent n with Some p => chain_of t p | None => [] end.
Proof.
  intros Hwf Hn. destruct (tw_path t Hwf id n Hn) as (l & Hl & _). rewrite (chain_of_path t id l Hl).
  destruct Hl as [id n' Hn' Hp|id n' p l Hn' Hp Hl]; simplify_eq; rewrite Hp, (segs_cons t id n) by done; [done|].
  by rewrite (chain_of_path t p l Hl).
Qed.

Lemma chain_of_wf t id n : tree_wf t -> t !! id = Some n -> chain_wf (chain_of t id).
Proof. intros Hwf Hn. destruct (tw_path t Hwf id n Hn) as (l & Hl & Hc). by rewrite (chain_of_path t id l Hl). Qed.

(** Only its descendants have a node on their path. *)
Lemma leaf_not_on_path t id n j l : tree_wf t -> t !! id = Some n -> children n = [] ->
  is_path t j l -> j <> id -> id ∉ l.
Proof.
  intros Hwf Hn Hc. induction 1 as [j m Hm Hp|j m p l Hm Hp Hl IH]; intros Hj Hin.
  - by apply list_elem_of_singleton in Hin as ->.
  - apply elem_of_cons in Hin as [->|Hin]; [done|]. destruct (decide (p = id)) as [->|Hpi]; [|by apply IH].
    assert (j ∈ children n) as Hch by (apply (tw_children t Hwf id n j Hn); eauto).
    rewrite Hc in Hch. by apply elem_of_nil in Hch.
Qed.

(** A child is not its own parent. *)
Lemma parent_ne t id n p : tree_wf t -> t !! id = Some n -> parent n = Some p -> p <> id.
Proof.
  intros Hwf Hn Hp ->. destruct (tw_path t Hwf id n Hn) as (l & Hl & _).
  pose proof (is_path_NoDup t id l Hl) as Hnd. inversion Hl as [|? ? p l' ? ? Hl']; simplify_eq.
  destruct (is_path_head t id l' Hl') as [r ->]. apply NoDup_cons in Hnd as [Hnd _].
  apply Hnd. by constructor.
Qed.

Lemma parent_exists t id n p : tree_wf t -> t !! id = Some n -> parent n = Some p -> is_Some (t !! p).
Proof.
  intros Hwf Hn Hp. destruct (tw_path t Hwf id n Hn) as (l & Hl & _).
  inversion Hl as [|? ? q l' ? ? Hl']; simplify_eq. destruct (is_path_head t p l' Hl') as [r ->].
  eapply is_path_dom; [exact Hl'|by constructor].
Qed.

(** One node has no parent. *)
Definition one_root (t : tree) : Prop :=
  forall i j ni nj, t !! i = Some ni -> t !! j = Some nj -> parent ni = None -> parent nj = None -> i = j.

(** It is enough that no new node is without parent. *)
Lemma one_root_step t t' : one_root t ->
  (forall j m', t' !! j = Some m' -> parent m' = None -> exists m, t !! j = Some m /\ parent m = None) -> one_root t'.
Proof.
  intros Ht Hs i j ni nj Hi Hj Hpi Hpj.
  destruct (Hs i ni Hi Hpi) as (mi & ? & ?), (Hs j nj Hj Hpj) as (mj & ? & ?). by apply (Ht i j mi mj).
Qed.

(** ** A new top on a leaf *)

Section UpdateLeaf.
Variables (t : tree) (id : nat) (n : node) (s : segment).
Hypothesis Hwf : tree_wf t.
Hypothesis Hn : t !! id = Some n.
Hypothesis Hleaf : children n = [].

Let t' := <[id := set_seg s n]> t.

Lemma update_parents x : parent <$> t' !! x = parent <$> t !! x.
Proof using Hn. unfold t'. destruct (decide (x = id)) as [->|]; [by rewrite lookup_insert_eq, Hn|by rewrite lookup_insert_ne]. Qed.

Lemma update_one_root : one_root t -> one_root t'.
Proof using Hn.
  intros Ht. apply (one_root_step t); [done|]. intros j m' Hj Hp. pose proof (update_parents j) as Ej. rewrite Hj in Ej.
  cbn in Ej. symmetry in Ej. apply fmap_Some in Ej as (m & Hm & Em). exists m. split; [done|congruence].
Qed.

Lemma update_path j l : is_path t j l <-> is_path t' j l.
Proof using Hn. split; intros H; (eapply is_path_parents; [exact H|]); intros; by rewrite update_parents. Qed.

Lemma update_path_eq j : is_Some (t !! j) -> path t' j = path t j.
Proof using Hwf Hn.
  intros [m Hm]. destruct (tw_path t Hwf j m Hm) as (l & Hl & _).
  rewrite (path_is t j l Hl). apply path_is. by apply update_path.
Qed.

Lemma update_segs j l : is_path t j l -> j <> id -> segs t' l = segs t l.
Proof using Hwf Hn Hleaf.
  intros Hl Hj. apply segs_ext. intros x Hx. unfold t'. rewrite lookup_insert_ne; [done|].
  intros <-. by apply (leaf_not_on_path t id n j l Hwf Hn Hleaf Hl Hj).
Qed.

Lemma update_other j : is_Some (t !! j) -> j <> id -> chain_of t' j = chain_of t j.
Proof using Hwf Hn Hleaf.
  intros [m Hm] Hj. destruct (tw_path t Hwf j m Hm) as (l & Hl & _).
  rewrite (chain_of_path t j l Hl), (chain_of_path t' j l) by (by apply update_path).
  by apply (update_segs j).
Qed.

Lemma update_chain : chain_of t' id = s :: tail (chain_of t id).
Proof using Hwf Hn Hleaf.
  destruct (tw_path t Hwf id n Hn) as (l & Hl & _).
  rewrite (chain_of_path t id l Hl), (chain_of_path t' id l) by (by apply update_path).
  inversion Hl as [? n' Hn' Hp|? n' p r Hn' Hp Hr]; simplify_eq.
  - unfold segs. cbn. unfold t'. by rewrite lookup_insert_eq, Hn.
  - rewrite (segs_cons t id n), (segs_cons t' id (set_seg s n)) by (done || apply lookup_insert_eq).
    cbn. f_equal. apply (update_segs p); [done|]. by apply (parent_ne t id n p).
Qed.

Lemma update_wf : chain_wf (s :: tail (chain_of t id)) -> blockInfos s <> [] -> tree_wf t'.
Proof using Hwf Hn Hleaf.
  intros Hc Hne. split.
  - intros j m Hj. assert (is_Some (t !! j)) as [m' Hm'].
    { pose proof (update_parents j) as Hp. rewrite Hj in Hp. destruct (t !! j); [by eexists|done]. }
    destruct (tw_path t Hwf j m' Hm') as (l & Hl & Hcl). exists l. split; [by apply update_path|].
    destruct (decide (j = id)) as [->|Hne'].
    + rewrite <- (chain_of_path t' id l) by (by apply update_path). by rewrite update_chain.
    + by rewrite (update_segs j l).
  - intros j m. unfold t'. destruct (decide (j = id)) as [->|].
    + rewrite lookup_insert_eq. by intros [= <-].
    + rewrite lookup_insert_ne by done. apply (tw_nonempty t Hwf).
  - intros j m. unfold t'. destruct (decide (j = id)) as [->|].
    + rewrite lookup_insert_eq. intros [= <-]. apply (tw_NoDup t Hwf id n Hn).
    + rewrite lookup_insert_ne by done. apply (tw_NoDup t Hwf).
  - intros j m ch Hj. assert (exists m0, t !! j = Some m0 /\ children m0 = children m) as (m0 & Hm0 & <-).
    { unfold t' in Hj. destruct (decide (j = id)) as [->|].
      - rewrite lookup_insert_eq in Hj. injection Hj as <-. by exists n.
      - rewrite lookup_insert_ne in Hj by done. by exists m. }
    rewrite (tw_children t Hwf j m0 ch Hm0). pose proof (update_parents ch) as Hp.
    split; intros (x & Hx & Hpx); rewrite Hx in Hp.
    + apply fmap_Some in Hp as (y & Hty & Hy). exists y. split; [done|]. by rewrite <- Hy.
    + cbn in Hp. symmetry in Hp. apply fmap_Some in Hp as (y & Hty & Hy). exists y. split; [done|]. by rewrite <- Hy.
Qed.
End UpdateLeaf.

(** ** A new leaf *)

Section Fork.
Variables (t : tree) (cache new : nat) (n : node) (s : segment).
Hypothesis Hwf : tree_wf t.
Hypothesis Hn : t !! cache = Some n.
Hypothesis Hnew : t !! new = None.

Let t' := <[new := {| seg := s; parent := Some cache; children := [] |}]> (alter (addChild new) cache t).

Lemma fork_lookup_old x m : t !! x = Some m ->
  exists m', t' !! x = Some m' /\ seg m' = seg m /\ parent m' = parent m /\
    children m' = if decide (x = cache) then children m ++ [new] else children m.
Proof using Hnew.
  intros Hx. unfold t'. rewrite lookup_insert_ne by (intros ->; congruence).
  destruct (decide (x = cache)) as [->|].
  - rewrite lookup_alter_eq, Hx. by eexists.
  - rewrite lookup_alter_ne by done. by exists m.
Qed.

Lemma fork_lookup_inv x m' : t' !! x = Some m' ->
  (x = new /\ m' = {| seg := s; parent := Some cache; children := [] |}) \/ x <> new /\ is_Some (t !! x).
Proof using Hn.
  unfold t'. destruct (decide (x = new)) as [->|].
  - rewrite lookup_insert_eq. intros [= <-]. by left.
  - rewrite lookup_insert_ne by done. intros H. right. split; [done|]. destruct (decide (x = cache)) as [->|].
    + rewrite lookup_alter_eq in H. by destruct (t !! cache).
    + rewrite lookup_alter_ne in H by done. by eexists.
Qed.

Lemma fork_one_root : one_root t -> one_root t'.
Proof using Hn Hnew.
  intros Ht. apply (one_root_step t); [done|]. intros j m' Hj Hp.
  destruct (fork_lookup_inv j m' Hj) as [[-> ->]|[_ [m Hm]]]; [done|].
  destruct (fork_lookup_old j m Hm) as (m1 & Hm1 & _ & Hp1 & _). simplify_eq. exists m. split; [done|congruence].
Qed.

(** Only the new node becomes a leaf. *)
Lemma fork_leaf : children n <> [] -> forall j,
  (exists m', t' !! j = Some m' /\ children m' = []) <-> (exists m, t !! j = Some m /\ children m = []) \/ j = new.
Proof using Hn Hnew.
  intros Hc j. split.
  - intros (m' & Hm' & Hmc). destruct (fork_lookup_inv j m' Hm') as [[-> _]|[_ [m Hm]]]; [by right|left].
    destruct (fork_lookup_old j m Hm) as (m1 & Hm1 & _ & _ & Hc'). simplify_eq. rewrite Hmc in Hc'.
    case_decide; [by destruct (children m)|]. eauto.
  - intros [(m & Hm & Hmc)| ->]; [|eexists; split; [apply lookup_insert_eq|done]].
    destruct (fork_lookup_old j m Hm) as (m' & Hm' & _ & _ & Hc'). rewrite decide_False, Hmc in Hc' by congruence. eauto.
Qed.

Lemma fork_path j l : is_path t j l -> is_path t' j l.
Proof using Hnew.
  intros Hl. eapply is_path_parents; [exact Hl|]. intros x Hx.
  destruct (is_path_dom t j l Hl x Hx) as [m Hm].
  destruct (fork_lookup_old x m Hm) as (m' & -> & _ & Hp & _). rewrite Hm. cbn. by rewrite Hp.
Qed.

Lemma fork_segs j l : is_path t j l -> segs t' l = segs t l.
Proof using Hnew.
  intros Hl. apply segs_ext. intros x Hx. destruct (is_path_dom t j l Hl x Hx) as [m Hm].
  destruct (fork_lookup_old x m Hm) as (m' & -> & Hs & _). rewrite Hm. cbn. by rewrite Hs.
Qed.

Lemma fork_old j : is_Some (t !! j) -> path t' j = path t j /\ chain_of t' j = chain_of t j.
Proof using Hwf Hnew.
  intros [m Hm]. destruct (tw_path t Hwf j m Hm) as (l & Hl & _). pose proof (fork_path j l Hl) as Hl'.
  rewrite (path_is t j l Hl), (path_is t' j l Hl'), (chain_of_path t j l Hl), (chain_of_path t' j l Hl').
  split; [done|by apply (fork_segs j)].
Qed.

Lemma fork_new_path l : is_path t cache l -> is_path t' new (new :: l).
Proof using Hnew.
  intros Hl. eapply path_step; [by apply lookup_insert_eq|done|by apply fork_path].
Qed.

Lemma fork_new : path t' new = new :: path t cache /\ chain_of t' new = s :: chain_of t cache.
Proof using Hwf Hn Hnew.
  destruct (tw_path t Hwf cache n Hn) as (l & Hl & _). pose proof (fork_new_path l Hl) as Hl'.
  rewrite (path_is t cache l Hl), (path_is t' new _ Hl'), (chain_of_path t cache l Hl), (chain_of_path t' new _ Hl').
  split; [done|]. rewrite (segs_cons t' new _ l (lookup_insert_eq _ _ _)). cbn. by rewrite (fork_segs cache l).
Qed.

Lemma fork_child ch x : (exists m, t' !! ch = Some m /\ parent m = Some x) <->
  (exists m, t !! ch = Some m /\ parent m = Some x) \/ ch = new /\ x = cache.
Proof using Hn Hnew.
  split.
  - intros (m & Hm & Hp). destruct (fork_lookup_inv ch m Hm) as [[-> ->]|[Hne [m0 Hm0]]].
    + right. by injection Hp as ->.
    + left. exists m0. split; [done|]. destruct (fork_lookup_old ch m0 Hm0) as (m1 & Hm1 & _ & Hp1 & _).
      rewrite Hm1 in Hm. injection Hm as <-. by rewrite <- Hp1.
  - intros [(m & Hm & Hp)|[-> ->]].
    + destruct (fork_lookup_old ch m Hm) as (m1 & Hm1 & _ & Hp1 & _). exists m1. split; [done|]. by rewrite Hp1.
    + eexists. split; [apply lookup_insert_eq|done].
Qed.

Lemma fork_wf : chain_wf (s :: chain_of t cache) -> blockInfos s <> [] -> tree_wf t'.
Proof using Hwf Hn Hnew.
  intros Hc Hne. destruct (tw_path t Hwf cache n Hn) as (lc & Hlc & _). split.
  - intros j m Hj. destruct (fork_lookup_inv j m Hj) as [[-> ->]|[_ [m0 Hm0]]].
    + exists (new :: lc). split; [by apply fork_new_path|]. rewrite (segs_cons t' new _ lc Hj). cbn [seg].
      by rewrite (fork_segs cache lc), <- (chain_of_path t cache lc).
    + destruct (tw_path t Hwf j m0 Hm0) as (l & Hl & Hcl). exists l. split; [by apply fork_path|].
      by rewrite (fork_segs j l).
  - intros j m Hj. destruct (fork_lookup_inv j m Hj) as [[-> ->]|[_ [m0 Hm0]]]; [done|].
    destruct (fork_lookup_old j m0 Hm0) as (m1 & Hm1 & Hs1 & _). rewrite Hj in Hm1. injection Hm1 as <-.
    rewrite Hs1. by apply (tw_nonempty t Hwf j).
  - intros j m Hj. destruct (fork_lookup_inv j m Hj) as [[-> ->]|[_ [m0 Hm0]]]; [constructor|].
    destruct (fork_lookup_old j m0 Hm0) as (m1 & Hm1 & _ & _ & Hch). rewrite Hj in Hm1. injection Hm1 as <-.
    rewrite Hch. pose proof (tw_NoDup t Hwf j m0 Hm0). case_decide as Hjc; [|done]. subst j.
    apply NoDup_app. split; [done|]. split; [|apply NoDup_singleton].
    intros x Hx ->%list_elem_of_singleton. apply (tw_children t Hwf cache m0 new Hm0) in Hx as (? & ? & _). congruence.
  - intros j m ch Hj. rewrite fork_child. destruct (fork_lookup_inv j m Hj) as [[-> ->]|[Hjn [m0 Hm0]]]; cbn [children].
    + rewrite elem_of_nil. split; [done|]. intros [(m1 & Hm1 & Hp)|[_ <-]]; [|congruence].
      destruct (parent_exists t ch m1 new Hwf Hm1 Hp) as [? ?]. congruence.
    + destruct (fork_lookup_old j m0 Hm0) as (m1 & Hm1 & _ & _ & Hch). rewrite Hj in Hm1. injection Hm1 as <-.
      rewrite Hch, <- (tw_children t Hwf j m0 ch Hm0). case_decide as Hjc.
      * rewrite elem_of_app, list_elem_of_singleton. naive_solver.
      * naive_solver.
Qed.
End Fork.

(** ** Splitting a segment *)

Lemma fold_setParent p (l : list nat) (t : tree) x :
  foldr (fun c t => alter (setParent p) c t) t l !! x =
  if decide (x ∈ l) then setParent p <$> t !! x else t !! x.
Proof.
  induction l as [|c l IH]; cbn [foldr]; [done|]. destruct (decide (x = c)) as [->|Hne].
  - rewrite lookup_alter_eq, IH, (decide_True (P := c ∈ c :: l)) by constructor.
    case_decide; [|done]. by destruct (t !! c).
  - rewrite lookup_alter_ne, IH by done. apply decide_ext. rewrite elem_of_cons. naive_solver.
Qed.

Lemma split_flat s c k : chain_wf (s :: c) -> blockInfos s <> [] -> startIndex s < k <= getTopBlockIndex s ->
  let lower := fst (split k s) in let upper := snd (split k s) in
  chain_wf (upper :: lower :: c) /\ flat_eq (upper :: lower :: c) (s :: c) /\
  blockInfos lower <> [] /\ blockInfos upper <> [] /\ height (lower :: c) = k.
Proof.
  intros [Hs Hc] Hne Hk lower upper. pose proof (bound_range s c k Hs Hne Hk) as Hb. split.
  { split; [by apply split_upper_wf|]. split; [by apply split_lower_wf|done]. }
  split; [split; [by apply split_chain_blocks|by apply split_chain_spent|by apply split_chain_txs|by apply split_chain_outputs]|].
  split; [|split; [|by apply split_height]].
  - intros H%(f_equal length). cbn in H. rewrite length_take in H. lia.
  - intros H%(f_equal length). cbn in H. rewrite length_drop in H. lia.
Qed.

(** A path through [cache], with the upper part put in. *)
Fixpoint expand (cache upper : nat) (l : list nat) : list nat :=
  match l with
  | [] => []
  | x :: r => if decide (x = cache) then upper :: x :: r else x :: expand cache upper r
  end.

Section SplitNode.
Variables (t : tree) (cache upper : nat) (n : node) (k : Z).
Hypothesis Hwf : tree_wf t.
Hypothesis Hn : t !! cache = Some n.
Hypothesis Hup : t !! upper = None.
Hypothesis Hk : startIndex (seg n) < k <= getTopBlockIndex (seg n).

Let lower_seg := fst (split k (seg n)).
Let upper_seg := snd (split k (seg n)).
Let t' := split_node cache upper k t.

Lemma split_unfold : t' =
  <[upper := {| seg := upper_seg; parent := Some cache; children := children n |}]>
    (<[cache := {| seg := lower_seg; parent := parent n; children := [upper] |}]>
      (foldr (fun c t => alter (setParent (Some upper)) c t) t (children n))).
Proof using Hn. unfold t', split_node, lower_seg, upper_seg. rewrite Hn. by destruct (split k (seg n)). Qed.

Lemma split_lookup_upper : t' !! upper = Some {| seg := upper_seg; parent := Some cache; children := children n |}.
Proof using Hn. rewrite split_unfold. apply lookup_insert_eq. Qed.

Lemma split_lookup_cache : t' !! cache = Some {| seg := lower_seg; parent := parent n; children := [upper] |}.
Proof using Hn Hup. rewrite split_unfold, lookup_insert_ne by congruence. apply lookup_insert_eq. Qed.

Lemma split_lookup_old x : x <> cache -> x <> upper ->
  t' !! x = if decide (x ∈ children n) then setParent (Some upper) <$> t !! x else t !! x.
Proof using Hn. intros Hc Hu. rewrite split_unfold, !lookup_insert_ne by done. apply fold_setParent. Qed.

Lemma split_old_none x m : t !! x = Some m -> x <> upper.
Proof using Hup. congruence. Qed.

(** The ancestors of [cache], itself included, are none of its children. *)
Lemma ancestor_no_child l x : is_path t cache l -> x ∈ l -> x ∉ children n.
Proof using Hwf Hn.
  intros Hl Hx Hch. apply (tw_children t Hwf cache n x Hn) in Hch as (m & Hm & Hp).
  destruct (is_path_elem t cache l x Hl Hx) as (l' & Hl' & Hle).
  rewrite (is_path_unique t x l' Hl' (x :: l)) in Hle by (by eapply path_step). cbn in Hle. lia.
Qed.

Lemma split_cache_path l : is_path t cache l -> is_path t' cache l.
Proof using Hwf Hn Hup.
  intros Hl. eapply is_path_parents; [exact Hl|]. intros x Hx. destruct (decide (x = cache)) as [->|Hxc].
  { by rewrite split_lookup_cache, Hn. }
  destruct (is_path_dom t cache l Hl x Hx) as [m Hm].
  rewrite split_lookup_old, decide_False; [done|by eapply ancestor_no_child|done|by eapply split_old_none].
Qed.

Lemma split_upper_path l : is_path t cache l -> is_path t' upper (upper :: l).
Proof using Hwf Hn Hup. intros Hl. eapply path_step; [apply split_lookup_upper|done|by apply split_cache_path]. Qed.

Lemma split_path j l : is_path t j l -> j <> cache -> is_path t' j (expand cache upper l).
Proof using Hwf Hn Hup.
  induction 1 as [j m Hm Hp|j m p l Hm Hp Hl IH]; intros Hj; cbn [expand]; rewrite decide_False by done.
  - eapply path_root; [|exact Hp]. rewrite split_lookup_old, decide_False; [done| |done|by eapply split_old_none].
    intros Hch. apply (tw_children t Hwf cache n j Hn) in Hch as (m' & Hm' & Hp'). congruence.
  - destruct (decide (p = cache)) as [->|Hpc].
    + destruct (is_path_head t cache l Hl) as [r ->]. cbn [expand]. rewrite decide_True by done.
      eapply (path_step _ j (setParent (Some upper) m)); [|done|by apply split_upper_path].
      rewrite split_lookup_old, decide_True, Hm; [done| |done|by eapply split_old_none].
      apply (tw_children t Hwf cache n j Hn). eauto.
    + eapply path_step; [|exact Hp|by apply IH].
      rewrite split_lookup_old, decide_False; [done| |done|by eapply split_old_none].
      intros Hch. apply (tw_children t Hwf cache n j Hn) in Hch as (m' & Hm' & Hp'). congruence.
Qed.

Lemma split_rest_segs r : is_path t cache (cache :: r) -> segs t' r = segs t r.
Proof using Hwf Hn Hup.
  intros Hl. apply segs_ext. intros x Hx. pose proof (is_path_NoDup _ _ _ Hl) as [Hc _]%NoDup_cons.
  destruct (is_path_dom t cache _ Hl x) as [m Hm]; [by constructor|].
  rewrite split_lookup_old, decide_False; [done| |congruence|by eapply split_old_none].
  eapply ancestor_no_child; [exact Hl|by constructor].
Qed.

Lemma split_cache_segs r : is_path t cache (cache :: r) ->
  segs t (cache :: r) = seg n :: segs t r /\ segs t' (cache :: r) = lower_seg :: segs t r /\
  segs t' (upper :: cache :: r) = upper_seg :: lower_seg :: segs t r.
Proof using Hwf Hn Hup.
  intros Hl. rewrite (segs_cons t' upper _ _ split_lookup_upper), (segs_cons t' cache _ r split_lookup_cache).
  rewrite (segs_cons t cache n r Hn), split_rest_segs by done. done.
Qed.

Lemma split_at_cache r : is_path t cache (cache :: r) ->
  chain_wf (segs t' (upper :: cache :: r)) /\ flat_eq (segs t' (upper :: cache :: r)) (segs t (cache :: r)) /\
  blockInfos lower_seg <> [] /\ blockInfos upper_seg <> [] /\ height (segs t' (cache :: r)) = k.
Proof using Hwf Hn Hup Hk.
  intros Hl. destruct (split_cache_segs r Hl) as (E1 & E2 & E3). rewrite E1, E2, E3.
  apply split_flat; [|by apply (tw_nonempty t Hwf cache)|done]. rewrite <- E1.
  destruct (tw_path t Hwf cache n Hn) as (l & Hl' & Hc). by rewrite (is_path_unique t cache _ Hl l Hl').
Qed.

Lemma split_seg_old x m : t !! x = Some m -> x <> cache ->
  exists m', t' !! x = Some m' /\ seg m' = seg m /\ children m' = children m /\
    parent m' = if decide (x ∈ children n) then Some upper else parent m.
Proof using Hn Hup.
  intros Hm Hx. rewrite split_lookup_old; [|done|by eapply split_old_none]. rewrite Hm.
  case_decide; cbn; by eexists.
Qed.

Lemma split_segs j l : is_path t j l -> j <> cache -> chain_wf (segs t l) ->
  chain_wf (segs t' (expand cache upper l)) /\ flat_eq (segs t' (expand cache upper l)) (segs t l).
Proof using Hwf Hn Hup Hk.
  induction 1 as [j m Hm Hp|j m p l Hm Hp Hl IH]; intros Hj Hc; cbn [expand]; rewrite decide_False by done;
    destruct (split_seg_old j m Hm Hj) as (m' & Hm' & Es & _ & _); rewrite (segs_cons t' j m' _ Hm'), Es;
    rewrite (segs_cons t j m _ Hm) in Hc |- *.
  - cbn. by split.
  - destruct Hc as [Hs Hc]. assert (chain_wf (segs t' (expand cache upper l)) /\
      flat_eq (segs t' (expand cache upper l)) (segs t l) /\
      top_nonempty (segs t' (expand cache upper l))) as (IH1 & IH2 & IH3).
    { destruct (is_path_head t p l Hl) as [r ->]. destruct (decide (p = cache)) as [->|Hpc].
      - cbn [expand]. rewrite decide_True by done. destruct (split_at_cache r Hl) as (H1 & H2 & _ & H3 & _).
        split; [done|]. split; [done|]. destruct (split_cache_segs r Hl) as (_ & _ & ->). done.
      - destruct (IH Hpc Hc) as [H1 H2]. split; [done|]. split; [done|]. cbn [expand]. rewrite decide_False by done.
        destruct (is_path_dom t p _ Hl p) as [q Hq]; [by constructor|].
        destruct (split_seg_old p q Hq Hpc) as (q' & Hq' & Eq & _). rewrite (segs_cons t' p q' _ Hq'). cbn.
        rewrite Eq. by apply (tw_nonempty t Hwf p). }
    split; [split; [by eapply segment_wf_flat|done]|by rewrite IH2].
Qed.

Lemma split_dom x m' : t' !! x = Some m' -> x = upper \/ is_Some (t !! x).
Proof using Hn.
  intros Hx. destruct (decide (x = upper)) as [->|Hu]; [by left|right].
  destruct (decide (x = cache)) as [->|Hc]; [by eexists|]. rewrite split_lookup_old in Hx by done.
  case_decide; [|by eexists]. destruct (t !! x); [by eexists|done].
Qed.

Lemma split_one_root : one_root t -> one_root t'.
Proof using Hn Hup.
  intros Ht. apply (one_root_step t); [done|]. intros j m' Hj Hp. destruct (split_dom j m' Hj) as [->|[m Hm]].
  - rewrite split_lookup_upper in Hj. by injection Hj as <-.
  - destruct (decide (j = cache)) as [->|Hne].
    + rewrite split_lookup_cache in Hj. injection Hj as <-. eauto.
    + destruct (split_seg_old j m Hm Hne) as (m1 & Hm1 & _ & _ & Hp1). simplify_eq.
      case_decide; [congruence|]. exists m. split; [done|congruence].
Qed.

Lemma no_child_of_upper x m : t !! x = Some m -> parent m <> Some upper.
Proof using Hwf Hup. intros Hm Hp. destruct (parent_exists t x m upper Hwf Hm Hp) as [? ?]. congruence. Qed.

Lemma split_child ch x : (exists m, t' !! ch = Some m /\ parent m = Some x) <->
  (if decide (x = cache) then ch = upper
   else if decide (x = upper) then ch ∈ children n else exists m, t !! ch = Some m /\ parent m = Some x).
Proof using Hwf Hn Hup.
  pose proof (fun m => tw_children t Hwf cache n m Hn) as Hch. split.
  - intros (m & Hm & Hp). destruct (split_dom ch m Hm) as [->|[m0 Hm0]].
    { rewrite split_lookup_upper in Hm. simplify_eq. cbn in Hp. injection Hp as <-. by rewrite decide_True. }
    destruct (decide (ch = cache)) as [->|Hc].
    + rewrite split_lookup_cache in Hm. simplify_eq. cbn in Hp.
      rewrite decide_False by (by apply (parent_ne t cache n)).
      rewrite decide_False by (intros ->; by eapply no_child_of_upper). eauto.
    + destruct (split_seg_old ch m0 Hm0 Hc) as (m1 & Hm1 & _ & _ & Hp1). rewrite Hm1 in Hm. injection Hm as ->.
      rewrite Hp1 in Hp. case_decide as Hin.
      * injection Hp as <-. rewrite decide_False, decide_True by (done || congruence). done.
      * rewrite (decide_False (P := x = cache)) by (intros ->; apply Hin, Hch; eauto).
        rewrite decide_False by (intros ->; by eapply no_child_of_upper). eauto.
  - case_decide as Hxc; [intros ->; subst x; eexists; split; [apply split_lookup_upper|done]|].
    case_decide as Hxu.
    + subst x. intros Hin. pose proof Hin as (m & Hm & Hp)%Hch.
      assert (ch <> cache) as Hc by (intros ->; by apply (parent_ne t cache m cache Hwf Hm)).
      destruct (split_seg_old ch m Hm Hc) as (m1 & Hm1 & _ & _ & Hp1). rewrite decide_True in Hp1 by done. eauto.
    + intros (m & Hm & Hp). destruct (decide (ch = cache)) as [->|Hc].
      * eexists. split; [apply split_lookup_cache|]. cbn. congruence.
      * destruct (split_seg_old ch m Hm Hc) as (m1 & Hm1 & _ & _ & Hp1). exists m1. split; [done|].
        rewrite Hp1, decide_False; [done|]. intros (m2 & ? & ?)%Hch. congruence.
Qed.

Lemma split_wf : tree_wf t'.
Proof using Hwf Hn Hup Hk.
  destruct (tw_path t Hwf cache n Hn) as (lc & Hlc & Hwc). destruct (is_path_head t cache lc Hlc) as [r ->].
  destruct (split_at_cache r Hlc) as (Hwu & Hfu & Hnel & Hneu & _). split.
  - intros j m Hj. destruct (split_dom j m Hj) as [->|[m0 Hm0]]; [|destruct (decide (j = cache)) as [->|Hc]].
    + exists (upper :: cache :: r). split; [by apply split_upper_path|done].
    + exists (cache :: r). split; [by apply split_cache_path|]. rewrite (segs_cons t' upper _ _ split_lookup_upper) in Hwu.
      apply Hwu.
    + destruct (tw_path t Hwf j m0 Hm0) as (l & Hl & Hcl). exists (expand cache upper l).
      split; [by apply split_path|by apply (split_segs j l)].
  - intros j m Hj. destruct (split_dom j m Hj) as [->|[m0 Hm0]]; [|destruct (decide (j = cache)) as [->|Hc]].
    + rewrite split_lookup_upper in Hj. by injection Hj as <-.
    + rewrite split_lookup_cache in Hj. by injection Hj as <-.
    + destruct (split_seg_old j m0 Hm0 Hc) as (m1 & Hm1 & Es & _). rewrite Hj in Hm1. injection Hm1 as <-.
      rewrite Es. by apply (tw_nonempty t Hwf j).
  - intros j m Hj. destruct (split_dom j m Hj) as [->|[m0 Hm0]]; [|destruct (decide (j = cache)) as [->|Hc]].
    + rewrite split_lookup_upper in Hj. injection Hj as <-. exact (tw_NoDup t Hwf cache n Hn).
    + rewrite split_lookup_cache in Hj. injection Hj as <-. apply NoDup_singleton.
    + destruct (split_seg_old j m0 Hm0 Hc) as (m1 & Hm1 & _ & Ec & _). rewrite Hj in Hm1. injection Hm1 as <-.
      rewrite Ec. by apply (tw_NoDup t Hwf j).
  - intros j m ch Hj. rewrite split_child.
    destruct (split_dom j m Hj) as [->|[m0 Hm0]]; [|destruct (decide (j = cache)) as [->|Hc]].
    + rewrite split_lookup_upper in Hj. injection Hj as <-. rewrite decide_False, decide_True by congruence. done.
    + rewrite split_lookup_cache in Hj. injection Hj as <-. cbn. apply list_elem_of_singleton.
    + rewrite decide_False by (by eapply split_old_none).
      destruct (split_seg_old j m0 Hm0 Hc) as (m1 & Hm1 & _ & Ec & _). rewrite Hj in Hm1. injection Hm1 as <-.
      rewrite Ec. by apply (tw_children t Hwf j).
Qed.

(** The chain of every node has the same content as before. *)
Lemma split_content j m : t !! j = Some m -> j <> cache -> flat_eq (chain_of t' j) (chain_of t j).
Proof using Hwf Hn Hup Hk.
  intros Hm Hj. destruct (tw_path t Hwf j m Hm) as (l & Hl & Hc).
  rewrite (chain_of_path t j l Hl), (chain_of_path t' j _ (split_path j l Hl Hj)). by apply (split_segs j l).
Qed.

Lemma split_content_upper : flat_eq (chain_of t' upper) (chain_of t cache).
Proof using Hwf Hn Hup Hk.
  destruct (tw_path t Hwf cache n Hn) as (lc & Hlc & _). destruct (is_path_head t cache lc Hlc) as [r ->].
  rewrite (chain_of_path t cache _ Hlc), (chain_of_path t' upper _ (split_upper_path _ Hlc)).
  by apply split_at_cache.
Qed.

(** Below the cut nothing is lost. *)
Lemma split_content_lower : flat_eq (upper_seg :: chain_of t' cache) (chain_of t cache) /\ height (chain_of t' cache) = k.
Proof using Hwf Hn Hup Hk.
  destruct (tw_path t Hwf cache n Hn) as (lc & Hlc & _). destruct (is_path_head t cache lc Hlc) as [r ->].
  rewrite (chain_of_path t cache _ Hlc), (chain_of_path t' cache _ (split_cache_path _ Hlc)).
  destruct (split_at_cache r Hlc) as (_ & Hf & _ & _ & Hh). split; [|done].
  by rewrite (segs_cons t' upper _ _ split_lookup_upper) in Hf.
Qed.
End SplitNode.

(** ** Weights *)

Lemma span_positive ts cds w c : 0 < (span_work ts cds w c).1.
Proof.
  unfold span_work. destruct (cut_range _ _ _) as [a b]. cbn. destruct (Z.eqb_spec (u64 (at_ (std_sort ts) (b - 1) - at_ (std_sort ts) a)) 0); [lia|].
  pose proof (wrap_fits 64 ltac:(lia) (at_ (std_sort ts) (b - 1) - at_ (std_sort ts) a)). mlia.
Qed.

Lemma scaled_work_nonneg c ts tw low : scaled_work c ts tw = Some low -> 0 <= low.
Proof.
  unfold scaled_work, mul128. intros H. case_match; [done|]. injection H as <-. apply wrap_fits. lia.
Qed.

Lemma u64_nonneg x : 0 <= u64 x.
Proof. apply wrap_fits. lia. Qed.

Lemma nextDifficulty_nonneg c v i ts cds : 0 <= nextDifficulty c v i ts cds.
Proof.
  unfold nextDifficulty. destruct (_ <=? 1); [lia|].
  match goal with |- context [span_work ?a ?b ?x ?y] => pose proof (span_positive a b x y) as Hs;
    destruct (span_work a b x y) as [sp w]; cbn [fst] in Hs end.
  destruct (scaled_work c sp w) as [low|] eqn:E; [|lia]. apply scaled_work_nonneg in E.
  destruct (_ && _); [apply Z.div_pos; lia|].
  destruct (_ && _); [|apply Z.div_pos; [apply u64_nonneg|lia]].
  destruct (_ <=? 1); [lia|]. destruct (span_work _ _ _ _) as [sp' w']. destruct (scaled_work c sp' w'); lia.
Qed.

Lemma max_u64_nonneg x z : 0 <= Z.max (u64 x / 100) z.
Proof. pose proof (u64_nonneg x). assert (0 <= u64 x / 100) by (apply Z.div_pos; lia). lia. Qed.

Lemma lwma_nonneg (short : bool) f (o : option (Z * Z * Z)) d :
  (if short then Some 10000 else '(x, y, z) ← o; Some (u64 (f x y z))) = Some d -> 0 <= d.
Proof.
  destruct short; [intros [= <-]; lia|]. intros ([[x y] z] & _ & [= <-])%bind_Some. apply u64_nonneg.
Qed.

Lemma nextDifficultyV6_nonneg ts cds d : nextDifficultyV6 ts cds = Some d -> 0 <= d.
Proof.
  unfold nextDifficultyV6. destruct (_ <=? 10); [intros [= <-]; lia|]. destruct (v6_loop _ _ _ _ _ _) as [L q].
  intros (x & _ & [= <-])%bind_Some.
  match goal with |- context [Z.max (u64 ?a / 100) ?b] => pose proof (max_u64_nonneg a b) end.
  destruct (q <? _); lia.
Qed.

Lemma getNextDifficulty_nonneg c v i ts cds d : getNextDifficulty c v i ts cds = Some d -> 0 <= d.
Proof.
  unfold getNextDifficulty. destruct (_ <=? i); [apply nextDifficultyV6_nonneg|].
  destruct (_ <=? i); [|destruct (_ <=? i); [|destruct (_ <=? i); [|intros [= <-]; apply nextDifficulty_nonneg]]].
  - exact (lwma_nonneg _ (fun x y z => if z <? _ then Z.max (Z.max _ (Z.min x _)) _ else _) _ d).
  - exact (lwma_nonneg _ (fun x y z => if z <? _ then Z.max (Z.max _ (Z.min x _)) _ else _) _ d).
  - exact (lwma_nonneg _ (fun x y z => if z <? _ then percent y 110 else _) _ d).
Qed.

Section Weights.
Variable cur : Currency.

(** The difficulty of the block after the blocks [l]. *)
Definition next_difficulty (l : list CachedBlockInfo) : option Z :=
  let i := Z.of_nat (length l) - 1 in
  let version := Upgrades.getBlockMajorVersion (u32 (i + 1)) (Upgrades.core_upgrades cur) in
  let count := Z.to_nat (difficultyBlocksCountByBlockVersion cur version i) in
  let blocks := lastn count (drop 1 l) in
  getNextDifficulty cur version i (map cbi_timestamp blocks) (map cumulativeDifficulty blocks).

Lemma getDifficultyForNextBlock_flat s c i :
  chain_wf (s :: c) -> blockInfos s <> [] -> 0 <= i < height (s :: c) ->
  getDifficultyForNextBlock cur i (s :: c) = next_difficulty (take (Z.to_nat (i + 1)) (chain_blocks (s :: c))).
Proof.
  intros Hwf Hne Hi. unfold getDifficultyForNextBlock, getLastTimestamps, getLastCumulativeDifficulties, next_difficulty.
  rewrite !getLastUnits_flat by done. unfold blocks_upto, height in *. rewrite length_take, Nat.min_l by lia.
  replace (Z.of_nat (Z.to_nat (i + 1)) - 1) with i by lia. done.
Qed.

(** Every block adds the difficulty of its place to the total. *)
Definition difficulties_add_up (l : list CachedBlockInfo) : Prop :=
  forall j info, l !! S j = Some info ->
  exists prev d, l !! j = Some prev /\ next_difficulty (take (S j) l) = Some d /\
    cumulativeDifficulty info = cumulativeDifficulty prev + d.

(** The cumulative difficulty of the last block. *)
Definition weight (l : list CachedBlockInfo) : Z := match last l with Some i => cumulativeDifficulty i | None => 0 end.

Lemma add_up_snoc l info : l <> [] -> difficulties_add_up l ->
  (exists d, next_difficulty l = Some d /\ cumulativeDifficulty info = weight l + d) ->
  difficulties_add_up (l ++ [info]).
Proof.
  intros Hne Hl (d & Hd & Hc) j x Hx. destruct (decide (S j < length l)%nat) as [Hj|Hj].
  - rewrite lookup_app_l in Hx by done. destruct (Hl j x Hx) as (p & d' & Hp & Hd' & ?). exists p, d'.
    rewrite lookup_app_l, take_app_le by lia. done.
  - rewrite lookup_app_r in Hx by lia. destruct (S j - length l)%nat as [|] eqn:E; [|done]. injection Hx as <-.
    assert (S j = length l) as Ej by lia. unfold weight in Hc. destruct (last l) as [p|] eqn:El.
    + exists p, d. rewrite lookup_app_l by lia. rewrite last_lookup, <- Ej in El. cbn in El.
      rewrite take_app_le, take_ge by lia. done.
    + by apply last_None in El.
Qed.

Lemma add_up_prefix l k : difficulties_add_up (l ++ k) -> difficulties_add_up l.
Proof.
  intros H j x Hx. pose proof (lookup_lt_Some _ _ _ Hx).
  destruct (H j x) as (p & d & Hp & Hd & ?); [by rewrite lookup_app_l|].
  rewrite lookup_app_l in Hp by lia. rewrite take_app_le in Hd by lia. eauto 10.
Qed.

(** Later blocks only weigh more. *)
Lemma weight_mono l k : l <> [] -> difficulties_add_up (l ++ k) -> weight l <= weight (l ++ k).
Proof.
  intros Hne. induction k as [|x k IH] using rev_ind; intros H.
  - by rewrite app_nil_r.
  - rewrite app_assoc in *. pose proof (add_up_prefix _ _ H) as Hp. specialize (IH Hp).
    destruct (H (length (l ++ k) - 1)%nat x) as (p & d & Hlp & Hd & Hc).
    { assert (length (l ++ k) <> 0%nat) by (rewrite length_app; destruct l; [done|cbn; lia]).
      rewrite lookup_app_r by lia. by replace (S (length (l ++ k) - 1) - length (l ++ k))%nat with 0%nat by lia. }
    assert (last (l ++ k) = Some p) as El.
    { rewrite last_lookup. rewrite lookup_app_l in Hlp; [by rewrite <- Nat.sub_1_r|].
      assert (length (l ++ k) <> 0%nat) by (rewrite length_app; destruct l; [done|cbn; lia]). lia. }
    apply getNextDifficulty_nonneg in Hd. etrans; [exact IH|]. unfold weight. rewrite El, last_snoc. lia.
Qed.
End Weights.
