(* ===== verification/AddBlock.v ===== *)
(** * Adding blocks keeps the core consistent

    The invariant of [Core] ([src/mevacoin_core/core.cpp]): the leaves are the
    nodes without children, no chain has a block twice, the difficulties of
    every chain add up, and the first leaf is a heaviest one.  [addBlock] keeps
    it on every branch. *)

From stdpp Require Import gmap fin_sets sorting.
From S2P Require Import Prelude Config Stream Serializer Transaction Amounts Block Cached Pool Currency Difficulty.
From S2P Require Import Rules PoolCleaner Checkpoints Segments ChainSpec Validation Core CoreSpec.
Import BlockchainCache.

(** The blocks from the root to the top of a node. *)
Definition blocks (t : tree) (id : nat) : list CachedBlockInfo := chain_blocks (chain_of t id).
Definition hashes (l : list CachedBlockInfo) : list Hash := map blockHash l.

Section Forest.
Variable cur : Currency.
Implicit Types (t : tree) (leaves : list nat).

(** A chain whose blocks are distinct and whose difficulties add up. *)
Record chain_ok (l : list CachedBlockInfo) : Prop := {
  co_add_up : difficulties_add_up cur l;
  co_unique : NoDup (hashes l);
  co_nonneg : Forall (fun i => 0 <= cumulativeDifficulty i) l
}.

Record forest_wf t leaves : Prop := {
  fw_tree : tree_wf t;
  fw_leaves id : id ∈ leaves <-> exists n, t !! id = Some n /\ children n = [];
  fw_NoDup : NoDup leaves;
  fw_root : one_root t;
  fw_chains id n : t !! id = Some n -> chain_ok (blocks t id)
}.

Definition heaviest t leaves : Prop :=
  exists main others, leaves = main :: others /\
  forall id, id ∈ leaves -> weight (blocks t id) <= weight (blocks t main).

Lemma chain_ok_prefix l k : chain_ok (l ++ k) -> chain_ok l.
Proof.
  intros [Ha Hu H0]. apply Forall_app in H0 as [H0 _]. split; [by eapply add_up_prefix| |done].
  unfold hashes in Hu. rewrite map_app in Hu. by apply NoDup_app in Hu as [? _].
Qed.

Lemma chain_ok_weight l : chain_ok l -> 0 <= weight l.
Proof.
  intros [_ _ H0]. unfold weight. destruct (last l) as [i|] eqn:E; [|done].
  apply last_Some_elem_of in E. rewrite Forall_forall in H0. by apply H0.
Qed.

Lemma chain_ok_snoc l info d : l <> [] -> chain_ok l -> next_difficulty cur l = Some d ->
  cumulativeDifficulty info = weight l + d -> blockHash info ∉ hashes l -> chain_ok (l ++ [info]).
Proof.
  intros Hne Hok Hd Hc Hn. pose proof (chain_ok_weight l Hok). destruct Hok as [Ha Hu H0].
  split; [apply add_up_snoc; eauto| |].
  - unfold hashes. rewrite map_app. apply NoDup_app. split; [done|]. split; [|apply NoDup_singleton].
    intros h Hh ->%list_elem_of_singleton. done.
  - apply Forall_app. split; [done|]. apply Forall_singleton. apply getNextDifficulty_nonneg in Hd. lia.
Qed.

Lemma blocks_cons t id n : tree_wf t -> t !! id = Some n ->
  blocks t id = match parent n with Some p => blocks t p | None => [] end ++ blockInfos (seg n).
Proof. intros Hwf Hn. unfold blocks. rewrite (chain_of_cons t id n Hwf Hn). by destruct (parent n). Qed.

Lemma blocks_nonempty t id n : tree_wf t -> t !! id = Some n -> blocks t id <> [].
Proof.
  intros Hwf Hn. rewrite (blocks_cons t id n Hwf Hn). intros [_ H]%app_nil. by apply (tw_nonempty t Hwf id n Hn).
Qed.

(** Every node lies under a leaf. *)
Lemma node_under_leaf t leaves id n : forest_wf t leaves -> t !! id = Some n ->
  exists leaf r, leaf ∈ leaves /\ id ∈ path t leaf /\ blocks t leaf = blocks t id ++ r.
Proof.
  intros [Hwf Hlv _ _ _]. remember (size t - length (path t id))%nat as m eqn:Em.
  revert id n Em. induction m as [m IH] using lt_wf_ind. intros id n Em Hn.
  destruct (tw_path t Hwf id n Hn) as (l & Hl & _). pose proof (path_is t id l Hl) as Ep.
  destruct (children n) as [|ch chs] eqn:Ec.
  { exists id, []. rewrite app_nil_r, Ep. destruct (is_path_head t id l Hl) as [r ->].
    split; [apply Hlv; eauto|]. split; [by constructor|done]. }
  assert (ch ∈ children n) as Hch by (rewrite Ec; by constructor).
  apply (tw_children t Hwf id n ch Hn) in Hch as (mc & Hmc & Hpc).
  pose proof (path_step t ch mc id l Hmc Hpc Hl) as Hlc. pose proof (path_is t ch _ Hlc) as Epc.
  pose proof (is_path_length t ch _ Hlc) as Hlen. cbn in Hlen. rewrite Ep in Em.
  destruct (IH (size t - length (path t ch))%nat ltac:(rewrite Epc; cbn; lia) ch mc eq_refl Hmc)
    as (leaf & r & Hleaf & Hin & Er).
  exists leaf, (blockInfos (seg mc) ++ r). split; [done|]. split.
  - apply Hlv in Hleaf as (ml & Hml & _). destruct (tw_path t Hwf leaf ml Hml) as (ll & Hll & _).
    rewrite (path_is t leaf ll Hll) in *. clear -Hll Hin Hmc Hpc Hl.
    induction Hll as [j m Hm Hp|j m p l' Hm Hp Hl' IH].
    + apply list_elem_of_singleton in Hin as ->. congruence.
    + apply elem_of_cons in Hin as [->|Hin]; [|constructor; by apply IH]. simplify_eq.
      constructor. destruct (is_path_head t id l' Hl') as [r' ->]. by constructor.
  - rewrite Er, (blocks_cons t ch mc Hwf Hmc), Hpc. by rewrite <- app_assoc.
Qed.

(** ** Pushing a block *)

(** The block may be pushed on the chain [c]. *)
Record ready (b : CachedBlock) (a : Accepted) (c : list segment) : Prop := {
  rd_index : cb_index b = height c;
  rd_height : height c + 1 < 2 ^ 32;
  rd_base : exists base, CachedTransaction_object (baseTransaction (getBlock b)) = Some base /\
    forall x, Z.of_nat (length (chain_outputs x c) + outputs_count (base :: ac_transactions a)) < 2 ^ 32;
  rd_fresh k : k ∈ Pool.spentKeyImages (ac_state a) -> chain_spent c !! k = None;
  rd_difficulty : next_difficulty cur (chain_blocks c) = Some (ac_difficulty a);
  rd_weight : weight (chain_blocks c) + ac_difficulty a < 2 ^ 64;
  rd_start : chain_blocks c <> [] /\ 0 <= weight (chain_blocks c);
  rd_new : getBlockHash b ∉ hashes (chain_blocks c)
}.

(** The chain [l] with the block at its end. *)
Definition extends (b : CachedBlock) (a : Accepted) (l l' : list CachedBlockInfo) : Prop :=
  exists info, l' = l ++ [info] /\ blockHash info = getBlockHash b /\
    cumulativeDifficulty info = weight l + ac_difficulty a.

Lemma extends_weight b a l l' : extends b a l l' -> weight l' = weight l + ac_difficulty a.
Proof. intros (info & -> & _ & <-). unfold weight. by rewrite last_snoc. Qed.

Lemma extends_ok b a c l' : ready b a c -> chain_ok (chain_blocks c) -> extends b a (chain_blocks c) l' -> chain_ok l'.
Proof.
  intros [_ _ _ _ Hd _ [Hne _] Hnew] Hok (info & -> & Hh & Hc). eapply chain_ok_snoc; [done..|]. by rewrite Hh.
Qed.

Lemma ready_push cn_fast_hash b a raw s c : ready b a (s :: c) -> chain_wf (s :: c) ->
  exists s', doPushBlock cn_fast_hash b (ac_transactions a) (ac_state a) (ac_size a) (ac_emissionChange a)
    (ac_difficulty a) raw (s :: c) = Some (s' :: c) /\
  chain_wf (s' :: c) /\ blockInfos s' <> [] /\ extends b a (chain_blocks (s :: c)) (chain_blocks (s' :: c)).
Proof.
  intros [Hi Hh (base & Hb & Ho) Hf Hd Hw [Hne H0] Hn] Hwf.
  destruct (push_block_exists cn_fast_hash s c b base (ac_transactions a) (ac_state a) (ac_size a)
    (ac_emissionChange a) (ac_difficulty a) raw Hwf Hi Hh Hb Hf Ho) as (s' & Hp & Hwf' & Hbl & _).
  exists s'. split; [exact Hp|]. split; [exact Hwf'|]. split.
  - apply (f_equal length) in Hbl. cbn in Hbl. rewrite !length_app in Hbl. cbn in Hbl. intros E. rewrite E in Hbl.
    cbn in Hbl. lia.
  - eexists. split; [exact Hbl|]. apply getNextDifficulty_nonneg in Hd. unfold weight, block_info in *.
    destruct (last (chain_blocks (s :: c))) as [p|]; cbn [blockHash cumulativeDifficulty];
      rewrite wrap_small by mlia; done.
Qed.
End Forest.

(** ** The three ways to grow the tree *)

Section Grow.
Variable E : Environment.
Abbreviation cur := (currency E).
Implicit Types (t : tree) (leaves : list nat).

Lemma ready_flat b a c c' : flat_eq c c' -> ready cur b a c -> ready cur b a c'.
Proof.
  intros He [Hi Hh (base & Hb & Ho) Hf Hd Hw H0 Hn]. pose proof He as [Eb Es _ Eo].
  split; try (rewrite <- ?Eb, <- ?Es; done).
  - by rewrite <- He.
  - by rewrite <- He.
  - exists base. split; [done|]. intros x. rewrite <- Eo. apply Ho.
Qed.

Lemma new_segment_flat i c : flat_eq c (new_segment i :: c).
Proof.
  split; cbn.
  - by rewrite app_nil_r.
  - by rewrite map_empty_union.
  - by rewrite app_nil_r.
  - intros a. unfold segment_outputs. cbn. by rewrite app_nil_r.
Qed.

Lemma new_segment_wf b a c : ready cur b a c -> chain_wf c -> top_nonempty c -> chain_wf (new_segment (height c) :: c).
Proof.
  intros [Hi Hh (base & Hb & Ho) _ _ _ _ _] Hwf Hne. split; [|done]. split; cbn [new_segment startIndex spentKeyImages transactions keyOutputsGlobalIndexes].
  - done.
  - done.
  - rewrite height_cons. cbn. lia.
  - done.
  - done.
  - done.
  - intros x. rewrite <- (fe_outputs _ _ (new_segment_flat (height c) c)). specialize (Ho x). lia.
Qed.

(** The chains of [t] are those of [t'], but for the node [id]. *)
Definition same_but t t' (id : nat) : Prop :=
  forall j, is_Some (t !! j) -> j <> id -> blocks t' j = blocks t j.

Lemma push_leaf b raw a t leaves id n :
  forest_wf cur t leaves -> t !! id = Some n -> children n = [] -> ready cur b a (chain_of t id) ->
  exists t', push_node E b raw a id t = Some t' /\ forest_wf cur t' leaves /\
    extends b a (blocks t id) (blocks t' id) /\ same_but t t' id /\
    (forall j, is_Some (t !! j) -> is_Some (t' !! j) /\ path t' j = path t j).
Proof.
  intros [Hwf Hlv Hnd Hroot Hch] Hn Hc Hr. pose proof (chain_of_cons t id n Hwf Hn) as Ec.
  set (ps := match parent n with Some p => chain_of t p | None => [] end) in Ec.
  pose proof (chain_of_wf t id n Hwf Hn) as Hcw. rewrite Ec in Hcw, Hr.
  destruct (ready_push cur (cn_fast_hash E) b a raw (seg n) ps Hr Hcw) as (s' & Hp & Hw' & Hne & Hx).
  exists (<[id := set_seg s' n]> t). unfold push_node. rewrite Hn, Ec. cbn [mbind option_bind]. rewrite Hp. cbn [head mbind option_bind].
  assert (blocks (<[id := set_seg s' n]> t) id = chain_blocks (s' :: ps)) as Eb.
  { unfold blocks. by rewrite (update_chain t id n s' Hwf Hn Hc), Ec. }
  assert (same_but t (<[id := set_seg s' n]> t) id) as Hsame.
  { intros j Hj Hji. unfold blocks. by rewrite (update_other t id n s' Hwf Hn Hc j Hj Hji). }
  split; [done|]. split; [|split; [unfold blocks at 1; by rewrite Eb, Ec|split; [done|]]].
  - split.
    + apply (update_wf t id n s' Hwf Hn Hc); [by rewrite Ec|done].
    + intros j. rewrite Hlv. destruct (decide (j = id)) as [->|Hj].
      * rewrite lookup_insert_eq, Hn. split; intros (m & [= <-] & Hm); eauto.
      * by rewrite lookup_insert_ne.
    + done.
    + by apply update_one_root.
    + intros j m Hj. destruct (decide (j = id)) as [->|Hji].
      * rewrite Eb. eapply extends_ok; [exact Hr| |exact Hx]. rewrite <- Ec. exact (Hch id n Hn).
      * rewrite lookup_insert_ne in Hj by done. rewrite Hsame by (done || by eexists). by eapply Hch.
  - intros j Hj. split; [|by apply (update_path_eq t id n s' Hwf Hn)].
    destruct (decide (j = id)) as [->|]; [rewrite lookup_insert_eq; by eexists|by rewrite lookup_insert_ne].
Qed.

Lemma push_fork b raw a t leaves cache new n start :
  forest_wf cur t leaves -> t !! cache = Some n -> children n <> [] -> t !! new = None ->
  start = height (chain_of t cache) -> ready cur b a (chain_of t cache) ->
  exists t', push_node E b raw a new (fork cache new start t) = Some t' /\ forest_wf cur t' (leaves ++ [new]) /\
    extends b a (blocks t cache) (blocks t' new) /\
    (forall j, is_Some (t !! j) -> is_Some (t' !! j) /\ path t' j = path t j /\ blocks t' j = blocks t j).
Proof.
  intros [Hwf Hlv Hnd Hroot Hch] Hn Hc Hnew -> Hr. pose proof (chain_of_wf t cache n Hwf Hn) as Hcw.
  set (c := chain_of t cache) in *.
  assert (top_nonempty c) as Htop.
  { unfold c. rewrite (chain_of_cons t cache n Hwf Hn). exact (tw_nonempty t Hwf cache n Hn). }
  pose proof (new_segment_flat (height c) c) as Hfl.
  pose proof (ready_flat b a c _ Hfl Hr) as Hr'.
  destruct (ready_push cur (cn_fast_hash E) b a raw _ c Hr' (new_segment_wf b a c Hr Hcw Htop)) as (s' & Hp & Hw' & Hne & Hx).
  rewrite <- (fe_blocks _ _ Hfl) in Hx. unfold push_node.
  destruct (fork_new t cache new n (new_segment (height c)) Hwf Hn Hnew) as [_ Ef]. fold c in Ef.
  change (<[new := _]> (alter _ _ _)) with (fork cache new (height c) t) in Ef. rewrite Ef, Hp. clear Ef Hp.
  unfold fork. rewrite lookup_insert_eq. cbn [mbind option_bind head]. rewrite insert_insert_eq. unfold set_seg. cbn [parent children].
  set (t' := <[new := _]> _). exists t'. split; [done|].
  assert (forall j, is_Some (t !! j) -> path t' j = path t j /\ chain_of t' j = chain_of t j) as Hold
    by exact (fork_old t cache new s' Hwf Hnew).
  destruct (fork_new t cache new n s' Hwf Hn Hnew) as [_ Ef]. fold t' c in Ef.
  assert (blocks t' new = chain_blocks (s' :: c)) as Eb by (unfold blocks; by rewrite Ef).
  split; [|split; [by rewrite Eb|]].
  - split.
    + exact (fork_wf t cache new n s' Hwf Hn Hnew Hw' Hne).
    + intros j. rewrite elem_of_app, list_elem_of_singleton, Hlv. symmetry.
      exact (fork_leaf t cache new n s' Hn Hnew Hc j).
    + apply NoDup_app. split; [done|]. split; [|apply NoDup_singleton].
      intros x Hxl ->%list_elem_of_singleton. apply Hlv in Hxl as (? & ? & _). congruence.
    + by apply (fork_one_root t cache new n s').
    + intros j m' Hj. destruct (fork_lookup_inv t cache new n s' Hn j m' Hj) as [[-> _]|[_ [m Hm]]].
      * rewrite Eb. eapply extends_ok; [exact Hr|exact (Hch cache n Hn)|exact Hx].
      * unfold blocks. rewrite (proj2 (Hold j ltac:(by eexists))). exact (Hch j m Hm).
  - intros j Hj. destruct (Hold j Hj) as [-> Hcj]. unfold blocks. rewrite Hcj. split; [|done].
    destruct Hj as [m Hm]. destruct (fork_lookup_old t cache new s' Hnew j m Hm) as (m' & Hm' & _). by eexists.
Qed.

(** The leaves after a split. *)
Definition split_leaves (cache upper : nat) (n : node) (leaves : list nat) : list nat :=
  if (getChildCount n =? 0)%nat then map (fun id => if (id =? cache)%nat then upper else id) leaves else leaves.

Lemma split_leaves_elem cache upper n leaves t : forest_wf cur t leaves -> t !! cache = Some n -> t !! upper = None ->
  forall id, id ∈ split_leaves cache upper n leaves <->
    id <> cache /\ id ∈ leaves \/ id = upper /\ children n = [].
Proof.
  intros [Hwf Hlv _ _ _] Hn Hu id. unfold split_leaves.
  assert (cache ∈ leaves <-> children n = []) as Hcache.
  { rewrite Hlv. split; [intros (m & ? & ?); by simplify_eq|eauto]. }
  destruct (children n) as [|ch chs] eqn:Ec; cbn [length Nat.eqb].
  - rewrite list_elem_of_fmap. split.
    + intros (x & -> & Hx). destruct (Nat.eqb_spec x cache); naive_solver.
    + intros [[Hne Hin]|[-> _]].
      * exists id. by destruct (Nat.eqb_spec id cache).
      * exists cache. rewrite Nat.eqb_refl. naive_solver.
  - split; [|naive_solver]. intros Hid. left. split; [|done]. intros ->. naive_solver.
Qed.

Lemma split_leaves_NoDup cache upper n leaves : NoDup leaves -> upper ∉ leaves -> NoDup (split_leaves cache upper n leaves).
Proof.
  intros Hnd Hu. unfold split_leaves. destruct (_ =? _)%nat; [|done]. apply NoDup_fmap_2_strong; [|done].
  intros x y Hx Hy. destruct (Nat.eqb_spec x cache), (Nat.eqb_spec y cache); subst; try done; intros; by subst.
Qed.

Lemma split_forest t leaves cache upper n k :
  forest_wf cur t leaves -> t !! cache = Some n -> t !! upper = None ->
  startIndex (seg n) < k <= getTopBlockIndex (seg n) ->
  let t' := split_node cache upper k t in
  forest_wf cur t' (split_leaves cache upper n leaves) /\ same_but t t' cache /\
  (forall j, is_Some (t !! j) -> is_Some (t' !! j)) /\
  blocks t' upper = blocks t cache /\ blocks t' cache = take (Z.to_nat k) (blocks t cache).
Proof.
  intros Hf Hn Hu Hk t'. pose proof Hf as [Hwf Hlv Hnd Hroot Hch].
  assert (same_but t t' cache) as Hsame.
  { intros j [m Hm] Hj. apply (fe_blocks _ _ (split_content t cache upper n k Hwf Hn Hu Hk j m Hm Hj)). }
  assert (blocks t' upper = blocks t cache) as Eup
    by exact (fe_blocks _ _ (split_content_upper t cache upper n k Hwf Hn Hu Hk)).
  destruct (split_content_lower t cache upper n k Hwf Hn Hu Hk) as [Hfl Hh]. fold t' in Hfl, Hh.
  apply fe_blocks in Hfl. cbn [chain_blocks] in Hfl.
  assert (blocks t' cache = take (Z.to_nat k) (blocks t cache)) as Elow.
  { unfold blocks at 2. rewrite <- Hfl. unfold height in Hh. rewrite take_app_le by lia. by rewrite take_ge by lia. }
  split; [|split; [done|split; [|done]]].
  - split.
    + exact (split_wf t cache upper n k Hwf Hn Hu Hk).
    + intros id. rewrite (split_leaves_elem cache upper n leaves t Hf Hn Hu), Hlv. split.
      * intros [[Hne (m & Hm & Hmc)]|[-> Hmc]].
        -- destruct (split_seg_old t cache upper n k Hn Hu id m Hm Hne) as (m' & Hm' & _ & Ec & _).
           exists m'. by rewrite Ec.
        -- eexists. split; [by apply split_lookup_upper|done].
      * intros (m' & Hm' & Hmc). destruct (split_dom t cache upper n k Hn id m' Hm') as [->|[m Hm]].
        -- right. unfold t' in Hm'. rewrite (split_lookup_upper t cache upper n k Hn) in Hm'. by injection Hm' as <-.
        -- left. assert (id <> cache) as Hne.
           { intros ->. unfold t' in Hm'. rewrite (split_lookup_cache t cache upper n k Hn Hu) in Hm'.
             by injection Hm' as <-. }
           split; [done|]. destruct (split_seg_old t cache upper n k Hn Hu id m Hm Hne) as (m1 & Hm1 & _ & Ec & _).
           fold t' in Hm1. simplify_eq. rewrite Hmc in Ec. eauto.
    + apply split_leaves_NoDup; [done|]. intros (m & Hm & _)%Hlv. congruence.
    + by apply (split_one_root t cache upper n k).
    + intros id m' Hid. destruct (split_dom t cache upper n k Hn id m' Hid) as [->|[m Hm]].
      * rewrite Eup. exact (Hch cache n Hn).
      * destruct (decide (id = cache)) as [->|Hne]; [|rewrite Hsame by (done || by eexists); exact (Hch id m Hm)].
        rewrite Elow. apply (chain_ok_prefix cur _ (drop (Z.to_nat k) (blocks t cache))). rewrite take_drop.
        exact (Hch cache n Hn).
  - intros j [m Hm]. destruct (decide (j = cache)) as [->|Hne].
    + eexists. by apply split_lookup_cache.
    + destruct (split_seg_old t cache upper n k Hn Hu j m Hm Hne) as (m' & Hm' & _). by eexists.
Qed.
End Grow.

(** ** Finding blocks *)

Lemma segs_hash t l h : (forall x, x ∈ l -> is_Some (t !! x)) ->
  h ∈ hashes (chain_blocks (segs t l)) -> exists x n, x ∈ l /\ t !! x = Some n /\ hasBlock h (seg n) = true.
Proof.
  induction l as [|x l IH]; intros Hl; [by intros ?%elem_of_nil|].
  destruct (Hl x) as [n Hn]; [by constructor|]. rewrite (segs_cons t x n l Hn). cbn [chain_blocks].
  unfold hashes. rewrite map_app, elem_of_app. intros [H|H].
  - destruct IH as (y & m & Hy & Hm & Hb); [intros; apply Hl; by constructor|done|]. exists y, m. split; [by constructor|done].
  - exists x, n. split; [by constructor|]. split; [done|]. apply list_elem_of_fmap in H as (i & -> & Hi).
    apply existsb_exists. exists i. split; [by apply list_elem_of_In|by apply bool_decide_eq_true].
Qed.

Lemma findIndexInChain_some h t leaf id : findIndexInChain h t leaf = Some id ->
  exists n, t !! id = Some n /\ hasBlock h (seg n) = true.
Proof. intros [_ H]%find_some. destruct (t !! id) as [n|]; [eauto|done]. Qed.

Lemma first_in_chains_some h t leaves id : first_in_chains h t leaves = Some id ->
  exists n, t !! id = Some n /\ hasBlock h (seg n) = true.
Proof.
  induction leaves as [|leaf leaves IH]; [done|]. cbn [first_in_chains].
  destruct (findIndexInChain h t leaf) eqn:E; [|done]. intros [= <-]. by eapply findIndexInChain_some.
Qed.

Lemma first_in_chains_none h t leaves : first_in_chains h t leaves = None ->
  Forall (fun x => findIndexInChain h t x = None) leaves.
Proof.
  induction leaves as [|leaf leaves IH]; [constructor|]. cbn [first_in_chains].
  destruct (findIndexInChain h t leaf) eqn:E; [done|]. intros H. constructor; auto.
Qed.

Lemma findIndexInChain_none h t leaf : tree_wf t -> is_Some (t !! leaf) ->
  findIndexInChain h t leaf = None -> h ∉ hashes (blocks t leaf).
Proof.
  intros Hwf [n Hn] Hf Hin. destruct (tw_path t Hwf leaf n Hn) as (l & Hl & _).
  unfold blocks in Hin. rewrite (chain_of_path t leaf l Hl) in Hin.
  apply segs_hash in Hin as (x & m & Hx & Hm & Hb); [|by eapply is_path_dom].
  unfold findIndexInChain in Hf. rewrite (path_is t leaf l Hl) in Hf.
  apply list_elem_of_In, (find_none _ _ Hf x) in Hx. rewrite Hm in Hx. congruence.
Qed.

(** ** The invariant of the core *)

Section CoreInvariant.
Variable E : Environment.
Context {P : Type} `{!ITransactionPool P}.
Abbreviation cur := (currency E).
Abbreviation Core := (Core (P := P)).
Implicit Types (k : Core) (t : tree).

Record core_wf k : Prop := {
  cw_forest : forest_wf cur (chainsStorage k) (chainsLeaves k);
  cw_heaviest : heaviest (chainsStorage k) (chainsLeaves k);
  cw_set : mainChainSet k = list_to_set (path (chainsStorage k) (main_leaf k))
}.

(** The blocks of the main chain. *)
Definition main_blocks k : list CachedBlockInfo := blocks (chainsStorage k) (main_leaf k).

(** The counters have room for the block: heights and output indexes stay
    below 32 bits, cumulative difficulties below 64. *)
Record room (b : CachedBlock) (raw : RawBlock) k : Prop := {
  rm_raw : Forall (fun tx => is_bytes tx /\ Z.of_nat (length tx) < 2 ^ 64) (rb_transactions raw);
  rm_height id : is_Some (chainsStorage k !! id) -> height (chain_of (chainsStorage k) id) + 1 < 2 ^ 32;
  rm_base : exists base, CachedTransaction_object (baseTransaction (getBlock b)) = Some base /\
    forall id x ts size, is_Some (chainsStorage k !! id) ->
    extractTransactions cur (rb_transactions raw) = Some (ts, size) ->
    Z.of_nat (length (chain_outputs x (chain_of (chainsStorage k) id)) + outputs_count (base :: ts)) < 2 ^ 32;
  rm_weight id l r d : is_Some (chainsStorage k !! id) -> blocks (chainsStorage k) id = l ++ r ->
    next_difficulty cur l = Some d -> weight l + d < 2 ^ 64
}.

Lemma hasBlock_false h k : core_wf k -> core_hasBlock h k = false ->
  forall id, is_Some (chainsStorage k !! id) -> h ∉ hashes (blocks (chainsStorage k) id).
Proof.
  intros [Hf (main & others & Hl & _) _] Hno id [n Hn] Hin. pose proof Hf as [Hwf Hlv _ _ _].
  destruct (node_under_leaf cur _ _ id n Hf Hn) as (leaf & r & Hleaf & _ & Er).
  assert (h ∈ hashes (blocks (chainsStorage k) leaf)) as Hin'.
  { rewrite Er. unfold hashes. rewrite map_app, elem_of_app. by left. }
  assert (Forall (fun x => findIndexInChain h (chainsStorage k) x = None) (chainsLeaves k)) as Hnone.
  { apply bool_decide_eq_false, eq_None_not_Some in Hno. unfold findSegmentContainingBlock in Hno.
    destruct (findMainChainSegmentContainingBlock h k) eqn:Em; [done|]. apply first_in_chains_none in Hno.
    unfold findMainChainSegmentContainingBlock, main_leaf in Em. rewrite Hl in *. by constructor. }
  rewrite Forall_forall in Hnone. apply Hnone in Hleaf as Hnl. apply Hlv in Hleaf as (m & Hm & _).
  eapply findIndexInChain_none; [done|by eexists|done..].
Qed.

Lemma findSegment_some h k id : findSegmentContainingBlock h k = Some id ->
  exists n, chainsStorage k !! id = Some n /\ hasBlock h (seg n) = true.
Proof.
  unfold findSegmentContainingBlock. destruct (findMainChainSegmentContainingBlock h k) eqn:Em.
  - intros [= <-]. by eapply findIndexInChain_some.
  - apply first_in_chains_some.
Qed.

Lemma getBlockIndex_range h s c i : segment_wf s c -> segment_getBlockIndex h s = Some i ->
  startIndex s <= i < height (s :: c) /\ exists info, blockInfos s !! Z.to_nat (i - startIndex s) = Some info /\ blockHash info = h.
Proof.
  intros [Hs _ Hh _ _ _ _] ([j info] & Hf & [= <-])%bind_Some. apply list_find_Some in Hf as (Hj & Hi & _).
  pose proof (lookup_lt_Some _ _ _ Hj). rewrite height_cons in *. pose proof (height_nonneg c).
  rewrite (wrap_small 32 (Z.of_nat j)) by mlia. rewrite wrap_small by mlia. split; [lia|].
  exists info. split; [|done]. rewrite <- Hj. f_equal. lia.
Qed.

Abbreviation accept := (acceptBlock (check_key E) (in_prime_subgroup E) (cn_fast_hash E) (checkRingSignature E)
  (currency E) (checkpoints E)).
Abbreviation accept_block now := (accept now (cn_slow_hash_v0 E) (cn_lite_slow_hash_v1 E)
  (cn_turtle_lite_slow_hash_v2 E) (genesisHash E)).

(** The key images of an accepted block are unspent up to the block before it. *)
Lemma accepted_unspent now b raw s c i a :
  chain_wf (s :: c) -> segment_getBlockIndex (previousBlockHash (getBlock b)) s = Some i -> i + 1 < 2 ^ 32 ->
  isInCheckpointZone (cb_index b) (checkpoints E) = false ->
  Forall (fun tx => is_bytes tx /\ Z.of_nat (length tx) < 2 ^ 64) (rb_transactions raw) ->
  accept_block now b raw (s :: c) = inl a ->
  cb_index b = i + 1 /\ getDifficultyForNextBlock cur i (s :: c) = Some (ac_difficulty a) /\
  (exists size, extractTransactions cur (rb_transactions raw) = Some (ac_transactions a, size)) /\
  forall ki h, ki ∈ Pool.spentKeyImages (ac_state a) -> chain_spent (s :: c) !! ki = Some h -> i < h.
Proof.
  intros Hwf Hi Hb Hz Hraw Ha. destruct (getBlockIndex_range _ s c i (proj1 Hwf) Hi) as [Hr _].
  pose proof (height_nonneg c). pose proof (wf_start _ _ (proj1 Hwf)).
  destruct (acceptBlock_inv _ _ _ _ _ _ _ _ _ _ _ _ _ _ _ _ _ Hi Ha)
    as [[size Hex] _ _ Hcb [Hd Hd0] _ _ (fee & coins & reward & Hts & _) _].
  apply coinbase_index in Hcb as Hidx. rewrite wrap_small in Hidx by mlia.
  split; [done|]. split; [done|]. split; [eauto|]. intros ki h Hk Hsp.
  apply extractTransactions_spec in Hex as [_ Htx]; [|done].
  apply validate_transactions_spec in Hts as (_ & _ & Hst & _ & _ & Hin);
    [|eapply Forall_impl; [exact Htx|by intros t []]|mlia].
  rewrite wrap_small, <- Hidx in Hin by mlia. specialize (Hin Hz). cbn in Hst.
  rewrite union_empty_r_L in Hst. rewrite Hst, elem_of_list_to_set in Hk.
  apply list_elem_of_bind in Hk as (t & Hk & Ht). rewrite Forall_forall in Hin.
  apply list_elem_of_omap in Hk as ([?|input] & Hinp & [= <-]). apply list_elem_of_lookup_1 in Hinp as [j Hj].
  destruct (Hin t Ht j input Hj) as [Hs _]. rewrite checkIfSpent_flat, Hsp in Hs by done.
  apply Z.leb_gt in Hs. lia.
Qed.

(** The part [c'] of the chain up to the previous block is ready for it. *)
Lemma accepted_ready now b raw k cache n i a c' :
  core_wf k -> room b raw k -> isInCheckpointZone (cb_index b) (checkpoints E) = false ->
  core_hasBlock (getBlockHash b) k = false ->
  chainsStorage k !! cache = Some n -> segment_getBlockIndex (previousBlockHash (getBlock b)) (seg n) = Some i ->
  accept_block now b raw (chain_of (chainsStorage k) cache) = inl a ->
  chain_wf c' -> chain_blocks c' = take (Z.to_nat (i + 1)) (blocks (chainsStorage k) cache) ->
  (forall x, (length (chain_outputs x c') <= length (chain_outputs x (chain_of (chainsStorage k) cache)))%nat) ->
  (forall x h, chain_spent c' !! x = Some h -> chain_spent (chain_of (chainsStorage k) cache) !! x = Some h) ->
  ready cur b a c'.
Proof.
  intros Hk Hroom Hz Hno Hn Hi Ha Hwf' Hbl Ho Hs. pose proof Hk as [[Hwf _ _ _ Hch] _ _].
  destruct Hroom as [Hraw Hrh (base & Hbase & Hro) Hrw].
  assert (is_Some (chainsStorage k !! cache)) as Hc by (by eexists).
  set (l := blocks (chainsStorage k) cache) in *.
  pose proof (chain_of_cons _ _ _ Hwf Hn) as Ec. pose proof (chain_of_wf _ _ _ Hwf Hn) as Hcw.
  specialize (Hrh cache Hc). specialize (hasBlock_false _ k Hk Hno cache Hc) as Hnew. fold l in Hnew.
  assert (height (chain_of (chainsStorage k) cache) = Z.of_nat (length l)) as Hlen by done.
  assert (l = chain_blocks c' ++ drop (Z.to_nat (i + 1)) l) as El by (by rewrite Hbl, take_drop).
  pose proof (Hch cache n Hn) as Hok. fold l in Hok. rewrite El in Hok. apply chain_ok_prefix in Hok.
  unfold l, blocks in Hbl. rewrite Ec in *.
  destruct (getBlockIndex_range _ _ _ i (proj1 Hcw) Hi) as [Hr _].
  pose proof (height_nonneg (match parent n with Some p => chain_of (chainsStorage k) p | None => [] end)) as H0.
  rewrite <- (wf_start _ _ (proj1 Hcw)) in H0.
  destruct (accepted_unspent now b raw _ _ i a Hcw Hi ltac:(lia) Hz Hraw Ha) as (Hidx & Hd & [size Hex] & Hun).
  assert (height c' = i + 1) as Hh' by (unfold height; rewrite Hbl, length_take; unfold height in *; lia).
  rewrite getDifficultyForNextBlock_flat, <- Hbl in Hd by (done || lia || exact (tw_nonempty _ Hwf _ _ Hn)).
  split; try done; try lia.
  - exists base. split; [done|]. intros x. specialize (Ho x). specialize (Hro cache x _ _ Hc Hex).
    rewrite Ec in Hro. lia.
  - intros ki Hki. destruct (chain_spent c' !! ki) as [h|] eqn:E'; [|done]. exfalso.
    pose proof (chain_spent_range c' ki h Hwf' E'). apply Hs, Hun in E'; [lia|done].
  - exact (Hrw cache _ _ _ Hc El Hd).
  - split; [|by apply (chain_ok_weight cur)]. intros E'. unfold height in Hh'. rewrite E' in Hh'. cbn in Hh'. lia.
  - intros Hin. apply Hnew. rewrite El. unfold hashes. rewrite map_app. apply elem_of_app. by left.
Qed.

(** ** What the pool operations leave alone *)

Record same_tree k k' : Prop := {
  st_tree : chainsStorage k' = chainsStorage k;
  st_leaves : chainsLeaves k' = chainsLeaves k;
  st_set : mainChainSet k' = mainChainSet k
}.
Definition same_chains k k' : Prop := same_tree k k' /\ mainChainStorage k' = mainChainStorage k.

#[local] Instance same_chains_preorder : PreOrder same_chains.
Proof. split; [by repeat split|]. intros x y z [[? ? ?] ?] [[? ? ?] ?]. repeat split; congruence. Qed.

Lemma same_tree_wf k k' : same_tree k k' -> core_wf k -> core_wf k'.
Proof. intros [Et El Es] [Hf Hh Hs]. split; unfold main_leaf; by rewrite ?Et, ?El, ?Es. Qed.

Lemma same_main k k' : same_tree k k' -> main_blocks k' = main_blocks k.
Proof. intros [Et El _]. unfold main_blocks, main_leaf. by rewrite Et, El. Qed.

Lemma fold_same {A} (f : Core -> A -> Core) l k : (forall k x, same_chains k (f k x)) -> same_chains k (fold_left f l k).
Proof. intros Hf. revert k. induction l as [|x l IH]; intros k; cbn; [done|]. etrans; [apply Hf|apply IH]. Qed.

Lemma median_same k : same_chains k (updateBlockMedianSize E k).
Proof. by repeat split. Qed.

Lemma remove_same hash k : same_chains k (remove_from_pool hash k).
Proof. by repeat split. Qed.

Lemma remove_all_same ts k : same_chains k (remove_all E ts k).
Proof. apply fold_same. intros. apply remove_same. Qed.

Lemma add_same now tx k : same_chains k (snd (addTransactionToPool E now tx k)).
Proof.
  unfold addTransactionToPool. destruct (bool_decide _); [done|].
  destruct (isTransactionValidForPool E now tx k); [|done].
  by destruct (clean_pushTransaction _ _ _ _ _).
Qed.

Lemma add_raw_same now raw k : same_chains k (snd (addRawTransactionToPool E now raw k)).
Proof. unfold addRawTransactionToPool. destruct (_ ≫= _); [apply add_same|done]. Qed.

Lemma actualize_same now k : same_chains k (actualizePoolTransactions E now k).
Proof.
  apply fold_same. intros k' h. destruct (ip_get h _); [|done]. etrans; [apply remove_same|apply add_same].
Qed.

Lemma actualizeLite_same st k : same_chains k (actualizePoolTransactionsLite E st k).
Proof. apply fold_same. intros k' h. destruct (ip_get h _); [|done]. by destruct (_ || _). Qed.

Lemma copy_same hash_order now alt k : same_chains k (snd (copyTransactionsToPool E hash_order now alt k)).
Proof.
  unfold copyTransactionsToPool. generalize (path (chainsStorage k) alt). intros ids.
  revert k. induction ids as [|id ids IH]; intros k; cbn [copy_loop]; [done|].
  destruct (bool_decide _); [done|]. destruct (getRawTransactions _ _ _) as [[found ?]|]; [|done].
  etrans; [|apply IH]. apply fold_same. intros. apply add_raw_same.
Qed.

(** ** Weights *)

Lemma cumulative_difficulty_weight t id n : tree_wf t -> t !! id = Some n ->
  cumulative_difficulty t id = Some (weight (blocks t id)).
Proof.
  intros Hwf Hn. unfold cumulative_difficulty, blocks. pose proof (chain_of_cons t id n Hwf Hn) as Ec.
  pose proof (chain_of_wf t id n Hwf Hn) as Hcw. rewrite Ec in *. pose proof (tw_nonempty t Hwf id n Hn) as Hne.
  destruct Hcw as [Hs _]. pose proof (wf_height _ _ Hs) as Hh. pose proof (wf_start _ _ Hs) as Hst.
  cbn [top_of getCurrentCumulativeDifficulty]. rewrite (top_height _ _ Hs Hne). unfold weight. cbn [chain_blocks].
  rewrite last_app. rewrite height_cons in *. pose proof (height_nonneg (match parent n with Some p => chain_of t p | None => [] end)) as H0.
  assert (0 < length (blockInfos (seg n)))%nat by (destruct (blockInfos (seg n)); [done|cbn; lia]).
  rewrite wrap_small by mlia. rewrite last_lookup.
  replace (Z.to_nat _) with (pred (length (blockInfos (seg n)))) by lia.
  destruct (lookup_lt_is_Some_2 (blockInfos (seg n)) (pred (length (blockInfos (seg n))))) as [x Hx]; [lia|].
  by rewrite Hx.
Qed.

(** A branch is as heavy as the chain it leaves, up to its block. *)
Lemma branch_not_heavier l x r d : l <> [] -> chain_ok cur (l ++ x :: r) -> next_difficulty cur l = Some d ->
  weight l + d <= weight (l ++ x :: r).
Proof.
  intros Hne [Ha _ _] Hd. change (x :: r) with ([x] ++ r) in *. rewrite app_assoc in *.
  transitivity (weight (l ++ [x])); [|apply (weight_mono cur); [by destruct l|done]].
  assert (S (length l - 1) = length l) as El by (destruct l; [done|cbn; lia]).
  apply add_up_prefix in Ha. destruct (Ha (length l - 1)%nat x) as (p & d' & Hp & Hd' & Hc).
  { rewrite El. by apply list_lookup_middle. }
  rewrite El, take_app_length in Hd'. simplify_eq. rewrite lookup_app_l in Hp by lia.
  unfold weight. rewrite last_snoc, last_lookup. rewrite Nat.sub_1_r in Hp. rewrite Hp. lia.
Qed.

Lemma fork_weight t leaves cache n d : forest_wf cur t leaves -> t !! cache = Some n -> children n <> [] ->
  next_difficulty cur (blocks t cache) = Some d ->
  exists leaf, leaf ∈ leaves /\ weight (blocks t cache) + d <= weight (blocks t leaf).
Proof.
  intros Hf Hn Hc Hd. pose proof Hf as [Hwf Hlv _ _ Hch]. destruct (children n) as [|ch chs] eqn:Ec; [done|].
  assert (ch ∈ children n) as Hin by (rewrite Ec; by constructor).
  apply (tw_children t Hwf cache n ch Hn) in Hin as (m & Hm & Hp).
  destruct (node_under_leaf cur t leaves ch m Hf Hm) as (leaf & r & Hleaf & _ & Er).
  rewrite (blocks_cons t ch m Hwf Hm), Hp, <- app_assoc in Er. exists leaf. split; [done|].
  apply Hlv in Hleaf as (ml & Hml & _). specialize (Hch leaf ml Hml). rewrite Er in *.
  pose proof (tw_nonempty t Hwf ch m Hm) as Hne. destruct (blockInfos (seg m)) as [|x xs]; [done|].
  apply branch_not_heavier; [by eapply blocks_nonempty|done..].
Qed.

(** ** The branches of [addBlock] *)

(** No chain is lost. *)
Definition keeps_chains k k' : Prop :=
  forall id, id ∈ chainsLeaves k -> exists id' r, id' ∈ chainsLeaves k' /\
    blocks (chainsStorage k') id' = blocks (chainsStorage k) id ++ r.

Definition ends_with (b : CachedBlock) (l : list CachedBlockInfo) : Prop := last (hashes l) = Some (getBlockHash b).

Definition outcome (b : CachedBlock) (raw : RawBlock) (r : checked AddBlockErrorCode) k k' : Prop :=
  match r with
  | inl ADDED_TO_MAIN =>
      (exists info, main_blocks k' = main_blocks k ++ [info] /\ blockHash info = getBlockHash b) /\
      mainChainStorage k' = mainChainStorage k ++ [raw]
  | inl ADDED_TO_ALTERNATIVE =>
      main_blocks k' = main_blocks k /\ mainChainStorage k' = mainChainStorage k /\
      exists id, id ∈ chainsLeaves k' /\ ends_with b (blocks (chainsStorage k') id)
  | inl ADDED_TO_ALTERNATIVE_AND_SWITCHED =>
      weight (main_blocks k) < weight (main_blocks k') /\ ends_with b (main_blocks k')
  | inl ALREADY_EXISTS => k' = k
  | inr e => k' = k \/ e = Exception /\ weight (main_blocks k) < weight (main_blocks k')
  end.

Lemma extends_ends b a l l' : extends b a l l' -> ends_with b l'.
Proof.
  intros (info & -> & Hh & _). unfold ends_with, hashes. rewrite map_app. cbn [map]. by rewrite last_snoc, Hh.
Qed.

Lemma same_tree_keeps k k1 k2 : same_tree k1 k2 -> keeps_chains k k1 -> keeps_chains k k2.
Proof. intros [Et El _] H. unfold keeps_chains. by rewrite Et, El. Qed.

Lemma main_leaf_elem k : core_wf k -> exists n, chainsStorage k !! main_leaf k = Some n /\ children n = [].
Proof.
  intros [[_ Hlv _ _ _] (main & others & Hl & _) _]. apply Hlv. unfold main_leaf. rewrite Hl. by constructor.
Qed.

Lemma heaviest_main k id : core_wf k -> id ∈ chainsLeaves k ->
  weight (blocks (chainsStorage k) id) <= weight (main_blocks k).
Proof.
  intros [_ (main & others & Hl & Hw) _] Hin. unfold main_blocks, main_leaf. rewrite Hl. cbn. by apply Hw.
Qed.

Lemma heaviest_intro t leaves : leaves <> [] ->
  (forall id, id ∈ leaves -> weight (blocks t id) <= weight (blocks t (default 0%nat (head leaves)))) -> heaviest t leaves.
Proof. intros Hne H. destruct leaves as [|main others]; [done|]. exists main, others. split; [done|]. exact H. Qed.

(** A push on the leaf [id] keeps the chains. *)
Lemma push_keeps b a k k' id : core_wf k -> id ∈ chainsLeaves k -> (forall j, j ∈ chainsLeaves k -> j ∈ chainsLeaves k') ->
  extends b a (blocks (chainsStorage k) id) (blocks (chainsStorage k') id) ->
  same_but (chainsStorage k) (chainsStorage k') id -> keeps_chains k k'.
Proof.
  intros [[_ Hlv _ _ _] _ _] Hid Hl (info & Ex & _) Hsame j Hj. exists j. destruct (decide (j = id)) as [->|Hne].
  - exists [info]. auto.
  - exists []. split; [auto|]. rewrite app_nil_r. apply Hsame; [|done].
    apply Hlv in Hj as (m & Hm & _). by eexists.
Qed.

Lemma add_to_main_ok b raw a k n : core_wf k -> chainsStorage k !! main_leaf k = Some n -> children n = [] ->
  ready cur b a (chain_of (chainsStorage k) (main_leaf k)) ->
  let '(r, k') := add_to_main E b raw a (main_leaf k) k in
  core_wf k' /\ outcome b raw r k k' /\ keeps_chains k k'.
Proof.
  intros Hk Hn Hc Hr. pose proof Hk as [Hf Hh Hs].
  destruct (push_leaf E b raw a _ _ _ n Hf Hn Hc Hr) as (t' & Hp & Hf' & Hx & Hsame & Hpath).
  unfold add_to_main. cbn [chainsStorage set_storage]. rewrite Hp. set (k1 := set_tree t' _).
  set (k2 := actualizePoolTransactionsLite _ _ _).
  assert (same_chains k1 k2) as Hk2.
  { etrans; [apply median_same|]. etrans; [apply remove_all_same|apply actualizeLite_same]. }
  assert (core_wf k1) as Hk1.
  { split; [done| |].
    - apply heaviest_intro; cbn; [by destruct Hh as (? & ? & -> & _)|]. intros id Hid.
      change (default 0%nat (head (chainsLeaves k))) with (main_leaf k). rewrite (extends_weight _ _ _ _ Hx).
      apply rd_difficulty in Hr. apply getNextDifficulty_nonneg in Hr. fold (main_blocks k).
      destruct (decide (id = main_leaf k)) as [->|Hne]; [by rewrite (extends_weight _ _ _ _ Hx)|].
      rewrite Hsame; [|apply (fw_leaves _ _ _ Hf) in Hid as (m & Hm & _); by eexists|done].
      pose proof (heaviest_main k id Hk Hid). lia.
    - cbn. rewrite Hs. f_equal. symmetry. apply Hpath. by eexists. }
  destruct Hk2 as [Hk2 Hst]. split; [by eapply same_tree_wf|]. split.
  - split; [|exact Hst]. rewrite (same_main _ _ Hk2). destruct Hx as (info & Ex & Eh & _).
    exists info. split; [exact Ex|done].
  - eapply same_tree_keeps; [done|]. eapply push_keeps; [done| |done|exact Hx|done].
    apply (fw_leaves _ _ _ Hf). eauto.
Qed.

(** *** The chain that becomes the heaviest *)

Lemma index_of_lookup id (l : list nat) : id ∈ l -> l !! index_of id l = Some id.
Proof.
  intros Hin. unfold index_of. destruct (list_find _ l) as [[i x]|] eqn:Ef.
  - by apply list_find_Some in Ef as (? & -> & _).
  - apply list_find_None in Ef. rewrite Forall_forall in Ef. by destruct (Ef id Hin).
Qed.

(** The exchange of two leaves. *)
Definition exchanged (i : nat) (new old : nat) (l : list nat) : list nat := <[0%nat := new]> (<[i := old]> l).

Lemma exchanged_perm i new old l : head l = Some old -> l !! i = Some new -> exchanged i new old l ≡ₚ l.
Proof.
  intros Ho Hi. destruct l as [|x l]; [done|]. injection Ho as ->. unfold exchanged. destruct i as [|i].
  - injection Hi as ->. done.
  - cbn in Hi. change (new :: <[i := old]> l ≡ₚ old :: l). rewrite <- (take_drop_middle l i new Hi) at 2.
    rewrite insert_take_drop by (by eapply lookup_lt_Some). rewrite <- !Permutation_middle. apply Permutation_swap.
Qed.

Lemma forest_perm t leaves leaves' : leaves ≡ₚ leaves' -> forest_wf cur t leaves -> forest_wf cur t leaves'.
Proof. intros Hp [Hwf Hlv Hnd Hroot Hch]. split; [done| |by rewrite <- Hp|done|done]. intros id. rewrite <- Hp. apply Hlv. Qed.

Lemma switch_chain_ok hash_order now a k cache :
  forest_wf cur (chainsStorage k) (chainsLeaves k) -> cache ∈ chainsLeaves k ->
  (forall id, id ∈ chainsLeaves k -> weight (blocks (chainsStorage k) id) <= weight (blocks (chainsStorage k) cache)) ->
  let '(r, k') := switch_chain E hash_order now a (index_of cache (chainsLeaves k)) k in
  core_wf k' /\ main_blocks k' = blocks (chainsStorage k) cache /\
  chainsStorage k' = chainsStorage k /\ chainsLeaves k' ≡ₚ chainsLeaves k /\
  (r = inl ADDED_TO_ALTERNATIVE_AND_SWITCHED \/ r = inr Exception).
Proof.
  intros Hf Hc Hw. unfold switch_chain. rewrite index_of_lookup by done. change (default 0%nat (Some cache)) with cache.
  set (leaves := <[0%nat := cache]> (<[index_of cache (chainsLeaves k) := main_leaf k]> (chainsLeaves k))).
  set (k1 := updateMainChainSet _).
  pose proof (copy_same hash_order now (main_leaf k) (actualizePoolTransactions E now (remove_all E (ac_transactions a) (updateBlockMedianSize E k1)))) as Hcopy.
  destruct (copyTransactionsToPool _ _ _ _ _) as [copied k2]. cbn [snd] in Hcopy.
  assert (same_chains k1 k2) as Hk2.
  { etrans; [|exact Hcopy]. etrans; [apply median_same|]. etrans; [apply remove_all_same|apply actualize_same]. }
  assert (leaves ≡ₚ chainsLeaves k) as Hperm.
  { apply exchanged_perm; [|by apply index_of_lookup]. unfold main_leaf.
    destruct (chainsLeaves k); [by apply elem_of_nil in Hc|done]. }
  assert (head leaves = Some cache) as Hhead.
  { unfold leaves. destruct (chainsLeaves k) as [|x l]; [by apply elem_of_nil in Hc|].
    by destruct (index_of cache (x :: l)). }
  clearbody leaves. assert (core_wf k1) as Hk1.
  { split; [eapply forest_perm; [symmetry; exact Hperm|exact Hf]| |done]. apply heaviest_intro; cbn; [by intros El; rewrite El in Hhead|].
    rewrite Hhead. cbn. intros id. rewrite Hperm. apply Hw. }
  assert (main_blocks k1 = blocks (chainsStorage k) cache) as Hm1.
  { unfold main_blocks, main_leaf. cbn. by rewrite Hhead. }
  destruct Hk2 as [Hk2 _]. pose proof (same_tree_wf _ _ Hk2 Hk1) as Hwf2. pose proof (same_main _ _ Hk2) as Hm2.
  rewrite Hm1 in Hm2. destruct Hk2 as [Et2 El2 _].
  assert (chainsLeaves k2 ≡ₚ chainsLeaves k) by by rewrite El2.
  destruct (switchMainChainStorage _ _ _) as [bs|]; [destruct copied|]; (split; [|split; [|split; [|split]]]); auto.
  by apply (same_tree_wf k2).
Qed.

Lemma add_to_alternative_ok hash_order now b raw a k cache n : core_wf k ->
  chainsStorage k !! cache = Some n -> children n = [] -> cache <> main_leaf k ->
  ready cur b a (chain_of (chainsStorage k) cache) ->
  let '(r, k') := add_to_alternative E hash_order now b raw a cache k in
  core_wf k' /\ outcome b raw r k k' /\ keeps_chains k k'.
Proof.
  intros Hk Hn Hc Hne Hr. pose proof Hk as [Hf Hh Hs].
  destruct (push_leaf E b raw a _ _ _ n Hf Hn Hc Hr) as (t' & Hp & Hf' & Hx & Hsame & Hpath).
  unfold add_to_alternative. rewrite Hp. set (k1 := set_tree t' k).
  destruct (main_leaf_elem k Hk) as (nm & Hnm & _).
  assert (cache ∈ chainsLeaves k) as Hin by (apply (fw_leaves _ _ _ Hf); eauto).
  destruct (Hpath cache ltac:(by eexists)) as [[n' Hn'] _].
  destruct (Hpath (main_leaf k) ltac:(by eexists)) as [[nm' Hnm'] Epm].
  pose proof (fw_tree _ _ _ Hf') as Hwf'. change (main_leaf k1) with (main_leaf k).
  rewrite (cumulative_difficulty_weight t' cache n' Hwf' Hn'), (cumulative_difficulty_weight t' _ nm' Hwf' Hnm').
  assert (blocks t' (main_leaf k) = main_blocks k) as Em by (apply Hsame; [by eexists|done]).
  rewrite Em. assert (keeps_chains k k1) as Hkeep by (eapply push_keeps; [done|exact Hin|done|exact Hx|done]).
  assert (forall id, id ∈ chainsLeaves k -> id <> cache -> weight (blocks t' id) <= weight (main_blocks k)) as Hold.
  { intros id Hid Hidc. rewrite Hsame; [by apply heaviest_main| |done].
    apply (fw_leaves _ _ _ Hf) in Hid as (m & Hm & _). by eexists. }
  destruct (Z.ltb_spec (weight (main_blocks k)) (weight (blocks t' cache))) as [Hlt|Hge].
  - pose proof (switch_chain_ok hash_order now a k1 cache Hf' Hin) as Hsw.
    destruct (switch_chain _ _ _ _ _ _) as [r k']. destruct Hsw as (Hwk & Hmb & Ht & Hl & Hres).
    { intros id Hid. destruct (decide (id = cache)) as [->|Hidc]; [done|]. cbn. specialize (Hold id Hid Hidc). lia. }
    split; [done|]. cbn in Ht, Hl, Hmb. split.
    + destruct Hres as [->| ->]; cbn; rewrite Hmb; [|by right]. split; [done|by eapply extends_ends].
    + intros id Hid. destruct (Hkeep id Hid) as (id' & r' & Hid' & Hb). exists id', r'. rewrite Ht. by rewrite Hl.
  - split; [|split; [|done]].
    + split; [done| |cbn; rewrite Hs; f_equal; symmetry; exact Epm].
      apply heaviest_intro; cbn; [by destruct Hh as (? & ? & -> & _)|]. intros id Hid.
      change (default 0%nat (head (chainsLeaves k))) with (main_leaf k). rewrite Em.
      destruct (decide (id = cache)) as [->|Hidc]; [done|]. by apply Hold.
    + cbn. split; [exact Em|]. split; [done|]. exists cache. split; [done|]. by eapply extends_ends.
Qed.

(** *** A new branch *)

Lemma fresh_none (t : tree) : t !! fresh (dom t) = None.
Proof. apply not_elem_of_dom, is_fresh. Qed.

(** Behind the invariant, before the set of the main chain is renewed. *)
Definition pre_wf k : Prop :=
  forest_wf cur (chainsStorage k) (chainsLeaves k) /\ heaviest (chainsStorage k) (chainsLeaves k).

Lemma add_leaf_ok b raw a k cache n start : pre_wf k ->
  chainsStorage k !! cache = Some n -> children n <> [] -> start = height (chain_of (chainsStorage k) cache) ->
  ready cur b a (chain_of (chainsStorage k) cache) ->
  exists k', add_leaf E b raw a cache start k = (inl ADDED_TO_ALTERNATIVE, k') /\
  core_wf k' /\ outcome b raw (inl ADDED_TO_ALTERNATIVE) k k' /\ keeps_chains k k'.
Proof.
  intros [Hf Hh] Hn Hc Hst Hr. set (new := fresh (dom (chainsStorage k))).
  pose proof (fresh_none (chainsStorage k)) as Hnew. fold new in Hnew.
  destruct (push_fork E b raw a _ _ cache new n start Hf Hn Hc Hnew Hst Hr) as (t' & Hp & Hf' & Hx & Hold).
  unfold add_leaf. fold new. cbn [chainsStorage set_leaves set_tree]. rewrite Hp. eexists. split; [reflexivity|].
  set (k' := updateMainChainSet _).
  assert (forall id, id ∈ chainsLeaves k -> blocks t' id = blocks (chainsStorage k) id) as Hleaf.
  { intros id (m & Hm & _)%(fw_leaves _ _ _ Hf). by apply Hold. }
  destruct Hh as (main & others & El & Hw).
  assert (main_leaf k' = main /\ main_leaf k = main) as [Em' Em] by (unfold main_leaf; cbn; by rewrite El).
  assert (main ∈ chainsLeaves k) as Hmain by (rewrite El; constructor).
  assert (main_blocks k' = main_blocks k) as Emb by (unfold main_blocks; rewrite Em', Em; by apply Hleaf).
  split; [split; [done| |done]|split; [split; [exact Emb|split; [done|]]|]].
  - apply heaviest_intro; cbn; [by rewrite El|].
    replace (default 0%nat (head (chainsLeaves k ++ [new]))) with main by (by rewrite El).
    rewrite (Hleaf main Hmain). intros id [Hid|Hid]%elem_of_app; [rewrite (Hleaf id Hid); by apply Hw|].
    apply list_elem_of_singleton in Hid as ->. rewrite (extends_weight _ _ _ _ Hx).
    destruct (fork_weight (chainsStorage k) (chainsLeaves k) cache n (ac_difficulty a) Hf Hn Hc) as (leaf & Hl & Hle).
    + exact (rd_difficulty _ _ _ _ Hr).
    + specialize (Hw leaf Hl). lia.
  - exists new. split; [apply elem_of_app; right; by constructor|]. by eapply extends_ends.
  - intros id Hid. exists id, []. split; [apply elem_of_app; by left|]. rewrite app_nil_r. by apply Hleaf.
Qed.

(** *** A branch in the middle of a segment *)

Lemma split_core_eq cache n splitBlockIndex k : chainsStorage k !! cache = Some n ->
  let upper := fresh (dom (chainsStorage k)) in
  chainsStorage (split_core cache splitBlockIndex k) = split_node cache upper splitBlockIndex (chainsStorage k) /\
  chainsLeaves (split_core cache splitBlockIndex k) = split_leaves cache upper n (chainsLeaves k) /\
  mainChainStorage (split_core cache splitBlockIndex k) = mainChainStorage k.
Proof.
  intros Hn upper. split; [done|]. split; [|done]. unfold split_core. fold upper. cbn [chainsLeaves set_leaves].
  rewrite (split_lookup_upper _ cache upper n splitBlockIndex Hn). done.
Qed.

Lemma split_core_ok cache n i k : pre_wf k -> chainsStorage k !! cache = Some n ->
  startIndex (seg n) < i <= getTopBlockIndex (seg n) ->
  let k' := split_core cache i k in
  pre_wf k' /\ main_blocks k' = main_blocks k /\ mainChainStorage k' = mainChainStorage k /\ keeps_chains k k'.
Proof.
  intros [Hf Hh] Hn Hi k'. destruct (split_core_eq cache n i k Hn) as (Et & El & Es). fold k' in Et, El, Es.
  set (upper := fresh (dom (chainsStorage k))) in *. pose proof (fresh_none (chainsStorage k)) as Hup. fold upper in Hup.
  destruct (split_forest E _ _ cache upper n i Hf Hn Hup Hi) as (Hf' & Hsame & _ & Eu & _).
  rewrite <- Et, <- El in *.
  set (move := fun id => if (getChildCount n =? 0)%nat then (if (id =? cache)%nat then upper else id) else id).
  assert (chainsLeaves k' = map move (chainsLeaves k)) as Emove.
  { rewrite El. unfold split_leaves, move. destruct (_ =? _)%nat; [done|]. symmetry. apply list_fmap_id. }
  assert (forall id, id ∈ chainsLeaves k -> blocks (chainsStorage k') (move id) = blocks (chainsStorage k) id) as Hmove.
  { intros id (m & Hm & Hmc)%(fw_leaves _ _ _ Hf). unfold move.
    destruct (Nat.eqb_spec id cache) as [->|Hne].
    - simplify_eq. rewrite Hmc. exact Eu.
    - destruct (length (children n) =? 0)%nat; (apply Hsame; [by eexists|done]). }
  destruct Hh as (main & others & Elk & Hw). assert (main ∈ chainsLeaves k) as Hmain by (rewrite Elk; constructor).
  assert (main_leaf k' = move main /\ main_leaf k = main) as [Em' Em] by (unfold main_leaf; by rewrite Emove, Elk).
  split; [split; [done|]|split; [unfold main_blocks; rewrite Em', Em; by apply Hmove|split; [done|]]].
  - exists (move main), (map move others). split; [by rewrite Emove, Elk|]. rewrite (Hmove main Hmain).
    rewrite Emove. intros id (x & -> & Hx)%list_elem_of_fmap. rewrite (Hmove x Hx). by apply Hw.
  - intros id Hid. exists (move id), []. rewrite app_nil_r, Emove. split; [by apply list_elem_of_fmap_2|by apply Hmove].
Qed.

(** What stays below the cut. *)
Lemma split_lower t cache upper n i : tree_wf t -> t !! cache = Some n -> t !! upper = None ->
  startIndex (seg n) < i <= getTopBlockIndex (seg n) ->
  let c' := chain_of (split_node cache upper i t) cache in
  chain_wf c' /\ height c' = i /\
  (forall x, (length (chain_outputs x c') <= length (chain_outputs x (chain_of t cache)))%nat) /\
  (forall x h, chain_spent c' !! x = Some h -> chain_spent (chain_of t cache) !! x = Some h).
Proof.
  intros Hwf Hn Hu Hi c'. pose proof (split_wf t cache upper n i Hwf Hn Hu Hi) as Hwf'.
  pose proof (split_lookup_upper t cache upper n i Hn) as Hnu. pose proof (chain_of_cons _ _ _ Hwf' Hnu) as Ec.
  cbn [seg parent] in Ec. fold c' in Ec. pose proof (chain_of_wf _ _ _ Hwf' Hnu) as Hcw. rewrite Ec in Hcw.
  destruct Hcw as [Hs Hc]. destruct (split_content_lower t cache upper n i Hwf Hn Hu Hi) as [Hfl Hh]. fold c' in Hfl, Hh.
  split; [done|]. split; [done|]. split.
  - intros x. rewrite <- (fe_outputs _ _ Hfl x). cbn [chain_outputs]. rewrite length_app. lia.
  - intros x h Hx. rewrite <- (fe_spent _ _ Hfl). cbn [chain_spent]. apply lookup_union_Some_raw. right. split; [|done].
    destruct (spentKeyImages _ !! x) as [h'|] eqn:Ex; [|done]. apply (wf_spent _ _ Hs) in Ex as [_ Ex]. congruence.
Qed.

Lemma outcome_trans b raw k k1 k2 :
  main_blocks k1 = main_blocks k -> mainChainStorage k1 = mainChainStorage k -> keeps_chains k k1 ->
  outcome b raw (inl ADDED_TO_ALTERNATIVE) k1 k2 -> keeps_chains k1 k2 ->
  outcome b raw (inl ADDED_TO_ALTERNATIVE) k k2 /\ keeps_chains k k2.
Proof.
  intros Em Es Hk (Em' & Es' & Hx) Hk'. split; [split; [congruence|split; [congruence|done]]|].
  intros id Hid. destruct (Hk id Hid) as (id1 & r1 & Hid1 & E1). destruct (Hk' id1 Hid1) as (id2 & r2 & Hid2 & E2).
  exists id2, (r1 ++ r2). split; [done|]. by rewrite E2, E1, app_assoc.
Qed.

Lemma add_accepted_ok hash_order now b raw a k cache n i :
  core_wf k -> room b raw k -> isInCheckpointZone (cb_index b) (checkpoints E) = false ->
  core_hasBlock (getBlockHash b) k = false ->
  chainsStorage k !! cache = Some n -> segment_getBlockIndex (previousBlockHash (getBlock b)) (seg n) = Some i ->
  accept_block now b raw (chain_of (chainsStorage k) cache) = inl a ->
  let '(r, k') := add_accepted E hash_order now b raw a cache n i k in
  core_wf k' /\ outcome b raw r k k' /\ keeps_chains k k'.
Proof.
  intros Hk Hroom Hz Hno Hn Hi Ha. pose proof Hk as [Hf Hh _]. pose proof (fw_tree _ _ _ Hf) as Hwf.
  pose proof (accepted_ready now b raw k cache n i a) as Hready.
  pose proof (chain_of_cons _ _ _ Hwf Hn) as Ec. pose proof (chain_of_wf _ _ _ Hwf Hn) as Hcw.
  pose proof (rm_height _ _ _ Hroom cache ltac:(by eexists)) as Hrh. rewrite Ec in Hrh. pose proof Hcw as Hcw'.
  rewrite Ec in Hcw'. destruct Hcw' as [Hs _]. pose proof (tw_nonempty _ Hwf _ _ Hn) as Hne.
  destruct (getBlockIndex_range _ _ _ i Hs Hi) as [Hr _]. pose proof (top_height _ _ Hs Hne) as Htop.
  pose proof (wf_start _ _ Hs) as Hst. set (ps := match parent n with Some p => _ | None => [] end) in *.
  pose proof (height_nonneg ps) as H0. unfold add_accepted. rewrite wrap_small by mlia.
  destruct (Z.eqb_spec (getTopBlockIndex (seg n)) i) as [Ei|Ei].
  - assert (ready cur b a (chain_of (chainsStorage k) cache)) as Hrd.
    { apply Hready; try done. unfold blocks. rewrite take_ge; [done|]. rewrite Ec. unfold height in *. lia. }
    destruct (Nat.eqb_spec (getChildCount n) 0) as [Hc|Hc].
    + apply nil_length_inv in Hc. destruct (Nat.eqb_spec cache (main_leaf k)) as [->|Hm].
      * by apply (add_to_main_ok b raw a k n).
      * by apply (add_to_alternative_ok hash_order now b raw a k cache n).
    + destruct (add_leaf_ok b raw a k cache n (i + 1)) as (k' & -> & Hk' & Ho & Hkeep);
        [by split|done|by intros Hc'; apply Hc; rewrite Hc'|rewrite Ec; lia|done|].
      pose proof (median_same k') as [Hst' _]. split; [by eapply same_tree_wf|]. split; [|by eapply same_tree_keeps].
      exact Ho.
  - set (k1 := split_core cache (i + 1) k). set (upper := fresh (dom (chainsStorage k))).
    pose proof (fresh_none (chainsStorage k)) as Hup. fold upper in Hup.
    assert (startIndex (seg n) < i + 1 <= getTopBlockIndex (seg n)) as Hcut by lia.
    destruct (split_core_ok cache n (i + 1) k (conj Hf Hh) Hn Hcut) as (Hpre & Em & Es & Hkeep). fold k1 in Hpre, Em, Es, Hkeep.
    destruct (split_core_eq cache n (i + 1) k Hn) as (Et & _ & _). fold k1 upper in Et.
    destruct (split_lower _ cache upper n (i + 1) Hwf Hn Hup Hcut) as (Hw' & Hh' & Ho' & Hs').
    destruct (split_forest E _ _ cache upper n (i + 1) Hf Hn Hup Hcut) as (_ & _ & _ & _ & Elow).
    rewrite <- Et in Hw', Hh', Ho', Hs', Elow.
    pose proof (Hready _ Hk Hroom Hz Hno Hn Hi Ha Hw' Elow Ho' Hs') as Hrd.
    pose proof (split_lookup_cache (chainsStorage k) cache upper n (i + 1) Hn Hup) as Hn1. rewrite <- Et in Hn1.
    destruct (add_leaf_ok b raw a k1 cache _ (i + 1) Hpre Hn1 ltac:(done) ltac:(done) Hrd) as (k' & -> & Hk' & Ho & Hkeep').
    split; [done|]. by apply (outcome_trans b raw k k1 k').
Qed.

Lemma addBlock_ok hash_order now b raw k :
  core_wf k -> room b raw k -> isInCheckpointZone (cb_index b) (checkpoints E) = false ->
  let '(r, k') := addBlock E hash_order now b raw k in
  core_wf k' /\ outcome b raw r k k' /\ keeps_chains k k'.
Proof.
  intros Hk Hroom Hz. assert (keeps_chains k k) as Hid.
  { intros id Hid. exists id, []. by rewrite app_nil_r. }
  unfold addBlock. destruct (core_hasBlock (getBlockHash b) k) eqn:Eno; [done|].
  destruct (findSegmentContainingBlock _ k) as [cache|] eqn:Ef; [|by split; [|split; [left|]]].
  destruct (findSegment_some _ k cache Ef) as (n & Hn & _). rewrite Hn.
  destruct (acceptBlock _ _ _ _ _ _ _ _ _ _ _ _ _ _) as [a|e] eqn:Ea; [|by split; [|split; [left|]]].
  destruct (segment_getBlockIndex _ (seg n)) as [i|] eqn:Ei; [|by split; [|split; [left|]]].
  by apply add_accepted_ok.
Qed.
End CoreInvariant.

(** ** Theorems *)

(** C1. [addBlock] keeps the core consistent, whatever block it gets: the
    segments stay a tree of well-formed chains, the leaves its ends, no chain
    has a block twice, the difficulties of every chain add up, and the first
    leaf is a heaviest chain.  No chain is lost.  On the main chain the block is
    appended; on an alternative chain the main chain stays as it is; the main
    chain is given up only for a strictly heavier one that ends in the block; a
    known block changes nothing, and neither does a rejected one.  This is for
    blocks outside the checkpoint zone, as long as no counter overflows. *)
Theorem addBlock_keeps_core (E : Environment) {P : Type} `{!ITransactionPool P} hash_order now b raw (k : Core (P := P)) :
  core_wf E k -> room E b raw k -> isInCheckpointZone (cb_index b) (checkpoints E) = false ->
  let '(r, k') := addBlock E hash_order now b raw k in
  core_wf E k' /\ outcome b raw r k k' /\ keeps_chains k k'.
Proof. apply addBlock_ok. Qed.

(** *** The storage of the main chain *)

(** The raw blocks of a chain. *)
Fixpoint chain_storage (c : list segment) : list RawBlock :=
  match c with [] => [] | s :: parents => chain_storage parents ++ storage s end.

(** [switchMainChainStorage], called with the start of the last segment of
    the new chain, replaces what is above this start by the blocks of this
    segment. *)
Lemma switchMainChainStorage_last s c old :
  blockInfos s <> [] -> length (storage s) = length (blockInfos s) ->
  0 <= startIndex s -> startIndex s + Z.of_nat (length (blockInfos s)) < 2 ^ 32 ->
  startIndex s <= Z.of_nat (length old) < 2 ^ 32 ->
  switchMainChainStorage (startIndex s) (s :: c) old = Some (take (Z.to_nat (startIndex s)) old ++ storage s).
Proof.
  intros Hne Hlen H0 Hh Hold. unfold switchMainChainStorage. rewrite wrap_small by mlia.
  replace (length old - _)%nat with (Z.to_nat (startIndex s)) by lia. unfold indexes_from. cbn [top_of].
  assert (getTopBlockIndex s = startIndex s + Z.of_nat (length (blockInfos s)) - 1) as ->.
  { unfold getTopBlockIndex. destruct (blockInfos s); [done|]. cbn [length] in *. rewrite (wrap_small 32 (Z.of_nat _)) by mlia.
    by rewrite wrap_small by mlia. }
  replace (Z.to_nat (_ + 1 - _)) with (length (storage s)) by lia.
  assert (mapM (fun i => getBlockByIndex i (s :: c))
    (map (fun i => startIndex s + Z.of_nat i) (seq 0 (length (storage s)))) = Some (storage s)) as ->; [|done].
  apply mapM_Some. apply Forall2_same_length_lookup. split; [by rewrite length_map, length_seq|].
  intros i x y Hx Hy. rewrite list_lookup_fmap in Hx. apply fmap_Some in Hx as (j & Hj & ->).
  apply lookup_seq in Hj as [-> Hj]. cbn [getBlockByIndex].
  rewrite (proj2 (Z.ltb_ge _ _)) by lia. rewrite <- Hy. f_equal. lia.
Qed.

Section Switched.
Variable E : Environment.
Context {P : Type} `{!ITransactionPool P}.
Abbreviation Core := (Core (P := P)).
Implicit Types k : Core.

Lemma switch_chain_storage hash_order now a endpoint k k' :
  switch_chain E hash_order now a endpoint k = (inl ADDED_TO_ALTERNATIVE_AND_SWITCHED, k') ->
  switchMainChainStorage (match main_chain k' with s :: _ => startIndex s | [] => 0 end) (main_chain k') (mainChainStorage k) =
    Some (mainChainStorage k').
Proof.
  unfold switch_chain. set (k1 := updateMainChainSet _).
  pose proof (copy_same E hash_order now (main_leaf k) (actualizePoolTransactions E now (remove_all E (ac_transactions a) (updateBlockMedianSize E k1)))) as Hcopy.
  destruct (copyTransactionsToPool _ _ _ _ _) as [copied k2]. cbn [snd] in Hcopy.
  assert (mainChainStorage k2 = mainChainStorage k) as Hs.
  { destruct Hcopy as [_ ->]. destruct (actualize_same E now (remove_all E (ac_transactions a) (updateBlockMedianSize E k1))) as [_ ->].
    destruct (remove_all_same E (ac_transactions a) (updateBlockMedianSize E k1)) as [_ ->].
    by destruct (median_same E k1) as [_ ->]. }
  destruct (switchMainChainStorage _ _ _) as [blocks|] eqn:Ew; [|done]. destruct copied; [|done]. intros [= <-].
  rewrite Hs in Ew. exact Ew.
Qed.

Lemma addBlock_switched hash_order now b raw k k' :
  addBlock E hash_order now b raw k = (inl ADDED_TO_ALTERNATIVE_AND_SWITCHED, k') ->
  switchMainChainStorage (match main_chain k' with s :: _ => startIndex s | [] => 0 end) (main_chain k') (mainChainStorage k) =
    Some (mainChainStorage k').
Proof.
  unfold addBlock. destruct (core_hasBlock _ _); [done|]. destruct (findSegmentContainingBlock _ _) as [cache|]; [|done].
  destruct (acceptBlock _ _ _ _ _ _ _ _ _ _ _ _ _ _) as [a|e]; [|done]. destruct (chainsStorage k !! cache) as [n|]; [|done].
  destruct (segment_getBlockIndex _ _) as [previous|]; [|done]. unfold add_accepted.
  assert (forall c start k1 k2, add_leaf E b raw a c start k1 <> (inl ADDED_TO_ALTERNATIVE_AND_SWITCHED, k2)) as Hleaf.
  { intros c start k1 k2. unfold add_leaf. by destruct (push_node _ _ _ _ _ _). }
  destruct (_ =? _); [|by intros H%Hleaf]. destruct (_ =? _)%nat.
  - destruct (_ =? _)%nat.
    + unfold add_to_main. by destruct (push_node _ _ _ _ _ _).
    + unfold add_to_alternative. destruct (push_node _ _ _ _ _ _) as [t|]; [|done].
      destruct (cumulative_difficulty t cache); [|done]. destruct (cumulative_difficulty t _); [|done].
      destruct (_ <? _); [|done]. intros H. exact (switch_chain_storage _ _ _ _ (set_tree t k) _ H).
  - destruct (add_leaf _ _ _ _ _ _ _) as [r k1] eqn:El. intros [= -> <-]. by apply Hleaf in El.
Qed.

(** C19. When the node changes to another chain, the storage of the main chain
    gets the blocks of the last segment of the new chain only: at every place
    below this segment it keeps the block of the old chain.  So afterwards it
    has the blocks of the new chain exactly when it had those below the last
    segment before, which it has not when the new chain leaves the old one
    through more than one segment, as a branch of a branch does.  This is for a
    segment that has stored its blocks and begins within the old storage. *)
Theorem switch_copies_last_segment hash_order now b raw k k' s c :
  addBlock E hash_order now b raw k = (inl ADDED_TO_ALTERNATIVE_AND_SWITCHED, k') -> main_chain k' = s :: c ->
  blockInfos s <> [] -> length (storage s) = length (blockInfos s) ->
  0 <= startIndex s -> startIndex s + Z.of_nat (length (blockInfos s)) < 2 ^ 32 ->
  startIndex s <= Z.of_nat (length (mainChainStorage k)) < 2 ^ 32 ->
  mainChainStorage k' = take (Z.to_nat (startIndex s)) (mainChainStorage k) ++ storage s /\
  (forall i, (i < Z.to_nat (startIndex s))%nat -> mainChainStorage k' !! i = mainChainStorage k !! i) /\
  (mainChainStorage k' = chain_storage (main_chain k') <->
   take (Z.to_nat (startIndex s)) (mainChainStorage k) = chain_storage c).
Proof.
  intros Hadd Hc Hne Hlen H0 Hh Hold. apply addBlock_switched in Hadd. rewrite Hc in *.
  rewrite switchMainChainStorage_last in Hadd by done. injection Hadd as <-. split; [done|]. split.
  - intros i Hi. rewrite lookup_app_l by (rewrite length_take; lia). by rewrite lookup_take_lt.
  - cbn [chain_storage]. split; [apply app_inv_tail|by intros ->].
Qed.
End Switched.

(** ** A run *)

Definition sample_environment : Environment :=
  {| check_key := any_key; in_prime_subgroup := any_key; checkRingSignature := any_signature; cn_fast_hash := no_hash;
     cn_slow_hash_v0 := no_hash; cn_lite_slow_hash_v1 := no_hash; cn_turtle_lite_slow_hash_v2 := no_hash;
     currency := CurrencyBuilder; checkpoints := ∅; genesisHash := NULL_HASH |}.

(** A block without transactions at [index], with hash bytes [h], behind [prev]. *)
Definition block_at (index prev h : Z) : CachedBlock :=
  {| getBlock :=
       {| header := {| majorVersion := index; minorVersion := 0; nonce := 0; timestamp := 10 * (index + 1);
            previousBlockHash := replicate 32 prev |};
          parentBlock := parentBlock sample_block;
          baseTransaction := {| tx_prefix := {| version := 1; unlockTime := index + 20;
            inputs := [InBase {| blockIndex := index |}];
            outputs := [{| to_amount := 37252902; target := OutKey {| key := replicate 32 4 |} |}]; extra := [] |};
            signatures := [] |};
          transactionHashes := [] |};
     getBlockHash := replicate 32 h |}.
Definition raw_at (h : Z) : RawBlock := {| rb_block := [h]; rb_transactions := [] |}.

(** The core with the chain of [sample_segment]. *)
Definition sample_core : Core (P := TransactionPool (C := list PendingTransactionInfo)) :=
  {| chainsStorage := {[ 0%nat := {| seg := sample_segment; parent := None; children := [] |} ]};
     chainsLeaves := [0%nat]; mainChainSet := {[ 0%nat ]}; pool := run_wrapper;
     mainChainStorage := [raw_at 1; raw_at 2; raw_at 3]; blockMedianSize := 0 |}.

#[local] Existing Instance run_pool.

Definition run_blocks (bs : list (Z * Z * Z)) (k : Core (P := TransactionPool (C := list PendingTransactionInfo)))
    : list (checked AddBlockErrorCode) * Core :=
  fold_left (fun '(rs, k) '(index, prev, h) =>
    let '(r, k) := addBlock sample_environment id 100 (block_at index prev h) (raw_at h) k in (rs ++ [r], k)) bs ([], k).

Lemma sample_lookup id n : chainsStorage sample_core !! id = Some n ->
  0%nat = id /\ {| seg := sample_segment; parent := None; children := [] |} = n.
Proof. intros H. exact (proj1 (lookup_singleton_Some (M := gmap nat) _ _ _ _) H). Qed.

Lemma sample_tree_wf : tree_wf (chainsStorage sample_core).
Proof.
  split; intros id n.
  - intros [<- <-]%sample_lookup. exists [0%nat]. split; [by eapply path_root; [reflexivity|]|exact sample_segment_wf].
  - by intros [_ <-]%sample_lookup.
  - intros [_ <-]%sample_lookup. constructor.
  - intros c [<- <-]%sample_lookup. cbn [children]. rewrite elem_of_nil. split; [done|]. intros (m & [<- <-]%sample_lookup & ?). done.
Qed.

Lemma sample_blocks id : is_Some (chainsStorage sample_core !! id) ->
  chain_of (chainsStorage sample_core) id = [sample_segment].
Proof. intros [n [<- _]%sample_lookup]. reflexivity. Qed.

Lemma sample_chain_ok : chain_ok CurrencyBuilder (blockInfos sample_segment).
Proof.
  split.
  - intros [|[|[|j]]] info; intros [= <-]; do 2 eexists; (split; [reflexivity|]); (split; [vm_compute; reflexivity|reflexivity]).
  - evaluate.
  - evaluate.
Qed.

Lemma sample_core_wf_in E : chain_ok (currency E) (blockInfos sample_segment) -> core_wf E sample_core.
Proof.
  intros Hok. split.
  - split.
    + apply sample_tree_wf.
    + intros id. cbn. rewrite list_elem_of_singleton. split.
      * intros ->. eexists. split; [reflexivity|done].
      * by intros (n & [<- _]%sample_lookup & _).
    + apply NoDup_singleton.
    + intros i j ni nj [<- _]%sample_lookup [<- _]%sample_lookup. done.
    + intros id n Hn. unfold blocks. rewrite sample_blocks by (by eexists). exact Hok.
  - apply heaviest_intro; [done|]. cbn. by intros id ->%list_elem_of_singleton.
  - vm_compute. reflexivity.
Qed.

Lemma sample_core_wf : core_wf sample_environment sample_core.
Proof. apply sample_core_wf_in, sample_chain_ok. Qed.

(** The base transaction of [block_at]. *)
Definition block_base (index prev h : Z) : CachedTransaction :=
  default spend_tx (CachedTransaction_object (baseTransaction (getBlock (block_at index prev h)))).

Lemma sample_room_in E b raw base ts size : Forall (fun tx => is_bytes tx /\ Z.of_nat (length tx) < 2 ^ 64) (rb_transactions raw) ->
  CachedTransaction_object (baseTransaction (getBlock b)) = Some base ->
  extractTransactions (currency E) (rb_transactions raw) = Some (ts, size) -> (outputs_count (base :: ts) <= 100)%nat ->
  (forall l r d, blockInfos sample_segment = l ++ r -> next_difficulty (currency E) l = Some d -> weight l + d < 2 ^ 64) ->
  room E b raw sample_core.
Proof.
  intros Hraw Hb Hts Ho Hw. split.
  - done.
  - intros id Hid. by rewrite sample_blocks.
  - exists base. split; [done|]. intros id x ts' size' Hid Hts'. rewrite sample_blocks by done. rewrite Hts in Hts'. injection Hts' as <- _.
    assert (length (chain_outputs x [sample_segment]) <= 3)%nat; [|lia].
    destruct (decide (x = 5)) as [->|Hx]; [vm_compute; lia|].
    cbn. unfold segment_outputs. cbn. rewrite lookup_singleton_ne by done. cbn. lia.
  - intros id l r d Hid. unfold blocks. rewrite sample_blocks by done. apply Hw.
Qed.

Lemma sample_room b h base : CachedTransaction_object (baseTransaction (getBlock b)) = Some base ->
  outputs_count [base] = 1%nat -> room sample_environment b (raw_at h) sample_core.
Proof.
  intros Hb Ho. apply (sample_room_in _ _ _ base [] 0); [constructor|done|done|lia|].
  intros l r d. destruct l as [|? [|? [|? [|? ?]]]]; intros [=]; subst; intros Hd; vm_compute in Hd; injection Hd as <-; reflexivity.
Qed.

Lemma addBlock_keeps_core_witness :
  exists k', addBlock sample_environment id 100 (block_at 3 3 13) (raw_at 13) sample_core = (inl ADDED_TO_MAIN, k') /\
    core_wf sample_environment k' /\ exists info, main_blocks k' = main_blocks sample_core ++ [info].
Proof.
  pose proof (addBlock_keeps_core sample_environment id 100 (block_at 3 3 13) (raw_at 13) sample_core
    sample_core_wf (sample_room (block_at 3 3 13) 13 (block_base 3 3 13) ltac:(vm_compute; reflexivity) ltac:(vm_compute; reflexivity)) eq_refl) as H.
  destruct (addBlock _ _ _ _ _ _) as [r k'] eqn:Er. assert (r = inl ADDED_TO_MAIN) as ->.
  { apply (f_equal fst) in Er. vm_compute in Er. by rewrite <- Er. }
  exists k'. split; [reflexivity|]. destruct H as (Hk & ((info & Hm & _) & _) & _). split; [exact Hk|]. by exists info.
Defined.

(** The sample chain grows by the blocks 13 and 14; behind block 3 a branch 23,
    24 begins, and behind 23 a branch 34, to which 35 is added. *)
Definition branches : list (checked AddBlockErrorCode) * Core :=
  run_blocks [(3, 3, 13); (4, 13, 14); (3, 3, 23); (4, 23, 24); (4, 23, 34)] sample_core.

Lemma switch_copies_last_segment_witness :
  let '(r, k) := addBlock sample_environment id 100 (block_at 5 34 35) (raw_at 35) branches.2 in
  r = inl ADDED_TO_ALTERNATIVE_AND_SWITCHED /\ hashes (main_blocks k) = map (replicate 32) [1; 2; 3; 23; 34; 35] /\
  mainChainStorage k = map raw_at [1; 2; 3; 13; 34; 35] /\ mainChainStorage k !! 3%nat = mainChainStorage branches.2 !! 3%nat.
Proof.
  destruct (addBlock sample_environment id 100 (block_at 5 34 35) (raw_at 35) branches.2) as [r k] eqn:Er.
  assert (r = inl ADDED_TO_ALTERNATIVE_AND_SWITCHED) as ->.
  { apply (f_equal fst) in Er. vm_compute in Er. by rewrite <- Er. }
  split; [reflexivity|]. pose proof (f_equal snd Er) as Ek. cbn [snd] in Ek.
  split; [rewrite <- Ek; vm_compute; reflexivity|]. split; [rewrite <- Ek; vm_compute; reflexivity|].
  destruct (main_chain k) as [|s c] eqn:Ec; [rewrite <- Ek in Ec; vm_compute in Ec; discriminate|].
  assert ((startIndex s, length (blockInfos s), length (storage s)) = (4, 2%nat, 2%nat)) as [= Hst Hbl Hsl].
  { rewrite <- Ek in Ec. vm_compute in Ec. injection Ec as <- _. reflexivity. }
  destruct (switch_copies_last_segment sample_environment id 100 (block_at 5 34 35) (raw_at 35) branches.2 k s c Er Ec)
    as (_ & Hkeep & _).
  - intros Hb. by rewrite Hb in Hbl.
  - by rewrite Hsl, Hbl.
  - by rewrite Hst.
  - by rewrite Hst, Hbl.
  - rewrite Hst. split; vm_compute; [discriminate|reflexivity].
  - apply Hkeep. rewrite Hst. vm_compute. apply le_n.
Defined.
