(* ===== verification/CoreStart.v ===== *)
(** * Starting the core ([src/mevacoin_core/core.cpp])

    The root segment with the genesis block, the reconciliation of the root
    segment with the stored main chain when the core loads, the blocks a miner
    submits, and the removal of alternative chains.  Importing the stored blocks
    of a chain gives the chain again, and every core that is reached from the
    genesis block is consistent. *)

From stdpp Require Import gmap fin_sets sorting.
From S2P Require Import Prelude Config Stream Serializer Transaction Amounts Block Cached Pool Currency Difficulty.
From S2P Require Import Rules PoolCleaner Checkpoints Segments ChainSpec Validation Core CoreSpec AddBlock.
Import BlockchainCache.

Section Start.
Variable E : Environment.
Abbreviation cur := (currency E).

(** ** The root segment *)

(** [MemoryBlockchainCacheFactory::createRootBlockchainCache] *)
Definition createRootBlockchainCache : option segment :=
  genesis ← generateGenesisBlock cur;
  genesisBlock ← CachedBlock_new E genesis;
  let minerReward := fold_left (fun r o => u64 (r + to_amount o)) (outputs (baseTransaction genesis)) 0 in
  coinbase ← toBinaryArray serialize_Transaction (baseTransaction genesis);
  block ← toBinaryArray (serialize_BlockTemplate (cn_fast_hash E)) genesis;
  c ← doPushBlock (cn_fast_hash E) genesisBlock [] {| Pool.spentKeyImages := ∅ |} (Z.of_nat (length coinbase))
        minerReward 1 {| rb_block := block; rb_transactions := [] |} [new_segment 0];
  head c.

(** ** The stored main chain *)

(** [extractBlockTemplate] and the hash of the block. *)
Definition restore_block (raw : RawBlock) : checked CachedBlock :=
  blockTemplate ← of_option (fromBinaryArray (serialize_BlockTemplate (cn_fast_hash E)) (rb_block raw)) DESERIALIZATION_FAILED;
  of_option (CachedBlock_new E blockTemplate) Exception.
Definition raw_hash (raw : RawBlock) : option Hash :=
  match restore_block raw with inl b => Some (getBlockHash b) | inr _ => None end.

(** The bisection; [fuel] bounds its steps. *)
Fixpoint common_loop (fuel : nat) (stored : list RawBlock) (root : segment) (left right : Z) : option Z :=
  match fuel with
  | O => None
  | S fuel =>
      if left =? right then Some left
      else
        let checkElement := u32 (left + (right - left) / 2 + 1) in
        h ← (stored !! Z.to_nat checkElement) ≫= raw_hash;
        h' ← segment_getBlockHash checkElement [root];
        if bool_decide (h = h') then common_loop fuel stored root checkElement right
        else common_loop fuel stored root left (checkElement - 1)
  end.
Definition findCommonRoot (stored : list RawBlock) (root : segment) : option Z :=
  let right := Z.min (u32 (Z.of_nat (length stored) - 1)) (u32 (Z.of_nat (length (blockInfos root)) - 1)) in
  common_loop (S (Z.to_nat right)) stored root 0 right.

(** The upper part and its link are dropped at once. *)
Definition cutSegment (root : segment) (start : Z) : segment :=
  if getTopBlockIndex root <? start then root else fst (split start root).

Definition extractSpentOutputs_all (ts : list CachedTransaction) : TransactionValidatorState :=
  fold_left (fun s t => mergeStates s (extractSpentOutputs t)) ts {| Pool.spentKeyImages := ∅ |}.

Definition getEmissionChange (c : list segment) (previousBlockIndex : Z) (b : CachedBlock)
    (cumulativeSize cumulativeFee : Z) : checked Z :=
  alreadyGeneratedCoins ← of_option (getAlreadyGeneratedCoins previousBlockIndex c) Exception;
  let lastBlocksSizes := getLastBlocksSizes (Z.to_nat (m_rewardBlocksWindow cur)) previousBlockIndex true c in
  '(_, emissionChange) ←
    of_option (getBlockReward cur (majorVersion (getBlock b)) (medianValue lastBlocksSizes) cumulativeSize
                 alreadyGeneratedCoins cumulativeFee) CUMULATIVE_BLOCK_SIZE_TOO_BIG;
  mret emissionChange.

(** What [pushBlock] is called with for the stored block [i]. *)
Definition import_block (b : CachedBlock) (raw : RawBlock) (i : Z) (c : list segment) : checked Accepted :=
  '(transactions, cumulativeSize) ← of_option (extractTransactions cur (rb_transactions raw)) DESERIALIZATION_FAILED;
  let baseSize := match toBinaryArray serialize_Transaction (baseTransaction (getBlock b)) with
                  | Some ba => Z.of_nat (length ba) | None => 2 ^ 64 - 1 end in
  let cumulativeSize := u64 (cumulativeSize + baseSize) in
  currentDifficulty ← of_option (getDifficultyForNextBlock cur (i - 1) c) UndefinedBehaviour;
  let cumulativeFee := fold_left (fun fee t => u64 (fee + getTransactionFee (getTransaction t))) transactions 0 in
  emissionChange ← getEmissionChange c (i - 1) b cumulativeSize cumulativeFee;
  mret {| ac_transactions := transactions; ac_state := extractSpentOutputs_all transactions; ac_size := cumulativeSize;
          ac_emissionChange := emissionChange; ac_difficulty := currentDifficulty |}.

Fixpoint import_loop (stored : list RawBlock) (i : Z) (previous : Hash) (c : list segment) : checked (list segment) :=
  match stored with
  | [] => inl c
  | raw :: stored =>
      b ← restore_block raw;
      _ ← guard_or (bool_decide (previousBlockHash (getBlock b) = previous)) CORRUPTED_BLOCKCHAIN;
      a ← import_block b raw i c;
      c ← of_option (doPushBlock (cn_fast_hash E) b (ac_transactions a) (ac_state a) (ac_size a)
                       (ac_emissionChange a) (ac_difficulty a) raw c) Exception;
      import_loop stored (i + 1) (getBlockHash b) c
  end.

Definition importBlocksFromStorage (stored : list RawBlock) (root : segment) : checked segment :=
  commonIndex ← of_option (findCommonRoot stored root) DESERIALIZATION_FAILED;
  let root := cutSegment root (commonIndex + 1) in
  previous ← of_option ((stored !! Z.to_nat commonIndex) ≫= raw_hash) DESERIALIZATION_FAILED;
  c ← import_loop (drop (Z.to_nat (commonIndex + 1)) stored) (commonIndex + 1) previous [root];
  of_option (head c) Exception.

(** The part of [load] behind [initRootSegment]. *)
Definition load_root (stored : list RawBlock) (root : segment) : checked segment :=
  let dbBlocksCount := u32 (getTopBlockIndex root + 1) in
  let storageBlocksCount := u32 (Z.of_nat (length stored)) in
  if dbBlocksCount <? storageBlocksCount then importBlocksFromStorage stored root
  else if storageBlocksCount <? dbBlocksCount then
    commonIndex ← of_option (findCommonRoot stored root) DESERIALIZATION_FAILED;
    mret (cutSegment root (commonIndex + 1))
  else
    h ← of_option ((stored !! Z.to_nat (storageBlocksCount - 1)) ≫= raw_hash) DESERIALIZATION_FAILED;
    if bool_decide (Some h = (blockHash <$> last (blockInfos root))) then mret root
    else importBlocksFromStorage stored root.
End Start.

(** ** The running core *)

Section Running.
Variable E : Environment.
Context {P : Type} `{!ITransactionPool P}.
Variable hash_order : list Hash -> list Hash.
Abbreviation Core := (Core (P := P)).
Implicit Types (k : Core) (t : tree).

(** [initRootSegment] and [load] for a root segment and the stored blocks; the
    median of the block sizes is taken before the root segment changes. *)
Definition load (p : P) (stored : list RawBlock) (root : segment) : checked Core :=
  let core s := {| chainsStorage := {[ 0%nat := {| seg := s; parent := None; children := [] |} ]};
                   chainsLeaves := [0%nat]; mainChainSet := {[ 0%nat ]};
                   pool := {| transactionPool := p; recentlyDeletedTransactions := ∅;
                              timeout := m_mempoolTxLiveTime (currency E) |};
                   mainChainStorage := stored; blockMedianSize := 0 |} in
  s ← load_root E stored root;
  mret {| chainsStorage := chainsStorage (core s); chainsLeaves := chainsLeaves (core s);
          mainChainSet := mainChainSet (core s); pool := pool (core s); mainChainStorage := stored;
          blockMedianSize := blockMedianSize (updateBlockMedianSize E (core root)) |}.

(** The transactions of a submitted block come from the pool. *)
Fixpoint collect_transactions (hs : list Hash) k : option (list bytes) :=
  match hs with
  | [] => Some []
  | h :: hs =>
      t ← ip_get h (transactionPool (pool k));
      ts ← collect_transactions hs k;
      Some (getTransactionBinaryArray t :: ts)
  end.

Definition submitBlock (now : Z) (rawBlockTemplate : bytes) k : checked AddBlockErrorCode * Core :=
  match fromBinaryArray (serialize_BlockTemplate (cn_fast_hash E)) rawBlockTemplate with
  | None => (inr DESERIALIZATION_FAILED, k)
  | Some blockTemplate =>
      match collect_transactions (transactionHashes blockTemplate) k with
      | None => (inr TRANSACTION_ABSENT_IN_POOL, k)
      | Some ts =>
          match CachedBlock_new E blockTemplate with
          | None => (inr Exception, k)
          | Some b => addBlock E hash_order now b {| rb_block := rawBlockTemplate; rb_transactions := ts |} k
          end
      end
  end.

(** [IBlockchainCache::deleteChild] *)
Definition deleteChild (child : nat) (n : node) : node :=
  match list_find (fun x => x = child) (children n) with
  | Some (i, _) => set_children (take i (children n) ++ drop (S i) (children n)) n
  | None => n
  end.

(** [None] where a pointer is null. *)
Definition deleteLeaf (leafIndex : nat) k : option Core :=
  leaf ← chainsLeaves k !! leafIndex;
  n ← chainsStorage k !! leaf;
  let t := match parent n with Some p => alter (deleteChild leaf) p (chainsStorage k) | None => chainsStorage k end in
  leaves ← (if negb (leafIndex =? 0)%nat then
              p ← parent n;
              np ← t !! p;
              let leaves := if (getChildCount np =? 0)%nat then chainsLeaves k ++ [p] else chainsLeaves k in
              Some (delete leafIndex leaves)
            else
              match parent n with
              | Some p => Some (<[0%nat := p]> (chainsLeaves k))
              | None => Some (tail (chainsLeaves k))
              end);
  Some (set_leaves leaves (set_tree (delete leaf t) k)).

(** Every step removes a segment. *)
Fixpoint delete_loop (fuel : nat) k : option Core :=
  match fuel with
  | O => None
  | S fuel => if (1 <? length (chainsLeaves k))%nat then k ← deleteLeaf 1 k; delete_loop fuel k else Some k
  end.
Definition deleteAlternativeChains k : option Core := delete_loop (S (size (chainsStorage k))) k.

(** One round of [transactionPoolCleaningProcedure]. *)
Definition pool_cleaning {json : Type} (json_parse : bytes -> option json) (json_at_t : json -> option Z) (now : Z) k
    : option Core :=
  '(_, p) ← clean json_parse json_at_t now (core_getTopBlockIndex k) (pool k);
  Some (core_set_pool p k).
End Running.

(** ** The genesis chain *)

Section Genesis.
Variable E : Environment.

Lemma generateGenesisBlock_coinbase c b : generateGenesisBlock c = Some b -> baseTransaction b = genesis_coinbase.
Proof.
  unfold generateGenesisBlock. intros H. apply bind_Some in H as (blob & Hb & H). apply bind_Some in H as (tx & Htx & H).
  injection H as <-. vm_compute in Hb. injection Hb as <-. vm_compute in Htx. injection Htx as <-. reflexivity.
Qed.

Lemma new_segment_root_wf : chain_wf [new_segment 0].
Proof. split; [|done]. by split. Qed.

Lemma root_wf s : createRootBlockchainCache E = Some s ->
  chain_wf [s] /\ exists info, blockInfos s = [info] /\ 0 <= cumulativeDifficulty info.
Proof.
  unfold createRootBlockchainCache. intros H. apply bind_Some in H as (g & Hg & H).
  apply bind_Some in H as (b & Hb & H). apply bind_Some in H as (cb & _ & H). apply bind_Some in H as (blk & _ & H).
  apply bind_Some in H as (c & Hp & Hc). apply generateGenesisBlock_coinbase in Hg.
  assert (getBlock b = g) as Eb.
  { unfold CachedBlock_new in Hb. destruct (Block.getBlockHash _ g); [|done]. by injection Hb as <-. }
  destruct (CachedTransaction_object (baseTransaction (getBlock b))) as [base|] eqn:Ebase.
  2: { unfold doPushBlock in Hp. rewrite Ebase in Hp. by destruct (previous_totals _ _) as [[[]]|]. }
  destruct (push_block_exists (cn_fast_hash E) (new_segment 0) [] b base [] {| Pool.spentKeyImages := ∅ |}
    (Z.of_nat (length cb)) (fold_left (fun r o => u64 (r + to_amount o)) (outputs (baseTransaction g)) 0) 1
    {| rb_block := blk; rb_transactions := [] |} new_segment_root_wf) as (s' & Hp' & Hwf & Hbl & _).
  - unfold cb_index. rewrite Eb. unfold getBlockIndex. by rewrite Hg.
  - done.
  - done.
  - done.
  - intros a. replace (chain_outputs a [new_segment 0]) with (@nil PackedOutIndex) by done.
    rewrite Eb, Hg in Ebase. unfold CachedTransaction_object in Ebase. vm_compute in Ebase. injection Ebase as <-.
    by vm_compute.
  - rewrite Hp' in Hp. injection Hp as <-. injection Hc as <-. split; [done|]. eexists. split; [exact Hbl|].
    cbn. apply u64_nonneg.
Qed.
End Genesis.

(** ** Deleting a leaf *)

Lemma deleteChild_children c n : NoDup (children n) ->
  NoDup (children (deleteChild c n)) /\ forall x, x ∈ children (deleteChild c n) <-> x ∈ children n /\ x <> c.
Proof.
  intros Hnd. unfold deleteChild. destruct (list_find _ (children n)) as [[i y]|] eqn:Ef.
  - apply list_find_Some in Ef as (Hi & -> & _). cbn [children set_children].
    rewrite <- (take_drop_middle _ _ _ Hi) in Hnd. pose proof Hnd as Hp. rewrite <- Permutation_middle in Hp.
    apply NoDup_cons in Hp as [Hc Hp]. split; [done|]. intros x. rewrite <- (take_drop_middle _ _ _ Hi) at 3.
    rewrite <- Permutation_middle, elem_of_cons. split; [intros Hx; split; [by right|by intros ->]|].
    by intros [[->|Hx] Hne].
  - split; [done|]. intros x. apply list_find_None in Ef. rewrite Forall_forall in Ef. split; [|tauto].
    intros Hx. split; [done|]. intros ->. by apply (Ef c Hx).
Qed.

Section DeleteLeaf.
Variables (t : tree) (leaf p : nat) (n np : node).
Hypothesis Hwf : tree_wf t.
Hypothesis Hn : t !! leaf = Some n.
Hypothesis Hleaf : children n = [].
Hypothesis Hp : parent n = Some p.
Hypothesis Hnp : t !! p = Some np.

Let t' := delete leaf (alter (deleteChild leaf) p t).

Lemma removed_lookup x : x <> leaf -> t' !! x = if decide (x = p) then Some (deleteChild leaf np) else t !! x.
Proof using Hnp.
  intros Hx. unfold t'. rewrite lookup_delete_ne by done. case_decide as Hxp.
  - subst x. by rewrite lookup_alter_eq, Hnp.
  - by rewrite lookup_alter_ne.
Qed.

Lemma removed_inv x m' : t' !! x = Some m' ->
  x <> leaf /\ exists m, t !! x = Some m /\ seg m' = seg m /\ parent m' = parent m /\
    children m' = if decide (x = p) then children (deleteChild leaf m) else children m.
Proof using Hnp.
  intros Hx. destruct (decide (x = leaf)) as [->|Hne]; [by unfold t' in Hx; rewrite lookup_delete_eq in Hx|].
  split; [done|]. rewrite removed_lookup in Hx by done. case_decide as Hxp; [|by exists m'].
  subst x. injection Hx as <-. exists np. unfold deleteChild. by destruct (list_find _ _) as [[]|].
Qed.

Lemma removed_keeps x m : t !! x = Some m -> x <> leaf ->
  exists m', t' !! x = Some m' /\ seg m' = seg m /\ parent m' = parent m.
Proof using Hnp.
  intros Hx Hne. rewrite removed_lookup by done. case_decide as Hxp; [|by exists m]. subst x.
  simplify_eq. eexists. split; [reflexivity|]. unfold deleteChild. by destruct (list_find _ _) as [[]|].
Qed.

Lemma removed_path j l : is_path t j l -> j <> leaf -> is_path t' j l /\ segs t' l = segs t l.
Proof using Hwf Hn Hleaf Hnp.
  intros Hl Hj. assert (forall x, x ∈ l -> exists m m', t !! x = Some m /\ t' !! x = Some m' /\ seg m' = seg m /\ parent m' = parent m) as Hx.
  { intros x Hx. destruct (is_path_dom t j l Hl x Hx) as [m Hm]. exists m.
    destruct (removed_keeps x m Hm) as (m' & ? & ? & ?); [|by eauto].
    intros ->. by apply (leaf_not_on_path t leaf n j l Hwf Hn Hleaf Hl Hj). }
  split; [eapply is_path_parents; [exact Hl|]|apply segs_ext]; intros x Hin;
    destruct (Hx x Hin) as (m & m' & -> & -> & Es & Ep); cbn; congruence.
Qed.

Lemma removed_chain j m : t !! j = Some m -> j <> leaf -> path t' j = path t j /\ chain_of t' j = chain_of t j.
Proof using Hwf Hn Hleaf Hnp.
  intros Hm Hj. destruct (tw_path t Hwf j m Hm) as (l & Hl & _). destruct (removed_path j l Hl Hj) as [Hl' Es].
  by rewrite (path_is t j l Hl), (path_is t' j l Hl'), (chain_of_path t j l Hl), (chain_of_path t' j l Hl').
Qed.

Lemma removed_wf : tree_wf t'.
Proof using Hwf Hn Hleaf Hp Hnp.
  split.
  - intros j m' Hj. destruct (removed_inv j m' Hj) as (Hne & m & Hm & _). destruct (tw_path t Hwf j m Hm) as (l & Hl & Hc).
    destruct (removed_path j l Hl Hne) as [Hl' Es]. exists l. by rewrite Es.
  - intros j m' Hj. destruct (removed_inv j m' Hj) as (Hne & m & Hm & -> & _). by apply (tw_nonempty t Hwf j).
  - intros j m' Hj. destruct (removed_inv j m' Hj) as (Hne & m & Hm & _ & _ & ->). pose proof (tw_NoDup t Hwf j m Hm).
    case_decide; [by apply deleteChild_children|done].
  - intros j m' c Hj. destruct (removed_inv j m' Hj) as (Hne & m & Hm & _ & _ & ->).
    assert (c ∈ (if decide (j = p) then children (deleteChild leaf m) else children m) <-> c ∈ children m /\ c <> leaf) as ->.
    { case_decide as Hjp; [by apply (deleteChild_children leaf m (tw_NoDup t Hwf j m Hm))|]. split; [|tauto].
      intros Hc. split; [done|]. intros ->. apply (tw_children t Hwf j m leaf Hm) in Hc as (? & ? & ?). congruence. }
    rewrite (tw_children t Hwf j m c Hm). split.
    + intros [(q & Hq & Hpq) Hcl]. destruct (removed_keeps c q Hq Hcl) as (q' & Hq' & _ & Ep). exists q'. split; [done|congruence].
    + intros (q' & Hq' & Hpq). destruct (removed_inv c q' Hq') as (Hcl & q & Hq & _ & Ep & _). split; [|done].
      exists q. split; [done|congruence].
Qed.

Lemma removed_one_root : one_root t -> one_root t'.
Proof using Hnp.
  intros Ht. apply (one_root_step t); [done|]. intros j m' Hj Hpj.
  destruct (removed_inv j m' Hj) as (_ & m & Hm & _ & Ep & _). exists m. split; [done|congruence].
Qed.

(** The parent may become a leaf. *)
Lemma removed_leaf j : (exists m', t' !! j = Some m' /\ children m' = []) <->
  j <> leaf /\ ((exists m, t !! j = Some m /\ children m = []) \/ j = p /\ children (deleteChild leaf np) = []).
Proof using Hwf Hn Hp Hnp.
  assert (leaf ∈ children np) as Hin by (apply (tw_children t Hwf p np leaf Hnp); eauto). split.
  - intros (m' & Hj & Hc). destruct (removed_inv j m' Hj) as (Hne & m & Hm & _ & _ & Ec). split; [done|].
    rewrite Hc in Ec. case_decide as Hjp; [|left; eauto]. subst j. simplify_eq. by right.
  - intros [Hne [(m & Hm & Hc)|[-> Hc]]].
    + exists m. split; [|done]. rewrite removed_lookup, decide_False; [done| |done].
      intros ->. simplify_eq. rewrite Hc in Hin. by apply elem_of_nil in Hin.
    + eexists. split; [|exact Hc]. by rewrite removed_lookup, decide_True.
Qed.
End DeleteLeaf.

Section Delete.
Variable E : Environment.
Context {P : Type} `{!ITransactionPool P}.
Abbreviation Core := (Core (P := P)).
Implicit Types k : Core.

(** A leaf other than the main one has a parent: only one node is a root. *)
Lemma other_leaf_parent k leaf n : core_wf E k -> leaf ∈ chainsLeaves k -> leaf <> main_leaf k ->
  chainsStorage k !! leaf = Some n -> exists p np, parent n = Some p /\ chainsStorage k !! p = Some np.
Proof.
  intros Hk Hl Hm Hn. pose proof Hk as [[Hwf Hlv _ Hroot _] _ _]. destruct (parent n) as [p|] eqn:Ep.
  { destruct (parent_exists _ leaf n p Hwf Hn Ep) as [np Hnp]. eauto. }
  exfalso. destruct (main_leaf_elem E k Hk) as (nm & Hnm & _). destruct (tw_path _ Hwf _ nm Hnm) as (l & Hpath & _).
  assert (leaf ∈ l) as Hin.
  { clear Hnm Hm. revert Hpath. generalize (main_leaf k). induction 1 as [j m Hj Hpj|j m q l Hj Hpj Hq IH].
    - rewrite (Hroot leaf j n m) by done. by constructor.
    - constructor. apply IH. }
  apply Hlv in Hl as (n' & Hn' & Hc). rewrite Hn in Hn'. injection Hn' as <-.
  apply (leaf_not_on_path _ leaf n (main_leaf k) l Hwf Hn Hc Hpath); [congruence|done].
Qed.

(** Removing one place of a list without repetitions. *)
Lemma delete_elem {A} (l : list A) i x : NoDup l -> l !! i = Some x -> forall y, y ∈ delete i l <-> y ∈ l /\ y <> x.
Proof.
  intros Hnd Hi y. rewrite <- (take_drop_middle l i x Hi) in Hnd |- * at 2. rewrite delete_take_drop.
  rewrite <- Permutation_middle in Hnd. apply NoDup_cons in Hnd as [Hx _].
  rewrite <- Permutation_middle, elem_of_cons. split; [intros Hy; split; [by right|by intros ->]|].
  by intros [[->|Hy] Hne].
Qed.

(** The leaves with the parent, when it becomes one. *)
Definition bared (leaf p : nat) (np : node) (leaves : list nat) : list nat :=
  if (getChildCount (deleteChild leaf np) =? 0)%nat then leaves ++ [p] else leaves.

Lemma bared_spec leaf p np leaves i : NoDup leaves -> p ∉ leaves -> leaves !! i = Some leaf -> (0 < i)%nat ->
  let l := delete i (bared leaf p np leaves) in
  NoDup l /\ head l = head leaves /\
  forall x, x ∈ l <-> x <> leaf /\ (x ∈ leaves \/ x = p /\ children (deleteChild leaf np) = []).
Proof.
  intros Hnd Hp Hi H0 l. pose proof (lookup_lt_Some _ _ _ Hi).
  assert (NoDup (bared leaf p np leaves) /\ bared leaf p np leaves !! i = Some leaf /\
    forall x, x ∈ bared leaf p np leaves <-> x ∈ leaves \/ x = p /\ children (deleteChild leaf np) = []) as (Hnd' & Hi' & Hel).
  { unfold bared. destruct (children (deleteChild leaf np)) eqn:Ec; cbn.
    - split; [apply NoDup_app; split; [done|split; [set_solver|apply NoDup_singleton]]|].
      split; [by rewrite lookup_app_l by lia|]. intros x. set_solver.
    - split; [done|]. split; [done|]. intros x. naive_solver. }
  split; [|split].
  - unfold l. rewrite delete_take_drop. rewrite <- (take_drop_middle _ _ _ Hi') in Hnd'.
    rewrite <- Permutation_middle in Hnd'. by apply NoDup_cons in Hnd' as [_ ?].
  - unfold l, bared. destruct i as [|i]; [lia|]. destruct leaves; [done|]. by destruct (_ =? _)%nat.
  - intros x. unfold l. rewrite (delete_elem _ i leaf Hnd' Hi' x), Hel. tauto.
Qed.

(** The core without the leaf. *)
Lemma removed_core_wf k leaf p n np leaves : core_wf E k -> leaf <> main_leaf k ->
  chainsStorage k !! leaf = Some n -> children n = [] -> parent n = Some p -> chainsStorage k !! p = Some np ->
  NoDup leaves -> head leaves = head (chainsLeaves k) ->
  (forall x, x ∈ leaves <-> x <> leaf /\ (x ∈ chainsLeaves k \/ x = p /\ children (deleteChild leaf np) = [])) ->
  let k' := set_leaves leaves (set_tree (delete leaf (alter (deleteChild leaf) p (chainsStorage k))) k) in
  core_wf E k' /\ main_blocks k' = main_blocks k.
Proof.
  intros Hk Hm Hn Hc Hp Hnp Hnd Hhd Hel k'. pose proof Hk as [[Hwf Hlv _ Hroot Hch] _ Hs].
  assert (main_leaf k' = main_leaf k) as Em by (unfold main_leaf; cbn; by rewrite Hhd).
  assert (forall id m, chainsStorage k !! id = Some m -> id <> leaf ->
    path (chainsStorage k') id = path (chainsStorage k) id /\ blocks (chainsStorage k') id = blocks (chainsStorage k) id) as Hsame.
  { intros id m Hid Hne. destruct (removed_chain _ leaf p n np Hwf Hn Hc Hnp id m Hid Hne) as [E1 E2].
    split; [exact E1|]. unfold blocks. by rewrite <- E2. }
  destruct (main_leaf_elem E k Hk) as (nm & Hnm & _).
  destruct (Hsame _ nm Hnm ltac:(congruence)) as [Epm Ebm].
  split; [|unfold main_blocks; by rewrite Em]. split; [split| |].
  - exact (removed_wf _ leaf p n np Hwf Hn Hc Hp Hnp).
  - intros id. change (chainsLeaves k') with leaves. rewrite Hel, Hlv. symmetry. exact (removed_leaf _ leaf p n np Hwf Hn Hp Hnp id).
  - done.
  - exact (removed_one_root _ leaf p np Hnp Hroot).
  - intros id m' Hid. destruct (removed_inv _ leaf p np Hnp id m' Hid) as (Hne & m & Hm' & _).
    rewrite (proj2 (Hsame id m Hm' Hne)). by eapply Hch.
  - apply heaviest_intro; change (chainsLeaves k') with leaves.
    + intros ->. destruct Hk as [_ (? & ? & El & _) _]. by rewrite El in Hhd.
    + change (default 0%nat (head leaves)) with (main_leaf k'). rewrite Em, Ebm.
      intros id [Hne [Hid|[-> _]]]%Hel.
      * pose proof Hid as (m & Hm' & _)%Hlv. rewrite (proj2 (Hsame id m Hm' Hne)). by apply (heaviest_main E).
      * rewrite (proj2 (Hsame p np Hnp Hne)). etrans; [|apply (heaviest_main E k leaf Hk); apply Hlv; eauto].
        specialize (Hch leaf n Hn). rewrite (blocks_cons _ leaf n Hwf Hn), Hp in *.
        apply (weight_mono (currency E)); [by eapply blocks_nonempty|apply Hch].
  - change (mainChainSet k') with (mainChainSet k). by rewrite Hs, Em, Epm.
Qed.

Lemma deleteLeaf_ok k i : core_wf E k -> (0 < i < length (chainsLeaves k))%nat ->
  exists k', deleteLeaf i k = Some k' /\ core_wf E k' /\ main_blocks k' = main_blocks k /\
    mainChainStorage k' = mainChainStorage k /\ (size (chainsStorage k') < size (chainsStorage k))%nat.
Proof.
  intros Hk Hi. pose proof Hk as [[Hwf Hlv Hnd Hroot Hch] (main & others & El & Hw) Hs].
  destruct (lookup_lt_is_Some_2 (chainsLeaves k) i) as [leaf Hleaf]; [lia|].
  assert (leaf ∈ chainsLeaves k) as Hin by (by eapply list_elem_of_lookup_2).
  pose proof Hin as (n & Hn & Hc)%Hlv. assert (main_leaf k = main) as Em by (unfold main_leaf; by rewrite El).
  assert (leaf <> main) as Hne.
  { intros ->. assert (chainsLeaves k !! 0%nat = Some main) as H0 by (by rewrite El).
    pose proof (NoDup_lookup _ _ _ _ Hnd Hleaf H0). lia. }
  destruct (other_leaf_parent k leaf n Hk Hin ltac:(congruence) Hn) as (p & np & Hp & Hnp).
  assert (p ∉ chainsLeaves k) as Hpl.
  { intros (np' & Hnp' & Hc')%Hlv. assert (leaf ∈ children np') as Hx
      by (apply (tw_children _ Hwf p np' leaf Hnp'); eauto). rewrite Hc' in Hx. by apply elem_of_nil in Hx. }
  destruct (bared_spec leaf p np (chainsLeaves k) i Hnd Hpl Hleaf ltac:(lia)) as (Hnd' & Hhd & Hel).
  set (leaves := delete i (bared leaf p np (chainsLeaves k))) in *.
  destruct (removed_core_wf k leaf p n np leaves Hk ltac:(congruence) Hn Hc Hp Hnp Hnd' Hhd Hel) as [Hk' Hmb].
  eexists. split; [|split; [exact Hk'|split; [exact Hmb|split; [done|]]]].
  - unfold deleteLeaf. rewrite Hleaf. cbn. rewrite Hn. cbn. rewrite Hp. destruct i as [|i]; [lia|]. cbn.
    rewrite lookup_alter_eq, Hnp. done.
  - cbn. rewrite <- !size_dom, dom_delete_L, dom_alter_L. apply subset_size.
    apply elem_of_dom_2 in Hn. set_solver.
Qed.

Lemma delete_loop_ok fuel k : core_wf E k -> (size (chainsStorage k) < fuel)%nat ->
  exists k', delete_loop fuel k = Some k' /\ core_wf E k' /\ main_blocks k' = main_blocks k /\
    mainChainStorage k' = mainChainStorage k /\ chainsLeaves k' = [main_leaf k'].
Proof.
  revert k. induction fuel as [|fuel IH]; intros k Hk Hf; [lia|]. cbn [delete_loop].
  destruct (Nat.ltb_spec 1 (length (chainsLeaves k))) as [Hl|Hl].
  - destruct (deleteLeaf_ok k 1 Hk ltac:(lia)) as (k1 & -> & Hk1 & Em & Es & Hsz). cbn [mbind option_bind].
    destruct (IH k1 Hk1 ltac:(lia)) as (k' & -> & Hk' & Em' & Es' & El). exists k'. rewrite <- Em, <- Es. done.
  - exists k. do 4 (split; [done|]). destruct Hk as [_ (main & others & El & _) _]. unfold main_leaf.
    rewrite El in *. cbn in Hl. by destruct others; [|cbn in Hl; lia].
Qed.
End Delete.

(** ** Reachable cores *)

Section Reachable.
Variable E : Environment.
Context {P : Type} `{!ITransactionPool P}.
Variable hash_order : list Hash -> list Hash.
Abbreviation Core := (Core (P := P)).

(** The steps of a core that was started with the genesis block only. *)
Inductive reachable : Core -> Prop :=
| reach_start root p raw k : createRootBlockchainCache E = Some root -> load E p [raw] root = inl k -> reachable k
| reach_block now b raw k : reachable k -> room E b raw k ->
    isInCheckpointZone (cb_index b) (checkpoints E) = false -> reachable (snd (addBlock E hash_order now b raw k))
| reach_transaction now tx k : reachable k -> reachable (snd (addRawTransactionToPool E now tx k))
| reach_cleaning {json : Type} (json_parse : bytes -> option json) json_at_t now k k' : reachable k ->
    pool_cleaning json_parse json_at_t now k = Some k' -> reachable k'
| reach_delete k k' : reachable k -> deleteAlternativeChains k = Some k' -> reachable k'.

Lemma load_root_single raw root s : chain_wf [root] -> length (blockInfos root) = 1%nat ->
  load_root E [raw] root = inl s -> s = root.
Proof.
  intros [Hs _] Hl. pose proof (wf_start _ _ Hs) as Hst. change (height []) with 0 in Hst.
  assert (getTopBlockIndex root = 0) as Etop.
  { unfold getTopBlockIndex. destruct (blockInfos root) as [|x l]; [done|].
    rewrite Hl, Hst. done. }
  unfold load_root. rewrite Etop. change (u32 (0 + 1)) with 1. change (u32 (Z.of_nat (length [raw]))) with 1.
  cbn [Z.ltb Z.compare Pos.compare Pos.compare_cont]. intros (h & _ & H)%option_bind_inl. revert H.
  destruct (bool_decide _); [by intros [= <-]|]. unfold importBlocksFromStorage, findCommonRoot. rewrite Hl.
  change (Z.min _ _) with 0. cbn [common_loop Z.to_nat Z.eqb of_option mbind checked_bind].
  intros (prev & _ & H)%option_bind_inl. revert H. unfold cutSegment. rewrite Etop. cbn. by intros [= <-].
Qed.

Lemma start_wf (p : P) raw root (k : Core) : createRootBlockchainCache E = Some root -> load E p [raw] root = inl k -> core_wf E k.
Proof.
  intros Hr Hl. destruct (root_wf E root Hr) as (Hwf & info & Hinfo & H0).
  apply checked_bind_inl in Hl as (s & Hs & [= <-]).
  apply load_root_single in Hs as ->; [|done|by rewrite Hinfo].
  assert (forall id n, ({[0%nat := {| seg := root; parent := None; children := [] |}]} : tree) !! id = Some n ->
    id = 0%nat /\ n = {| seg := root; parent := None; children := [] |}) as Hlook.
  { intros id n Hn. by apply lookup_singleton_Some in Hn as [<- <-]. }
  assert (is_path {[0%nat := {| seg := root; parent := None; children := [] |}]} 0 [0%nat]) as Hpath
    by (eapply path_root; [apply lookup_singleton_eq|done]).
  split; [split|..]; cbn.
  - split; intros id n.
    + intros [-> ->]%Hlook. exists [0%nat]. by split.
    + intros [-> ->]%Hlook. cbn. by rewrite Hinfo.
    + intros [-> ->]%Hlook. constructor.
    + intros c [-> ->]%Hlook. cbn. rewrite elem_of_nil. split; [done|]. by intros (m & [-> ->]%Hlook & ?).
  - intros id. rewrite list_elem_of_singleton. split; [intros ->; by eexists|]. by intros (n & [-> _]%Hlook & _).
  - apply NoDup_singleton.
  - intros i j ni nj [-> _]%Hlook [-> _]%Hlook. done.
  - intros id n [-> ->]%Hlook. unfold blocks. rewrite (chain_of_path _ _ _ Hpath).
    rewrite (segs_cons _ _ _ _ (lookup_singleton_eq _ _)). cbn [seg chain_blocks segs omap list_omap app]. rewrite Hinfo. split.
    + intros j x Hx. by destruct j.
    + apply NoDup_singleton.
    + by apply Forall_singleton.
  - apply heaviest_intro; [done|]. cbn. by intros id ->%list_elem_of_singleton.
  - unfold main_leaf. cbn. rewrite (path_is _ _ _ Hpath). cbn. by rewrite union_empty_r_L.
Qed.

(** C9. Every core that is reached from the genesis block by adding blocks,
    adding transactions, cleaning the pool and deleting the alternative chains
    is consistent. *)
Theorem reachable_wf k : reachable k -> core_wf E k.
Proof.
  induction 1 as [root p raw k Hr Hl|now b raw k _ IH Hroom Hz|now tx k _ IH|json jp ja now k k' _ IH Hc|k k' _ IH Hd].
  - by eapply start_wf.
  - pose proof (addBlock_ok E hash_order now b raw k IH Hroom Hz) as H.
    destruct (addBlock _ _ _ _ _ _). apply H.
  - eapply same_tree_wf; [apply add_raw_same|done].
  - apply bind_Some in Hc as ([? p] & _ & [= <-]). by apply (same_tree_wf E k).
  - destruct (delete_loop_ok E (S (size (chainsStorage k))) k IH ltac:(lia)) as (k1 & Hk1 & Hwf & _).
    unfold deleteAlternativeChains in Hd. congruence.
Qed.
End Reachable.

(** ** Importing the blocks of a chain *)

Lemma getTransactionFee_keys tx : Forall (fun i => exists k, i = InKey k) (inputs tx) ->
  getTransactionFee tx = u64 (sumZ (map input_amount (inputs tx)) - sumZ (map to_amount (outputs tx))).
Proof.
  intros Hk. unfold getTransactionFee. rewrite getOutputAmount_sum. set (o := sumZ (map to_amount (outputs tx))).
  rewrite <- (Z.add_0_l (sumZ (map input_amount (inputs tx)))). generalize 0 at 2 3.
  induction Hk as [|i ins [k ->] _ IH]; intros z.
  - change (sumZ (map input_amount [])) with 0. rewrite Z.add_0_r. apply wrap_sub_r. lia.
  - rewrite IH. cbn [map input_amount]. change (sumZ (ki_amount k :: ?l)) with (ki_amount k + sumZ l).
    rewrite <- !Z.add_sub_assoc, wrap_add_l by lia. f_equal. lia.
Qed.

Section Replay.
Variable E : Environment.
Abbreviation cur := (currency E).
Abbreviation check_transactions now := (validate_transactions (check_key E) (in_prime_subgroup E) (cn_fast_hash E)
  (checkRingSignature E) cur (checkpoints E) now).

(** What validation finds out is what the import computes. *)
Lemma validate_transactions_import now c i ts : Forall (fun t => is_Transaction (getTransaction t)) ts ->
  forall state fee fee' state', is_u64 fee -> check_transactions now ts state c i fee = inl (fee', state') ->
  fold_left (fun fee t => u64 (fee + getTransactionFee (getTransaction t))) ts fee = fee' /\
  fold_left (fun s t => mergeStates s (extractSpentOutputs t)) ts state = state'.
Proof.
  induction 1 as [|t ts Ht Hts IH]; intros state fee fee' state' Hfee; cbn [validate_transactions fold_left].
  - by intros [= <- <-].
  - intros ([f st1] & H1 & H2)%checked_bind_inl.
    apply validateTransaction_spec in H1 as (Hs & _ & Hst & _); [|done].
    apply validateSemantic_spec in Hs as (_ & _ & Hg & _ & Hlt & Hf & Hsum);
      [|by apply tx_input_amounts|by apply tx_output_amounts].
    assert (0 <= sumZ (map to_amount (outputs (getTransaction t)))) by by apply sumZ_nonneg, Forall_map, tx_output_amounts.
    rewrite getTransactionFee_keys, Hsum; [|eapply Forall_impl; [exact Hg|intros [b|k]; [done|by eexists]]].
    replace (_ + f - _) with f by lia. rewrite (wrap_small 64 f) by mlia.
    replace (mergeStates state (extractSpentOutputs t)) with st1; [apply IH; [apply wrap_fits; lia|done]|].
    destruct st1 as [s1]. cbn in Hst. unfold mergeStates. cbn. f_equal. rewrite Hst. apply union_comm_L.
Qed.

Abbreviation accept now := (acceptBlock (check_key E) (in_prime_subgroup E) (cn_fast_hash E) (checkRingSignature E)
  cur (checkpoints E) now (cn_slow_hash_v0 E) (cn_lite_slow_hash_v1 E) (cn_turtle_lite_slow_hash_v2 E) (genesisHash E)).

Definition raw_ok (raw : RawBlock) : Prop :=
  Forall (fun tx => is_bytes tx /\ Z.of_nat (length tx) < 2 ^ 64) (rb_transactions raw).

(** The import computes for a block what its acceptance did. *)
Lemma import_accepted now b raw s c i a : raw_ok raw ->
  segment_getBlockIndex (previousBlockHash (getBlock b)) s = Some (i - 1) ->
  accept now b raw (s :: c) = inl a -> import_block E b raw i (s :: c) = inl a.
Proof.
  intros Hraw Hi Ha. unfold acceptBlock in Ha. rewrite Hi in Ha.
  rewrite option_bind_inl in Ha. destruct Ha as ([ts size] & Hts & Ha). rewrite option_bind_inl in Ha.
  destruct Ha as (? & [= <-] & Ha). rewrite guard_bind_inl, checked_bind_inl in Ha. destruct Ha as (_ & mr & _ & Ha).
  rewrite option_bind_inl in Ha. destruct Ha as (d & Hd & Ha).
  rewrite guard_bind_inl, checked_bind_inl in Ha. destruct Ha as (_ & [] & _ & Ha).
  rewrite checked_bind_inl in Ha. destruct Ha as ([] & _ & Ha).
  rewrite checked_bind_inl in Ha. destruct Ha as ([fee st] & Hvt & Ha).
  rewrite option_bind_inl in Ha. destruct Ha as (coins & Hcoins & Ha).
  rewrite option_bind_inl in Ha. destruct Ha as ([reward change] & Hr & Ha).
  rewrite guard_bind_inl, checked_bind_inl in Ha. destruct Ha as (_ & [] & _ & [= <-]).
  pose proof Hts as [_ Hwf]%extractTransactions_spec; [|done].
  apply validate_transactions_import in Hvt as [Hfee Hst]; [|eapply Forall_impl; [exact Hwf|by intros t []]|mlia].
  unfold import_block, getEmissionChange, extractSpentOutputs_all. rewrite Hts. cbn [of_option mbind checked_bind].
  rewrite Hd. cbn [of_option mbind checked_bind]. rewrite Hfee, Hcoins. cbn [of_option mbind checked_bind].
  rewrite (Z.add_comm size). change addGenesisBlock with true in Hr. rewrite Hr. cbn [of_option mbind checked_bind mret checked_ret]. by rewrite Hst.
Qed.

Lemma push_outputs_keeps bi ti outs ps : forall n s, let s' := snd (push_outputs bi ti n outs ps s) in
  startIndex s' = startIndex s /\ blockInfos s' = blockInfos s.
Proof.
  induction outs as [|o outs IH]; intros n s; [done|]. cbn [push_outputs].
  destruct (insertKeyOutputToGlobalIndex _ _ _ _ _) as [g s1] eqn:E1. specialize (IH (S n) s1).
  destruct (push_outputs bi ti (S n) outs ps s1) as [gs s2]. cbn in IH |- *. injection E1 as _ <-. exact IH.
Qed.

Lemma push_transactions_keeps h bi ts ps : forall n s, let s' := push_transactions h ts bi n ps s in
  startIndex s' = startIndex s /\ blockInfos s' = blockInfos s.
Proof.
  induction ts as [|t ts IH]; intros n s; [done|]. cbn [push_transactions].
  destruct (IH (S n) (segment_pushTransaction h t bi (Z.of_nat n) ps s)) as [-> ->]. unfold segment_pushTransaction.
  pose proof (push_outputs_keeps bi (Z.of_nat n) (outputs (getTransaction t)) ps 0 s) as H.
  by destruct (push_outputs _ _ _ _ _ _).
Qed.

(** A block is appended to the top segment. *)
Lemma doPushBlock_shape h b txs st size coins d raw s c c' :
  doPushBlock h b txs st size coins d raw (s :: c) = Some c' ->
  exists s' info, c' = s' :: c /\ startIndex s' = startIndex s /\ blockInfos s' = blockInfos s ++ [info] /\
    blockHash info = getBlockHash b.
Proof.
  unfold doPushBlock. intros ([[x y] z] & _ & H)%bind_Some. apply bind_Some in H as (base & _ & H). apply (inj Some) in H as <-.
  match goal with |- context [push_transactions h ?ts ?bi 0 c ?s1] =>
    destruct (push_transactions_keeps h bi ts c 0 s1) as [E1 E2] end.
  eexists _, _. split; [reflexivity|]. cbn [startIndex blockInfos] in *. rewrite E1, E2. split; [done|].
  split; [reflexivity|done].
Qed.

(** The chain [c], whose next block is [i], grows on top of its last segment
    by the stored blocks. *)
Inductive grows : Z -> list segment -> list RawBlock -> list segment -> Prop :=
| grows_none i c : grows i c [] c
| grows_block now i s c raw b c1 raws c2 :
    restore_block E raw = inl b -> raw_ok raw ->
    segment_getBlockIndex (previousBlockHash (getBlock b)) s = Some (i - 1) ->
    addBlock_on_top (check_key E) (in_prime_subgroup E) (cn_fast_hash E) (checkRingSignature E) cur (checkpoints E) now
      (cn_slow_hash_v0 E) (cn_lite_slow_hash_v1 E) (cn_turtle_lite_slow_hash_v2 E) (genesisHash E) b raw (s :: c) = inl c1 ->
    grows (i + 1) c1 raws c2 -> grows i (s :: c) (raw :: raws) c2.

(** The segment ends with the block [i - 1], whose hash is [h]. *)
Definition ends_at (s : segment) (i : Z) (h : Hash) : Prop :=
  startIndex s + Z.of_nat (length (blockInfos s)) = i /\ 0 <= startIndex s /\ blockHash <$> last (blockInfos s) = Some h.

Lemma ends_at_previous s i h h' : ends_at s i h -> i < 2 ^ 32 -> segment_getBlockIndex h' s = Some (i - 1) -> h' = h.
Proof.
  intros (Hi & H0 & Hl) Hb ([j info] & Hf & [= E1])%bind_Some. apply list_find_Some in Hf as (Hj & <- & _).
  pose proof (lookup_lt_Some _ _ _ Hj). rewrite (wrap_small 32 (Z.of_nat j)) in E1 by mlia. rewrite wrap_small in E1 by mlia.
  rewrite last_lookup in Hl. replace (pred (length (blockInfos s))) with j in Hl by lia. rewrite Hj in Hl. by injection Hl.
Qed.

Lemma import_loop_replays i c raws c' : grows i c raws c' -> i + Z.of_nat (length raws) < 2 ^ 32 ->
  forall h, match c with s :: _ => ends_at s i h | [] => False end -> import_loop E raws i h c = inl c'.
Proof.
  induction 1 as [i c|now i s c raw b c1 raws c2 Hb Hraw Hi Hadd Hg IH]; intros Hlen h He; [done|].
  cbn [import_loop length] in *. rewrite Hb. cbn [mbind checked_bind]. rewrite (ends_at_previous s i h _ He ltac:(lia) Hi).
  rewrite bool_decide_true by done. cbn [guard_or mbind checked_bind].
  apply checked_bind_inl in Hadd as (a & Ha & Hp). apply of_option_inl in Hp.
  rewrite (import_accepted now b raw s c i a Hraw Hi Ha). cbn [mbind checked_bind]. rewrite Hp. cbn [of_option mbind checked_bind].
  apply IH; [lia|]. apply doPushBlock_shape in Hp as (s' & info & -> & Es & Eb & Eh). destruct He as (He & H0 & _).
  unfold ends_at. rewrite Es, Eb, length_app, last_snoc, <- Eh. cbn. split; [lia|done].
Qed.

(** ** The last common block *)

(** The stored block [i] is the block [i] of the root segment. *)
Definition agree (stored : list RawBlock) (root : segment) (i : Z) : Prop :=
  exists raw info, stored !! Z.to_nat i = Some raw /\ blockInfos root !! Z.to_nat i = Some info /\
    raw_hash E raw = Some (blockHash info).

Lemma agree_dec stored root i raw info : stored !! Z.to_nat i = Some raw -> blockInfos root !! Z.to_nat i = Some info ->
  agree stored root i <-> raw_hash E raw = Some (blockHash info).
Proof. intros H1 H2. split; [intros (? & ? & ? & ? & ?); congruence|]. intros. by exists raw, info. Qed.

Lemma common_loop_spec stored root : startIndex root = 0 -> Forall (fun raw => is_Some (raw_hash E raw)) stored ->
  (forall i j, 0 <= j <= i -> agree stored root i -> agree stored root j) ->
  forall fuel left right, 0 <= left <= right -> right < Z.of_nat (length stored) ->
  right < Z.of_nat (length (blockInfos root)) -> right < 2 ^ 32 -> right - left < Z.of_nat fuel ->
  agree stored root left -> (forall i, right < i -> ~ agree stored root i) ->
  exists r, common_loop E fuel stored root left right = Some r /\ left <= r <= right /\ agree stored root r /\
    forall i, r < i -> ~ agree stored root i.
Proof.
  intros Hst Hh Hdown. induction fuel as [|fuel IH]; intros left right Hlr Hr1 Hr2 Hr3 Hf Hl Hn; [lia|].
  cbn [common_loop]. destruct (Z.eqb_spec left right) as [->|Hne].
  { exists right. split; [done|]. split; [lia|]. by split. }
  pose proof (Z.div_lt_upper_bound (right - left) 2 (right - left) ltac:(lia) ltac:(lia)) as Hd.
  pose proof (Z.div_pos (right - left) 2 ltac:(lia) ltac:(lia)). rewrite wrap_small by mlia.
  set (m := left + (right - left) / 2 + 1) in *.
  destruct (lookup_lt_is_Some_2 stored (Z.to_nat m)) as [raw Hraw]; [lia|].
  destruct (lookup_lt_is_Some_2 (blockInfos root) (Z.to_nat m)) as [info Hinfo]; [lia|].
  destruct (Forall_lookup_1 _ _ _ _ Hh Hraw) as [h Hh']. rewrite Hraw. cbn [mbind option_bind]. rewrite Hh'.
  cbn [segment_getBlockHash]. rewrite Hst, (proj2 (Z.ltb_ge _ _)), Z.sub_0_r, Hinfo by lia.
  pose proof (agree_dec stored root m raw info Hraw Hinfo) as Ha. rewrite Hh' in Ha. cbn.
  destruct (bool_decide_reflect (h = blockHash info)) as [->|Hneq].
  - destruct (IH m right) as (r & Er & ? & ? & ?); try lia; [by apply Ha|done|]. exists r. split; [exact Er|]. split; [lia|done].
  - destruct (IH left (m - 1)) as (r & Er & ? & ? & ?); try lia; [done| |exists r; split; [exact Er|]; split; [lia|done]].
    intros i Hi Hag. apply Hneq. assert (agree stored root m) as Hm by (apply (Hdown i m); [lia|done]).
    apply Ha in Hm. by injection Hm.
Qed.
End Replay.

(** ** Theorems *)

(** The bisection of [findCommonRoot] ends and finds the last block that
    the stored chain and the root segment have in common, provided that they
    start together and every common block has common predecessors, as chained
    hashes give it. *)
Theorem findCommonRoot_last E stored root :
  startIndex root = 0 -> Forall (fun raw => is_Some (raw_hash E raw)) stored ->
  Z.of_nat (length stored) < 2 ^ 32 -> Z.of_nat (length (blockInfos root)) < 2 ^ 32 ->
  agree E stored root 0 -> (forall i j, 0 <= j <= i -> agree E stored root i -> agree E stored root j) ->
  exists r, findCommonRoot E stored root = Some r /\ 0 <= r /\ agree E stored root r /\
    forall i, r < i -> ~ agree E stored root i.
Proof.
  intros Hst Hh Hl1 Hl2 H0 Hdown. pose proof H0 as (raw & info & Hr%lookup_lt_Some & Hi%lookup_lt_Some & _).
  unfold findCommonRoot. rewrite !wrap_small by mlia. set (right := Z.min _ _).
  destruct (common_loop_spec E stored root Hst Hh Hdown (S (Z.to_nat right)) 0 right) as (r & Er & ? & ? & ?); try lia; [done| |].
  - intros i Hgt (raw' & info' & Hr'%lookup_lt_Some & Hi'%lookup_lt_Some & _). lia.
  - exists r. split; [exact Er|]. split; [lia|done].
Qed.

(** C10. A restart rebuilds the chain: when blocks were added one after another
    on top of the genesis block, loading the stored blocks gives back exactly
    the segment they had built, with all its indexes. *)
Theorem load_rebuilds E root info raw raws s :
  chain_wf [root] -> blockInfos root = [info] -> raw_hash E raw = Some (blockHash info) ->
  grows E 1 [root] raws [s] -> 1 + Z.of_nat (length raws) < 2 ^ 32 ->
  load_root E (raw :: raws) root = inl s.
Proof.
  intros [Hs _] Hinfo Hraw Hg Hlen. pose proof (wf_start _ _ Hs) as Hst. change (height []) with 0 in Hst.
  assert (getTopBlockIndex root = 0) as Etop by (unfold getTopBlockIndex; rewrite Hinfo, Hst; done).
  assert (ends_at root 1 (blockHash info)) as He by (unfold ends_at; rewrite Hinfo, Hst; done).
  pose proof (import_loop_replays E 1 [root] raws [s] Hg ltac:(lia) (blockHash info) He) as Himp.
  unfold load_root. rewrite Etop. change (u32 (0 + 1)) with 1. cbn [length]. rewrite wrap_small by mlia.
  destruct raws as [|raw1 raws].
  - inversion Hg; subst. change (Z.of_nat (S (length []))) with 1. change (1 <? 1) with false.
    change ([raw] !! Z.to_nat (1 - 1)) with (Some raw). cbn [mbind option_bind]. rewrite Hraw, Hinfo. cbn.
    by rewrite bool_decide_true.
  - rewrite (proj2 (Z.ltb_lt _ _)) by (cbn [length] in *; lia). unfold importBlocksFromStorage, findCommonRoot.
    rewrite Hinfo. replace (Z.min _ _) with 0; [|cbn [length] in *; rewrite !wrap_small by mlia; lia].
    change (common_loop E _ _ _ 0 0) with (Some 0). cbn [of_option mbind checked_bind].
    change ((raw :: raw1 :: raws) !! Z.to_nat 0) with (Some raw). cbn [mbind option_bind]. rewrite Hraw.
    assert (cutSegment root (0 + 1) = root) as -> by (unfold cutSegment; by rewrite Etop).
    change (import_loop E (raw1 :: raws) 1 (blockHash info) [root] ≫= (fun c => of_option (head c) Exception) = inl s).
    by rewrite Himp.
Qed.

(** Deleting the alternative chains, as [save] does, ends and leaves the
    main chain alone: its blocks and the storage stay what they were, and it is
    the only chain of a consistent core. *)
Theorem deleteAlternativeChains_keeps_main (E : Environment) {P : Type} (k : Core (P := P)) : core_wf E k ->
  exists k', deleteAlternativeChains k = Some k' /\ core_wf E k' /\ main_blocks k' = main_blocks k /\
    mainChainStorage k' = mainChainStorage k /\ chainsLeaves k' = [main_leaf k'].
Proof. intros Hk. apply delete_loop_ok; [done|lia]. Qed.

(** ** A run *)

#[local] Existing Instance run_pool.

Definition start_environment : Environment :=
  {| check_key := any_key; in_prime_subgroup := any_key; checkRingSignature := any_signature; cn_fast_hash := sum_key;
     cn_slow_hash_v0 := no_hash; cn_lite_slow_hash_v1 := no_hash; cn_turtle_lite_slow_hash_v2 := no_hash;
     currency := CurrencyBuilder; checkpoints := ∅; genesisHash := NULL_HASH |}.
Definition start_root : segment := default (new_segment 0) (createRootBlockchainCache start_environment).
Definition start_hash : Hash := default NULL_HASH (blockHash <$> last (blockInfos start_root)).
Definition start_raw : RawBlock := default (raw_at 0) (last (storage start_root)).

(** The block behind the genesis block. *)
Definition second_raw : RawBlock :=
  {| rb_block := default [] (toBinaryArray (serialize_BlockTemplate sum_key)
       {| header := {| majorVersion := 1; minorVersion := 0; nonce := 0; timestamp := 20; previousBlockHash := start_hash |};
          parentBlock := no_parent; baseTransaction := baseTransaction (getBlock (block_at 1 0 0)); transactionHashes := [] |});
     rb_transactions := [] |}.
Definition second_root : segment :=
  match import_loop start_environment [second_raw] 1 start_hash [start_root] with
  | inl [s] => s
  | _ => start_root
  end.

Lemma start_root_eq : createRootBlockchainCache start_environment = Some start_root.
Proof. vm_compute. reflexivity. Qed.

Lemma load_rebuilds_witness :
  load_root start_environment [start_raw; second_raw] start_root = inl second_root /\
  length (blockInfos second_root) = 2%nat.
Proof.
  split; [|vm_compute; reflexivity].
  destruct (root_wf start_environment start_root start_root_eq) as (Hwf & info & Hinfo & _).
  apply (load_rebuilds start_environment start_root info start_raw [second_raw] second_root Hwf Hinfo).
  - assert (info = default info (last (blockInfos start_root))) as -> by (by rewrite Hinfo).
    vm_compute. reflexivity.
  - eapply (grows_block start_environment 100); [vm_compute; reflexivity|constructor|vm_compute; reflexivity| |constructor].
    vm_compute. reflexivity.
  - done.
Defined.

Lemma reachable_wf_witness :
  exists k : Core (P := TransactionPool (C := list PendingTransactionInfo)),
    reachable start_environment id k /\ length (chainsLeaves k) = 1%nat /\ core_wf start_environment k.
Proof.
  destruct (load start_environment (transactionPool run_wrapper) [start_raw] start_root) as [k|e] eqn:Ek;
    [|vm_compute in Ek; discriminate].
  assert (reachable start_environment id k) as Hr by (by eapply reach_start; [apply start_root_eq|]).
  exists k. split; [exact Hr|]. split; [|exact (reachable_wf start_environment id k Hr)].
  vm_compute in Ek. injection Ek as <-. reflexivity.
Defined.

(** A branch that leaves the sample chain behind its second block. *)
Definition forked_core : Core (P := TransactionPool (C := list PendingTransactionInfo)) :=
  snd (addBlock sample_environment id 100 (block_at 2 2 22) (raw_at 22) sample_core).

Lemma deleteAlternativeChains_keeps_main_witness :
  length (chainsLeaves forked_core) = 2%nat /\
  exists k', deleteAlternativeChains forked_core = Some k' /\ core_wf sample_environment k' /\
    main_blocks k' = main_blocks forked_core /\ mainChainStorage k' = mainChainStorage forked_core /\
    chainsLeaves k' = [main_leaf k'].
Proof.
  split; [vm_compute; reflexivity|]. apply (deleteAlternativeChains_keeps_main sample_environment forked_core).
  pose proof (addBlock_ok sample_environment id 100 (block_at 2 2 22) (raw_at 22) sample_core sample_core_wf
    (sample_room (block_at 2 2 22) 22 (block_base 2 2 22) ltac:(vm_compute; reflexivity) ltac:(vm_compute; reflexivity)) eq_refl) as H. unfold forked_core.
  destruct (addBlock _ _ _ _ _ _) as [r k']. apply H.
Defined.

Definition with_hash (h : Hash) (i : CachedBlockInfo) : CachedBlockInfo :=
  {| blockHash := h; cbi_timestamp := cbi_timestamp i; cumulativeDifficulty := cumulativeDifficulty i;
     alreadyGeneratedCoins := alreadyGeneratedCoins i; alreadyGeneratedTransactions := alreadyGeneratedTransactions i;
     blockSize := blockSize i |}.
Definition diverged_root : segment :=
  {| startIndex := 0; transactions := []; spentKeyImages := ∅;
     blockInfos := blockInfos start_root ++ map (with_hash (replicate 32 1)) (blockInfos start_root);
     keyOutputsGlobalIndexes := ∅; paymentIds := []; storage := [] |}.

Lemma findCommonRoot_last_witness :
  exists r, findCommonRoot start_environment [start_raw; second_raw] diverged_root = Some r /\ 0 <= r /\
    agree start_environment [start_raw; second_raw] diverged_root r /\
    forall i, r < i -> ~ agree start_environment [start_raw; second_raw] diverged_root i.
Proof.
  assert (agree start_environment [start_raw; second_raw] diverged_root 0) as H0.
  { eexists _, _. split; [reflexivity|]. split; vm_compute; reflexivity. }
  apply (findCommonRoot_last start_environment [start_raw; second_raw] diverged_root); [reflexivity| |done..| |].
  - constructor; [|constructor; [|constructor]]; (eexists; vm_compute; reflexivity).
  - exact H0.
  - intros i j Hj (raw & info & Hr & Hi & Hh). destruct (decide (i = 0)) as [->|Hi0]; [by replace j with 0 by lia|].
    destruct (decide (i = 1)) as [->|Hi1].
    + vm_compute in Hr, Hi. injection Hr as <-. injection Hi as <-. vm_compute in Hh. discriminate.
    + apply lookup_lt_Some in Hr. cbn in Hr. lia.
Defined.
