(* ===== verification/CoreQueries.v ===== *)
(** * Queries of peers ([src/mevacoin_core/core.cpp])

    How two nodes find the last block they have in common, and what a node
    sends of its main chain: block hashes, raw blocks and blocks with the
    prefixes of their transactions. *)

From stdpp Require Import gmap fin_sets sorting.
From S2P Require Import Prelude Config Stream Serializer Transaction Block Cached Pool Currency PoolCleaner.
From S2P Require Import Segments ChainSpec Validation Core CoreSpec AddBlock.
Import BlockchainCache.

Record BlockFullInfo := { bfi_raw : RawBlock; block_id : Hash }.
Record TransactionPrefixInfo := { txHash : Hash; txPrefix : TransactionPrefix }.
Record BlockShortInfo := { blockId : Hash; bsi_block : bytes; txPrefixes : list TransactionPrefixInfo }.

Section Queries.
Variable cn_fast_hash : bytes -> Hash.
Context {P : Type}.
Abbreviation Core := (Core (P := P)).
Implicit Types k : Core.

(** ** The sparse chain *)

(** The loop over the powers of two.  It ends before they wrap around when the
    index has at most 31 bits; [None] is the loop that does not end, or a hash
    that is not there. *)
Fixpoint sparse_loop (fuel : nat) (i blockIndex : Z) (c : list segment) : option (list Hash) :=
  match fuel with
  | O => None
  | S fuel =>
      if i <? blockIndex then
        h ← segment_getBlockHash (blockIndex - i) c;
        rest ← sparse_loop fuel (u32 (i * 2)) blockIndex c;
        Some (h :: rest)
      else Some []
  end.

Definition doBuildSparseChain (h : Hash) k : option (list Hash) :=
  id ← findSegmentContainingBlock h k;
  n ← chainsStorage k !! id;
  blockIndex ← segment_getBlockIndex h (seg n);
  let chain := chain_of (chainsStorage k) id in
  rest ← sparse_loop 33 1 blockIndex chain;
  genesisBlockHash ← segment_getBlockHash 0 chain;
  Some (h :: rest ++ if bool_decide (h = genesisBlockHash) then [] else [genesisBlockHash]).

Definition core_getTopBlockHash k : option Hash :=
  match main_chain k with s :: _ => blockHash <$> last (blockInfos s) | [] => None end.
Definition buildSparseChain k : option (list Hash) := h ← core_getTopBlockHash k; doBuildSparseChain h k.

(** The index of the first hash that is in the main chain; [None] is the
    exception. *)
Fixpoint supplement_loop (remote : list Hash) k : option Z :=
  match remote with
  | [] => None
  | h :: remote =>
      match findMainChainSegmentContainingBlock h k with
      | Some id => n ← chainsStorage k !! id; segment_getBlockIndex h (seg n)
      | None => supplement_loop remote k
      end
  end.
Definition findBlockchainSupplement (remoteBlockIds : list Hash) k : option Z :=
  match remoteBlockIds with [] => Some 0 | _ => supplement_loop remoteBlockIds k end.

Definition checkBlockchainSupplement (remoteBlockIds : list Hash) k : bool :=
  existsb (fun h => bool_decide (is_Some (findMainChainSegmentContainingBlock h k))) remoteBlockIds.

Definition core_getBlockHashes (startBlockIndex maxCount : Z) k : list Hash :=
  getBlockHashes startBlockIndex (Z.to_nat maxCount) (main_chain k).

(** [(totalBlockCount, startBlockIndex, hashes)] *)
Definition findBlockchainSupplement_hashes (remoteBlockIds : list Hash) (maxCount : Z) k : option (Z * Z * list Hash) :=
  startBlockIndex ← findBlockchainSupplement remoteBlockIds k;
  Some (u32 (core_getTopBlockIndex k + 1), startBlockIndex, core_getBlockHashes startBlockIndex (u32 maxCount) k).

(** ** Blocks *)

(** The blocks from [maxIndex] down to [minChainIndex], and where the index
    stops. *)
Fixpoint push_down (fuel : nat) (minChainIndex maxIndex : Z) (c : list segment) (blocks : list RawBlock)
    : option (list RawBlock * Z) :=
  match fuel with
  | O => None
  | S fuel =>
      if minChainIndex <=? maxIndex then
        b ← getBlockByIndex maxIndex c;
        if maxIndex =? 0 then Some (blocks ++ [b], maxIndex)
        else push_down fuel minChainIndex (maxIndex - 1) c (blocks ++ [b])
      else Some (blocks, maxIndex)
  end.

Fixpoint get_blocks_loop (c : list segment) (minIndex maxIndex count : Z) (blocks : list RawBlock)
    : option (list RawBlock) :=
  match c with
  | [] => Some blocks
  | cache :: parents =>
      '(blocks, maxIndex) ←
        (if maxIndex <=? getTopBlockIndex cache
         then push_down (Z.to_nat maxIndex + 2) (Z.max minIndex (startIndex cache)) maxIndex c blocks
         else Some (blocks, maxIndex));
      if Z.of_nat (length blocks) =? count then Some blocks
      else get_blocks_loop parents minIndex maxIndex count blocks
  end.

Definition core_getBlocks (minIndex count : Z) k : option (list RawBlock) :=
  if 0 <? count then
    blocks ← get_blocks_loop (main_chain k) minIndex (Z.min (u32 (minIndex + count - 1)) (core_getTopBlockIndex k)) count [];
    Some (rev blocks)
  else Some [].

(** [(blocks, missedHashes)] *)
Fixpoint getBlocks_by_hash (blockHashes : list Hash) k : option (list RawBlock * list Hash) :=
  match blockHashes with
  | [] => Some ([], [])
  | h :: blockHashes =>
      match findSegmentContainingBlock h k with
      | None => '(found, missed) ← getBlocks_by_hash blockHashes k; Some (found, h :: missed)
      | Some id =>
          n ← chainsStorage k !! id;
          i ← segment_getBlockIndex h (seg n);
          b ← getBlockByIndex i (chain_of (chainsStorage k) id);
          '(found, missed) ← getBlocks_by_hash blockHashes k;
          Some (b :: found, missed)
      end
  end.

(** ** What is sent to a peer *)

Definition pushBlockHashes (startIndex fullOffset maxItemsCount : Z) k : list Hash :=
  let itemsCount := Z.min (u32 (fullOffset - startIndex)) (u32 maxItemsCount) in
  if itemsCount =? 0 then [] else core_getBlockHashes startIndex itemsCount k.

(** [findMainChainSegmentContainingBlock(uint32_t)] *)
Definition findMainChainSegment_index (blockIndex : Z) k : option nat :=
  find (fun id => match chainsStorage k !! id with
                  | Some n => (startIndex (seg n) <=? blockIndex)
                              && (blockIndex <? u32 (startIndex (seg n) + u32 (Z.of_nat (length (blockInfos (seg n))))))
                  | None => false
                  end) (path (chainsStorage k) (main_leaf k)).

(** The hash and the raw block at an index of the main chain; a null pointer or
    a missing block is [None]. *)
Definition main_block_at (blockIndex : Z) k : option (Hash * RawBlock) :=
  id ← findMainChainSegment_index blockIndex k;
  let c := chain_of (chainsStorage k) id in
  h ← segment_getBlockHash blockIndex c;
  raw ← getBlockByIndex blockIndex c;
  Some (h, raw).

Definition fillQueryBlockFullInfo (fullOffset currentIndex maxItemsCount : Z) k : option (list BlockFullInfo) :=
  let fullBlocksCount := Z.min (u32 maxItemsCount) (u32 (currentIndex - fullOffset)) in
  mapM (fun i => '(h, raw) ← main_block_at i k; Some {| bfi_raw := raw; block_id := h |})
    (indexes_from fullOffset (fullOffset + fullBlocksCount - 1)).

Definition prefix_info (rawTransaction : bytes) : option TransactionPrefixInfo :=
  transaction ← fromBinaryArray serialize_Transaction rawTransaction;
  Some {| txHash := cn_fast_hash rawTransaction; txPrefix := tx_prefix transaction |}.

Definition fillQueryBlockShortInfo (fullOffset currentIndex maxItemsCount : Z) k : option (list BlockShortInfo) :=
  let fullBlocksCount := Z.min (u32 maxItemsCount) (u32 (currentIndex - fullOffset + 1)) in
  mapM (fun i =>
    '(h, raw) ← main_block_at i k;
    prefixes ← mapM prefix_info (rb_transactions raw);
    Some {| blockId := h; bsi_block := rb_block raw; txPrefixes := prefixes |})
    (indexes_from fullOffset (fullOffset + fullBlocksCount - 1)).

(** [(startIndex, currentIndex, fullOffset, entries)]; [None] is [false]. *)
Definition queryBlocks (blockHashes : list Hash) (timestamp : Z) k : option (Z * Z * Z * list BlockFullInfo) :=
  let currentIndex := core_getTopBlockIndex k in
  startIndex ← findBlockchainSupplement blockHashes k;
  fullOffset ← getTimestampLowerBoundBlockIndex timestamp (main_chain k);
  let fullOffset := Z.max fullOffset startIndex in
  let hashes := pushBlockHashes startIndex fullOffset BLOCKS_IDS_SYNCHRONIZING_DEFAULT_COUNT k in
  let entries := map (fun h => {| bfi_raw := {| rb_block := []; rb_transactions := [] |}; block_id := h |}) hashes in
  if negb (startIndex + Z.of_nat (length hashes) =? fullOffset) then Some (startIndex, currentIndex, fullOffset, entries)
  else
    full ← fillQueryBlockFullInfo fullOffset currentIndex BLOCKS_SYNCHRONIZING_DEFAULT_COUNT k;
    Some (startIndex, currentIndex, fullOffset, entries ++ full).

(** The timestamp of a block that the caller knows by its index only. *)
Definition query_timestamp (startIndex t : Z) k : option Z :=
  if (0 <? startIndex) && (t =? 0) && (startIndex <=? core_getTopBlockIndex k) then
    raw ← getBlockByIndex startIndex (main_chain k);
    (fun block : BlockTemplate => timestamp block) <$>
      fromBinaryArray (serialize_BlockTemplate cn_fast_hash) (rb_block raw)
  else Some t.

Definition queryBlocksLite (knownBlockHashes : list Hash) (timestamp : Z) k : option (Z * Z * Z * list BlockShortInfo) :=
  let currentIndex := core_getTopBlockIndex k in
  startIndex ← findBlockchainSupplement knownBlockHashes k;
  timestamp ← query_timestamp startIndex timestamp k;
  fullOffset ← getTimestampLowerBoundBlockIndex timestamp (main_chain k);
  let fullOffset := Z.max fullOffset startIndex in
  let hashes := pushBlockHashes startIndex fullOffset BLOCKS_IDS_SYNCHRONIZING_DEFAULT_COUNT k in
  let entries := map (fun h => {| blockId := h; bsi_block := []; txPrefixes := [] |}) hashes in
  if negb (u32 (startIndex + u32 (Z.of_nat (length hashes))) =? fullOffset) then Some (startIndex, currentIndex, fullOffset, entries)
  else
    short ← fillQueryBlockShortInfo fullOffset currentIndex BLOCKS_SYNCHRONIZING_DEFAULT_COUNT k;
    Some (startIndex, currentIndex, fullOffset, entries ++ short).
End Queries.

(** ** Where a block is *)

Section Finding.
Variable E : Environment.
Context {P : Type}.
Abbreviation Core := (Core (P := P)).
Implicit Types k : Core.

(** The chain of a node of the path is the lower part of the chain. *)
Lemma path_prefix t id l x : tree_wf t -> is_path t id l -> x ∈ l ->
  is_Some (t !! x) /\ exists r, blocks t id = blocks t x ++ r.
Proof.
  intros Hwf. induction 1 as [id n Hn Hp|id n p l Hn Hp Hl IH]; intros Hx.
  - apply list_elem_of_singleton in Hx as ->. split; [by eexists|]. exists []. by rewrite app_nil_r.
  - apply elem_of_cons in Hx as [->|Hx]; [split; [by eexists|]; exists []; by rewrite app_nil_r|].
    destruct (IH Hx) as [Hs [r Er]]. split; [done|]. exists (r ++ blockInfos (seg n)).
    rewrite (blocks_cons t id n Hwf Hn), Hp, Er. by rewrite app_assoc.
Qed.

(** The place of a block in its segment and in the chain. *)
Lemma getBlockIndex_place t x n h i : tree_wf t -> t !! x = Some n -> segment_getBlockIndex h (seg n) = Some i ->
  0 <= i /\ hashes (blocks t x) !! Z.to_nat i = Some h.
Proof.
  intros Hwf Hn Hi. pose proof (chain_of_wf t x n Hwf Hn) as Hcw. pose proof (blocks_cons t x n Hwf Hn) as Eb.
  rewrite (chain_of_cons t x n Hwf Hn) in Hcw. destruct Hcw as [Hs _].
  destruct (getBlockIndex_range h _ _ i Hs Hi) as (Hr & info & Hinfo & <-). pose proof (wf_start _ _ Hs) as Hst.
  set (ps := match parent n with Some p => chain_of t p | None => [] end) in *.
  assert (match parent n with Some p => blocks t p | None => [] end = chain_blocks ps) as Eps
    by (unfold ps, blocks; by destruct (parent n)).
  pose proof (height_nonneg ps). unfold hashes. rewrite list_lookup_fmap, Eb, Eps. unfold height in *. split; [lia|].
  rewrite lookup_app_r by lia. replace (Z.to_nat i - _)%nat with (Z.to_nat (i - startIndex (seg n))) by lia.
  by rewrite Hinfo.
Qed.

Lemma hasBlock_index h s : hasBlock h s = true -> is_Some (segment_getBlockIndex h s).
Proof.
  intros (b & Hb & Hh)%existsb_exists. apply bool_decide_eq_true in Hh. unfold segment_getBlockIndex.
  destruct (list_find (fun b => blockHash b = h) (blockInfos s)) as [[i x]|] eqn:Ef; [by eexists|].
  apply list_find_None in Ef. rewrite Forall_forall in Ef. apply list_elem_of_In in Hb. by destruct (Ef b Hb).
Qed.

Lemma find_main k h id : core_wf E k -> findMainChainSegmentContainingBlock h k = Some id ->
  exists n i r, chainsStorage k !! id = Some n /\ segment_getBlockIndex h (seg n) = Some i /\ 0 <= i /\
    hashes (blocks (chainsStorage k) id) !! Z.to_nat i = Some h /\ main_blocks k = blocks (chainsStorage k) id ++ r.
Proof.
  intros Hk Hf. pose proof (fw_tree _ _ _ (cw_forest _ _ Hk)) as Hwf.
  destruct (findIndexInChain_some _ _ _ _ Hf) as (n & Hn & Hb). destruct (hasBlock_index h (seg n) Hb) as [i Hi].
  destruct (getBlockIndex_place _ id n h i Hwf Hn Hi) as [H0 Hp].
  destruct (main_leaf_elem E k Hk) as (nm & Hnm & _). destruct (tw_path _ Hwf _ nm Hnm) as (l & Hl & _).
  apply find_some in Hf as [Hin _]. rewrite (path_is _ _ _ Hl) in Hin. apply list_elem_of_In in Hin.
  destruct (path_prefix _ _ _ id Hwf Hl Hin) as [_ [r Er]]. by exists n, i, r.
Qed.

(** A block of the main chain is found at its place. *)
Lemma find_main_at k h i : core_wf E k -> hashes (main_blocks k) !! i = Some h ->
  exists id n, findMainChainSegmentContainingBlock h k = Some id /\ chainsStorage k !! id = Some n /\
    segment_getBlockIndex h (seg n) = Some (Z.of_nat i) /\ exists r, main_blocks k = blocks (chainsStorage k) id ++ r.
Proof.
  intros Hk Hi. pose proof Hk as [[Hwf _ _ _ Hch] _ _]. destruct (main_leaf_elem E k Hk) as (nm & Hnm & _).
  destruct (findMainChainSegmentContainingBlock h k) as [id|] eqn:Ef.
  - destruct (find_main k h id Hk Ef) as (n & j & r & Hn & Hj & H0 & Hp & Er). exists id, n.
    split; [done|]. split; [done|]. split; [|by exists r]. rewrite Hj. f_equal.
    assert (hashes (main_blocks k) !! Z.to_nat j = Some h) as Hp'.
    { rewrite Er. unfold hashes in *. rewrite map_app. by apply lookup_app_l_Some. }
    pose proof (co_unique _ _ (Hch _ nm Hnm)) as Hnd. fold (main_blocks k) in Hnd.
    pose proof (NoDup_lookup _ _ _ _ Hnd Hi Hp'). lia.
  - apply findIndexInChain_none in Ef; [|done|by eexists]. destruct Ef. by eapply list_elem_of_lookup_2.
Qed.

Lemma find_main_none k h : core_wf E k -> h ∉ hashes (main_blocks k) -> findMainChainSegmentContainingBlock h k = None.
Proof.
  intros Hk Hh. destruct (findMainChainSegmentContainingBlock h k) as [id|] eqn:Ef; [|done]. destruct Hh.
  destruct (find_main k h id Hk Ef) as (n & j & r & _ & _ & _ & Hp & Er). rewrite Er. unfold hashes in *.
  rewrite map_app. apply elem_of_app. left. by eapply list_elem_of_lookup_2.
Qed.
End Finding.

(** ** Finding a common block *)

Section Sparse.
Variable E : Environment.
Context {P : Type}.
Abbreviation Core := (Core (P := P)).
Implicit Types k : Core.

(** The first answer. *)
Fixpoint first_some {A B} (f : A -> option B) (l : list A) : option B :=
  match l with [] => None | a :: l => match f a with Some b => Some b | None => first_some f l end end.

(** The hashes behind the top are close enough to each other: some block at
    most twice as far away as the last common one is among them. *)
Lemma sparse_loop_close c H top : chain_wf c -> H = hashes (chain_blocks c) ->
  0 <= top < Z.of_nat (length H) -> top <= 2 ^ 31 -> forall fuel i, 1 <= i -> top <= i * 2 ^ Z.of_nat fuel ->
  exists rest, sparse_loop (S fuel) i top c = Some rest /\
  forall look m g, (forall p h, H !! Z.to_nat p = Some h -> 0 <= p -> look h = if p <=? m then Some p else None) ->
    0 <= m <= top -> i < 2 * (top - m) -> H !! 0%nat = Some g ->
    exists r, first_some look (rest ++ [g]) = Some r /\ 0 <= r <= m /\ top - r < 2 * (top - m).
Proof.
  intros Hwf EH Htop Hbig. induction fuel as [|fuel IH]; intros i Hi Hf.
  - change (2 ^ Z.of_nat 0) with 1 in Hf. exists []. cbn [sparse_loop]. rewrite (proj2 (Z.ltb_ge _ _)) by lia. split; [done|].
    intros look m g Hlook Hm Hlt Hg. exists 0. cbn. rewrite (Hlook 0 g) by (done || lia).
    rewrite (proj2 (Z.leb_le _ _)) by lia. split; [done|lia].
  - cbn [sparse_loop]. destruct (Z.ltb_spec i top) as [Hlt|Hge].
    + destruct (lookup_lt_is_Some_2 H (Z.to_nat (top - i))) as [h Hh]; [lia|].
      rewrite (getBlockHash_flat c (top - i)); [|exact Hwf|lia]. rewrite EH in Hh. unfold hashes in Hh. rewrite list_lookup_fmap in Hh.
      rewrite Hh. cbn [mbind option_bind]. rewrite wrap_small by mlia.
      destruct (IH (i * 2)) as (rest & Er & Hrest); [lia|rewrite Nat2Z.inj_succ, Z.pow_succ_r in Hf; lia|].
      cbn [sparse_loop] in Er. rewrite Er. exists (h :: rest). split; [done|].
      intros look m g Hlook Hm Hd Hg. cbn [app first_some].
      rewrite (Hlook (top - i) h) by (try lia; rewrite EH; unfold hashes; by rewrite list_lookup_fmap).
      destruct (Z.leb_spec (top - i) m); [exists (top - i); split; [done|lia]|]. apply Hrest; [done|lia|lia|done].
    + exists []. split; [done|]. intros look m g Hlook Hm Hd Hg. exists 0. cbn. rewrite (Hlook 0 g) by (done || lia).
      rewrite (proj2 (Z.leb_le _ _)) by lia. split; [done|lia].
Qed.

(** What the other node answers to one hash. *)
Definition look k (h : Hash) : option Z :=
  id ← findMainChainSegmentContainingBlock h k; n ← chainsStorage k !! id; segment_getBlockIndex h (seg n).

Lemma supplement_first k l : core_wf E k -> supplement_loop l k = first_some (look k) l.
Proof.
  intros Hk. induction l as [|h l IH]; [done|]. cbn [supplement_loop first_some]. unfold look at 1.
  destruct (findMainChainSegmentContainingBlock h k) as [id|] eqn:Ef; [|done]. cbn.
  destruct (find_main E k h id Hk Ef) as (n & i & r & Hn & Hi & _). rewrite Hn. cbn. by rewrite Hi.
Qed.

Lemma look_at k h i : core_wf E k -> hashes (main_blocks k) !! i = Some h -> look k h = Some (Z.of_nat i).
Proof.
  intros Hk Hi. destruct (find_main_at E k h i Hk Hi) as (id & n & Hf & Hn & Hx & _). unfold look. rewrite Hf. cbn.
  by rewrite Hn.
Qed.

Lemma core_getTopBlockHash_last k : core_wf E k -> core_getTopBlockHash k = last (hashes (main_blocks k)).
Proof.
  intros Hk. pose proof (fw_tree _ _ _ (cw_forest _ _ Hk)) as Hwf. destruct (main_leaf_elem E k Hk) as (n & Hn & _).
  pose proof (tw_nonempty _ Hwf _ _ Hn) as Hne. unfold core_getTopBlockHash, main_chain, main_blocks, hashes.
  rewrite (blocks_cons _ _ n Hwf Hn), (chain_of_cons _ _ n Hwf Hn), map_app.
  destruct (exists_last Hne) as (l & b & Eb). rewrite Eb, map_app, app_assoc. cbn [map]. by rewrite !last_snoc.
Qed.

(** The sparse chain of a node: its top hash, the hashes behind it, and the
    genesis hash. *)
Lemma buildSparseChain_top k top h g : core_wf E k -> Z.of_nat (length (main_blocks k)) = top + 1 ->
  hashes (main_blocks k) !! Z.to_nat top = Some h -> hashes (main_blocks k) !! 0%nat = Some g ->
  exists c, chain_wf c /\ chain_blocks c = main_blocks k /\
    buildSparseChain k = (rest ← sparse_loop 33 1 top c; Some (h :: rest ++ if bool_decide (h = g) then [] else [g])).
Proof.
  intros Hk Hlen Hh Hg. pose proof (fw_tree _ _ _ (cw_forest _ _ Hk)) as Hwf.
  destruct (find_main_at E k h (Z.to_nat top) Hk Hh) as (id & n & Hf & Hn & Hi & r & Er).
  destruct (getBlockIndex_place _ _ _ _ _ Hwf Hn Hi) as [_ Hp]. rewrite Nat2Z.id in Hp.
  assert (r = []) as ->.
  { apply lookup_lt_Some in Hp. unfold hashes in Hp. rewrite length_map in Hp. apply (f_equal length) in Er.
    rewrite length_app in Er. destruct r; [done|]. cbn in Er. lia. }
  rewrite app_nil_r in Er. pose proof (chain_of_wf _ _ _ Hwf Hn) as Hcw.
  exists (chain_of (chainsStorage k) id). split; [done|]. split; [done|].
  unfold buildSparseChain. rewrite (core_getTopBlockHash_last k Hk), last_lookup.
  replace (Nat.pred (length (hashes (main_blocks k)))) with (Z.to_nat top) by (unfold hashes; rewrite length_map; lia).
  rewrite Hh. cbn [mbind option_bind]. unfold doBuildSparseChain, findSegmentContainingBlock.
  rewrite Hf. cbn [mbind option_bind]. rewrite Hn. cbn [mbind option_bind]. rewrite Hi. cbn [mbind option_bind].
  apply lookup_lt_Some in Hg as H0. unfold hashes in H0. rewrite length_map in H0.
  replace (Z.of_nat (Z.to_nat top)) with top by lia. destruct (sparse_loop 33 1 top _) as [rest|]; [|done].
  cbn [mbind option_bind]. rewrite getBlockHash_flat by (done || lia).
  unfold hashes in Hg. rewrite list_lookup_fmap, Er in Hg. unfold blocks in Hg. change (Z.to_nat 0) with 0%nat. by rewrite Hg.
Qed.

Lemma main_NoDup k : core_wf E k -> NoDup (hashes (main_blocks k)).
Proof.
  intros Hk. destruct (main_leaf_elem E k Hk) as (n & Hn & _). apply co_unique with (cur := currency E).
  by apply (fw_chains _ _ _ (cw_forest _ _ Hk) _ n).
Qed.

(** A node answers for the common blocks, and only for them. *)
Lemma look_common (sender receiver : Core) common mine theirs : core_wf E sender -> core_wf E receiver ->
  hashes (main_blocks sender) = common ++ mine -> hashes (main_blocks receiver) = common ++ theirs ->
  (forall h, h ∈ mine -> h ∉ theirs) ->
  forall p h, hashes (main_blocks sender) !! Z.to_nat p = Some h -> 0 <= p ->
  look receiver h = if p <=? Z.of_nat (length common) - 1 then Some p else None.
Proof.
  intros Hs Hr Es Er Hdis p h Hp H0. pose proof (main_NoDup sender Hs) as Hnd. rewrite Es in Hp, Hnd.
  destruct (Z.leb_spec p (Z.of_nat (length common) - 1)).
  - rewrite lookup_app_l in Hp by lia. rewrite (look_at receiver h (Z.to_nat p) Hr); [f_equal; lia|].
    rewrite Er. by apply lookup_app_l_Some.
  - rewrite lookup_app_r in Hp by lia. apply list_elem_of_lookup_2 in Hp. unfold look.
    rewrite (find_main_none E receiver h Hr); [done|]. rewrite Er. apply NoDup_app in Hnd as (_ & Hnd & _).
    intros [Hc|Ht]%elem_of_app; [by apply (Hnd h)|by apply (Hdis h)].
Qed.

(** The hashes of a sparse chain are hashes of the chain. *)
Lemma sparse_loop_elems c top : chain_wf c -> forall fuel i rest, sparse_loop fuel i top c = Some rest -> 0 <= i ->
  (length rest <= fuel)%nat /\ Forall (fun h => h ∈ hashes (chain_blocks c)) rest.
Proof.
  intros Hwf. induction fuel as [|fuel IH]; intros i rest Hr Hi; [done|]. cbn [sparse_loop] in Hr.
  destruct (Z.ltb_spec i top) as [Hlt|]; [|injection Hr as <-; split; [cbn; lia|constructor]].
  rewrite (getBlockHash_flat c (top - i) Hwf ltac:(lia)) in Hr.
  destruct (chain_blocks c !! Z.to_nat (top - i)) as [b|] eqn:Eb; [|done]. cbn in Hr.
  destruct (sparse_loop fuel _ _ _) as [l|] eqn:El; [|done]. injection Hr as <-.
  destruct (IH _ l El) as [H1 H2]; [apply Z.mod_pos_bound; lia|].
  split; [cbn; lia|]. constructor; [|done]. apply list_elem_of_fmap. exists b. split; [done|]. by eapply list_elem_of_lookup_2.
Qed.

Lemma sparse_shape (H : list Hash) h g rest : h ∈ H -> g ∈ H ->
  (h = g -> rest = []) -> (length rest <= 33)%nat -> Forall (fun h => h ∈ H) rest ->
  let sparse := h :: rest ++ if bool_decide (h = g) then [] else [g] in
  last sparse = Some g /\ (length sparse <= 35)%nat /\ Forall (fun h => h ∈ H) sparse.
Proof.
  intros Hh Hg Hr Hl Hin sparse. subst sparse.
  case_bool_decide as Heq.
  - rewrite (Hr Heq). split_and!; [by rewrite Heq|cbn; lia|by repeat constructor].
  - rewrite app_comm_cons, last_snoc, length_app. split_and!; [done|cbn; lia|]. apply Forall_app. by repeat constructor.
Qed.

(** What a node sends as its sparse chain, and what the other finds in it. *)
Lemma supplement_near (sender receiver : Core) common mine theirs : core_wf E sender -> core_wf E receiver ->
  hashes (main_blocks sender) = common ++ mine -> hashes (main_blocks receiver) = common ++ theirs ->
  common <> [] -> (forall h, h ∈ mine -> h ∉ theirs) -> Z.of_nat (length (main_blocks sender)) <= 2 ^ 31 + 1 ->
  exists sparse start, buildSparseChain sender = Some sparse /\ findBlockchainSupplement sparse receiver = Some start /\
    0 <= start < Z.of_nat (length common) /\
    Z.of_nat (length (main_blocks sender)) - 1 - start <= 2 * Z.of_nat (length mine) /\
    last sparse = head common /\ (length sparse <= 35)%nat /\ Forall (fun h => h ∈ common ++ mine) sparse.
Proof.
  intros Hs Hr Es Er Hne Hdis Hlen. pose proof (main_NoDup sender Hs) as Hnd.
  pose proof (look_common sender receiver _ _ _ Hs Hr Es Er Hdis) as Hlook.
  set (H := hashes (main_blocks sender)) in *.
  assert (length H = length (main_blocks sender)) as El by (unfold H, hashes; apply length_map).
  assert (0 < length common)%nat as Hc by (destruct common; [done|cbn; lia]).
  assert (length H = length common + length mine)%nat as Ea by (by rewrite Es, length_app).
  destruct (lookup_lt_is_Some_2 H 0) as [g Hg]; [lia|].
  set (top := Z.of_nat (length (main_blocks sender)) - 1) in *.
  destruct (lookup_lt_is_Some_2 H (Z.to_nat top)) as [h Hh]; [lia|].
  destruct (buildSparseChain_top sender top h g Hs ltac:(lia) Hh Hg) as (c & Hcw & Ec & ->).
  destruct (sparse_loop_close c H top Hcw ltac:(unfold H; by rewrite Ec) ltac:(lia) ltac:(lia) 32 1) as (rest & Eloop & Hrest); [lia|lia|].
  destruct (sparse_loop_elems c top Hcw 33 1 rest Eloop ltac:(lia)) as [Hl33 Hin]. rewrite Ec in Hin. fold H in Hin.
  rewrite Eloop. cbn [mbind option_bind]. exists (h :: rest ++ if bool_decide (h = g) then [] else [g]).
  assert (head common = Some g) as Hgc by (destruct common; [done|]; rewrite Es in Hg; exact Hg).
  pose proof (sparse_shape H h g rest ltac:(by eapply list_elem_of_lookup_2) ltac:(by eapply list_elem_of_lookup_2)) as Hshape.
  specialize (Hshape ltac:(intros ->; pose proof (NoDup_lookup _ _ _ _ Hnd Hh Hg); replace top with 0 in Eloop by lia; by injection Eloop) Hl33 Hin).
  rewrite <- Hgc, Es in Hshape.
  unfold findBlockchainSupplement. rewrite (supplement_first receiver _ Hr).
  cbn [first_some]. rewrite (Hlook top h Hh) by lia. destruct (Z.leb_spec top (Z.of_nat (length common) - 1)).
  - exists top. split; [done|]. split; [done|]. split; [lia|]. split; [lia|]. exact Hshape.
  - rewrite bool_decide_eq_false_2 by (intros ->; pose proof (NoDup_lookup _ _ _ _ Hnd Hh Hg); lia).
    destruct (Hrest (look receiver) (Z.of_nat (length common) - 1) g Hlook ltac:(lia) ltac:(lia) Hg) as (r & -> & Hrr & Hd).
    exists r. split; [done|]. split; [done|]. split; [lia|]. split; [lia|].
    rewrite bool_decide_eq_false_2 in Hshape by (intros ->; pose proof (NoDup_lookup _ _ _ _ Hnd Hh Hg); lia). exact Hshape.
Qed.

(** C16. Two nodes that have a common beginning of their main chains find it:
    when one sends its sparse chain, the loop that builds it ends (up to height
    2^31), and the block from which the other continues is a common block that
    lies at most twice as far behind the sender's top as the place where the
    chains part. *)
Theorem supplement_close (sender receiver : Core) common mine theirs : core_wf E sender -> core_wf E receiver ->
  hashes (main_blocks sender) = common ++ mine -> hashes (main_blocks receiver) = common ++ theirs ->
  common <> [] -> (forall h, h ∈ mine -> h ∉ theirs) -> Z.of_nat (length (main_blocks sender)) <= 2 ^ 31 + 1 ->
  exists sparse start, buildSparseChain sender = Some sparse /\ findBlockchainSupplement sparse receiver = Some start /\
    0 <= start < Z.of_nat (length common) /\
    Z.of_nat (length (main_blocks sender)) - 1 - start <= 2 * Z.of_nat (length mine).
Proof.
  intros Hs Hr Es Er Hne Hdis Hlen.
  destruct (supplement_near sender receiver common mine theirs Hs Hr Es Er Hne Hdis Hlen) as (sparse & start & H1 & H2 & H3 & H4 & _).
  by exists sparse, start.
Qed.
End Sparse.

(** ** Blocks by index *)

(** The elements from the place [a] up to, but not including, [b]. *)
Definition slice {A} (l : list A) (a b : Z) : list A := take (Z.to_nat (b - a)) (drop (Z.to_nat a) l).

Lemma slice_nil {A} (l : list A) a b : b <= a -> slice l a b = [].
Proof. intros H. unfold slice. by replace (Z.to_nat (b - a)) with 0%nat by lia. Qed.
Lemma slice_length {A} (l : list A) a b : 0 <= a <= b -> b <= Z.of_nat (length l) -> Z.of_nat (length (slice l a b)) = b - a.
Proof. intros. unfold slice. rewrite length_take, length_drop. lia. Qed.
Lemma slice_split {A} (l : list A) a m b : 0 <= a <= m -> m <= b -> slice l a b = slice l a m ++ slice l m b.
Proof.
  intros. unfold slice. replace (Z.to_nat (b - a)) with (Z.to_nat (m - a) + Z.to_nat (b - m))%nat by lia.
  rewrite <- take_take_drop, drop_drop. do 3 f_equal. lia.
Qed.
Lemma slice_snoc {A} (l : list A) a b x : 0 <= a <= b -> l !! Z.to_nat b = Some x -> slice l a (b + 1) = slice l a b ++ [x].
Proof.
  intros Hab Hx. rewrite (slice_split l a b) by lia. f_equal. unfold slice. rewrite (drop_S _ _ _ Hx).
  by replace (Z.to_nat (b + 1 - b)) with 1%nat by lia.
Qed.
Lemma slice_app_l {A} (l l' : list A) a b : 0 <= a -> b <= Z.of_nat (length l) -> slice (l ++ l') a b = slice l a b.
Proof.
  intros Ha Hb. destruct (Z.le_gt_cases b a); [by rewrite !slice_nil|]. unfold slice.
  rewrite drop_app_le, take_app_le; [done|rewrite length_drop; lia|lia].
Qed.
Lemma slice_all {A} (l : list A) a b : 0 <= a -> Z.of_nat (length l) <= b -> slice l a b = drop (Z.to_nat a) l.
Proof. intros. unfold slice. apply take_ge. rewrite length_drop. lia. Qed.

Section Stored.
Variable E : Environment.
Context {P : Type}.
Implicit Types (c : list segment) (k : Core (P := P)).

(** Every block of a segment is stored. *)
Definition stored c : Prop := Forall (fun s => length (storage s) = length (blockInfos s)) c.

Lemma stored_height c : stored c -> Z.of_nat (length (chain_storage c)) = height c.
Proof.
  induction 1 as [|s c Hs Hc IH]; [done|]. cbn [chain_storage]. rewrite height_cons, length_app. lia.
Qed.

Lemma getBlockByIndex_flat c i : chain_wf c -> stored c -> 0 <= i -> getBlockByIndex i c = chain_storage c !! Z.to_nat i.
Proof.
  induction c as [|s c IH]; [done|]. intros [Hs Hc] [Hst Hstc]%Forall_cons Hi. cbn [getBlockByIndex chain_storage].
  pose proof (stored_height c Hstc). pose proof (wf_start _ _ Hs). rewrite (IH Hc Hstc Hi).
  destruct (Z.ltb_spec i (startIndex s)); [by rewrite lookup_app_l by lia|]. rewrite lookup_app_r by lia. f_equal. lia.
Qed.

(** The loop over one segment. *)
Lemma push_down_slice c lo : chain_wf c -> stored c -> 0 <= lo -> forall n fuel blocks,
  (n < fuel)%nat -> lo + Z.of_nat n <= height c ->
  push_down fuel lo (lo + Z.of_nat n - 1) c blocks =
    Some (blocks ++ rev (slice (chain_storage c) lo (lo + Z.of_nat n)),
          if (0 <? Z.of_nat n) && (lo =? 0) then 0 else lo - 1).
Proof.
  intros Hwf Hst Hlo. induction n as [|n IH]; intros [|fuel] blocks Hf Hh; try lia; cbn [push_down].
  - rewrite (proj2 (Z.leb_gt _ _)) by lia. rewrite slice_nil by lia. cbn. by rewrite app_nil_r, !Z.add_0_r.
  - rewrite (proj2 (Z.leb_le _ _)) by lia. replace (lo + Z.of_nat (S n) - 1) with (lo + Z.of_nat n) by lia.
    rewrite getBlockByIndex_flat by (done || lia). pose proof (stored_height c Hst).
    destruct (lookup_lt_is_Some_2 (chain_storage c) (Z.to_nat (lo + Z.of_nat n))) as [b Hb]; [lia|].
    rewrite Hb. cbn [mbind option_bind]. replace (lo + Z.of_nat (S n)) with (lo + Z.of_nat n + 1) by lia.
    rewrite (slice_snoc _ _ _ b) by (done || lia). rewrite rev_app_distr. cbn [rev app].
    rewrite (proj2 (Z.ltb_lt 0 (Z.of_nat (S n)))) by lia. cbn [andb]. destruct (Z.eqb_spec (lo + Z.of_nat n) 0) as [E0|Hne].
    + assert (lo = 0) as -> by lia. rewrite E0, slice_nil by lia. done.
    + rewrite IH by lia. rewrite <- app_assoc. cbn [app]. do 2 f_equal.
      destruct n as [|n]; [|by rewrite (proj2 (Z.ltb_lt 0 (Z.of_nat (S n)))) by lia].
      cbn. by rewrite (proj2 (Z.eqb_neq lo 0)) by lia.
Qed.

(** Nothing more is pushed below the first index. *)
Lemma get_blocks_loop_done c lo hi count acc : hi < lo -> get_blocks_loop c lo hi count acc = Some acc.
Proof.
  intros H. induction c as [|s c IH]; [done|]. cbn [get_blocks_loop].
  replace (Z.to_nat hi + 2)%nat with (S (Z.to_nat hi + 1)) by lia. cbn [push_down].
  rewrite (proj2 (Z.leb_gt (Z.max _ _) _)) by lia. destruct (hi <=? getTopBlockIndex s); cbn; rewrite IH; by destruct (_ =? _).
Qed.

Lemma root_start s c : chain_wf (s :: c) -> startIndex s = 0 -> c = [].
Proof.
  intros [Hs Hc] H0. pose proof (wf_start _ _ Hs) as Hst. pose proof (wf_parent _ _ Hs) as Hp. destruct c as [|p c]; [done|].
  rewrite H0, height_cons in Hst. pose proof (height_nonneg c). destruct (blockInfos p); [done|cbn in Hst; lia].
Qed.

(** The loop over the segments. *)
Lemma get_blocks_loop_slice lo count c : chain_wf c -> stored c -> 0 <= lo ->
  match c with s :: _ => blockInfos s <> [] | [] => True end ->
  forall hi acc, lo <= hi + 1 <= height c -> Z.of_nat (length acc) + (hi + 1 - lo) <= count ->
  get_blocks_loop c lo hi count acc = Some (acc ++ rev (slice (chain_storage c) lo (hi + 1))).
Proof.
  intros Hwf Hst Hlo. induction c as [|s c IH]; intros Hne hi acc Hhi Hcount.
  { change (height []) with 0 in Hhi. cbn. rewrite slice_nil by lia. by rewrite app_nil_r. }
  destruct (Z.lt_ge_cases hi lo); [rewrite get_blocks_loop_done, slice_nil, app_nil_r by lia; done|].
  pose proof Hwf as [Hs Hc]. pose proof Hst as [Hsts Hstc]%Forall_cons. pose proof (wf_start _ _ Hs) as Hstart.
  pose proof (stored_height c Hstc) as Hlen. pose proof (stored_height _ Hst) as Hlens. pose proof (height_nonneg c) as Hh0.
  assert (forall hi acc, lo <= hi + 1 <= height c -> Z.of_nat (length acc) + (hi + 1 - lo) <= count ->
    get_blocks_loop c lo hi count acc = Some (acc ++ rev (slice (chain_storage (s :: c)) lo (hi + 1)))) as Hrest.
  { intros hi' acc' H1 H2. rewrite IH by (done || apply (wf_parent _ _ Hs)). cbn [chain_storage].
    by rewrite slice_app_l by lia. }
  clear IH. cbn [get_blocks_loop]. rewrite (top_height s c Hs Hne). rewrite (proj2 (Z.leb_le hi _)) by lia.
  set (a := Z.max lo (startIndex s)). destruct (Z.lt_ge_cases hi a) as [Hlt|Hge].
  - replace (Z.to_nat hi + 2)%nat with (S (Z.to_nat hi + 1)) by lia. cbn [push_down].
    rewrite (proj2 (Z.leb_gt a hi)) by lia. cbn [mbind option_bind]. rewrite (proj2 (Z.eqb_neq _ count)) by lia. apply Hrest; lia.
  - pose proof (push_down_slice (s :: c) a Hwf Hst ltac:(lia) (Z.to_nat (hi + 1 - a)) (Z.to_nat hi + 2) acc ltac:(lia) ltac:(lia)) as Hp.
    replace (a + Z.of_nat (Z.to_nat (hi + 1 - a))) with (hi + 1) in Hp by lia. rewrite Z.add_simpl_r in Hp. rewrite Hp. clear Hp.
    cbn [mbind option_bind]. rewrite length_app, length_rev, Nat2Z.inj_add, slice_length by lia.
    destruct (Z.eq_dec lo a) as [Ea|Ha].
    + rewrite <- Ea. destruct (Z.eqb_spec (Z.of_nat (length acc) + (hi + 1 - lo)) count); [done|].
      destruct (Z.eqb_spec lo 0) as [E0|]; [rewrite (root_start s c Hwf) by lia; done|].
      rewrite andb_false_r, get_blocks_loop_done by lia. done.
    + rewrite (proj2 (Z.eqb_neq _ count)) by lia. rewrite (proj2 (Z.eqb_neq a 0)) by lia. rewrite andb_false_r.
      rewrite Hrest; [|lia|rewrite length_app, length_rev, Nat2Z.inj_add, slice_length by lia; lia].
      rewrite (slice_split _ lo a (hi + 1)), rev_app_distr, <- app_assoc by lia. by rewrite Z.sub_add.
Qed.

(** [getBlocks] by index returns exactly the stored blocks of the main
    chain from [minIndex] on, at most [count] of them, in the order of the
    chain, whatever the segments the chain is split into; fewer only where the
    chain ends. *)
Theorem core_getBlocks_slice k minIndex count : core_wf E k -> stored (main_chain k) ->
  0 <= minIndex -> 0 <= count -> minIndex + count <= 2 ^ 32 ->
  core_getBlocks minIndex count k = Some (take (Z.to_nat count) (drop (Z.to_nat minIndex) (chain_storage (main_chain k)))).
Proof.
  intros Hk Hst Hmin Hcount Hbig. unfold core_getBlocks. destruct (Z.ltb_spec 0 count) as [Hpos|];
    [|by replace (Z.to_nat count) with 0%nat by lia].
  pose proof (fw_tree _ _ _ (cw_forest _ _ Hk)) as Hwf. destruct (main_leaf_elem E k Hk) as (n & Hn & _).
  pose proof (chain_of_wf _ _ _ Hwf Hn) as Hcw. pose proof (tw_nonempty _ Hwf _ _ Hn) as Hne.
  fold (main_chain k) in Hcw. pose proof (stored_height _ Hst) as Hlen. unfold core_getTopBlockIndex.
  assert (exists ps, main_chain k = seg n :: ps) as [ps Ec] by (eexists; apply (chain_of_cons _ _ n Hwf Hn)).
  assert (top_of (main_chain k) = height (main_chain k) - 1) as ->.
  { rewrite Ec in *. destruct Hcw as [Hs _]. by apply top_height. }
  rewrite wrap_small by mlia. set (hi := Z.min _ _).
  destruct (Z.lt_ge_cases hi minIndex).
  - rewrite get_blocks_loop_done, drop_ge, take_nil by lia. done.
  - rewrite get_blocks_loop_slice; [|done..|by rewrite Ec|lia|cbn; lia]. cbn [app mbind option_bind]. rewrite rev_involutive.
    f_equal. unfold slice. destruct (Z.le_gt_cases (minIndex + count) (height (main_chain k))).
    + f_equal. lia.
    + rewrite !take_ge; [done|rewrite length_drop; lia..].
Qed.
End Stored.

(** ** Blocks for wallets *)

Section Lite.
Variable E : Environment.
Context {P : Type}.
Implicit Types (c : list segment) (k : Core (P := P)).

Lemma chain_blocks_app c c' : chain_blocks (c ++ c') = chain_blocks c' ++ chain_blocks c.
Proof. induction c as [|s c IH]; cbn; [by rewrite app_nil_r|]. by rewrite IH, app_assoc. Qed.
Lemma chain_storage_app c c' : chain_storage (c ++ c') = chain_storage c' ++ chain_storage c.
Proof. induction c as [|s c IH]; cbn; [by rewrite app_nil_r|]. by rewrite IH, app_assoc. Qed.

Lemma path_suffix t id l x : tree_wf t -> is_path t id l -> x ∈ l -> exists pre, chain_of t id = pre ++ chain_of t x.
Proof.
  intros Hwf. induction 1 as [id n Hn Hp|id n p l Hn Hp Hl IH]; intros Hx.
  - apply list_elem_of_singleton in Hx as ->. by exists [].
  - apply elem_of_cons in Hx as [->|Hx]; [by exists []|]. destruct (IH Hx) as [pre Er]. exists (seg n :: pre).
    by rewrite (chain_of_cons t id n Hwf Hn), Hp, Er.
Qed.

Lemma take_min {A} (l : list A) n : take (Nat.min n (length l)) l = take n l.
Proof. by rewrite <- take_take, (take_ge l (length l)). Qed.

Lemma getBlockHashes_flat c start n : chain_wf c -> 0 <= start ->
  getBlockHashes start n c = take n (drop (Z.to_nat start) (hashes (chain_blocks c))).
Proof.
  intros Hwf Hs. induction c as [|s c IH]; [cbn; by rewrite drop_nil, take_nil|]. destruct Hwf as [Hsw Hc].
  cbn [getBlockHashes chain_blocks]. pose proof (wf_start _ _ Hsw) as H0. unfold height in H0.
  unfold hashes in *. rewrite map_app. pose proof (length_map blockHash (chain_blocks c)).
  destruct (Z.ltb_spec start (startIndex s)).
  - rewrite IH, take_min by done. rewrite drop_app_le, take_app by lia. do 2 f_equal. rewrite length_take. lia.
  - rewrite drop_app_ge by lia. replace (Z.to_nat (start - startIndex s)) with (Z.to_nat start - length (map blockHash (chain_blocks c)))%nat by lia.
    set (l := drop _ _). replace (length (map blockHash (blockInfos s)) - _)%nat with (length l) by (subst l; by rewrite length_drop).
    by rewrite Nat.min_comm, take_min.
Qed.

(** The search for a timestamp ends inside the chain. *)
Lemma getTimestampLowerBound_range ts c i : chain_wf c -> match c with s :: _ => blockInfos s <> [] | [] => True end ->
  getTimestampLowerBoundBlockIndex ts c = Some i -> 0 <= i < height c.
Proof.
  revert i. induction c as [|s c IH]; [done|]. intros i [Hs Hc] Hne. cbn [getTimestampLowerBoundBlockIndex].
  pose proof (wf_start _ _ Hs) as H0. pose proof (wf_height _ _ Hs) as Hh. pose proof (height_nonneg c).
  rewrite height_cons in *. assert (0 < length (blockInfos s))%nat by (destruct (blockInfos s); [done|cbn; lia]).
  destruct (head (blockInfos s)) as [front|]; [|done]. destruct (last (blockInfos s)) as [back|] eqn:El; [|done].
  destruct (Z.ltb_spec (cbi_timestamp back) ts); [done|]. destruct (cbi_timestamp front <? ts).
  - destruct (lower_bound_search_spec (fun b => cbi_timestamp b <? ts) (blockInfos s)) as (Hr & Hlast & _).
    set (r := lower_bound_search _ _) in *. assert (r <> length (blockInfos s)).
    { intros Er. destruct Hlast as [|(x & Hx & Hp)]; [lia|]. rewrite last_lookup, <- Er in El.
      replace (Nat.pred r) with (r - 1)%nat in El by lia. simplify_eq. apply Z.ltb_lt in Hp. lia. }
    intros Ei. rewrite (wrap_small 32 (Z.of_nat r)), wrap_small in Ei by mlia. injection Ei. lia.
  - case_bool_decide as Ep; [intros [= <-]; lia|].
    destruct (getTimestampLowerBoundBlockIndex ts c) as [j|]; [|intros [= <-]; lia].
    specialize (IH j Hc (wf_parent _ _ Hs) eq_refl). destruct (j =? 2 ^ 32 - 1); intros [= <-]; lia.
Qed.

(** Where a time begins in a chain: a block at or behind it, whose predecessor
    is before it. *)
Definition time_begins (t : Z) (l : list CachedBlockInfo) (i : Z) : Prop :=
  (exists b, l !! Z.to_nat i = Some b /\ t <= cbi_timestamp b) /\
  (i = 0 \/ exists b, l !! Z.to_nat (i - 1) = Some b /\ cbi_timestamp b < t).

(** Only [u32 -1] and an exception say that there is no such block. *)
Lemma getTimestampLowerBound_none ts c : chain_wf c -> match c with s :: _ => blockInfos s <> [] | [] => True end ->
  getTimestampLowerBoundBlockIndex ts c = None -> c = [] \/ exists b, last (chain_blocks c) = Some b /\ cbi_timestamp b < ts.
Proof.
  destruct c as [|s c]; [by left|]. intros [Hs Hc] Hne. right. cbn [getTimestampLowerBoundBlockIndex chain_blocks] in *.
  destruct (blockInfos s) as [|front l] eqn:Eb; [done|]. cbn [head] in *. rewrite last_app.
  destruct (last (front :: l)) as [back|] eqn:El; [|by destruct (last_is_Some (front :: l)) as [_ [? ?]]; simplify_eq].
  destruct (Z.ltb_spec (cbi_timestamp back) ts); [by exists back|]. destruct (_ <? _); [done|].
  case_bool_decide; [done|]. destruct (getTimestampLowerBoundBlockIndex ts c) as [j|]; [by destruct (_ =? _)|done].
Qed.

(** The search in a segment that begins before the time and ends behind it. *)
Lemma lower_bound_begins t l front back : head l = Some front -> last l = Some back ->
  cbi_timestamp front < t -> t <= cbi_timestamp back ->
  let r := lower_bound_search (fun b => cbi_timestamp b <? t) l in (0 < r < length l)%nat /\
  (exists b, l !! r = Some b /\ t <= cbi_timestamp b) /\ (exists b, l !! (r - 1)%nat = Some b /\ cbi_timestamp b < t).
Proof.
  intros Ef El Hf Hb r. destruct (lower_bound_search_spec (fun b => cbi_timestamp b <? t) l) as (Hr & Hlast & Hat).
  fold r in Hr, Hlast, Hat. rewrite head_lookup in Ef. rewrite last_lookup in El.
  destruct (decide (r = 0)%nat) as [Er|Hr0].
  { rewrite Er in Hat. apply Hat, Z.ltb_ge in Ef. lia. }
  destruct Hlast as [|(x & Hx & Hp)]; [done|]. apply Z.ltb_lt in Hp.
  assert (r < length l)%nat as Hlt.
  { destruct (decide (r = length l)) as [Er|]; [|lia]. rewrite <- Er in El.
    replace (Nat.pred r) with (r - 1)%nat in El by lia. simplify_eq. lia. }
  destruct (lookup_lt_is_Some_2 _ _ Hlt) as [b Hb']. pose proof (Hat b Hb') as Hpb. apply Z.ltb_ge in Hpb.
  split; [lia|]. split; [by exists b|by exists x].
Qed.

(** A segment that begins at or behind the time, over blocks that are before it. *)
Lemma begins_above t s c front : segment_wf s c -> head (blockInfos s) = Some front -> t <= cbi_timestamp front ->
  c = [] \/ (exists b, last (chain_blocks c) = Some b /\ cbi_timestamp b < t) ->
  time_begins t (chain_blocks c ++ blockInfos s) (startIndex s).
Proof.
  intros Hs Hf Ht Hc. pose proof (wf_start _ _ Hs) as H0. unfold height in H0. rewrite head_lookup in Hf. rewrite H0. split.
  - exists front. split; [|done]. rewrite lookup_app_r by lia. by rewrite Nat2Z.id, Nat.sub_diag.
  - destruct Hc as [->|(b & Hb & Hbt)]; [by left|]. right. exists b. split; [|done]. rewrite last_lookup in Hb.
    apply lookup_lt_Some in Hb as Hbl. rewrite lookup_app_l by lia. rewrite <- Hb. f_equal. lia.
Qed.

Lemma getTimestampLowerBound_begins ts c i : chain_wf c -> match c with s :: _ => blockInfos s <> [] | [] => True end ->
  getTimestampLowerBoundBlockIndex ts c = Some i -> time_begins ts (chain_blocks c) i.
Proof.
  revert i. induction c as [|s c IH]; [done|]. intros i [Hs Hc] Hne. cbn [getTimestampLowerBoundBlockIndex chain_blocks].
  pose proof (wf_start _ _ Hs) as H0. pose proof (wf_height _ _ Hs) as Hh. rewrite height_cons in Hh. unfold height in *.
  destruct (head (blockInfos s)) as [front|] eqn:Ef; [|done]. destruct (last (blockInfos s)) as [back|] eqn:El; [|done].
  destruct (Z.ltb_spec (cbi_timestamp back) ts); [done|]. destruct (Z.ltb_spec (cbi_timestamp front) ts) as [Hf|Hf].
  - destruct (lower_bound_begins ts _ front back Ef El) as (Hr & (b & Hb & Hbt) & (x & Hx & Hxt)); [lia|lia|].
    set (r := lower_bound_search _ _) in *. intros Ei. rewrite (wrap_small 32 (Z.of_nat r)), wrap_small in Ei by mlia.
    injection Ei as <-. split; [exists b|right; exists x]; (split; [|done]); rewrite lookup_app_r by lia.
    + rewrite <- Hb. f_equal. lia.
    + rewrite <- Hx. f_equal. lia.
  - pose proof (begins_above ts s c front Hs Ef Hf) as Hown. case_bool_decide as Ep.
    { apply nil_length_inv in Ep as ->. intros [= <-]. change 0 with (Z.of_nat (length (chain_blocks []))). rewrite <- H0. apply Hown. by left. }
    destruct (getTimestampLowerBoundBlockIndex ts c) as [j|] eqn:Ej.
    2: { intros [= <-]. apply Hown. by apply getTimestampLowerBound_none; [|apply (wf_parent _ _ Hs)|]. }
    pose proof (getTimestampLowerBound_range ts c j Hc (wf_parent _ _ Hs) Ej) as Hj. unfold height in Hj.
    rewrite (proj2 (Z.eqb_neq j _)) by lia. intros [= <-]. destruct (IH j Hc (wf_parent _ _ Hs) eq_refl) as [(b & Hb & Ht) Hprev].
    split; [exists b; by rewrite lookup_app_l by lia|]. destruct Hprev as [|(b' & Hb' & Ht')]; [by left|right].
    exists b'. by rewrite lookup_app_l by lia.
Qed.

(** In a chain whose timestamps do not decrease it is one place only. *)
Lemma time_begins_ascending t l i j b : 0 <= i -> time_begins t l i ->
  StronglySorted (fun x y => cbi_timestamp x <= cbi_timestamp y) l ->
  l !! j = Some b -> cbi_timestamp b < t <-> Z.of_nat j < i.
Proof.
  intros Hi [(x & Hx & Htx) Hprev] Hs Hj.
  assert (forall m n u v, l !! m = Some u -> l !! n = Some v -> (m <= n)%nat -> cbi_timestamp u <= cbi_timestamp v) as Hle.
  { clear -Hs. induction Hs as [|a l Hs IH Ha]; intros m n u v Hm Hn Hmn; [done|].
    destruct m as [|m], n as [|n]; simpl in *; simplify_eq; try lia.
    - by eapply (Forall_lookup_1 _ _ _ _ Ha).
    - apply (IH m n); [done..|lia]. }
  split; intros H.
  - destruct (Z.lt_ge_cases (Z.of_nat j) i) as [|Hge]; [done|]. pose proof (Hle _ _ _ _ Hx Hj ltac:(lia)). lia.
  - destruct Hprev as [|(y & Hy & Hty)]; [lia|]. pose proof (Hle _ _ _ _ Hj Hy ltac:(lia)). lia.
Qed.

Lemma segment_end s c : segment_wf s c -> u32 (startIndex s + u32 (Z.of_nat (length (blockInfos s)))) = height (s :: c).
Proof.
  intros Hs. pose proof (wf_start _ _ Hs) as H0. pose proof (wf_height _ _ Hs) as Hh. pose proof (height_nonneg c).
  rewrite height_cons in *. rewrite (wrap_small 32 (Z.of_nat _)), wrap_small by mlia. lia.
Qed.

(** Every index of a chain is in one of its segments. *)
Lemma index_in_path t id l i : tree_wf t -> is_path t id l -> 0 <= i < height (chain_of t id) ->
  exists x n, x ∈ l /\ t !! x = Some n /\ startIndex (seg n) <= i < height (chain_of t x).
Proof.
  intros Hwf. induction 1 as [id n Hn Hp|id n p l Hn Hp Hl IH]; intros Hi; pose proof (chain_of_wf t id n Hwf Hn) as Hcw;
    rewrite (chain_of_cons t id n Hwf Hn), Hp in Hcw; destruct Hcw as [Hs _]; pose proof (wf_start _ _ Hs) as H0.
  - exists id, n. split; [apply list_elem_of_singleton; done|]. split; [done|]. change (height []) with 0 in H0. lia.
  - destruct (Z.lt_ge_cases i (startIndex (seg n))).
    + destruct IH as (x & m & Hx & Hm & Hr); [lia|]. exists x, m. split; [by right|done].
    + exists id, n. split; [left|]. split; [done|lia].
Qed.

Lemma findMainChainSegment_index_some k i : core_wf E k -> 0 <= i < height (main_chain k) ->
  exists id n pre, findMainChainSegment_index i k = Some id /\ chainsStorage k !! id = Some n /\
    main_chain k = pre ++ chain_of (chainsStorage k) id /\ i < height (chain_of (chainsStorage k) id).
Proof.
  intros Hk Hi. pose proof (fw_tree _ _ _ (cw_forest _ _ Hk)) as Hwf. destruct (main_leaf_elem E k Hk) as (nm & Hnm & _).
  destruct (tw_path _ Hwf _ nm Hnm) as (l & Hl & _). unfold findMainChainSegment_index. rewrite (path_is _ _ _ Hl).
  assert (forall x n, chainsStorage k !! x = Some n ->
    u32 (startIndex (seg n) + u32 (Z.of_nat (length (blockInfos (seg n))))) = height (chain_of (chainsStorage k) x)) as Hend.
  { intros x n Hn. pose proof (chain_of_wf _ x n Hwf Hn) as Hcw. rewrite (chain_of_cons _ x n Hwf Hn) in *.
    apply segment_end. apply Hcw. }
  destruct (find _ l) as [x|] eqn:Ef.
  - apply find_some in Ef as [Hin Ht]. apply list_elem_of_In in Hin. destruct (chainsStorage k !! x) as [n|] eqn:Hn; [|done].
    destruct (path_suffix _ _ _ x Hwf Hl Hin) as [pre Epre]. exists x, n, pre. rewrite (Hend x n Hn) in Ht.
    apply andb_prop in Ht as [_ Ht%Z.ltb_lt]. done.
  - destruct (index_in_path _ _ _ i Hwf Hl Hi) as (x & n & Hx & Hn & Hr). apply list_elem_of_In in Hx.
    pose proof (find_none _ _ Ef x Hx) as Ht. cbn in Ht. rewrite Hn, (Hend x n Hn) in Ht. apply andb_false_iff in Ht as [Ht%Z.leb_gt|Ht%Z.ltb_ge]; lia.
Qed.

(** What is at an index of the main chain. *)
Lemma main_block_at_flat k i : core_wf E k -> stored (main_chain k) -> 0 <= i < height (main_chain k) ->
  exists h raw, hashes (main_blocks k) !! Z.to_nat i = Some h /\ chain_storage (main_chain k) !! Z.to_nat i = Some raw /\
    main_block_at i k = Some (h, raw).
Proof.
  intros Hk Hst Hi. pose proof (fw_tree _ _ _ (cw_forest _ _ Hk)) as Hwf.
  destruct (findMainChainSegment_index_some k i Hk Hi) as (id & n & pre & Hf & Hn & Ec & Hlt).
  unfold main_block_at. rewrite Hf. cbn [mbind option_bind]. set (c := chain_of (chainsStorage k) id) in *.
  pose proof (chain_of_wf _ _ _ Hwf Hn : chain_wf c) as Hcw. change (main_blocks k) with (chain_blocks (main_chain k)).
  rewrite Ec in Hst |- *. apply Forall_app in Hst as [_ Hst]. pose proof (stored_height c Hst).
  rewrite getBlockHash_flat, getBlockByIndex_flat by (done || lia).
  unfold hashes. rewrite list_lookup_fmap, chain_blocks_app, chain_storage_app, !lookup_app_l by (unfold height in *; lia).
  destruct (lookup_lt_is_Some_2 (chain_blocks c) (Z.to_nat i)) as [b Hb]; [unfold height in *; lia|].
  destruct (lookup_lt_is_Some_2 (chain_storage c) (Z.to_nat i)) as [raw Hr]; [lia|].
  exists (blockHash b), raw. by rewrite Hb, Hr.
Qed.

Lemma main_height k : core_wf E k -> chain_wf (main_chain k) /\ core_getTopBlockIndex k = height (main_chain k) - 1 /\
  0 < height (main_chain k) < 2 ^ 32 /\ match main_chain k with s :: _ => blockInfos s <> [] | [] => True end.
Proof.
  intros Hk. pose proof (fw_tree _ _ _ (cw_forest _ _ Hk)) as Hwf. destruct (main_leaf_elem E k Hk) as (n & Hn & _).
  pose proof (chain_of_wf _ _ _ Hwf Hn) as Hcw. pose proof (tw_nonempty _ Hwf _ _ Hn) as Hne.
  unfold core_getTopBlockIndex, main_chain. rewrite (chain_of_cons _ _ n Hwf Hn) in *. cbn [top_of]. destruct Hcw as [Hs Hc].
  split; [done|]. split; [by apply top_height|]. split; [|done]. split; [|apply (wf_height _ _ Hs)].
  rewrite height_cons. pose proof (height_nonneg (match parent n with Some p => chain_of (chainsStorage k) p | None => [] end)).
  destruct (blockInfos (seg n)); [done|cbn; lia].
Qed.

(** The block from which on blocks are sent: the first hash of the list that is
    in the main chain. *)
Definition first_known (known : list Hash) k (start : Z) : Prop :=
  known = [] /\ start = 0 \/
  exists before h after, known = before ++ h :: after /\ hashes (main_blocks k) !! Z.to_nat start = Some h /\
    Forall (fun x => x ∉ hashes (main_blocks k)) before.

Lemma findBlockchainSupplement_sound k known start : core_wf E k -> findBlockchainSupplement known k = Some start ->
  0 <= start < height (main_chain k) /\ first_known known k start.
Proof.
  intros Hk Hs. destruct (main_height k Hk) as (_ & _ & Hh & _). unfold findBlockchainSupplement in Hs.
  destruct known as [|h0 known]; [injection Hs as <-; split; [lia|by left]|].
  rewrite (supplement_first E k _ Hk) in Hs. revert Hs. generalize (h0 :: known) as l. clear h0 known.
  induction l as [|h l IH]; [done|]. cbn [first_some]. destruct (look k h) as [i|] eqn:El.
  - intros [= <-]. unfold look in El. destruct (findMainChainSegmentContainingBlock h k) as [id|] eqn:Ef; [|done].
    destruct (find_main E k h id Hk Ef) as (n & j & r & Hn & Hj & H0 & Hp & Er). cbn in El. rewrite Hn in El. cbn in El.
    rewrite Hj in El. injection El as <-.
    assert (hashes (main_blocks k) !! Z.to_nat j = Some h) as Hm.
    { rewrite Er. unfold hashes in *. rewrite map_app. by apply lookup_app_l_Some. }
    split; [|right; by exists [], h, l]. apply lookup_lt_Some in Hm. unfold hashes in Hm. rewrite length_map in Hm.
    unfold height. change (chain_blocks (main_chain k)) with (main_blocks k). lia.
  - intros Hs. destruct (IH Hs) as [H0 [[-> _]|(before & x & after & -> & Hx & HF)]]; [done|]. split; [done|].
    right. exists (h :: before), x, after. split; [done|]. split; [done|]. constructor; [|done].
    intros [i Hi]%list_elem_of_lookup. by rewrite (look_at E k h i Hk Hi) in El.
Qed.

Lemma pushBlockHashes_flat k start full count : core_wf E k -> 0 <= start <= full -> full < 2 ^ 32 -> 0 <= count < 2 ^ 32 ->
  pushBlockHashes start full count k =
    take (Z.to_nat (Z.min (full - start) count)) (drop (Z.to_nat start) (hashes (main_blocks k))).
Proof.
  intros Hk Hs Hf Hc. destruct (main_height k Hk) as (Hwf & _). unfold pushBlockHashes.
  rewrite (wrap_small 32 (full - start)), (wrap_small 32 count) by mlia.
  destruct (Z.eqb_spec (Z.min (full - start) count) 0) as [->|]; [done|]. unfold core_getBlockHashes.
  by rewrite getBlockHashes_flat by (done || lia).
Qed.

(** A loop over consecutive indexes of the main chain. *)
Lemma fill_consecutive {A} k (f : Z -> option A) (hash : A -> Hash) first n l : core_wf E k -> 0 <= first -> 0 <= n ->
  first + n <= height (main_chain k) ->
  (forall i a, 0 <= i < height (main_chain k) -> f i = Some a -> hashes (main_blocks k) !! Z.to_nat i = Some (hash a)) ->
  mapM f (indexes_from first (first + n - 1)) = Some l ->
  Z.of_nat (length l) = n /\ (forall j a, l !! j = Some a -> f (first + Z.of_nat j) = Some a) /\
  map hash l = take (length l) (drop (Z.to_nat first) (hashes (main_blocks k))).
Proof.
  intros Hk H0 Hn Hh Hf Hl. apply mapM_Some_1 in Hl. pose proof (Forall2_length _ _ _ Hl) as Hlen.
  unfold indexes_from in *. rewrite length_map, length_seq in Hlen.
  assert (forall j a, l !! j = Some a -> f (first + Z.of_nat j) = Some a) as Hj.
  { intros j a Ha. destruct (Forall2_lookup_r _ _ _ _ _ Hl Ha) as (i & Hi & Hfi). rewrite list_lookup_fmap in Hi.
    apply lookup_lt_Some in Ha. rewrite lookup_seq_lt in Hi by lia. cbn in Hi. by injection Hi as <-. }
  split; [lia|]. split; [done|].
  assert (length (hashes (main_blocks k)) = Z.to_nat (height (main_chain k))) as Hhl
    by (unfold hashes, height; rewrite length_map, Nat2Z.id; done).
  apply list_eq. intros j. destruct (decide (j < length l)%nat) as [Hlt|Hge].
  - rewrite lookup_take_lt, lookup_drop, list_lookup_fmap by done. destruct (lookup_lt_is_Some_2 l j Hlt) as [a Ha]. rewrite Ha. cbn.
    pose proof (Hf (first + Z.of_nat j) a ltac:(lia) (Hj j a Ha)) as Hx. rewrite <- Hx. f_equal. lia.
  - rewrite lookup_take_ge, lookup_ge_None_2 by (rewrite ?length_map; lia). done.
Qed.

Lemma take_drop_app {A} (l : list A) s n m : take n (drop s l) ++ take m (drop (s + n) l) = take (n + m) (drop s l).
Proof. by rewrite <- (take_take_drop (drop s l)), drop_drop. Qed.

(** What is sent of a block in full. *)
Definition short_of (cn_fast_hash : bytes -> Hash) k (i : Z) (e : BlockShortInfo) : Prop :=
  exists raw, chain_storage (main_chain k) !! Z.to_nat i = Some raw /\ bsi_block e = rb_block raw /\
    mapM (prefix_info cn_fast_hash) (rb_transactions raw) = Some (txPrefixes e).

Lemma fillQueryBlockShortInfo_ok cfh k full n l : core_wf E k -> stored (main_chain k) ->
  0 <= full < height (main_chain k) -> 0 <= n < 2 ^ 32 ->
  fillQueryBlockShortInfo cfh full (height (main_chain k) - 1) n k = Some l ->
  Z.of_nat (length l) = Z.min n (height (main_chain k) - full) /\
  (forall j e, l !! j = Some e -> short_of cfh k (full + Z.of_nat j) e) /\
  map blockId l = take (length l) (drop (Z.to_nat full) (hashes (main_blocks k))).
Proof.
  intros Hk Hst Hf Hn Hl. destruct (main_height k Hk) as (_ & _ & Hh & _). unfold fillQueryBlockShortInfo in Hl.
  rewrite (wrap_small 32 n), wrap_small in Hl by mlia.
  assert (forall i e, 0 <= i < height (main_chain k) ->
    ('(h, raw) ← main_block_at i k; prefixes ← mapM (prefix_info cfh) (rb_transactions raw);
     Some {| blockId := h; bsi_block := rb_block raw; txPrefixes := prefixes |}) = Some e ->
    hashes (main_blocks k) !! Z.to_nat i = Some (blockId e) /\ short_of cfh k i e) as Hone.
  { intros i e Hi He. destruct (main_block_at_flat k i Hk Hst Hi) as (h & raw & Hh' & Hraw & Eb). rewrite Eb in He.
    cbn [mbind option_bind] in He. destruct (mapM (prefix_info cfh) _) as [ps|] eqn:Ep; [|done].
    cbn in He. injection He as <-. split; [done|]. by exists raw. }
  apply (fill_consecutive k _ blockId) in Hl as (Hlen & Hj & Hmap); [|done|lia|lia|lia|intros i e Hi He; by apply Hone].
  split; [lia|]. split; [|done]. intros j e Ha. apply lookup_lt_Some in Ha as Hlt. apply Hone; [lia|]. by apply Hj.
Qed.

(** The time from which on blocks are sent in full: the one that was asked for,
    or the one of the block the wallet is at when it knows the block but no
    time. *)
Definition time_asked (cn_fast_hash : bytes -> Hash) k (start ts t : Z) : Prop :=
  if decide (0 < start /\ ts = 0) then exists raw block, chain_storage (main_chain k) !! Z.to_nat start = Some raw /\
    fromBinaryArray (serialize_BlockTemplate cn_fast_hash) (rb_block raw) = Some block /\
    t = timestamp (block : BlockTemplate)
  else t = ts.

Lemma query_timestamp_asked cfh k start ts t : core_wf E k -> stored (main_chain k) -> 0 <= start < height (main_chain k) ->
  query_timestamp cfh start ts k = Some t -> time_asked cfh k start ts t.
Proof.
  intros Hk Hst Hs. destruct (main_height k Hk) as (Hwf & Etop & _). unfold query_timestamp, time_asked. rewrite Etop.
  rewrite getBlockByIndex_flat by (done || lia). rewrite (proj2 (Z.leb_le start _)), andb_true_r by lia.
  case_decide as Hd; [|destruct (Z.ltb_spec 0 start), (Z.eqb_spec ts 0); simpl; first [exfalso; tauto|by intros [= <-]]].
  destruct Hd as [H0 ->]. rewrite (proj2 (Z.ltb_lt _ _)) by done. simpl.
  destruct (chain_storage _ !! _) as [raw|]; [|done]. cbn [mbind option_bind].
  destruct (fromBinaryArray _ _) as [block|] eqn:Eb; [|done]. intros [= <-]. by exists raw, block.
Qed.

(** What the query has computed when it answers. *)
Lemma queryBlocksLite_inv cfh k known ts start cur full entries : queryBlocksLite cfh known ts k = Some (start, cur, full, entries) ->
  exists t first, findBlockchainSupplement known k = Some start /\ query_timestamp cfh start ts k = Some t /\
    getTimestampLowerBoundBlockIndex t (main_chain k) = Some first /\ full = Z.max first start.
Proof.
  unfold queryBlocksLite. destruct (findBlockchainSupplement known k) as [st|]; [|done]. cbn [mbind option_bind].
  destruct (query_timestamp cfh st ts k) as [t|] eqn:Et; [|done]. cbn [mbind option_bind].
  destruct (getTimestampLowerBoundBlockIndex t (main_chain k)) as [first|] eqn:El; [|done]. cbn [mbind option_bind].
  destruct (negb _); [intros [= <- <- <- <-]; by exists t, first|].
  destruct (fillQueryBlockShortInfo _ _ _ _ _); [|done]. intros [= <- <- <- <-]. by exists t, first.
Qed.

Lemma queryBlocksLite_entries cfh k known ts start cur full entries : core_wf E k -> stored (main_chain k) ->
  queryBlocksLite cfh known ts k = Some (start, cur, full, entries) ->
  cur = height (main_chain k) - 1 /\ 0 <= start <= full /\ full <= cur /\
  map blockId entries = take (length entries) (drop (Z.to_nat start) (hashes (main_blocks k))) /\
  Z.of_nat (length entries) = (if full - start <=? 10000 then full - start + Z.min 100 (cur - full + 1) else 10000) /\
  (forall j e, entries !! j = Some e ->
     if start + Z.of_nat j <? full then bsi_block e = [] /\ txPrefixes e = []
     else short_of cfh k (start + Z.of_nat j) e).
Proof.
  intros Hk Hst Hq. destruct (main_height k Hk) as (Hwf & Etop & Hh & Hne). unfold queryBlocksLite in Hq.
  destruct (findBlockchainSupplement known k) as [st|] eqn:Es; [|done]. cbn [mbind option_bind] in Hq.
  destruct (findBlockchainSupplement_sound k known st Hk Es) as [Hst0 _].
  destruct (query_timestamp cfh st ts k) as [ts'|]; [|done]. cbn [mbind option_bind] in Hq.
  destruct (getTimestampLowerBoundBlockIndex ts' (main_chain k)) as [lb|] eqn:El; [|done]. cbn [mbind option_bind] in Hq.
  pose proof (getTimestampLowerBound_range ts' _ lb Hwf Hne El) as Hlb. rewrite Etop in Hq.
  set (fo := Z.max lb st) in Hq. rewrite pushBlockHashes_flat in Hq by (done || lia || (lia)).
  assert (length (hashes (main_blocks k)) = Z.to_nat (height (main_chain k))) as Hhl
    by (unfold hashes, height; rewrite length_map, Nat2Z.id; done).
  set (pushed := take _ _) in Hq. set (entries0 := map _ pushed) in Hq.
  assert (Z.of_nat (length pushed) = Z.min (fo - st) 10000) as Hpl by (unfold pushed; rewrite length_take, length_drop; lia).
  assert (length entries0 = length pushed) as He0 by apply length_map.
  assert (map blockId entries0 = pushed) as Hm0 by (unfold entries0; by rewrite map_map, map_id).
  assert (forall j e, entries0 !! j = Some e -> bsi_block e = [] /\ txPrefixes e = []) as Hempty.
  { intros j e Hj. unfold entries0 in Hj. apply list_lookup_fmap_Some in Hj as (h & -> & _). done. }
  rewrite (wrap_small 32 (Z.of_nat _)), wrap_small in Hq by mlia.
  destruct (Z.eqb_spec (st + Z.of_nat (length pushed)) fo) as [Hall|Hmore]; cbn [negb] in Hq.
  - destruct (fillQueryBlockShortInfo _ _ _ _ _) as [short|] eqn:Ef; [|done]. cbn [mbind option_bind] in Hq.
    injection Hq as <- <- <- <-.
    apply fillQueryBlockShortInfo_ok in Ef as (Hsl & Hsj & Hsm); [|done|done|lia|lia].
    split; [done|]. split; [lia|]. split; [lia|]. split; [|split].
    + rewrite map_app, length_app, Hm0, Hsm, He0. unfold pushed at 1. rewrite <- take_drop_app. f_equal; f_equal; [lia|f_equal; lia].
    + rewrite length_app, He0, (proj2 (Z.leb_le _ _)) by lia. lia.
    + intros j e Hj. apply lookup_app_Some in Hj as [Hj|[Hge Hj]].
      * apply lookup_lt_Some in Hj as Hlt. rewrite (proj2 (Z.ltb_lt _ _)) by lia. by apply (Hempty j).
      * rewrite (proj2 (Z.ltb_ge _ _)) by lia. replace (st + Z.of_nat j) with (fo + Z.of_nat (j - length entries0)) by lia.
        by apply Hsj.
  - injection Hq as <- <- <- <-. split; [done|]. split; [lia|]. split; [lia|]. split; [|split].
    + rewrite Hm0, He0. unfold pushed. by rewrite length_take, take_min.
    + rewrite He0, (proj2 (Z.leb_gt _ _)) by lia. lia.
    + intros j e Hj. apply lookup_lt_Some in Hj as Hlt. rewrite (proj2 (Z.ltb_lt _ _)) by lia. by apply (Hempty j).
Qed.

(** C17. What a wallet gets when it asks for blocks: consecutive blocks of the
    main chain, from the first block of its list on that is in the main chain
    (the genesis block when the list is empty); the blocks before [full] as
    hashes only, at most 10000, the others with the stored block and the hash and
    prefix of every transaction, at most 100.  [full] is where the time that was
    asked for begins, or the start when that is later: the block at this place
    is at or behind the time and the one below it is before it; where timestamps
    do not decrease, the blocks before the time are exactly the ones below.
    Unless the wallet is at the top, there is a new block among them. *)
Theorem queryBlocksLite_consecutive cfh k known ts start cur full entries : core_wf E k -> stored (main_chain k) ->
  queryBlocksLite cfh known ts k = Some (start, cur, full, entries) ->
  first_known known k start /\
  (exists t first, time_asked cfh k start ts t /\ time_begins t (main_blocks k) first /\ full = Z.max first start /\
    (StronglySorted (fun x y => cbi_timestamp x <= cbi_timestamp y) (main_blocks k) ->
     forall j b, main_blocks k !! j = Some b -> cbi_timestamp b < t <-> Z.of_nat j < first)) /\
  cur = height (main_chain k) - 1 /\ 0 <= start <= full /\ full <= cur /\
  map blockId entries = take (length entries) (drop (Z.to_nat start) (hashes (main_blocks k))) /\
  Z.of_nat (length entries) = (if full - start <=? 10000 then full - start + Z.min 100 (cur - full + 1) else 10000) /\
  (forall j e, entries !! j = Some e ->
     if start + Z.of_nat j <? full then bsi_block e = [] /\ txPrefixes e = []
     else short_of cfh k (start + Z.of_nat j) e).
Proof.
  intros Hk Hst Hq. destruct (main_height k Hk) as (Hwf & _ & _ & Hne).
  destruct (queryBlocksLite_inv _ _ _ _ _ _ _ _ Hq) as (t & first & Hs & Ht & Hf & Hfull).
  apply findBlockchainSupplement_sound in Hs as [Hr Hfirst]; [|done].
  split; [done|]. split; [|by apply (queryBlocksLite_entries cfh k known ts)].
  exists t, first. split; [by apply query_timestamp_asked|].
  pose proof (getTimestampLowerBound_begins t _ first Hwf Hne Hf) as Hb. split; [done|]. split; [done|].
  intros Hsorted j b Hj. pose proof (getTimestampLowerBound_range t _ first Hwf Hne Hf). by eapply time_begins_ascending; [lia|..].
Qed.

(** The block at the top is never among the blocks of [queryBlocks], which
    counts one block less than the other queries. *)
Lemma queryBlocks_without_top k known ts start cur full entries : core_wf E k ->
  queryBlocks known ts k = Some (start, cur, full, entries) -> start + Z.of_nat (length entries) <= cur.
Proof.
  intros Hk Hq. destruct (main_height k Hk) as (Hwf & Etop & Hh & Hne). unfold queryBlocks in Hq.
  destruct (findBlockchainSupplement known k) as [st|] eqn:Es; [|done]. cbn [mbind option_bind] in Hq.
  destruct (findBlockchainSupplement_sound k known st Hk Es) as [Hst0 _].
  destruct (getTimestampLowerBoundBlockIndex ts (main_chain k)) as [lb|] eqn:El; [|done]. cbn [mbind option_bind] in Hq.
  pose proof (getTimestampLowerBound_range ts _ lb Hwf Hne El) as Hlb. rewrite Etop in Hq.
  set (fo := Z.max lb st) in Hq. rewrite pushBlockHashes_flat in Hq by (done || lia || (lia)).
  set (pushed := take _ _) in Hq.
  assert (Z.of_nat (length pushed) <= fo - st) by (unfold pushed; rewrite length_take; lia).
  destruct (Z.eqb_spec (st + Z.of_nat (length pushed)) fo) as [Hall|Hmore]; cbn [negb] in Hq.
  - destruct (fillQueryBlockFullInfo _ _ _ _) as [l|] eqn:Ef; [|done]. cbn [mbind option_bind] in Hq.
    injection Hq as <- <- <- <-. unfold fillQueryBlockFullInfo in Ef. rewrite (wrap_small 32 (_ - fo)) in Ef by mlia.
    apply mapM_Some_1, Forall2_length in Ef. unfold indexes_from in Ef. rewrite length_map, length_seq in Ef.
    rewrite length_app, length_map. lia.
  - injection Hq as <- <- <- <-. rewrite length_map. lia.
Qed.
End Lite.

(** ** Runs *)

#[local] Existing Instance run_pool.

(** The sample chain with one more block. *)
Definition longer_core : Core (P := TransactionPool (C := list PendingTransactionInfo)) :=
  snd (addBlock sample_environment id 100 (block_at 3 3 13) (raw_at 13) sample_core).

Lemma longer_core_wf : core_wf sample_environment longer_core.
Proof.
  pose proof (addBlock_ok sample_environment id 100 (block_at 3 3 13) (raw_at 13) sample_core sample_core_wf
    (sample_room (block_at 3 3 13) 13 (block_base 3 3 13) ltac:(vm_compute; reflexivity) ltac:(vm_compute; reflexivity)) eq_refl) as H.
  unfold longer_core. destruct (addBlock _ _ _ _ _ _) as [r k']. apply H.
Qed.

Lemma longer_core_stored : stored (main_chain longer_core).
Proof.
  assert (map (fun s => length (storage s)) (main_chain longer_core) = map (fun s => length (blockInfos s)) (main_chain longer_core))
    as H by (vm_compute; reflexivity).
  unfold stored. revert H. induction (main_chain longer_core) as [|s c IH]; intros H; [apply Forall_nil_2|].
  injection H as Hs Hc. apply Forall_cons. split; [exact Hs|by apply IH].
Qed.

Lemma supplement_close_witness :
  exists sparse start, buildSparseChain longer_core = Some sparse /\ findBlockchainSupplement sparse sample_core = Some start /\
    0 <= start < 3 /\ Z.of_nat (length (main_blocks longer_core)) - 1 - start <= 2 * 1.
Proof.
  apply (supplement_close sample_environment longer_core sample_core (hashes (main_blocks sample_core)) [replicate 32 13] []
    longer_core_wf sample_core_wf).
  - vm_compute. reflexivity.
  - vm_compute. reflexivity.
  - vm_compute. discriminate.
  - intros h _. apply not_elem_of_nil.
  - vm_compute. discriminate.
Defined.

Lemma core_getBlocks_slice_witness :
  core_getBlocks 1 2 longer_core = Some [raw_at 2; raw_at 3] /\
  core_getBlocks 1 2 longer_core = Some (take 2 (drop 1 (chain_storage (main_chain longer_core)))).
Proof.
  split; [vm_compute; reflexivity|].
  exact (core_getBlocks_slice sample_environment longer_core 1 2 longer_core_wf longer_core_stored
    ltac:(lia) ltac:(lia) ltac:(lia)).
Defined.

Lemma queryBlocksLite_consecutive_witness :
  exists entries, queryBlocksLite no_hash [replicate 32 99; replicate 32 2] 30 longer_core = Some (1, 3, 2, entries) /\
    map blockId entries = [replicate 32 2; replicate 32 3; replicate 32 13] /\
    map blockId entries = take (length entries) (drop 1 (hashes (main_blocks longer_core))).
Proof.
  destruct (queryBlocksLite no_hash [replicate 32 99; replicate 32 2] 30 longer_core) as [[[[start cur] full] entries]|] eqn:Eq;
    [|vm_compute in Eq; discriminate].
  pose proof (queryBlocksLite_consecutive sample_environment no_hash longer_core [replicate 32 99; replicate 32 2] 30 start cur full entries
    longer_core_wf longer_core_stored Eq) as (_ & _ & _ & _ & _ & Hm & _).
  vm_compute in Eq. injection Eq as <- <- <- <-. eexists. split; [reflexivity|]. split; [reflexivity|exact Hm].
Defined.

(** The top of the sample chain is missing where a peer asks for full blocks. *)
Example queryBlocks_top :
  (fun '(_, _, _, entries) => map block_id entries) <$> queryBlocks [replicate 32 2] 0 longer_core =
  Some [replicate 32 2; replicate 32 3].
Proof. vm_compute. reflexivity. Qed.
