(* ===== verification/Template.v ===== *)
(** * Block templates ([src/mevacoin_core/core.cpp])

    What a miner works on: [getBlockTemplate] takes transactions out of the pool
    and builds a coinbase transaction whose size fits the reward it pays. *)

From stdpp Require Import gmap fin_sets sorting.
From S2P Require Import Prelude Config Stream Serializer Transaction Amounts TxExtra Block Cached Pool Currency Difficulty Rules PoolCleaner Checkpoints.
From S2P Require Import Segments ChainSpec Validation Core CoreSpec AddBlock CoreQueries.
Import BlockchainCache.

(** [TransactionSpentInputsChecker::haveSpentInputs]: up to the first key image
    it has seen, all are remembered. *)
Fixpoint haveSpentInputs (alreadSpentKeyImages : gset KeyImage) (inputs : list TransactionInput)
    : bool * gset KeyImage :=
  match inputs with
  | [] => (false, alreadSpentKeyImages)
  | InKey i :: inputs =>
      if bool_decide (keyImage i ∈ alreadSpentKeyImages) then (true, alreadSpentKeyImages)
      else haveSpentInputs ({[keyImage i]} ∪ alreadSpentKeyImages) inputs
  | InBase _ :: inputs => haveSpentInputs alreadSpentKeyImages inputs
  end.

Definition validateBlockTemplateTransaction (t : CachedTransaction) (blockHeight : Z) : bool :=
  if MAX_EXTRA_SIZE_BLOCK <=? Z.of_nat (length (extra (getTransaction t))) then false
  else Mixins.validate [t] blockHeight.

(** [getObjectBinarySize] of a transaction *)
Definition object_size (tx : Transaction) : Z :=
  match toBinaryArray serialize_Transaction tx with Some ba => Z.of_nat (length ba) | None => 2 ^ 64 - 1 end.

(** [false] of [getBlockTemplate], and a receive time that is asked of a
    transaction that is not in the pool. *)
Inductive TemplateError := TemplateFailed | TemplateUndefined.

Section Template.
Variable E : Environment.
Context {P : Type} `{!ITransactionPool P}.
Abbreviation Core := (Core (P := P)).
Abbreviation wrapper := (TransactionPoolCleanWrapper (P := P)).
Implicit Types k : Core.

(** ** Filling *)

Record filling := {
  f_transactionHashes : list Hash;
  transactionsSize : Z;
  f_fee : Z;
  spentInputsChecker : gset KeyImage;
  f_pool : wrapper
}.

(** A transaction that may not be in the block leaves the pool when it is a day
    old. *)
Definition drop_old (now : Z) (t : CachedTransaction) (f : filling) : option filling :=
  receiveTime ← ip_receiveTime (getTransactionHash (cn_fast_hash E) t) (transactionPool (f_pool f));
  let transactionAge := u64 (now - receiveTime) in
  Some {| f_transactionHashes := f_transactionHashes f; transactionsSize := transactionsSize f; f_fee := f_fee f;
          spentInputsChecker := spentInputsChecker f;
          f_pool := if MEVACOIN_MEMPOOL_TX_LIVETIME <=? transactionAge
                    then snd (clean_removeTransaction (getTransactionHash (cn_fast_hash E) t) (f_pool f)) else f_pool f |}.

(** One round of either loop: the fee counts in the second one only. *)
Definition fill_step (now height limit : Z) (count_fee : bool) (t : CachedTransaction) (f : filling) : option filling :=
  if limit <? u64 (transactionsSize f + blobSize t) then Some f
  else if negb (validateBlockTemplateTransaction t height) then drop_old now t f
  else
    let '(spent, checker) := haveSpentInputs (spentInputsChecker f) (inputs (getTransaction t)) in
    Some (if spent
          then {| f_transactionHashes := f_transactionHashes f; transactionsSize := transactionsSize f; f_fee := f_fee f;
                  spentInputsChecker := checker; f_pool := f_pool f |}
          else {| f_transactionHashes := f_transactionHashes f ++ [getTransactionHash (cn_fast_hash E) t];
                  transactionsSize := u64 (transactionsSize f + blobSize t);
                  f_fee := if count_fee then u64 (f_fee f + fee t) else f_fee f;
                  spentInputsChecker := checker; f_pool := f_pool f |}).

(** From the cheapest transaction upwards, while they are free. *)
Fixpoint fusion_loop (now height : Z) (ts : list CachedTransaction) (f : filling) : option filling :=
  match ts with
  | [] => Some f
  | t :: ts =>
      if fee t =? 0
      then f ← fill_step now height (m_fusionTxMaxSize (currency E)) false t f; fusion_loop now height ts f
      else Some f
  end.

Fixpoint fill_loop (now height medianSize maxTotalSize : Z) (ts : list CachedTransaction) (f : filling) : option filling :=
  match ts with
  | [] => Some f
  | t :: ts =>
      f ← fill_step now height (if fee t =? 0 then medianSize else maxTotalSize) true t f;
      fill_loop now height medianSize maxTotalSize ts f
  end.

Definition fillBlockTemplate (now medianSize maxCumulativeSize height : Z) (p : wrapper) : option filling :=
  let maxTotalSize := u64 (125 * medianSize) / 100 in
  let maxTotalSize := u64 (Z.min maxTotalSize maxCumulativeSize - m_minerTxBlobReservedSize (currency E)) in
  let poolTransactions := ip_transactions (transactionPool p) in
  f ← fusion_loop now height (rev poolTransactions)
        {| f_transactionHashes := []; transactionsSize := 0; f_fee := 0; spentInputsChecker := ∅; f_pool := p |};
  fill_loop now height medianSize maxTotalSize poolTransactions f.

(** ** The limits and the time *)

Definition getBlockMajorVersionForHeight (height : Z) : Z :=
  Upgrades.getBlockMajorVersion height (Upgrades.core_upgrades (currency E)).

Definition calculateCumulativeBlocksizeLimit (height : Z) k : Z :=
  let nextBlockGrantedFullRewardZone :=
    blockGrantedFullRewardZoneByBlockVersion (currency E) (getBlockMajorVersionForHeight height) in
  let sizes := getLastBlocksSizes (Z.to_nat (m_rewardBlocksWindow (currency E))) (core_getTopBlockIndex k) false (main_chain k) in
  let median := medianValue sizes in
  u64 ((if median <=? nextBlockGrantedFullRewardZone then nextBlockGrantedFullRewardZone else median) * 2).

(** [Core::getDifficultyForNextBlock] *)
Definition core_getDifficultyForNextBlock k : option Z :=
  let topBlockIndex := core_getTopBlockIndex k in
  let nextBlockMajorVersion := getBlockMajorVersionForHeight topBlockIndex in
  let blocksCount :=
    Z.to_nat (Z.min topBlockIndex (difficultyBlocksCountByBlockVersion (currency E) nextBlockMajorVersion topBlockIndex)) in
  getNextDifficulty (currency E) nextBlockMajorVersion topBlockIndex
    (getLastTimestamps blocksCount topBlockIndex false (main_chain k))
    (getLastCumulativeDifficulties blocksCount topBlockIndex false (main_chain k)).

Definition getBlockTimestampByIndex (blockIndex : Z) k : option Z :=
  getLastTimestamps 1 blockIndex addGenesisBlock (main_chain k) !! 0%nat.

(** The clock, or the median of the last blocks when that is later. *)
Definition template_timestamp (now height : Z) k : option Z :=
  let window := if LWMA_2_DIFFICULTY_BLOCK_INDEX <=? height then BLOCKCHAIN_TIMESTAMP_CHECK_WINDOW_V3
                else BLOCKCHAIN_TIMESTAMP_CHECK_WINDOW in
  if window <=? height then
    timestamps ← mapM (fun offset => getBlockTimestampByIndex offset k) (indexes_from (height - window) (height - 1));
    let medianTimestamp := medianValue timestamps in
    Some (if u64 now <? medianTimestamp then medianTimestamp else u64 now)
  else Some (u64 now).

(** ** The coinbase transaction *)

Section Coinbase.
Variable generate_key_derivation : PublicKey -> SecretKey -> option bytes.
Variable derive_public_key : bytes -> nat -> PublicKey -> option PublicKey.
(** The pairs the calls of [generateKeyPair()] return. *)
Variable generateKeyPair : nat -> KeyPair.

Definition set_extra (f : bytes -> bytes) (tx : Transaction) : Transaction :=
  {| tx_prefix := {| version := version tx; unlockTime := unlockTime tx; inputs := inputs tx; outputs := outputs tx;
       extra := f (extra tx) |};
     signatures := signatures tx |}.

(** The loop of [getBlockTemplate]: the size the reward was computed with has
    to be the size of the block. *)
Fixpoint fit_coinbase (tries calls : nat) (construct : Z -> KeyPair -> option Transaction)
    (transactionsSize cumulativeSize : Z) : option Transaction :=
  match tries with
  | O => None
  | S tries =>
      tx ← construct cumulativeSize (generateKeyPair calls);
      let coinbaseBlobSize := object_size tx in
      let available := u64 (cumulativeSize - transactionsSize) in
      if available <? coinbaseBlobSize
      then fit_coinbase tries (S calls) construct transactionsSize (u64 (transactionsSize + coinbaseBlobSize))
      else if coinbaseBlobSize <? available then
        let delta := u64 (available - coinbaseBlobSize) in
        let tx := set_extra (fun e => e ++ replicate (Z.to_nat delta) 0) tx in
        if cumulativeSize =? u64 (transactionsSize + object_size tx) then Some tx
        else if negb (u64 (cumulativeSize + 1) =? u64 (transactionsSize + object_size tx)) then None
        else
          let tx := set_extra (fun e => take (length e - 1) e) tx in
          if cumulativeSize =? u64 (transactionsSize + object_size tx) then Some tx
          else fit_coinbase tries (S calls) construct transactionsSize (u64 (cumulativeSize + u64 (delta - 1)))
      else if cumulativeSize =? u64 (transactionsSize + object_size tx) then Some tx
      else None
  end.

(** The parent block of a template for merged mining. *)
Definition template_parent : option ParentBlock :=
  match appendMergeMiningTagToExtra [] {| depth := 0; merkleRoot := NULL_HASH |} with
  | (false, _) => None
  | (true, tag) =>
      Some {| pb_majorVersion := BLOCK_MINOR_VERSION_0; pb_minorVersion := 0; pb_previousBlockHash := NULL_HASH;
              transactionCount := 1; baseTransactionBranch := [];
              pb_baseTransaction := {| bt_prefix := {| version := 0; unlockTime := 0; inputs := []; outputs := []; extra := tag |} |};
              blockchainBranch := [] |}
  end.

Definition template_minorVersion (majorVersion : Z) : Z :=
  if majorVersion =? BLOCK_MAJOR_VERSION_1 then
    if upgradeHeight (currency E) BLOCK_MAJOR_VERSION_2 =? 2 ^ 32 - 1 then BLOCK_MINOR_VERSION_1 else BLOCK_MINOR_VERSION_0
  else if BLOCK_MAJOR_VERSION_2 <=? majorVersion then
    if upgradeHeight (currency E) BLOCK_MAJOR_VERSION_3 =? 2 ^ 32 - 1
    then if majorVersion =? BLOCK_MAJOR_VERSION_2 then BLOCK_MINOR_VERSION_1 else BLOCK_MINOR_VERSION_0
    else BLOCK_MINOR_VERSION_0
  else 0.

(** [(b, difficulty, height)] *)
Definition getBlockTemplate (now : Z) (adr : AccountPublicAddress) (extraNonce : bytes) k
    : (BlockTemplate * Z * Z + TemplateError) * Core :=
  let height := u32 (core_getTopBlockIndex k + 1) in
  match core_getDifficultyForNextBlock k with
  | None => (inr TemplateUndefined, k)
  | Some difficulty =>
  if difficulty =? 0 then (inr TemplateFailed, k) else
  let majorVersion := getBlockMajorVersionForHeight height in
  match (if BLOCK_MAJOR_VERSION_2 <=? majorVersion then template_parent else Some no_parent) with
  | None => (inr TemplateFailed, k)
  | Some parentBlock =>
  match core_getTopBlockHash k, template_timestamp now height k,
        getAlreadyGeneratedCoins (core_getTopBlockIndex k) (main_chain k) with
  | Some previousBlockHash, Some timestamp, Some alreadyGeneratedCoins =>
      let medianSize := calculateCumulativeBlocksizeLimit height k / 2 in
      match fillBlockTemplate now medianSize (maxBlockCumulativeSize (currency E) height) height (pool k) with
      | None => (inr TemplateUndefined, k)
      | Some f =>
          let construct := fun size txkey =>
            constructMinerTx (currency E) generate_key_derivation derive_public_key majorVersion height medianSize
              alreadyGeneratedCoins size (f_fee f) adr extraNonce 11 txkey [] in
          let result :=
            first ← construct (transactionsSize f) (generateKeyPair 0);
            fit_coinbase 10 1 construct (transactionsSize f) (u64 (transactionsSize f + object_size first)) in
          (match result with
           | None => inr TemplateFailed
           | Some baseTransaction =>
               inl ({| header := {| majorVersion := majorVersion; minorVersion := template_minorVersion majorVersion; nonce := 0;
                         timestamp := timestamp; previousBlockHash := previousBlockHash |};
                       parentBlock := parentBlock; baseTransaction := baseTransaction;
                       transactionHashes := f_transactionHashes f |}, difficulty, height)
           end, core_set_pool (f_pool f) k)
      end
  | _, _, _ => (inr TemplateUndefined, k)
  end
  end
  end.
End Coinbase.
End Template.

(** ** What a template holds *)

Lemma haveSpentInputs_new ins : forall st st', haveSpentInputs st ins = (false, st') ->
  NoDup (key_images ins) /\ (forall i, i ∈ key_images ins -> i ∉ st) /\ st' = st ∪ list_to_set (key_images ins).
Proof.
  induction ins as [|[i|i] ins IH]; intros st st'; cbn [haveSpentInputs].
  - intros [= <-]. split; [constructor|]. split; [intros i Hi; by apply elem_of_nil in Hi|]. cbn. by rewrite union_empty_r_L.
  - apply IH.
  - case_bool_decide as Hi; [done|]. intros (Hn & Hd & ->)%IH.
    change (key_images (InKey i :: ins)) with (keyImage i :: key_images ins). split; [|split].
    + constructor; [|done]. intros Hin. specialize (Hd _ Hin). set_solver.
    + intros x [->|Hx]%elem_of_cons; [done|]. specialize (Hd x Hx). set_solver.
    + cbn. by rewrite (comm_L (∪) {[keyImage i]} st), assoc_L by apply _.
Qed.

Lemma haveSpentInputs_grows ins : forall st, st ⊆ snd (haveSpentInputs st ins).
Proof.
  induction ins as [|[i|i] ins IH]; intros st; cbn [haveSpentInputs]; [done|apply IH|].
  case_bool_decide; [done|]. etrans; [|apply IH]. set_solver.
Qed.

Section Filling.
Variable E : Environment.
Context {P : Type} `{!ITransactionPool P} `{L : !TransactionPoolLaws (cn_fast_hash E) P}.
Abbreviation wrapper := (TransactionPoolCleanWrapper (P := P)).
Abbreviation hash := (getTransactionHash (cn_fast_hash E)).
Variables (now height M : Z) (p : wrapper).
Abbreviation ts := (ip_transactions (transactionPool p)).

(** A transaction the loops take out of the pool. *)
Definition stale (t : CachedTransaction) : Prop :=
  validateBlockTemplateTransaction t height = false /\
  exists r, ip_receiveTime (hash t) (transactionPool p) = Some r /\ MEVACOIN_MEMPOOL_TX_LIVETIME <= u64 (now - r).

Definition without (gone : list CachedTransaction) (m : gmap Hash (CachedTransaction * Z)) : gmap Hash (CachedTransaction * Z) :=
  foldr (fun t => delete (hash t)) m gone.

(** The state of the loops when [chosen] are in the template and [gone] out of
    the pool. *)
Record filled (chosen gone : list CachedTransaction) (f : filling) : Prop := {
  fl_hashes : f_transactionHashes f = map hash chosen;
  fl_sub t : t ∈ chosen -> t ∈ ts;
  fl_valid : Forall (fun t => validateBlockTemplateTransaction t height = true) chosen;
  fl_spent : NoDup (mjoin (map spent chosen));
  fl_checker i : i ∈ mjoin (map spent chosen) -> i ∈ spentInputsChecker f;
  fl_size : transactionsSize f = u64 (sumZ (map blobSize chosen));
  fl_limit : transactionsSize f <= M;
  fl_fee : f_fee f = u64 (sumZ (map fee chosen));
  fl_ok : ip_ok (transactionPool (f_pool f));
  fl_gone t : t ∈ gone -> t ∈ ts /\ stale t;
  fl_map : ip_map (transactionPool (f_pool f)) = without gone (ip_map (transactionPool p))
}.

Lemma without_lookup gone m h : without gone m !! h = if decide (h ∈ map hash gone) then None else m !! h.
Proof.
  induction gone as [|t gone IH]; cbn [without foldr map]; [by rewrite decide_False by apply not_elem_of_nil|].
  change (foldr (fun t => delete (hash t)) m gone) with (without gone m). destruct (decide (hash t = h)) as [<-|Hne].
  - rewrite lookup_delete_eq, decide_True by left. done.
  - rewrite lookup_delete_ne by done. rewrite IH. apply decide_ext. rewrite elem_of_cons. naive_solver.
Qed.

Lemma drop_old_filled chosen gone f t : ip_ok (transactionPool p) -> filled chosen gone f -> t ∈ ts ->
  validateBlockTemplateTransaction t height = false ->
  match drop_old E now t f with
  | None => t ∈ gone
  | Some f' => filled chosen gone f' \/ stale t /\ filled chosen (t :: gone) f'
  end.
Proof.
  intros Hp [] Ht Hv. unfold drop_old. rewrite (ip_receiveTime_map _ _ fl_ok0), fl_map0, without_lookup.
  case_decide as Hg.
  - cbn. apply list_elem_of_fmap in Hg as (t' & Eh & Hg). destruct (fl_gone0 t' Hg) as [Ht' _].
    pose proof (ip_transactions_get _ _ Hp Ht) as E1. pose proof (ip_transactions_get _ _ Hp Ht') as E2.
    rewrite Eh, E2 in E1. by injection E1 as <-.
  - pose proof (ip_transactions_get _ _ Hp Ht) as E1. destruct (ip_map (transactionPool p) !! hash t) as [[x r]|] eqn:Em; [|done].
    cbn in E1 |- *. injection E1 as ->. destruct (Z.leb_spec MEVACOIN_MEMPOOL_TX_LIVETIME (u64 (now - r))) as [Hold|]; [right|left; by split].
    assert (stale t) as Hs.
    { split; [done|]. exists r. rewrite (ip_receiveTime_map _ _ Hp), Em. done. }
    split; [done|]. unfold clean_removeTransaction. pose proof (ip_remove_ok _ (hash t) fl_ok0) as Ho. pose proof (ip_remove_map _ (hash t) fl_ok0) as Hm.
    destruct (ip_remove (hash t) (transactionPool (f_pool f))) as [b q]. cbn in Ho, Hm |- *. split; try done; cbn.
    + intros x [->|Hx]%elem_of_cons; [done|by apply fl_gone0].
    + by rewrite Hm, fl_map0.
Qed.

Lemma fill_step_filled limit count_fee chosen gone f t : ip_ok (transactionPool p) -> filled chosen gone f -> t ∈ ts ->
  limit <= M -> (count_fee = false -> fee t = 0) ->
  match fill_step E now height limit count_fee t f with
  | None => t ∈ gone
  | Some f' => exists chosen' gone', filled chosen' gone' f' /\ (gone' = gone \/ gone' = t :: gone)
  end.
Proof.
  intros Hp Hf Ht Hl Hc. unfold fill_step. destruct (Z.ltb_spec limit (u64 (transactionsSize f + blobSize t))) as [|Hfit]; [by exists chosen, gone; auto|].
  destruct (validateBlockTemplateTransaction t height) eqn:Hv; cbn [negb].
  2:{ pose proof (drop_old_filled chosen gone f t Hp Hf Ht Hv) as H. destruct (drop_old E now t f) as [f'|]; [|done].
      destruct H as [H|[_ H]]; eauto. }
  pose proof (haveSpentInputs_grows (inputs (getTransaction t)) (spentInputsChecker f)) as Hgrow.
  destruct Hf. destruct (haveSpentInputs _ _) as [[] checker] eqn:Es; cbn in Hgrow.
  - exists chosen, gone. split; [|by left]. split; try done. cbn. intros i Hi. apply Hgrow. by apply fl_checker0.
  - apply haveSpentInputs_new in Es as (Hn & Hd & ->). exists (chosen ++ [t]), gone. split; [|by left].
    assert (mjoin (map spent (chosen ++ [t])) = mjoin (map spent chosen) ++ spent t) as Ej
      by (rewrite map_app, join_app; cbn; by rewrite app_nil_r).
    split; cbn; try done.
    + by rewrite map_app, fl_hashes0.
    + intros x [Hx|Hx%list_elem_of_singleton]%elem_of_app; [by apply fl_sub0|by subst].
    + apply Forall_app. split; [done|by constructor].
    + rewrite Ej. apply NoDup_app. split; [done|]. split; [|done]. intros i Hi Hit. by apply (Hd i Hit), fl_checker0.
    + intros i. rewrite Ej. unfold spent at 2. set_solver.
    + rewrite fl_size0, wrap_add_l, map_app, sumZ_app by done. f_equal. cbn. lia.
    + lia.
    + rewrite map_app, sumZ_app. cbn. destruct count_fee; rewrite fl_fee0.
      * rewrite wrap_add_l by done. f_equal. lia.
      * rewrite (Hc eq_refl). f_equal. lia.
Qed.

(** Nothing leaves the pool twice in one loop. *)
Lemma fusion_loop_filled l : ip_ok (transactionPool p) -> m_fusionTxMaxSize (currency E) <= M -> NoDup l -> (forall t, t ∈ l -> t ∈ ts) ->
  forall chosen gone f, filled chosen gone f -> (forall t, t ∈ l -> t ∉ gone) ->
  exists f' chosen' gone', fusion_loop E now height l f = Some f' /\ filled chosen' gone' f' /\
    (forall t, t ∈ gone' -> t ∈ gone \/ fee t = 0).
Proof.
  intros Hp HM. induction 1 as [|t l Ht Hn IH]; intros Hl chosen gone f Hf Hg; cbn [fusion_loop]; [by exists f, chosen, gone; auto|].
  destruct (Z.eqb_spec (fee t) 0) as [H0|]; [|by exists f, chosen, gone; auto].
  pose proof (fill_step_filled (m_fusionTxMaxSize (currency E)) false chosen gone f t Hp Hf (Hl t ltac:(left)) HM ltac:(done)) as Hstep.
  destruct (fill_step _ _ _ _ _ _ _) as [f1|]; [|by destruct (Hg t ltac:(left))]. cbn [mbind option_bind].
  destruct Hstep as (c1 & g1 & Hf1 & Hg1).
  destruct (IH ltac:(intros x Hx; apply Hl; by right) c1 g1 f1 Hf1) as (f' & c' & g' & Hr & Hf' & Hg').
  { intros x Hx Hx1. destruct Hg1 as [->| ->]; [apply (Hg x); [by right|done]|].
    apply elem_of_cons in Hx1 as [->|Hx1]; [done|]. apply (Hg x); [by right|done]. }
  exists f', c', g'. split; [done|]. split; [done|]. intros x Hx. destruct (Hg' x Hx) as [Hx1|]; [|by right].
  destruct Hg1 as [->| ->]; [by left|]. apply elem_of_cons in Hx1 as [->|]; [by right|by left].
Qed.

Lemma fill_loop_filled medianSize maxTotalSize l : ip_ok (transactionPool p) -> medianSize <= M -> maxTotalSize <= M ->
  NoDup l -> (forall t, t ∈ l -> t ∈ ts) -> forall chosen gone f, filled chosen gone f ->
  match fill_loop E now height medianSize maxTotalSize l f with
  | Some f' => exists chosen' gone', filled chosen' gone' f'
  | None => exists t, t ∈ l /\ t ∈ gone
  end.
Proof.
  intros Hp H1 H2. induction 1 as [|t l Ht Hn IH]; intros Hl chosen gone f Hf; cbn [fill_loop]; [by exists chosen, gone|].
  set (limit := if fee t =? 0 then _ else _).
  pose proof (fill_step_filled limit true chosen gone f t Hp Hf (Hl t ltac:(left)) ltac:(unfold limit; by destruct (_ =? _)) ltac:(done)) as Hstep.
  destruct (fill_step _ _ _ _ _ _ _) as [f1|]; [|exists t; by split; [left|]]. cbn [mbind option_bind].
  destruct Hstep as (c1 & g1 & Hf1 & Hg1). specialize (IH ltac:(intros x Hx; apply Hl; by right) c1 g1 f1 Hf1).
  destruct (fill_loop _ _ _ _ _ _ _) as [f'|]; [done|]. destruct IH as (x & Hx & Hx1). exists x. split; [by right|].
  destruct Hg1 as [->| ->]; [done|]. by apply elem_of_cons in Hx1 as [->|].
Qed.
End Filling.

Section Filled.
Variable E : Environment.
Context {P : Type} `{!ITransactionPool P} `{L : !TransactionPoolLaws (cn_fast_hash E) P}.
Abbreviation wrapper := (TransactionPoolCleanWrapper (P := P)).
Abbreviation hash := (getTransactionHash (cn_fast_hash E)).
Implicit Types p : wrapper.

Lemma spent_NoDup (l : list CachedTransaction) : Forall (fun t => spent t <> []) l -> NoDup (mjoin (map spent l)) -> NoDup l.
Proof.
  induction 1 as [|t l Ht _ IH]; cbn; [constructor|]. intros (_ & Hd & Hn)%NoDup_app. constructor; [|by apply IH].
  intros Hin. destruct (spent t) as [|i l'] eqn:Es; [done|]. apply (Hd i); [left|]. apply list_elem_of_join.
  exists (spent t). split; [rewrite Es; left|]. by apply list_elem_of_fmap_2.
Qed.

Lemma transactions_NoDup p : ip_ok (transactionPool p) -> NoDup (ip_transactions (transactionPool p)).
Proof. intros Hp. pose proof (ip_hashes_NoDup _ Hp) as Hn. rewrite <- ip_transactions_hashes in Hn by done. by apply NoDup_fmap_1 in Hn. Qed.

Lemma hash_inj p t t' : ip_ok (transactionPool p) -> t ∈ ip_transactions (transactionPool p) ->
  t' ∈ ip_transactions (transactionPool p) -> hash t = hash t' -> t = t'.
Proof.
  intros Hp Ht Ht' Eh. pose proof (ip_transactions_get _ _ Hp Ht) as E1. pose proof (ip_transactions_get _ _ Hp Ht') as E2.
  rewrite Eh, E2 in E1. by injection E1.
Qed.

Lemma hash_map_inj p l : ip_ok (transactionPool p) -> (forall t, t ∈ l -> t ∈ ip_transactions (transactionPool p)) ->
  forall l', (forall t, t ∈ l' -> t ∈ ip_transactions (transactionPool p)) -> map hash l = map hash l' -> l = l'.
Proof.
  intros Hp. induction l as [|x l IH]; intros Hl [|y l'] Hl' Eh; try done. cbn in Eh. injection Eh as Ex El.
  f_equal; [apply (hash_inj p); [done|apply Hl; left|apply Hl'; left|done]|].
  apply IH; [intros z Hz; apply Hl; by right|intros z Hz; apply Hl'; by right|done].
Qed.

Lemma filled_NoDup now height M p chosen gone f : ip_ok (transactionPool p) ->
  Forall (fun t => spent t <> []) (ip_transactions (transactionPool p)) ->
  filled E now height M p chosen gone f -> NoDup (f_transactionHashes f).
Proof.
  intros Hp Hs []. rewrite fl_hashes0. rewrite Forall_forall in Hs.
  assert (NoDup chosen) as Hn by (apply spent_NoDup; [apply Forall_forall; auto|done]).
  clear - Hp Hn fl_sub0. induction Hn as [|t l Ht Hn IH]; cbn; constructor.
  - intros (t' & Eh & Hin)%list_elem_of_fmap. apply Ht. rewrite (hash_inj p t t'); [done|done| | |done]; apply fl_sub0; [left|by right].
  - apply IH. intros x Hx. apply fl_sub0. by right.
Qed.

(** The largest size of the transactions of a template. *)
Definition template_limit (cur : Currency) (medianSize maxCumulativeSize : Z) : Z :=
  Z.max (m_fusionTxMaxSize cur) (Z.max medianSize
    (u64 (Z.min (u64 (125 * medianSize) / 100) maxCumulativeSize - m_minerTxBlobReservedSize cur))).

Lemma fillBlockTemplate_filled now medianSize maxCumulativeSize height p : ip_ok (transactionPool p) ->
  match fillBlockTemplate E now medianSize maxCumulativeSize height p with
  | Some f => exists chosen gone, filled E now height (template_limit (currency E) medianSize maxCumulativeSize) p chosen gone f
  | None => exists t, t ∈ ip_transactions (transactionPool p) /\ fee t = 0 /\ stale E now height p t
  end.
Proof.
  intros Hp. unfold fillBlockTemplate. set (M := template_limit _ _ _). set (f0 := {| f_transactionHashes := [] |}).
  set (maxTotal := u64 (Z.min _ _ - _)). assert (0 <= maxTotal <= M) as HM.
  { pose proof (wrap_fits 64 ltac:(lia) (Z.min (u64 (125 * medianSize) / 100) maxCumulativeSize - m_minerTxBlobReservedSize (currency E))).
    unfold M, template_limit. fold maxTotal. unfold fits in *. lia. }
  assert (filled E now height M p [] [] f0) as H0.
  { split; cbn; try done; try lia; try (by apply NoDup_nil_2); try (by apply Forall_nil_2); intros ? Hx; by apply elem_of_nil in Hx. }
  pose proof (transactions_NoDup p Hp) as Hn. set (ts := ip_transactions (transactionPool p)) in *.
  destruct (fusion_loop_filled E now height M p (rev ts) Hp ltac:(unfold M, template_limit; lia)) with
    (chosen := @nil CachedTransaction) (gone := @nil CachedTransaction) (f := f0) as (f1 & c1 & g1 & -> & Hf1 & Hg1).
  - by rewrite <- (Permutation_rev ts).
  - intros t Ht. by rewrite <- (Permutation_rev ts) in Ht.
  - done.
  - intros t _ Ht. by apply elem_of_nil in Ht.
  - cbn [mbind option_bind].
    pose proof (fill_loop_filled E now height M p medianSize maxTotal ts Hp ltac:(unfold M, template_limit; lia) ltac:(lia) Hn ltac:(done) c1 g1 f1 Hf1) as H.
    destruct (fill_loop _ _ _ _ _ _ _) as [f|]; [done|]. destruct H as (t & Ht & Hg). exists t. split; [done|].
    destruct (Hg1 t Hg) as [Hx|Hx]; [by apply elem_of_nil in Hx|]. split; [done|]. by apply (fl_gone _ _ _ _ _ _ _ _ Hf1).
Qed.

(** C15. Filling a block template: the transactions that are chosen are in the
    pool, pass the rules of the next block, and share no key image; no hash is
    named twice, and size and fee are the sums over the chosen ones, the size
    within the limits.  The pool loses only transactions that are a day old and
    may not be in the block.  The loops meet a transaction they have removed, and
    ask for its receive time, only where a free transaction was removed. *)
Theorem fillBlockTemplate_sound now medianSize maxCumulativeSize height p : ip_ok (transactionPool p) ->
  Forall (fun t => spent t <> []) (ip_transactions (transactionPool p)) ->
  match fillBlockTemplate E now medianSize maxCumulativeSize height p with
  | Some f => NoDup (f_transactionHashes f) /\
      exists chosen gone, filled E now height (template_limit (currency E) medianSize maxCumulativeSize) p chosen gone f
  | None => exists t, t ∈ ip_transactions (transactionPool p) /\ fee t = 0 /\ stale E now height p t
  end.
Proof.
  intros Hp Hs. pose proof (fillBlockTemplate_filled now medianSize maxCumulativeSize height p Hp) as H.
  destruct (fillBlockTemplate _ _ _ _ _ _) as [f|]; [|done]. split; [|done]. destruct H as (chosen & gone & H).
  by eapply filled_NoDup.
Qed.
End Filled.

(** ** The coinbase transaction of a template *)

Lemma merge_outs_pos fuel maxOuts : forall l, (1 <= maxOuts)%nat -> Forall (fun x => 0 < x) l -> sumZ l < 2 ^ 64 ->
  Forall (fun x => 0 < x) (merge_outs fuel maxOuts l).
Proof.
  induction fuel as [|fuel IH]; intros l Hm Hl Hs; [done|]. cbn [merge_outs].
  destruct (Nat.ltb_spec maxOuts (length l)) as [Hlt|]; [|done].
  destruct (split_last_two l ltac:(lia)) as (l' & a & b & ->). rewrite !length_app in *. cbn [length] in *.
  rewrite !Nat.add_sub in *. replace (length l' + 2 - 1)%nat with (S (length l')) by lia.
  rewrite take_app_length, !app_nth2, Nat.sub_diag, Nat.sub_succ_l, Nat.sub_diag by lia. cbn [nth].
  apply Forall_app in Hl as [Hl' Hab]. apply Forall_cons in Hab as [Ha Hab]. apply Forall_cons in Hab as [Hb _].
  rewrite !sumZ_app, !sumZ_cons in Hs. cbn [sumZ foldr] in Hs.
  assert (0 <= sumZ l') by (clear -Hl'; induction Hl'; unfold sumZ in *; simpl; lia).
  rewrite wrap_small by (split; lia). apply IH; [done| |].
  - apply Forall_app. split; [done|]. constructor; [lia|constructor].
  - rewrite sumZ_app. cbn [sumZ foldr]. lia.
Qed.

(** What a coinbase transaction that was built is like. *)
Record pays (gen : PublicKey -> SecretKey -> option bytes) (derive : bytes -> nat -> PublicKey -> option PublicKey)
    (c : Currency) (height reward : Z) (tx : Transaction) : Prop := {
  py_inputs : inputs tx = [InBase {| blockIndex := height |}];
  py_unlock : unlockTime tx = u32 (height + m_minedMoneyUnlockWindow c);
  py_signatures : signatures tx = [];
  py_sum : sumZ (map to_amount (outputs tx)) = reward;
  py_reward : is_u64 reward;
  py_outputs : Forall (fun o => 0 < to_amount o /\ exists d no pub k, target o = OutKey {| key := k |} /\ derive d no pub = Some k)
    (outputs tx)
}.

Lemma miner_outputs_keys gen derive adr k l : forall no outs, miner_outputs gen derive adr k no l = Some outs ->
  Forall (fun o => exists d no pub k, target o = OutKey {| key := k |} /\ derive d no pub = Some k) outs.
Proof.
  induction l as [|x l IH]; intros no outs H; cbn [miner_outputs] in H; [by simplify_eq|].
  apply bind_Some in H as (d & _ & H). apply bind_Some in H as (pk & Hpk & H).
  apply bind_Some in H as (rest & Hr & [= <-]). apply Forall_cons. split; [|by eapply IH]. by exists d, no, (spendPublicKey adr), pk.
Qed.

Lemma constructMinerTx_inv gen derive c v height median already size fee adr nonce maxOuts txkey tx :
  wf_Currency c -> constructMinerTx c gen derive v height median already size fee adr nonce maxOuts txkey [] = Some tx ->
  exists reward change, getBlockReward c v median size already fee = Some (reward, change) /\ pays gen derive c height reward tx.
Proof.
  intros Hc H. unfold constructMinerTx in H. destruct (match nonce with [] => _ | _ => _ end) as [[] extra]; [|done].
  destruct (getBlockReward c v median size already fee) as [[reward change]|] eqn:E; [|done]. exists reward, change. split; [done|].
  destruct (Nat.leb_spec 1 maxOuts) as [Hmax|]; [|done]. cbn [negb] in H. apply bind_Some in H as (outs & Eo & H).
  destruct (negb _); [done|]. injection H as <-. assert (is_u64 reward) as Hr.
  { unfold getBlockReward in E. destruct (_ <? _); [done|]. injection E as <- _. apply wrap_fits. lia. }
  assert (0 <= defaultDustThreshold c height) as Hd.
  { unfold defaultDustThreshold. destruct (_ <=? _); [lia|apply Hc]. }
  destruct (decompose_parts reward _ Hr Hd) as [Esum HF]. unfold decomposeAmount in Esum, HF.
  set (l := decompose_amount_into_digits reward (defaultDustThreshold c height)) in *.
  assert (Forall (fun x => 0 < x) l) as Hpos by (eapply Forall_impl; [exact HF|]; simpl; lia).
  destruct (merge_outs_spec (length l) maxOuts l Hmax ltac:(lia)) as [Em _];
    [eapply Forall_impl; [exact Hpos|simpl; lia]|rewrite Esum; apply Hr|].
  pose proof (merge_outs_pos (length l) maxOuts l Hmax Hpos ltac:(rewrite Esum; apply Hr)) as Hpos'.
  pose proof (miner_outputs_amounts _ _ _ _ _ _ _ Eo) as Ea. pose proof (miner_outputs_keys _ _ _ _ _ _ _ Eo) as Hk.
  split; [done|done|done| |done|]; cbn [outputs tx_prefix]; [by rewrite Ea, Em|]. rewrite <- Ea in Hpos'.
  apply Forall_and. split; [|exact Hk]. by apply (Forall_fmap to_amount (fun x => 0 < x)) in Hpos'.
Qed.

Lemma object_size_nonneg tx : 0 <= object_size tx.
Proof. unfold object_size. destruct (toBinaryArray _ _); lia. Qed.

Lemma set_extra_id tx : set_extra (fun e => e ++ []) tx = tx.
Proof. destruct tx as [[]]. unfold set_extra. cbn. by rewrite app_nil_r. Qed.

(** The transaction of the last try, padded with zeros, has the size its reward
    was computed with. *)
Lemma fit_coinbase_sound keys construct size0 : forall tries calls size tx,
  fit_coinbase keys tries calls construct size0 size = Some tx ->
  exists key tx0 pad, construct (u64 (size0 + object_size tx)) key = Some tx0 /\
    tx = set_extra (fun e => e ++ replicate pad 0) tx0.
Proof.
  induction tries as [|tries IH]; intros calls size tx H; [done|]. cbn [fit_coinbase] in H.
  destruct (construct size (keys calls)) as [tx0|] eqn:Ec; [|done]. cbn [mbind option_bind] in H.
  destruct (u64 (size - size0) <? object_size tx0); [by eapply IH|].
  destruct (Z.ltb_spec (object_size tx0) (u64 (size - size0))) as [Hlt|_].
  - set (delta := u64 (u64 (size - size0) - object_size tx0)) in H.
    set (tx1 := set_extra (fun e => e ++ replicate (Z.to_nat delta) 0) tx0) in H.
    destruct (Z.eqb_spec size (u64 (size0 + object_size tx1))) as [E1|_].
    + injection H as <-. exists (keys calls), tx0, (Z.to_nat delta). by rewrite <- E1.
    + destruct (negb _); [done|]. set (tx2 := set_extra (fun e => take (length e - 1) e) tx1) in H.
      destruct (Z.eqb_spec size (u64 (size0 + object_size tx2))) as [E2|_]; [|by eapply IH].
      injection H as <-. exists (keys calls), tx0, (Z.to_nat delta - 1)%nat. rewrite <- E2. split; [done|].
      assert (0 < delta).
      { pose proof (object_size_nonneg tx0). pose proof (wrap_fits 64 ltac:(lia) (size - size0)) as Hw. unfold fits in Hw.
        unfold delta. rewrite (wrap_small 64 (u64 (size - size0) - object_size tx0)); mlia. }
      unfold tx2, tx1, set_extra. cbn. do 2 f_equal. rewrite length_app, length_replicate, take_app_ge by lia.
      f_equal. rewrite take_replicate. f_equal. lia.
  - destruct (Z.eqb_spec size (u64 (size0 + object_size tx0))) as [E1|]; [|done]. injection H as <-.
    exists (keys calls), tx0, 0%nat. rewrite <- E1. split; [done|]. symmetry. apply set_extra_id.
Qed.

(** ** Times and limits *)

Lemma mapM_indexes {A B} (f : A -> B) (g : Z -> option B) (l : list A) first n : 0 <= first -> 0 <= n ->
  first + n <= Z.of_nat (length l) -> (forall i, first <= i < first + n -> g i = f <$> l !! Z.to_nat i) ->
  mapM g (indexes_from first (first + n - 1)) = Some (map f (slice l first (first + n))).
Proof.
  intros H0 Hn Hl Hg. apply mapM_Some. unfold indexes_from. replace (first + n - 1 + 1 - first) with n by lia.
  pose proof (slice_length l first (first + n) ltac:(lia) ltac:(lia)) as Hs.
  apply Forall2_same_length_lookup. split; [rewrite !length_map, length_seq; lia|].
  intros j x y Hx Hy. apply list_lookup_fmap_Some in Hy as (a & -> & Ea). apply list_lookup_fmap_Some in Hx as (m & -> & Hx).
  apply lookup_lt_Some in Ea as Hlt. rewrite lookup_seq_lt in Hx by lia. injection Hx as <-.
  rewrite Hg by lia. unfold slice in Ea. rewrite lookup_take_lt, lookup_drop in Ea by lia.
  replace (Z.to_nat (first + Z.of_nat j)) with (Z.to_nat first + j)%nat by lia. by rewrite Ea.
Qed.

Section Times.
Variable E : Environment.
Context {P : Type} `{!ITransactionPool P}.
Implicit Types k : Core (P := P).

Lemma main_units k count i g pred : core_wf E k -> 0 <= i < height (main_chain k) ->
  getLastUnits count i g pred (main_chain k) = map pred (lastn count (blocks_upto g i (main_blocks k))).
Proof.
  intros Hk Hi. destruct (main_height E k Hk) as (Hwf & _ & _ & Hne). destruct (main_chain k) as [|s c] eqn:Ec.
  { change (height []) with 0 in Hi. lia. }
  unfold main_blocks, blocks. fold (main_chain k). rewrite Ec. by apply getLastUnits_flat.
Qed.

Lemma getBlockTimestampByIndex_flat k i : core_wf E k -> 0 <= i < height (main_chain k) ->
  getBlockTimestampByIndex i k = cbi_timestamp <$> main_blocks k !! Z.to_nat i.
Proof.
  intros Hk Hi. unfold getBlockTimestampByIndex, getLastTimestamps. rewrite main_units by done. unfold addGenesisBlock, blocks_upto.
  rewrite list_lookup_fmap. f_equal. unfold lastn. rewrite length_take, lookup_drop. unfold height in Hi.
  change (chain_blocks (main_chain k)) with (main_blocks k) in Hi. rewrite lookup_take_lt by lia. f_equal. lia.
Qed.

(** The timestamp of a template is not behind the median of the last [window]
    blocks, whatever the clock shows. *)
Lemma template_timestamp_median k now ts : core_wf E k -> template_timestamp now (height (main_chain k)) k = Some ts ->
  let window := if LWMA_2_DIFFICULTY_BLOCK_INDEX <=? height (main_chain k) then BLOCKCHAIN_TIMESTAMP_CHECK_WINDOW_V3
                else BLOCKCHAIN_TIMESTAMP_CHECK_WINDOW in
  let timestamps := getLastTimestamps (Z.to_nat window) (height (main_chain k) - 1) addGenesisBlock (main_chain k) in
  u64 now <= ts /\ (window <= Z.of_nat (length timestamps) -> medianValue timestamps <= ts).
Proof.
  intros Hk Ht. cbv zeta. destruct (main_height E k Hk) as (_ & _ & Hh & _). set (h := height (main_chain k)) in *.
  unfold template_timestamp in Ht. set (window := if LWMA_2_DIFFICULTY_BLOCK_INDEX <=? h then _ else _) in *.
  assert (0 < window) as Hw by (unfold window; by destruct (_ <=? _)).
  assert (length (main_blocks k) = Z.to_nat h) as Hl by (unfold h, height; by rewrite Nat2Z.id).
  unfold getLastTimestamps. rewrite main_units by (done || lia). unfold addGenesisBlock, blocks_upto, lastn.
  rewrite (take_ge (main_blocks k)) by lia. rewrite length_map, length_drop, Hl.
  destruct (Z.leb_spec window h) as [Hle|Hgt].
  - replace (h - 1) with (h - window + window - 1) in Ht by lia.
    rewrite (mapM_indexes cbi_timestamp _ (main_blocks k)) in Ht;
      [|lia|lia|lia|intros; apply getBlockTimestampByIndex_flat; [done|lia]].
    cbn [mbind option_bind] in Ht. rewrite slice_all in Ht by lia.
    replace (Z.to_nat (h - window)) with (Z.to_nat h - Z.to_nat window)%nat in Ht by lia.
    destruct (Z.ltb_spec (u64 now) (medianValue (map cbi_timestamp (drop (Z.to_nat h - Z.to_nat window) (main_blocks k)))));
      injection Ht as <-; lia.
  - injection Ht as <-. lia.
Qed.
End Times.

(** ** A mined block *)

Lemma lastn_min {A} n (l : list A) : lastn (Nat.min (length l) n) l = lastn n l.
Proof. unfold lastn. f_equal. lia. Qed.

Lemma is_unique_NoDup l : NoDup l -> is_unique l = true.
Proof.
  unfold is_unique. assert (forall seen, (forall h, h ∈ l -> h ∉ seen) -> NoDup l -> is_unique_loop seen l = true) as H.
  { induction l as [|h l IH]; intros seen Hs Hn; [done|]. cbn [is_unique_loop]. apply NoDup_cons in Hn as [Hh Hn].
    rewrite bool_decide_eq_false_2 by (apply Hs; left). apply IH; [|done]. intros x Hx.
    assert (x ∉ seen) by (apply Hs; by right). set_solver. }
  apply H. set_solver.
Qed.

Lemma extractTransactions_total cur ts : Forall is_CachedTransaction ts -> Forall (fun t => blobSize t <= m_maxTxSize cur) ts ->
  extractTransactions cur (map getTransactionBinaryArray ts) = Some (ts, u64 (sumZ (map blobSize ts))).
Proof.
  induction 1 as [|t ts Ht Hts IH]; [done|]. intros [Hs Hss]%Forall_cons. cbn [map extractTransactions].
  unfold blobSize in Hs. rewrite (proj2 (Z.ltb_ge _ _)) by lia.
  rewrite (proj2 (CachedTransaction_agree t Ht)). cbn [mbind option_bind]. rewrite IH by done. cbn [mbind option_bind].
  rewrite wrap_add_r by lia. done.
Qed.

Lemma mixins_all ts height : Forall (fun t => Mixins.validate [t] height = true) ts -> Mixins.validate ts height = true.
Proof.
  unfold Mixins.validate. destruct (Mixins.getMixinAllowableRange height) as [[lo hi] d].
  induction 1 as [|t ts Ht _ IH]; [done|]. cbn [Mixins.validate_loop] in *. destruct (Mixins.validate_transaction _ _ _); done.
Qed.

Lemma fee_tx_fee t : Forall is_key_input (inputs (getTransaction t)) -> fee t = u64 (tx_fee t).
Proof.
  intros Hk. unfold fee, getTransactionFee, tx_fee. rewrite getOutputAmount_sum.
  set (out := sumZ (map to_amount (outputs (getTransaction t)))).
  assert (forall ins acc, Forall is_key_input ins ->
    (fix go (ins : list TransactionInput) (s : Z) : Z := match ins with [] => u64 (s - u64 out) | InKey i :: ins => go ins (u64 (s + ki_amount i)) | InBase _ :: _ => 0 end) ins (u64 acc)
    = u64 (acc + sumZ (map input_amount ins) - out)) as H.
  { induction ins as [|[i|i] ins IH]; intros acc Hf.
    - rewrite wrap_sub_r, wrap_sub_l by lia. f_equal. cbn. lia.
    - by apply Forall_cons in Hf as [].
    - apply Forall_cons in Hf as [_ Hf]. rewrite wrap_add_l, IH by (done || lia). f_equal. cbn. unfold sumZ. lia. }
  apply (H _ 0 Hk).
Qed.

Lemma sum_wrapped {A} (f : A -> Z) l : u64 (sumZ (map (fun x => u64 (f x)) l)) = u64 (sumZ (map f l)).
Proof.
  induction l as [|x l IH]; [done|]. cbn [map]. rewrite !sumZ_cons, wrap_add_l by lia.
  rewrite <- wrap_add_r, IH, wrap_add_r by lia. done.
Qed.

Section Mined.
Variable E : Environment.
Context {P : Type} `{!ITransactionPool P} `{L : !TransactionPoolLaws (cn_fast_hash E) P}.
Variable gen : PublicKey -> SecretKey -> option bytes.
Variable derive : bytes -> nat -> PublicKey -> option PublicKey.
Variable keys : nat -> KeyPair.
Abbreviation Core := (Core (P := P)).
Abbreviation hash := (getTransactionHash (cn_fast_hash E)).
Abbreviation cur := (currency E).
Abbreviation accept now b raw c := (acceptBlock (check_key E) (in_prime_subgroup E) (cn_fast_hash E) (checkRingSignature E) cur
  (checkpoints E) now (cn_slow_hash_v0 E) (cn_lite_slow_hash_v1 E) (cn_turtle_lite_slow_hash_v2 E) (genesisHash E) b raw c).
Implicit Types k : Core.

Definition sizes (useGenesis : bool) k : list Z :=
  getLastBlocksSizes (Z.to_nat (m_rewardBlocksWindow cur)) (core_getTopBlockIndex k) useGenesis (main_chain k).

(** Where the template and the validation of a block see the same rules: no
    upgrade between the top and the next block, the same window of timestamps,
    and a median size that does not depend on the genesis block. *)
Record same_rules k : Prop := {
  sr_version : getBlockMajorVersionForHeight E (height (main_chain k) - 1) = getBlockMajorVersionForHeight E (height (main_chain k));
  sr_window : timestampCheckWindow cur (height (main_chain k)) =
    if LWMA_2_DIFFICULTY_BLOCK_INDEX <=? height (main_chain k) then BLOCKCHAIN_TIMESTAMP_CHECK_WINDOW_V3 else BLOCKCHAIN_TIMESTAMP_CHECK_WINDOW;
  sr_median : effective_median cur (getBlockMajorVersionForHeight E (height (main_chain k))) (medianValue (sizes true k)) =
    effective_median cur (getBlockMajorVersionForHeight E (height (main_chain k))) (medianValue (sizes false k));
  sr_range : 0 <= medianValue (sizes false k) < 2 ^ 31
}.

(** A block somebody mined on the template [t] with the transactions [ts] it
    names: nonce and parent block are free, the work is done, and the
    transactions are still valid. *)
Record mined (now : Z) (t : BlockTemplate) (difficulty : Z) (ts : list CachedTransaction) (b : CachedBlock) (raw : RawBlock) k : Prop := {
  mi_major : majorVersion (getBlock b) = majorVersion t;
  mi_previous : previousBlockHash (getBlock b) = previousBlockHash t;
  mi_timestamp : timestamp (getBlock b) = timestamp t;
  mi_base : baseTransaction (getBlock b) = baseTransaction t;
  mi_names : transactionHashes (getBlock b) = transactionHashes t;
  mi_hashes : map hash ts = transactionHashes t;
  mi_pool x : x ∈ ts -> x ∈ ip_transactions (transactionPool (pool k));
  mi_raw : rb_transactions raw = map getTransactionBinaryArray ts;
  mi_parent : BLOCK_MAJOR_VERSION_2 <= majorVersion t ->
    pb_majorVersion (parentBlock (getBlock b)) <= BLOCK_MAJOR_VERSION_1 /\
    exists ba, getParentBlockBinaryArray (cn_fast_hash E) (getBlock b) = Some ba /\ Z.of_nat (length ba) <= 2048;
  mi_future : timestamp t <= u64 (now + blockFutureTimeLimit cur (height (main_chain k)));
  mi_sizes : Forall (fun x => blobSize x <= m_maxTxSize cur) ts;
  mi_total : u64 (object_size (baseTransaction t) + u64 (sumZ (map blobSize ts))) <= maxBlockCumulativeSize cur (height (main_chain k));
  mi_valid : exists r, validate_transactions (check_key E) (in_prime_subgroup E) (cn_fast_hash E) (checkRingSignature E) cur (checkpoints E) now
    ts {| Pool.spentKeyImages := ∅ |} (main_chain k) (core_getTopBlockIndex k) 0 = inl r;
  mi_work : check_work (cn_fast_hash E) (checkpoints E) (cn_slow_hash_v0 E) (cn_lite_slow_hash_v1 E) (cn_turtle_lite_slow_hash_v2 E)
    (genesisHash E) b difficulty = inl tt
}.

Lemma core_difficulty k : core_wf E k -> same_rules k ->
  core_getDifficultyForNextBlock E k = getDifficultyForNextBlock cur (core_getTopBlockIndex k) (main_chain k).
Proof.
  intros Hk Hs. destruct (main_height E k Hk) as (_ & Etop & Hh & _). unfold core_getDifficultyForNextBlock, getDifficultyForNextBlock.
  rewrite Etop. rewrite Z.sub_add, (wrap_small 32 (height _)) by mlia. change (Upgrades.getBlockMajorVersion ?h (Upgrades.core_upgrades cur)) with (getBlockMajorVersionForHeight E h).
  rewrite (sr_version _ Hs). set (v := getBlockMajorVersionForHeight E _). set (h := height (main_chain k)) in *.
  unfold getLastTimestamps, getLastCumulativeDifficulties. rewrite !(main_units E) by (done || lia).
  set (l := blocks_upto false (h - 1) (main_blocks k)). assert (length l = Z.to_nat (h - 1)) as Hl.
  { unfold l, blocks_upto. rewrite length_drop, length_take. change (length (main_blocks k)) with (length (chain_blocks (main_chain k))).
    unfold h, height in *. lia. }
  rewrite Z2Nat.inj_min, <- Hl, lastn_min. done.
Qed.

Lemma top_index k h : core_wf E k -> core_getTopBlockHash k = Some h ->
  exists s c, main_chain k = s :: c /\ segment_getBlockIndex h s = Some (height (main_chain k) - 1).
Proof.
  intros Hk Hh. pose proof (fw_tree _ _ _ (cw_forest _ _ Hk)) as Hwf. destruct (main_leaf_elem E k Hk) as (n & Hn & _).
  destruct (main_height E k Hk) as (_ & _ & Hht & _).
  pose proof (chain_of_cons _ _ n Hwf Hn) as Ec. fold (main_chain k) in Ec. eexists _, _. split; [exact Ec|].
  assert (hasBlock h (seg n) = true) as Hb.
  { unfold core_getTopBlockHash in Hh. rewrite Ec in Hh. destruct (last (blockInfos (seg n))) as [x|] eqn:El; [|done]. injection Hh as <-.
    apply existsb_exists. exists x. split; [by apply list_elem_of_In, last_Some_elem_of|by apply bool_decide_eq_true]. }
  destruct (hasBlock_index h (seg n) Hb) as [i Hi]. rewrite Hi. f_equal.
  destruct (getBlockIndex_place _ _ _ _ _ Hwf Hn Hi) as [H0 Hp]. fold (main_blocks k) in Hp.
  rewrite (core_getTopBlockHash_last E k Hk), last_lookup in Hh.
  assert (length (hashes (main_blocks k)) = length (main_blocks k)) as Hlen by apply length_map. rewrite Hlen in Hh.
  pose proof (NoDup_lookup _ _ _ _ (main_NoDup E k Hk) Hh Hp). unfold height.
  change (chain_blocks (main_chain k)) with (main_blocks k). unfold height in Hht. change (chain_blocks (main_chain k)) with (main_blocks k) in Hht. lia.
Qed.

(** The size of a block from which on its reward shrinks. *)
Lemma template_median k : core_wf E k -> wf_Currency cur -> same_rules k ->
  calculateCumulativeBlocksizeLimit E (height (main_chain k)) k / 2 =
  effective_median cur (getBlockMajorVersionForHeight E (height (main_chain k))) (medianValue (sizes false k)).
Proof.
  intros Hk Hc Hs. unfold calculateCumulativeBlocksizeLimit, effective_median. fold (sizes false k).
  set (m := medianValue _). set (z := blockGrantedFullRewardZoneByBlockVersion _ _). pose proof (sr_range k Hs) as Hm. fold m in Hm.
  assert (0 <= z < 2 ^ 31) as Hz.
  { unfold z, blockGrantedFullRewardZoneByBlockVersion. destruct (_ <=? _); [apply Hc|]. by destruct (_ =? _). }
  destruct (Z.leb_spec m z); rewrite wrap_small by mlia; rewrite Z.div_mul by lia; lia.
Qed.

Lemma getBlockReward_median v m m' size coins f : effective_median cur v m = effective_median cur v m' ->
  getBlockReward cur v m size coins f = getBlockReward cur v m' size coins f.
Proof. unfold effective_median, getBlockReward. by intros ->. Qed.

(** What a template is made of. *)
Record made now k (t : BlockTemplate) (difficulty : Z) : Prop := {
  md_difficulty : core_getDifficultyForNextBlock E k = Some difficulty /\ difficulty <> 0;
  md_major : majorVersion t = getBlockMajorVersionForHeight E (height (main_chain k));
  md_previous : core_getTopBlockHash k = Some (previousBlockHash t);
  md_timestamp : template_timestamp now (height (main_chain k)) k = Some (timestamp t);
  md_body : exists coins M chosen gone f reward change,
    getAlreadyGeneratedCoins (core_getTopBlockIndex k) (main_chain k) = Some coins /\
    filled E now (height (main_chain k)) M (pool k) chosen gone f /\ transactionHashes t = f_transactionHashes f /\
    getBlockReward cur (majorVersion t) (calculateCumulativeBlocksizeLimit E (height (main_chain k)) k / 2)
      (u64 (transactionsSize f + object_size (baseTransaction t))) coins (f_fee f) = Some (reward, change) /\
    pays gen derive cur (height (main_chain k)) reward (baseTransaction t)
}.

Lemma getBlockTemplate_made now adr nonce k t difficulty h k' : core_wf E k -> wf_Currency cur ->
  ip_ok (transactionPool (pool k)) -> getBlockTemplate E gen derive keys now adr nonce k = (inl (t, difficulty, h), k') ->
  h = height (main_chain k) /\ made now k t difficulty.
Proof.
  intros Hk Hc Hp H. destruct (main_height E k Hk) as (_ & Etop & Hh & _). unfold getBlockTemplate in H.
  rewrite Etop, Z.sub_add, (wrap_small 32 (height _)) in H by mlia.
  destruct (core_getDifficultyForNextBlock E k) as [d|] eqn:Ed; [|done]. destruct (Z.eqb_spec d 0) as [|Hd]; [done|].
  destruct (if _ <=? _ then template_parent else Some no_parent) as [pb|]; [|done].
  destruct (core_getTopBlockHash k) as [prev|] eqn:Eprev; [|done].
  destruct (template_timestamp now (height (main_chain k)) k) as [ts|] eqn:Ets; [|done].
  destruct (getAlreadyGeneratedCoins (height (main_chain k) - 1) (main_chain k)) as [coins|] eqn:Ecoins; [|done].
  destruct (fillBlockTemplate E now _ _ (height (main_chain k)) (pool k)) as [f|] eqn:Ef; [|done].
  pose proof (fillBlockTemplate_filled E now (calculateCumulativeBlocksizeLimit E (height (main_chain k)) k / 2)
    (maxBlockCumulativeSize cur (height (main_chain k))) (height (main_chain k)) (pool k) Hp) as Hf. rewrite Ef in Hf.
  destruct Hf as (chosen & gone & Hf). destruct (constructMinerTx _ _ _ _ _ _ _ _ _ _ _ _ (keys 0%nat) []) as [first|]; [|done].
  cbn [mbind option_bind] in H. destruct (fit_coinbase _ _ _ _ _ _) as [base|] eqn:Eb; [|done].
  injection H as <- <- <- <-. split; [done|]. apply fit_coinbase_sound in Eb as (key & tx0 & pad & Econ & Epad).
  apply constructMinerTx_inv in Econ as (reward & change & Er & Hpay); [|done].
  split; [done|done|done|done|]. cbn [baseTransaction transactionHashes majorVersion header]. rewrite Etop, Ecoins.
  eexists coins, _, chosen, gone, f, reward, change. split; [done|]. split; [exact Hf|]. split; [done|]. split; [exact Er|].
  rewrite Epad. destruct Hpay. by split.
Qed.

Section Steps.
Context (now now' : Z) k (t : BlockTemplate) (difficulty : Z) (ts : list CachedTransaction) (b : CachedBlock) (raw : RawBlock).
Context (Hk : core_wf E k) (Hc : wf_Currency cur) (Hp : ip_ok (transactionPool (pool k)))
  (Hsp : Forall (fun x => spent x <> []) (ip_transactions (transactionPool (pool k)))) (Hs : same_rules k).
Context (Hmade : made now k t difficulty) (Hmined : mined now' t difficulty ts b raw k).

Lemma mined_index reward : pays gen derive cur (height (main_chain k)) reward (baseTransaction t) -> cb_index b = height (main_chain k).
Proof. intros Hpay. unfold cb_index, getBlockIndex. rewrite (mi_base _ _ _ _ _ _ _ Hmined), (py_inputs _ _ _ _ _ _ Hpay). done. Qed.

Lemma mined_version : cb_index b = height (main_chain k) -> validate_version (cn_fast_hash E) cur b = inl tt.
Proof.
  intros Hi. unfold validate_version. rewrite Hi, (mi_major _ _ _ _ _ _ _ Hmined).
  pose proof (md_major _ _ _ _ Hmade) as Hv. unfold getBlockMajorVersionForHeight in Hv. rewrite <- Hv, Z.eqb_refl. cbn [guard_or].
  cbn [mbind checked_bind]. destruct (Z.leb_spec BLOCK_MAJOR_VERSION_2 (majorVersion t)) as [H2|]; [|done].
  destruct (mi_parent _ _ _ _ _ _ _ Hmined H2) as (Hpb & ba & Eba & Hlen). rewrite Eba, (proj2 (Z.ltb_ge _ _)) by lia.
  rewrite andb_false_r. cbn [negb guard_or mbind checked_bind of_option]. by rewrite (proj2 (Z.ltb_ge 2048 _)) by lia.
Qed.

Lemma mined_timestamp : validate_timestamp cur now' (getBlock b) (height (main_chain k) - 1) (main_chain k) = inl tt.
Proof.
  destruct (main_height E k Hk) as (_ & _ & Hh & _). unfold validate_timestamp. rewrite Z.sub_add, (wrap_small 32 (height _)) by mlia.
  rewrite (mi_timestamp _ _ _ _ _ _ _ Hmined). pose proof (mi_future _ _ _ _ _ _ _ Hmined).
  rewrite (proj2 (Z.ltb_ge (u64 (now' + _)) (timestamp t))) by lia. cbn [negb guard_or mbind checked_bind]. rewrite (sr_window _ Hs).
  destruct (template_timestamp_median E k now _ Hk (md_timestamp _ _ _ _ Hmade)) as [_ Hmed]. cbv zeta in Hmed.
  set (w := if LWMA_2_DIFFICULTY_BLOCK_INDEX <=? _ then _ else _) in *. set (l := getLastTimestamps _ _ _ _) in *.
  destruct (Z.leb_spec w (Z.of_nat (length l))) as [Hw|]; [|done]. by rewrite (proj2 (Z.ltb_ge _ _)) by (apply Hmed; lia).
Qed.

Lemma mined_coinbase reward : pays gen derive cur (height (main_chain k)) reward (baseTransaction t) ->
  validate_coinbase cur b (height (main_chain k) - 1) = inl tt.
Proof.
  intros Hpay. destruct (main_height E k Hk) as (_ & _ & Hh & _). unfold validate_coinbase.
  rewrite (mi_base _ _ _ _ _ _ _ Hmined), (py_inputs _ _ _ _ _ _ Hpay), Z.sub_add, (wrap_small 32 (height _)) by mlia. cbn [blockIndex].
  rewrite Z.eqb_refl, (py_unlock _ _ _ _ _ _ Hpay), Z.eqb_refl, (py_signatures _ _ _ _ _ _ Hpay). cbn. by rewrite andb_false_r.
Qed.

Lemma mined_outputs reward : (forall d no pub key, derive d no pub = Some key -> check_key E key = true) ->
  pays gen derive cur (height (main_chain k)) reward (baseTransaction t) ->
  validate_outputs (check_key E) 0 (outputs (baseTransaction t)) = inl reward.
Proof.
  intros Hck [_ _ _ Hsum Hr Ho]. assert (forall l, Forall (fun o => 0 < to_amount o) l -> Forall (fun o => to_amount o <= sumZ (map to_amount l)) l /\ 0 <= sumZ (map to_amount l)) as Hle.
  { induction 1 as [|o l Hpos _ [IH IH0]]; [split; [constructor|done]|]. cbn [map]. rewrite sumZ_cons. split; [|lia].
    constructor; [lia|]. eapply Forall_impl; [exact IH|]. cbn. lia. }
  apply Forall_and in Ho as [Hpos Hkeys]. destruct (Hle _ Hpos) as [Hbound _]. rewrite Hsum in Hbound.
  apply validate_outputs_spec; [|split; [lia|done]|].
  - apply Forall_forall. intros o Hin. rewrite Forall_forall in Hpos, Hbound. specialize (Hpos o Hin). specialize (Hbound o Hin). unfold is_u64 in *. unfold fits in *. lia.
  - split; [|split; [lia|apply Hr]]. apply Forall_forall. intros o Hin. rewrite Forall_forall in Hpos, Hkeys.
    specialize (Hpos o Hin). destruct (Hkeys o Hin) as (d & no & pub & key & Et & Ed). unfold good_output. rewrite Et.
    split; [lia|by eapply Hck].
Qed.

Lemma mined_shuffle : NoDup (transactionHashes t) -> check_shuffle (cn_fast_hash E) (getBlock b) (cb_index b) ts = inl tt.
Proof.
  intros Hn. unfold check_shuffle. destruct (_ <=? _); [|done]. rewrite (mi_names _ _ _ _ _ _ _ Hmined), (mi_hashes _ _ _ _ _ _ _ Hmined).
  rewrite is_unique_NoDup, bool_decide_eq_true_2 by done. cbn [guard_or mbind checked_bind].
  replace (forallb _ _) with true; [done|]. symmetry. apply forallb_forall. intros h Hin. apply bool_decide_eq_true. by apply list_elem_of_In.
Qed.

Lemma chosen_are chosen gone f M : filled E now (height (main_chain k)) M (pool k) chosen gone f ->
  transactionHashes t = f_transactionHashes f -> ts = chosen.
Proof.
  intros Hf Et. pose proof (mi_hashes _ _ _ _ _ _ _ Hmined) as Eh. rewrite Et, (fl_hashes _ _ _ _ _ _ _ _ Hf) in Eh.
  apply (hash_map_inj E (pool k)); [done|apply (mi_pool _ _ _ _ _ _ _ Hmined)|apply (fl_sub _ _ _ _ _ _ _ _ Hf)|done].
Qed.

Lemma mined_fee st fees : Forall poolable ts ->
  validate_transactions (check_key E) (in_prime_subgroup E) (cn_fast_hash E) (checkRingSignature E) cur (checkpoints E) now'
    ts {| Pool.spentKeyImages := ∅ |} (main_chain k) (core_getTopBlockIndex k) 0 = inl (fees, st) ->
  fees = u64 (sumZ (map fee ts)).
Proof.
  intros Hpl Hv. apply validate_transactions_spec in Hv as (_ & _ & _ & _ & -> & _);
    [|eapply Forall_impl; [exact Hpl|by intros x [[] _]]|mlia].
  rewrite Z.add_0_l, <- sum_wrapped. do 2 f_equal. apply map_ext_in. intros x Hx. symmetry. apply fee_tx_fee.
  rewrite Forall_forall in Hpl. apply list_elem_of_In in Hx. by destruct (Hpl x Hx) as (_ & Hin & _).
Qed.

Lemma mined_mixins M chosen gone f : filled E now (height (main_chain k)) M (pool k) chosen gone f ->
  cb_index b = height (main_chain k) -> check_mixins (cb_index b) chosen = inl tt.
Proof.
  intros Hf ->. unfold check_mixins. rewrite (mixins_all chosen); [done|].
  eapply Forall_impl; [apply (fl_valid _ _ _ _ _ _ _ _ Hf)|]. intros x. cbn. unfold validateBlockTemplateTransaction. by destruct (_ <=? _).
Qed.

(** The reward is that of the finished block. *)
Lemma mined_reward M chosen gone f coins reward change : filled E now (height (main_chain k)) M (pool k) chosen gone f ->
  getBlockReward cur (majorVersion t) (calculateCumulativeBlocksizeLimit E (height (main_chain k)) k / 2)
    (u64 (transactionsSize f + object_size (baseTransaction t))) coins (f_fee f) = Some (reward, change) ->
  getBlockReward cur (majorVersion (getBlock b)) (medianValue (sizes true k))
    (u64 (object_size (baseTransaction (getBlock b)) + u64 (sumZ (map blobSize chosen)))) coins (u64 (sumZ (map fee chosen))) = Some (reward, change).
Proof.
  intros Hf Er. rewrite (template_median k Hk Hc Hs), (fl_size _ _ _ _ _ _ _ _ Hf), (fl_fee _ _ _ _ _ _ _ _ Hf) in Er.
  rewrite (mi_base _ _ _ _ _ _ _ Hmined), (mi_major _ _ _ _ _ _ _ Hmined), (Z.add_comm (object_size _)).
  rewrite <- Er. apply getBlockReward_median. pose proof (sr_median _ Hs) as Hm. rewrite <- (md_major _ _ _ _ Hmade) in Hm |- *.
  rewrite Hm. unfold effective_median. lia.
Qed.

Lemma mined_accepted : (forall d no pub key, derive d no pub = Some key -> check_key E key = true) ->
  exists a, accept now' b raw (main_chain k) = inl a /\ ac_transactions a = ts /\ ac_difficulty a = difficulty.
Proof.
  intros Hck. destruct (main_height E k Hk) as (_ & Etop & Hh & _).
  destruct (md_body _ _ _ _ Hmade) as (coins & M & chosen & gone & f & reward & change & Ecoins & Hf & Et & Er & Hpay).
  pose proof (chosen_are _ _ _ _ Hf Et) as <-. pose proof (mined_index _ Hpay) as Hi.
  assert (Forall poolable ts) as Hpl.
  { apply Forall_forall. intros x Hx. pose proof (ip_transactions_poolable _ Hp) as Ha. rewrite Forall_forall in Ha.
    by apply Ha, (mi_pool _ _ _ _ _ _ _ Hmined). }
  assert (NoDup (transactionHashes t)) as Hn by (rewrite Et; by eapply filled_NoDup).
  destruct (top_index k _ Hk (md_previous _ _ _ _ Hmade)) as (s & c & Ec & Hidx).
  destruct (md_difficulty _ _ _ _ Hmade) as [Ed Hd0]. rewrite (core_difficulty k Hk Hs), Etop in Ed.
  destruct (mi_valid _ _ _ _ _ _ _ Hmined) as [[fees st] Hv]. pose proof (mined_fee st fees Hpl Hv) as ->. rewrite Etop in Hv, Ecoins.
  pose proof (mined_version Hi) as Hver. pose proof mined_timestamp as Hts. pose proof (mined_coinbase _ Hpay) as Hcb.
  pose proof (mined_outputs _ Hck Hpay) as Hout. pose proof (mined_shuffle Hn) as Hshuf. pose proof (mined_mixins _ _ _ _ Hf Hi) as Hmix.
  pose proof (mi_total _ _ _ _ _ _ _ Hmined) as Htot. pose proof (mined_reward _ _ _ _ _ _ _ Hf Er) as Hrew.
  rewrite <- (mi_base _ _ _ _ _ _ _ Hmined) in Htot, Hout. unfold sizes in Hrew. rewrite Etop in Hrew.
  unfold acceptBlock. clear Hf Etop Er. rewrite Ec in *. fold (object_size (baseTransaction (getBlock b))).
  rewrite (mi_raw _ _ _ _ _ _ _ Hmined), extractTransactions_total;
    [|eapply Forall_impl; [exact Hpl|by intros x []]|apply (mi_sizes _ _ _ _ _ _ _ Hmined)].
  cbn [of_option mbind checked_bind]. unfold validateBlock. rewrite (mi_previous _ _ _ _ _ _ _ Hmined), Hidx. cbn [of_option mbind checked_bind].
  rewrite Z.sub_add, (wrap_small 32 (height _)), (proj2 (Z.ltb_ge _ _)) by (mlia || done). cbn [negb guard_or].
  rewrite Hver, Hts, Hcb, Hout, Ed. cbn [of_option mbind checked_bind]. rewrite (proj2 (Z.eqb_neq difficulty 0) Hd0). cbn [negb guard_or].
  rewrite Hshuf, Hmix, Hv, Ecoins. cbn [of_option mbind checked_bind]. unfold addGenesisBlock. rewrite Hrew. cbn [of_option mbind checked_bind].
  rewrite Z.eqb_refl. cbn [guard_or mbind checked_bind]. rewrite (mi_work _ _ _ _ _ _ _ Hmined). by eexists.
Qed.
End Steps.

Lemma index_hasBlock h s i : segment_getBlockIndex h s = Some i -> hasBlock h s = true.
Proof.
  unfold segment_getBlockIndex. destruct (list_find _ _) as [[j x]|] eqn:Ef; [|done]. intros _. apply list_find_Some in Ef as (Hx & Eh & _).
  apply existsb_exists. exists x. split; [by apply list_elem_of_In; eapply list_elem_of_lookup_2|by apply bool_decide_eq_true].
Qed.

Lemma find_top k h n : core_wf E k -> chainsStorage k !! main_leaf k = Some n -> hasBlock h (seg n) = true ->
  findSegmentContainingBlock h k = Some (main_leaf k).
Proof.
  intros Hk Hn Hb. pose proof (fw_tree _ _ _ (cw_forest _ _ Hk)) as Hwf. destruct (tw_path _ Hwf _ n Hn) as (l & Hl & _).
  unfold findSegmentContainingBlock, findMainChainSegmentContainingBlock, findIndexInChain. rewrite (path_is _ _ _ Hl).
  destruct Hl as [x m Hm _|x m q l Hm _ _]; cbn [find]; rewrite Hm; rewrite Hn in Hm; injection Hm as <-; by rewrite Hb.
Qed.

(** C14. Mining: a block somebody makes of a template, by finding the work, is
    added to the main chain, as long as the chain has not moved, the named
    transactions are still valid and the block is not above the size limit.  So
    the template agrees with the validation on version, timestamp, coinbase,
    reward, fees, difficulty and the order of the transactions.  This needs that
    both see the same rules, [same_rules]. *)
Theorem mined_block_added hash_order now now' adr nonce k k' k1 t difficulty h ts b raw :
  core_wf E k -> wf_Currency cur -> ip_ok (transactionPool (pool k)) ->
  Forall (fun x => spent x <> []) (ip_transactions (transactionPool (pool k))) -> same_rules k ->
  (forall d no pub key, derive d no pub = Some key -> check_key E key = true) ->
  getBlockTemplate E gen derive keys now adr nonce k = (inl (t, difficulty, h), k') ->
  mined now' t difficulty ts b raw k -> same_tree k k1 -> room E b raw k1 ->
  isInCheckpointZone (cb_index b) (checkpoints E) = false -> core_hasBlock (getBlockHash b) k1 = false ->
  exists k2, addBlock E hash_order now' b raw k1 = (inl ADDED_TO_MAIN, k2) /\ core_wf E k2 /\
    exists info, main_blocks k2 = main_blocks k1 ++ [info] /\ blockHash info = getBlockHash b.
Proof.
  intros Hk Hc Hp Hsp Hs Hck Ht Hm Hsame Hroom Hz Hno.
  destruct (getBlockTemplate_made _ _ _ _ _ _ _ _ Hk Hc Hp Ht) as [_ Hmade].
  destruct (mined_accepted now now' k t difficulty ts b raw Hk Hc Hp Hsp Hs Hmade Hm Hck) as (a & Ha & _).
  destruct (top_index k _ Hk (md_previous _ _ _ _ Hmade)) as (s & c & Ec & Hidx).
  rewrite <- (mi_previous _ _ _ _ _ _ _ Hm) in Hidx. pose proof (same_tree_wf E k k1 Hsame Hk) as Hk1.
  assert (main_chain k1 = main_chain k) as Emain by (destruct Hsame as [Et El _]; unfold main_chain, main_leaf; by rewrite Et, El).
  rewrite <- Emain in Ha, Ec, Hidx. clear Emain. pose proof (fw_tree _ _ _ (cw_forest _ _ Hk1)) as Hwf.
  destruct (main_leaf_elem E k1 Hk1) as (n & Hn & Hch). pose proof (chain_of_cons _ _ n Hwf Hn) as En. fold (main_chain k1) in En.
  rewrite Ec in En. injection En as -> _. destruct (main_height E k1 Hk1) as (Hcw & Etop & Hh & _).
  assert (getTopBlockIndex (seg n) = height (main_chain k1) - 1) as Htop by (rewrite <- Etop; unfold core_getTopBlockIndex; by rewrite Ec).
  pose proof (accepted_ready E now' b raw k1 (main_leaf k1) n _ a (main_chain k1) Hk1 Hroom Hz Hno Hn Hidx Ha Hcw) as Hready.
  specialize (Hready ltac:(by rewrite Z.sub_add, take_ge by (unfold height; rewrite Nat2Z.id; done)) ltac:(done) ltac:(done)).
  pose proof (add_to_main_ok E b raw a k1 n Hk1 Hn Hch Hready) as Hadd.
  assert (addBlock E hash_order now' b raw k1 = add_to_main E b raw a (main_leaf k1) k1) as ->.
  { unfold addBlock. rewrite Hno, (find_top k1 _ n Hk1 Hn) by (by eapply index_hasBlock). fold (main_chain k1). rewrite Ha, Hn, Hidx.
    unfold add_accepted. rewrite Htop, Z.eqb_refl. rewrite Hch. cbn. by rewrite Nat.eqb_refl. }
  assert (exists k2, add_to_main E b raw a (main_leaf k1) k1 = (inl ADDED_TO_MAIN, k2)) as [k2 E2].
  { destruct (push_leaf E b raw a _ _ _ n (cw_forest _ _ Hk1) Hn Hch Hready) as (t' & Hpush & _).
    unfold add_to_main. cbn [chainsStorage set_storage]. rewrite Hpush. by eexists. }
  rewrite E2 in Hadd |- *. destruct Hadd as (Hk2 & ((info & Hmb & Hinfo) & _) & _). exists k2. split; [done|]. split; [done|]. by exists info.
Qed.
End Mined.

(** ** A run *)

#[local] Existing Instance run_index.
#[local] Existing Instance run_pool.
#[local] Existing Instance run_pool_laws.

(** All upgrades at one height. *)
Definition upgrades_at (height : Z) (c : Currency) : Currency :=
  {| m_maxBlockHeight := m_maxBlockHeight c; m_maxBlockBlobSize := m_maxBlockBlobSize c; m_maxTxSize := m_maxTxSize c;
     m_publicAddressBase58Prefix := m_publicAddressBase58Prefix c; m_minedMoneyUnlockWindow := m_minedMoneyUnlockWindow c; m_timestampCheckWindow := m_timestampCheckWindow c;
     m_blockFutureTimeLimit := m_blockFutureTimeLimit c; m_moneySupply := m_moneySupply c; m_emissionSpeedFactor := m_emissionSpeedFactor c;
     m_genesisBlockReward := m_genesisBlockReward c; m_rewardBlocksWindow := m_rewardBlocksWindow c; m_zawyDifficultyBlockIndex := m_zawyDifficultyBlockIndex c;
     m_zawyDifficultyV2 := m_zawyDifficultyV2 c; m_zawyDifficultyBlockVersion := m_zawyDifficultyBlockVersion c; m_blockGrantedFullRewardZone := m_blockGrantedFullRewardZone c;
     m_minerTxBlobReservedSize := m_minerTxBlobReservedSize c; m_numberOfDecimalPlaces := m_numberOfDecimalPlaces c; m_mininumFee := m_mininumFee c;
     m_defaultDustThreshold := m_defaultDustThreshold c; m_difficultyTarget := m_difficultyTarget c; m_difficultyWindow := m_difficultyWindow c;
     m_difficultyLag := m_difficultyLag c; m_difficultyCut := m_difficultyCut c; m_maxBlockSizeInitial := m_maxBlockSizeInitial c;
     m_maxBlockSizeGrowthSpeedNumerator := m_maxBlockSizeGrowthSpeedNumerator c; m_maxBlockSizeGrowthSpeedDenominator := m_maxBlockSizeGrowthSpeedDenominator c; m_lockedTxAllowedDeltaSeconds := m_lockedTxAllowedDeltaSeconds c;
     m_lockedTxAllowedDeltaBlocks := m_lockedTxAllowedDeltaBlocks c; m_mempoolTxLiveTime := m_mempoolTxLiveTime c; m_numberOfPeriodsToForgetTxDeletedFromPool := m_numberOfPeriodsToForgetTxDeletedFromPool c;
     m_fusionTxMaxSize := m_fusionTxMaxSize c; m_fusionTxMinInputCount := m_fusionTxMinInputCount c; m_fusionTxMinInOutCountRatio := m_fusionTxMinInOutCountRatio c;
     m_upgradeHeightV2 := height; m_upgradeHeightV3 := height; m_upgradeHeightV4 := height;
     m_upgradeHeightV5 := height; m_upgradeVotingThreshold := m_upgradeVotingThreshold c; m_upgradeVotingWindow := m_upgradeVotingWindow c;
     m_upgradeWindow := m_upgradeWindow c; m_testnet := m_testnet c |}.

Definition template_environment : Environment :=
  {| check_key := any_key; in_prime_subgroup := any_key; checkRingSignature := any_signature; cn_fast_hash := sum_key;
     cn_slow_hash_v0 := no_hash; cn_lite_slow_hash_v1 := no_hash; cn_turtle_lite_slow_hash_v2 := no_hash;
     currency := upgrades_at 100 CurrencyBuilder; checkpoints := ∅; genesisHash := NULL_HASH |}.

(** The sample chain, and a pool with one transaction. *)
Definition template_core : Core (P := TransactionPool (C := list PendingTransactionInfo)) :=
  core_set_pool (set_pool (snd (ip_push 90 spend_tx (spent_state spend_tx) TransactionPool_new)) run_wrapper) sample_core.

Definition sample_template : BlockTemplate :=
  match fst (getBlockTemplate template_environment toy_gen toy_derive (fun _ => toy_keys) 100 toy_address [1; 2] template_core) with
  | inl (t, _, _) => t
  | inr _ => getBlock (block_at 0 0 0)
  end.

(** The template with a nonce and a hash. *)
Definition mined_block : CachedBlock :=
  {| getBlock :=
       {| header := {| majorVersion := majorVersion sample_template; minorVersion := minorVersion sample_template; nonce := 77;
            timestamp := timestamp sample_template; previousBlockHash := previousBlockHash sample_template |};
          parentBlock := parentBlock sample_template; baseTransaction := baseTransaction sample_template;
          transactionHashes := transactionHashes sample_template |};
     getBlockHash := replicate 32 42 |}.
Definition mined_raw : RawBlock := {| rb_block := []; rb_transactions := [getTransactionBinaryArray spend_tx] |}.
Definition mined_base : CachedTransaction := default spend_tx (CachedTransaction_object (baseTransaction sample_template)).

Lemma template_core_wf : core_wf template_environment template_core.
Proof.
  apply (same_tree_wf template_environment sample_core); [by split|]. apply sample_core_wf_in. split.
  - intros [|[|[|j]]] info; intros [= <-]; do 2 eexists; (split; [reflexivity|]); (split; [vm_compute; reflexivity|reflexivity]).
  - evaluate.
  - evaluate.
Qed.

Lemma template_room : room template_environment mined_block mined_raw template_core.
Proof.
  assert (room template_environment mined_block mined_raw sample_core) as [H1 H2 H3 H4]; [|by split].
  apply (sample_room_in _ _ _ mined_base [spend_tx] (Z.of_nat (length (getTransactionBinaryArray spend_tx)))).
  - evaluate.
  - vm_compute. reflexivity.
  - vm_compute. reflexivity.
  - vm_compute. lia.
  - intros l r d. destruct l as [|? [|? [|? [|? ?]]]]; intros [=]; subst; intros Hd; vm_compute in Hd; injection Hd as <-; reflexivity.
Qed.

Lemma spend_tx_poolable : poolable spend_tx.
Proof. split; [evaluate|]. split; evaluate. Qed.

Lemma template_pool_ok : ip_ok (transactionPool (pool template_core)).
Proof. apply ip_push_ok; [apply (pool_new_inv sum_key (OK := ListIndexOk _ _ _))|apply spend_tx_poolable]. Qed.

Lemma template_rules : same_rules template_environment template_core.
Proof. split; vm_compute; split || reflexivity; (reflexivity || discriminate). Qed.

Lemma template_mined : mined template_environment 100 sample_template 18 [spend_tx] mined_block mined_raw template_core.
Proof.
  split; [vm_compute; reflexivity..| | | | | | | |].
  - intros x ->%list_elem_of_singleton. vm_compute. left.
  - reflexivity.
  - intros H. vm_compute in H. by destruct H.
  - vm_compute. discriminate.
  - apply Forall_singleton. vm_compute. discriminate.
  - vm_compute. discriminate.
  - destruct (validate_transactions _ _ _ _ _ _ _ _ _ _ _ _) as [r|e] eqn:Ev; [by exists r|vm_compute in Ev; discriminate].
  - vm_compute. reflexivity.
Qed.

Lemma mined_block_added_witness :
  exists k2, addBlock template_environment id 100 mined_block mined_raw template_core = (inl ADDED_TO_MAIN, k2) /\
    core_wf template_environment k2 /\
    exists info, main_blocks k2 = main_blocks template_core ++ [info] /\ blockHash info = getBlockHash mined_block.
Proof.
  apply (mined_block_added template_environment toy_gen toy_derive (fun _ => toy_keys) id 100 100 toy_address [1; 2] template_core
    (snd (getBlockTemplate template_environment toy_gen toy_derive (fun _ => toy_keys) 100 toy_address [1; 2] template_core))
    template_core sample_template 18 3 [spend_tx] mined_block mined_raw template_core_wf).
  - split; done.
  - exact template_pool_ok.
  - vm_compute. apply Forall_singleton. discriminate.
  - exact template_rules.
  - done.
  - vm_compute. reflexivity.
  - exact template_mined.
  - by split.
  - exact template_room.
  - vm_compute. reflexivity.
  - vm_compute. reflexivity.
Defined.

Lemma fillBlockTemplate_sound_witness :
  exists f chosen gone, fillBlockTemplate template_environment 100 100000 1000000 3 (pool template_core) = Some f /\
    NoDup (f_transactionHashes f) /\
    filled template_environment 100 3 (template_limit (currency template_environment) 100000 1000000) (pool template_core) chosen gone f.
Proof.
  pose proof (fillBlockTemplate_sound template_environment 100 100000 1000000 3 (pool template_core) template_pool_ok
    ltac:(vm_compute; apply Forall_singleton; discriminate)) as H.
  destruct (fillBlockTemplate _ _ _ _ _ _) as [f|] eqn:Ef; [|vm_compute in Ef; discriminate].
  destruct H as (Hn & chosen & gone & Hf). exists f, chosen, gone. split; [reflexivity|]. split; [exact Hn|exact Hf].
Defined.

(** A free transaction with too large an extra field. *)
Definition free_tx : CachedTransaction :=
  let tx := {| tx_prefix := {| version := 1; unlockTime := 0; inputs := [InKey {| ki_amount := 5;
         outputIndexes := [0; 2]; keyImage := replicate 32 9 |}];
         outputs := [{| to_amount := 5; target := OutKey {| key := replicate 32 4 |} |}];
         extra := replicate 128 0 |};
       signatures := [[replicate 64 6; replicate 64 7]] |} in
  {| getTransaction := tx; getTransactionBinaryArray := default [] (toBinaryArray serialize_Transaction tx) |}.
Definition free_pool : TransactionPoolCleanWrapper (P := TransactionPool (C := list PendingTransactionInfo)) :=
  set_pool (snd (ip_push 90 free_tx (spent_state free_tx) TransactionPool_new)) run_wrapper.

(** A free transaction that is a day old and may not be in the block is
    removed from the pool by the first loop of [fillBlockTemplate]; the second
    loop still has it and asks the pool for its receive time, which is the
    element behind the end of an index.  Younger by a second, it does no harm. *)
Theorem fillBlockTemplate_asks_removed :
  ip_ok (transactionPool free_pool) /\ ip_transactions (transactionPool free_pool) = [free_tx] /\
  fillBlockTemplate template_environment (90 + MEVACOIN_MEMPOOL_TX_LIVETIME) 100000 1000000 3 free_pool = None /\
  f_transactionHashes <$> fillBlockTemplate template_environment (89 + MEVACOIN_MEMPOOL_TX_LIVETIME) 100000 1000000 3 free_pool = Some [].
Proof.
  split; [|split; [vm_compute; reflexivity|split; vm_compute; reflexivity]].
  apply ip_push_ok; [apply (pool_new_inv sum_key (OK := ListIndexOk _ _ _))|]. split; [evaluate|]. split; evaluate.
Qed.
