(* ===== verification/KvBinary.v ===== *)
(** * Key-value binary format
      ([src/serialization/kv_binary_output_stream_serializer.cpp],
      [kv_binary_input_stream_serializer.cpp], [kv_binary_common.h],
      [src/common/json_value.h])

    The format of the messages between peers.  The writer is a machine with
    two stacks, one of buffers and one of open levels; the reader parses the
    whole packet to a [JsonValue].  [kv] is what a sequence of balanced calls
    of the writer stands for; the reader finds it again. *)

From S2P Require Import Prelude Stream.

(** ** Outcomes

    The calls below can also leave the language: [back()] of an empty vector.
    That is not an exception, and no handler catches it. *)

Inductive outcome (A : Type) :=
| Returns (a : A)
| Raises (e : exn)
| Undefined.
Arguments Returns {A} a.
Arguments Raises {A} e.
Arguments Undefined {A}.

#[global] Instance outcome_ret : MRet outcome := fun A a => Returns a.
#[global] Instance outcome_bind : MBind outcome := fun A B f m =>
  match m with Returns a => f a | Raises e => Raises e | Undefined => Undefined end.

Definition of_res {A} (m : res A) : outcome A :=
  match m with Ok a => Returns a | Throw e => Raises e end.

(** [std::vector::back] with the top of the stack first. *)
Definition back {A} (stack : list A) : outcome A :=
  match stack with [] => Undefined | a :: _ => Returns a end.

(** ** Values *)

(** [common::JsonValue].  A [double] is its 64 bits; an object is the list of
    its members in the order of insertion, each key once. *)
Inductive JsonValue :=
| JNil
| JArray (items : list JsonValue)
| JBool (b : bool)
| JInteger (z : Z)
| JObject (members : list (bytes * JsonValue))
| JReal (bits : Z)
| JString (s : bytes).

Fixpoint find_member {A} (name : bytes) (members : list (bytes * A)) : option A :=
  match members with
  | [] => None
  | (key, v) :: members => if decide (key = name) then Some v else find_member name members
  end.

(** [JsonValue::insert]: [emplace] keeps the member that is there. *)
Definition json_insert (name : bytes) (v : JsonValue) (members : list (bytes * JsonValue)) :
    list (bytes * JsonValue) :=
  match find_member name members with
  | Some _ => members
  | None => members ++ [(name, v)]
  end.

(** The type byte of an integer: [BIN_KV_SERIALIZE_TYPE_INT64] to
    [BIN_KV_SERIALIZE_TYPE_UINT8]. *)
Inductive int_type := INT64 | INT32 | INT16 | INT8 | UINT64 | UINT32 | UINT16 | UINT8.

Definition int_code (t : int_type) : Z :=
  match t with
  | INT64 => 1 | INT32 => 2 | INT16 => 3 | INT8 => 4
  | UINT64 => 5 | UINT32 => 6 | UINT16 => 7 | UINT8 => 8
  end.

Definition int_size (t : int_type) : nat :=
  match t with
  | INT64 | UINT64 => 8
  | INT32 | UINT32 => 4
  | INT16 | UINT16 => 2
  | INT8 | UINT8 => 1
  end.

Definition int_width (t : int_type) : Z := 8 * Z.of_nat (int_size t).

(** [static_cast] to the type. *)
Definition int_cast (t : int_type) (z : Z) : Z :=
  match t with
  | INT64 | INT32 | INT16 | INT8 => swrap (int_width t) z
  | UINT64 | UINT32 | UINT16 | UINT8 => wrap (int_width t) z
  end.

(** [BIN_KV_SERIALIZE_TYPE_DOUBLE] and the others. *)
Abbreviation TYPE_DOUBLE := 9 (only parsing).
Abbreviation TYPE_STRING := 10 (only parsing).
Abbreviation TYPE_BOOL := 11 (only parsing).
Abbreviation TYPE_OBJECT := 12 (only parsing).
Abbreviation TYPE_ARRAY := 13 (only parsing).
Abbreviation FLAG_ARRAY := 0x80 (only parsing).

(** [KVBinaryStorageBlockHeader]: two signatures and the version. *)
Definition storage_header : bytes :=
  le_bytes 4 0x01011101 ++ le_bytes 4 0x01020101 ++ [1].

(** ** Reading *)

Definition no_fuel : exn := runtime_error "no fuel".

(** [while (count--)]. *)
Fixpoint while_count {S} (fuel : nat) (count : Z) (body : S -> rd S) (st : S) : rd S :=
  if count =? 0 then mret st
  else match fuel with
       | O => rd_throw no_fuel
       | Datatypes.S fuel => st ← body st; while_count fuel (count - 1) body st
       end.

(** Each round of the loops below takes a byte of the stream at least. *)
Definition while_stream {S} (count : Z) (body : S -> rd S) (st : S) : rd S :=
  fun stream => while_count (Datatypes.S (length stream)) count body st stream.

(** The loop of [readVarint] over the bytes after the first. *)
Fixpoint readVarint_bytes (bytesLeft : nat) (i value : Z) : rd Z :=
  match bytesLeft with
  | O => mret value
  | S bytesLeft =>
      n ← read_uint 1;
      readVarint_bytes bytesLeft (i + 1) (Z.lor value (u64 (Z.shiftl n (i * 8))))
  end.

Definition kv_readVarint : rd Z :=
  b ← read_uint 1;
  let size_mask := Z.land b 0x03 in
  let bytesLeft :=
    if size_mask =? 0 then 0%nat
    else if size_mask =? 1 then 1%nat
    else if size_mask =? 2 then 3%nat
    else 7%nat in
  value ← readVarint_bytes bytesLeft 1 b;
  mret (Z.shiftr value 2).

Definition readString : rd bytes := size ← kv_readVarint; read size.

(** A name of length 0 leaves the name of the entry before. *)
Definition readName (name : bytes) : rd bytes :=
  len ← read_uint 1;
  if negb (len =? 0) then read len else mret name.

Section Load.
Context (loadValue : Z -> rd JsonValue).

Definition loadArray (itemType : Z) : rd JsonValue :=
  count ← kv_readVarint;
  items ← while_stream count (fun items => v ← loadValue itemType; mret (items ++ [v])) [];
  mret (JArray items).

Definition loadEntry : rd JsonValue :=
  type ← read_uint 1;
  if negb (Z.land type FLAG_ARRAY =? 0) then loadArray (Z.land type 0x7f)
  else loadValue type.

Definition loadSection : rd JsonValue :=
  count ← kv_readVarint;
  st ← while_stream count
    (fun st : bytes * list (bytes * JsonValue) =>
       name ← readName st.1;
       v ← loadEntry;
       mret (name, json_insert name v st.2)) ([], []);
  mret (JObject st.2).
End Load.

Definition readIntegerJson (t : int_type) : rd JsonValue :=
  v ← read_uint (int_size t); mret (JInteger (i64 (int_cast t v))).

(** [fuel] bounds the depth of the recursion. *)
Fixpoint loadValue (fuel : nat) (type : Z) : rd JsonValue :=
  match fuel with
  | O => rd_throw no_fuel
  | S fuel =>
      if type =? int_code INT64 then readIntegerJson INT64
      else if type =? int_code INT32 then readIntegerJson INT32
      else if type =? int_code INT16 then readIntegerJson INT16
      else if type =? int_code INT8 then readIntegerJson INT8
      else if type =? int_code UINT64 then readIntegerJson UINT64
      else if type =? int_code UINT32 then readIntegerJson UINT32
      else if type =? int_code UINT16 then readIntegerJson UINT16
      else if type =? int_code UINT8 then readIntegerJson UINT8
      else if type =? TYPE_DOUBLE then v ← read_uint 8; mret (JReal v)
      else if type =? TYPE_BOOL then v ← read_uint 1; mret (JBool (negb (v =? 0)))
      else if type =? TYPE_STRING then s ← readString; mret (JString s)
      else if type =? TYPE_OBJECT then loadSection (loadValue fuel)
      else if type =? TYPE_ARRAY then loadArray (loadValue fuel) type
      else rd_throw (runtime_error "Unknown data type")
  end.

(** [parseBinary] with the depth of the recursion bounded. *)
Definition parse_packet (fuel : nat) : rd JsonValue :=
  signature_a ← read_uint 4;
  signature_b ← read_uint 4;
  ver ← read_uint 1;
  if negb ((signature_a =? 0x01011101) && (signature_b =? 0x01020101)) then
    rd_throw (runtime_error "Invalid binary storage signature")
  else if negb (ver =? 1) then
    rd_throw (runtime_error "Unknown binary storage format version")
  else loadSection (loadValue fuel).

(** Every nested value takes a byte, so the recursion is never deeper than the
    packet is long ([parseBinary_bounded]). *)
Definition parseBinary : rd JsonValue := fun stream => parse_packet (S (length stream)) stream.

(** ** Writing *)

(** [packVarint<T>] with [size] the size of [T]. *)
Definition packVarint (size : nat) (type_or pv : Z) : bytes :=
  le_bytes size (Z.lor (wrap (8 * Z.of_nat size) (u64 (Z.shiftl pv 2))) type_or).

Definition writeArraySize (val : Z) : res bytes :=
  if val <=? 63 then Ok (packVarint 1 0 val)
  else if val <=? 16383 then Ok (packVarint 2 1 val)
  else if val <=? 1073741823 then Ok (packVarint 4 2 val)
  else if 4611686018427387903 <? val then
    Throw (runtime_error "failed to pack varint - too big amount")
  else Ok (packVarint 8 3 val).

Definition writeElementName (name : bytes) : res bytes :=
  if 255 <? Z.of_nat (length name) then Throw (runtime_error "Element name is too long")
  else Ok (u8 (Z.of_nat (length name)) :: name).

Module KVBinaryOutputStreamSerializer.

Inductive State := Root | Object | ArrayPrefix | Array.

Record Level := MkLevel { state : State; name : bytes; count : Z }.

(** The two stacks, the back of the vectors first. *)
Record t := Serializer { m_objectsStack : list bytes; m_stack : list Level }.

(** [write(stream(), ...)]. *)
Definition write (bs : bytes) (s : t) : outcome t :=
  match m_objectsStack s with
  | [] => Undefined
  | o :: os => Returns (Serializer ((o ++ bs) :: os) (m_stack s))
  end.

Definition checkArrayPreamble (type : Z) (s : t) : outcome t :=
  match m_stack s with
  | [] => Returns s
  | level :: levels =>
      match state level with
      | ArrayPrefix =>
          nm ← of_res (writeElementName (name level));
          size ← of_res (writeArraySize (count level));
          s ← write (nm ++ [Z.lor FLAG_ARRAY type] ++ size) s;
          mret (Serializer (m_objectsStack s) (MkLevel Array (name level) (count level) :: levels))
      | _ => Returns s
      end
  end.

Definition writeElementPrefix (type : Z) (nm : bytes) (s : t) : outcome t :=
  s ← checkArrayPreamble type s;
  level ← back (m_stack s);
  match state level with
  | Array => mret s
  | _ =>
      s ← (if bool_decide (nm = []) then mret s
           else bs ← of_res (writeElementName nm); write (bs ++ [type]) s);
      mret (Serializer (m_objectsStack s)
              (MkLevel (state level) (name level) (u64 (count level + 1)) :: tail (m_stack s)))
  end.

Definition beginObject (nm : bytes) (s : t) : outcome t :=
  s ← checkArrayPreamble TYPE_OBJECT s;
  mret (Serializer ([] :: m_objectsStack s) (MkLevel Object nm 0 :: m_stack s)).

Definition endObject (s : t) : outcome t :=
  level ← back (m_stack s);
  objStream ← back (m_objectsStack s);
  s ← writeElementPrefix TYPE_OBJECT (name level)
        (Serializer (tail (m_objectsStack s)) (tail (m_stack s)));
  size ← of_res (writeArraySize (count level));
  write (size ++ objStream) s.

Definition beginArray (size : Z) (nm : bytes) (s : t) : outcome t :=
  mret (Serializer (m_objectsStack s) (MkLevel ArrayPrefix nm size :: m_stack s)).

Definition endArray (s : t) : outcome t :=
  array ← back (m_stack s);
  level ← back (tail (m_stack s));
  match state level, state array with
  | Object, Array =>
      mret (Serializer (m_objectsStack s)
              (MkLevel Object (name level) (u64 (count level + 1)) :: tail (tail (m_stack s))))
  | _, _ => mret (Serializer (m_objectsStack s) (tail (m_stack s)))
  end.

(** [operator()] of the types that are written as they are in memory. *)
Definition write_pod (type : Z) (size : nat) (value : Z) (nm : bytes) (s : t) : outcome t :=
  s ← writeElementPrefix type nm s; write (le_bytes size value) s.

(** [operator()(std::string &, ...)]. *)
Definition write_string (value nm : bytes) (s : t) : outcome t :=
  s ← writeElementPrefix TYPE_STRING nm s;
  size ← of_res (writeArraySize (Z.of_nat (length value)));
  write (size ++ value) s.

(** An empty block is not written at all. *)
Definition binary (value nm : bytes) (s : t) : outcome t :=
  if 0 <? Z.of_nat (length value) then write_string value nm s else mret s.

(** The constructor. *)
Definition new : outcome t := beginObject [] (Serializer [] []).

Definition dump (s : t) : outcome bytes :=
  level ← back (rev (m_stack s));
  objStream ← back (m_objectsStack s);
  size ← of_res (writeArraySize (count level));
  mret (storage_header ++ size ++ objStream).

End KVBinaryOutputStreamSerializer.

(** ** The value a sequence of calls stands for *)

Inductive kv :=
| KInt (t : int_type) (z : Z)
| KBool (b : bool)
| KReal (bits : Z)
| KString (s : bytes)
| KBinary (s : bytes)
| KObject (members : list (bytes * kv))
| KArray (items : list kv).

Section Members.
Context {A S : Type} (f : A -> S -> outcome S).

(** Run [f] over a list, from the first item to the last. *)
Fixpoint each (l : list A) (s : S) : outcome S :=
  match l with [] => mret s | a :: l => s ← f a s; each l s end.
End Members.

(** The calls that write a value under a name: [operator()] for a plain value,
    [serialize] of [iserializer.h] for a structure, [serializeContainer] for a
    container. *)
Fixpoint emit (v : kv) (nm : bytes) (s : KVBinaryOutputStreamSerializer.t) :
    outcome KVBinaryOutputStreamSerializer.t :=
  match v with
  | KInt t z => KVBinaryOutputStreamSerializer.write_pod (int_code t) (int_size t) z nm s
  | KBool b => KVBinaryOutputStreamSerializer.write_pod TYPE_BOOL 1 (if b then 1 else 0) nm s
  | KReal bits => KVBinaryOutputStreamSerializer.write_pod TYPE_DOUBLE 8 bits nm s
  | KString str => KVBinaryOutputStreamSerializer.write_string str nm s
  | KBinary str => KVBinaryOutputStreamSerializer.binary str nm s
  | KObject members =>
      s ← KVBinaryOutputStreamSerializer.beginObject nm s;
      s ← each (fun m s => emit m.2 m.1 s) members s;
      KVBinaryOutputStreamSerializer.endObject s
  | KArray items =>
      s ← KVBinaryOutputStreamSerializer.beginArray (Z.of_nat (length items)) nm s;
      s ← each (fun v s => emit v [] s) items s;
      KVBinaryOutputStreamSerializer.endArray s
  end.

(** A packet: the constructor, the members of the message, [dump]. *)
Definition packet (members : list (bytes * kv)) : outcome bytes :=
  s ← KVBinaryOutputStreamSerializer.new;
  s ← each (fun m s => emit m.2 m.1 s) members s;
  KVBinaryOutputStreamSerializer.dump s.

(** An empty block or an empty container leaves nothing in the packet. *)
Definition silent (v : kv) : bool :=
  match v with
  | KBinary [] | KArray [] => true
  | _ => false
  end.

(** The value the reader returns for it. *)
Fixpoint json_of (v : kv) : JsonValue :=
  match v with
  | KInt t z => JInteger (i64 z)
  | KBool b => JBool b
  | KReal bits => JReal bits
  | KString s | KBinary s => JString s
  | KObject members =>
      JObject (omap (fun m => if silent m.2 then None else Some (m.1, json_of m.2)) members)
  | KArray items => JArray (map json_of items)
  end.

Definition type_of (v : kv) : Z :=
  match v with
  | KInt t _ => int_code t
  | KBool _ => TYPE_BOOL
  | KReal _ => TYPE_DOUBLE
  | KString _ | KBinary _ => TYPE_STRING
  | KObject _ => TYPE_OBJECT
  | KArray _ => TYPE_ARRAY
  end.

(** Sizes the format has a representation for. *)
Definition small_size {A} (l : list A) : bool := Z.of_nat (length l) <? 2 ^ 62.

Definition name_ok (n : bytes) : bool :=
  negb (bool_decide (n = [])) && (Z.of_nat (length n) <=? 255).

(** [v] can follow in an array with items of the type [ty]. *)
Definition item_ok (ty : Z) (v : kv) : bool :=
  negb (silent v) && negb (type_of v =? TYPE_ARRAY) && (type_of v =? ty).

(** What the format can represent: names that are there, short and different
    in an object; arrays of one type and not of arrays. *)
Fixpoint kv_ok (v : kv) : bool :=
  match v with
  | KInt t z => int_cast t z =? z
  | KBool _ => true
  | KReal bits => bool_decide (fits 64 bits)
  | KString s | KBinary s => small_size s
  | KObject members =>
      forallb (fun m => name_ok m.1 && kv_ok m.2) members &&
      bool_decide (NoDup (map fst members)) && small_size members
  | KArray items =>
      forallb kv_ok items && small_size items &&
      match items with [] => true | v :: _ => forallb (item_ok (type_of v)) items end
  end.

(** ** The bytes of a value

    What the two stacks come to, as a function of the value alone. *)

Definition array_size (n : nat) : bytes := default [] (caught (writeArraySize (Z.of_nat n))).

(** The type byte in front of a member. *)
Definition tag (v : kv) : Z :=
  match v with
  | KArray (item :: _) => Z.lor FLAG_ARRAY (type_of item)
  | _ => type_of v
  end.

Lemma tag_plain v : type_of v <> TYPE_ARRAY -> tag v = type_of v.
Proof. by destruct v. Qed.

Definition element_name (nm : bytes) : bytes := u8 (Z.of_nat (length nm)) :: nm.

Fixpoint payload (v : kv) : bytes :=
  match v with
  | KInt t z => le_bytes (int_size t) z
  | KBool b => [if b then 1 else 0]
  | KReal bits => le_bytes 8 bits
  | KString s | KBinary s => array_size (length s) ++ s
  | KObject members =>
      let fields :=
        omap (fun m => if silent m.2 then None
                       else Some (element_name m.1 ++ [tag m.2] ++ payload m.2)) members in
      array_size (length fields) ++ concat fields
  | KArray items => array_size (length items) ++ concat (map payload items)
  end.

Definition fields_of (members : list (bytes * kv)) : list bytes :=
  omap (fun m => if silent m.2 then None
                 else Some (element_name m.1 ++ [tag m.2] ++ payload m.2)) members.

Definition json_members (members : list (bytes * kv)) : list (bytes * JsonValue) :=
  omap (fun m => if silent m.2 then None else Some (m.1, json_of m.2)) members.

Lemma payload_object members :
  payload (KObject members) = array_size (length (fields_of members)) ++ concat (fields_of members).
Proof. reflexivity. Qed.

Lemma json_of_object members : json_of (KObject members) = JObject (json_members members).
Proof. reflexivity. Qed.

(** Induction through the members and the items. *)
Lemma kv_induction (P : kv -> Prop) :
  (forall v, (forall m, v <> KObject m) -> (forall l, v <> KArray l) -> P v) ->
  (forall members, Forall (fun m => P m.2) members -> P (KObject members)) ->
  (forall items, Forall P items -> P (KArray items)) ->
  forall v, P v.
Proof.
  intros Hp Ho Ha. fix IH 1. intros [t z|b|bits|s|s|members|items].
  1-5: by apply Hp.
  - apply Ho. induction members as [|[n v] members IHm]; constructor; [apply IH|exact IHm].
  - apply Ha. induction items as [|v items IHi]; constructor; [apply IH|exact IHi].
Qed.

Lemma array_size_at_most n : (length (array_size n) <= 8)%nat.
Proof. unfold array_size, writeArraySize. repeat case_match; simpl; lia. Qed.

Lemma array_size_Ok n : Z.of_nat n < 2 ^ 62 -> writeArraySize (Z.of_nat n) = Ok (array_size n).
Proof.
  intros Hn. unfold array_size, writeArraySize. repeat case_match; try done.
  change (2 ^ 62) with 4611686018427387904 in Hn. lia.
Qed.

Lemma small_size_lt {A} (l : list A) : small_size l = true -> Z.of_nat (length l) < 2 ^ 62.
Proof. unfold small_size. lia. Qed.

Lemma name_ok_name nm : name_ok nm = true -> nm <> [] /\ writeElementName nm = Ok (element_name nm).
Proof.
  unfold name_ok, writeElementName. rewrite andb_true_iff, negb_true_iff, bool_decide_eq_false, Z.leb_le.
  intros [? Hl]. split; [done|]. by destruct (Z.ltb_spec 255 (Z.of_nat (length nm))); [lia|].
Qed.

(** ** The writer produces these bytes *)

Module Writer.
Import KVBinaryOutputStreamSerializer.

(** What a level puts in front of an element, and the level after it. *)
Definition opened (L : Level) (type : Z) (nm : bytes) : bytes :=
  match state L with
  | ArrayPrefix => element_name (name L) ++ [Z.lor FLAG_ARRAY type] ++ array_size (Z.to_nat (count L))
  | Array => []
  | _ => element_name nm ++ [type]
  end.

Definition entered (L : Level) : Level :=
  match state L with
  | ArrayPrefix | Array => MkLevel Array (name L) (count L)
  | st => MkLevel st (name L) (count L + 1)
  end.

(** The level takes an element of the name [nm]. *)
Definition accepts (L : Level) (nm : bytes) : Prop :=
  match state L with
  | Root => False
  | Object => name_ok nm = true /\ 0 <= count L < 2 ^ 64 - 1
  | ArrayPrefix => name_ok (name L) = true /\ 0 <= count L < 2 ^ 62
  | Array => True
  end.

Lemma write_top bs o os ls :
  write bs (Serializer (o :: os) ls) = Returns (Serializer ((o ++ bs) :: os) ls).
Proof. reflexivity. Qed.

Lemma checkArrayPreamble_array o os st nm n ls type :
  st = ArrayPrefix -> name_ok nm = true -> 0 <= n < 2 ^ 62 ->
  checkArrayPreamble type (Serializer (o :: os) (MkLevel st nm n :: ls)) =
  Returns (Serializer ((o ++ opened (MkLevel st nm n) type []) :: os) (entered (MkLevel st nm n) :: ls)).
Proof.
  intros -> [? Hn]%name_ok_name [[k ->]%Z_of_nat_complete ?].
  unfold checkArrayPreamble, opened, entered. simpl.
  by rewrite Hn, Nat2Z.id, array_size_Ok by done.
Qed.

Lemma writeElementPrefix_at o os L ls type nm :
  accepts L nm ->
  writeElementPrefix type nm (Serializer (o :: os) (L :: ls)) =
  Returns (Serializer ((o ++ opened L type nm) :: os) (entered L :: ls)).
Proof.
  destruct L as [[] lnm n]; intros Ha; [done| | |].
  - destruct Ha as [[Hne Hn]%name_ok_name ?]. cbn [state name count] in *. unfold writeElementPrefix. simpl.
    rewrite bool_decide_false by done. rewrite Hn. simpl. unfold opened, entered. simpl.
    by rewrite (wrap_small 64 (n + 1)) by mlia.
  - destruct Ha as [Hn Hc]. unfold writeElementPrefix. rewrite checkArrayPreamble_array by done. done.
  - unfold writeElementPrefix, opened, entered. simpl. by rewrite app_nil_r.
Qed.

(** A value that is written goes behind what its level puts in front of it. *)
Definition emits_payload (v : kv) : Prop :=
  kv_ok v = true -> silent v = false -> forall o os L ls nm,
  accepts L nm -> (type_of v = TYPE_ARRAY -> state L = Object) ->
  emit v nm (Serializer (o :: os) (L :: ls)) =
  Returns (Serializer ((o ++ opened L (tag v) nm ++ payload v) :: os) (entered L :: ls)).

Lemma emit_silent v nm o os L ls :
  silent v = true -> emit v nm (Serializer (o :: os) (L :: ls)) = Returns (Serializer (o :: os) (L :: ls)).
Proof. destruct v as [| | | |[]| |[]]; try done.
  intros _. by destruct L as [[] ? ?].
Qed.

Lemma fields_of_cons m members :
  fields_of (m :: members) =
  if silent m.2 then fields_of members
  else (element_name m.1 ++ [tag m.2] ++ payload m.2) :: fields_of members.
Proof. unfold fields_of. simpl. by destruct (silent m.2). Qed.

Lemma emit_members_at members o os nm c ls :
  Forall (fun m => emits_payload m.2) members ->
  forallb (fun m => name_ok m.1 && kv_ok m.2) members = true ->
  0 <= c -> c + Z.of_nat (length members) < 2 ^ 64 - 1 ->
  each (fun m s => emit m.2 m.1 s) members (Serializer (o :: os) (MkLevel Object nm c :: ls)) =
  Returns (Serializer ((o ++ concat (fields_of members)) :: os)
             (MkLevel Object nm (c + Z.of_nat (length (fields_of members))) :: ls)).
Proof.
  intros HF. revert o c. induction HF as [|[n v] members Hv HF IH]; intros o c Hok Hc Hl.
  { simpl. by rewrite app_nil_r, Z.add_0_r. }
  simpl in Hok. rewrite !andb_true_iff in Hok. destruct Hok as [[Hn Hv'] Hok].
  rewrite fields_of_cons. simpl. simpl length in Hl. destruct (silent v) eqn:Es.
  - rewrite emit_silent by done. simpl. apply IH; [done..|lia].
  - rewrite Hv; [|done|done| |done].
    + simpl. rewrite (IH _ (c + 1)) by (done || lia). f_equal. f_equal; [|f_equal; f_equal; lia].
      f_equal. unfold opened. simpl. by repeat (rewrite <- app_assoc; simpl).
    + split; [done|]. simpl. lia.
Qed.

Lemma emit_items_at items ty o os nm c ls :
  Forall emits_payload items -> forallb kv_ok items = true -> forallb (item_ok ty) items = true ->
  each (fun v s => emit v [] s) items (Serializer (o :: os) (MkLevel Array nm c :: ls)) =
  Returns (Serializer ((o ++ concat (map payload items)) :: os) (MkLevel Array nm c :: ls)).
Proof.
  intros HF. revert o. induction HF as [|v items Hv HF IH]; intros o Hok Hi.
  { simpl. by rewrite app_nil_r. }
  simpl in Hok, Hi. rewrite andb_true_iff in Hok, Hi. destruct Hok as [Hv' Hok], Hi as [Hi Hi'].
  unfold item_ok in Hi. rewrite !andb_true_iff, !negb_true_iff in Hi. destruct Hi as [[Hs Ha] _].
  simpl. rewrite Hv by (done || lia). simpl. unfold opened, entered. simpl.
  rewrite IH by done. by rewrite <- app_assoc.
Qed.

Lemma length_fields_of members : (length (fields_of members) <= length members)%nat.
Proof.
  induction members as [|m members IH]; [done|]. rewrite fields_of_cons.
  destruct (silent m.2); simpl; lia.
Qed.

Lemma emit_object_payload members :
  Forall (fun m => emits_payload m.2) members -> emits_payload (KObject members).
Proof.
  intros HF Hok _ o os L ls nm Ha _. rewrite payload_object. simpl in Hok. rewrite !andb_true_iff in Hok.
  destruct Hok as [[Hm _] Hs%small_size_lt]. pose proof (length_fields_of members).
  assert (forall o L, accepts L nm -> state L <> ArrayPrefix ->
    (s ← each (fun m s => emit m.2 m.1 s) members
           (Serializer ([] :: o :: os) (MkLevel Object nm 0 :: L :: ls)); endObject s) =
    Returns (Serializer ((o ++ opened L TYPE_OBJECT nm ++
                array_size (length (fields_of members)) ++ concat (fields_of members)) :: os)
               (entered L :: ls))) as Hbody.
  { intros o' L' Ha' _. rewrite emit_members_at by (done || lia). simpl.
    unfold endObject. simpl. rewrite writeElementPrefix_at by done. simpl.
    rewrite Z.add_0_l, array_size_Ok by lia. simpl. by rewrite write_top, <- app_assoc. }
  change (emit (KObject members) nm (Serializer (o :: os) (L :: ls))) with
    (s ← beginObject nm (Serializer (o :: os) (L :: ls));
     s ← each (fun m s => emit m.2 m.1 s) members s; endObject s).
  destruct L as [st lnm c]. unfold beginObject.
  destruct st; [done|by apply Hbody| |by apply Hbody].
  destruct Ha as [Hn Hc]. rewrite checkArrayPreamble_array by done. simpl.
  rewrite Hbody by done. unfold opened, entered. simpl. by rewrite <- app_assoc.
Qed.

Lemma emit_array_payload items : Forall emits_payload items -> emits_payload (KArray items).
Proof.
  intros HF Hok Hsil o os L ls nm Ha Hobj. destruct items as [|v items]; [done|].
  simpl in Hok. rewrite !andb_true_iff in Hok. destruct Hok as [[[Hv Hok] Hs%small_size_lt] [Hi Hi']].
  unfold item_ok in Hi. rewrite !andb_true_iff, !negb_true_iff in Hi. destruct Hi as [[Hsv Hav] _].
  apply Forall_cons in HF as [HFv HF]. specialize (Hobj eq_refl).
  destruct L as [st lnm c]. simpl in Hobj. subst st. destruct Ha as [Hn Hc].
  cbn [count] in Hc. cbn [emit each beginArray mbind outcome_bind mret outcome_ret m_objectsStack m_stack].
  rewrite HFv; [|done|done|split; [done|exact (conj (Zle_0_nat _) Hs)]|lia].
  simpl. unfold entered. simpl. rewrite (emit_items_at _ (type_of v)) by done. unfold endArray. simpl.
  rewrite (wrap_small 64) by mlia. rewrite tag_plain, Nat2Z.id by lia. do 3 f_equal.
  by repeat (rewrite <- app_assoc; simpl).
Qed.

Lemma write_pod_at type size value o os L ls nm :
  accepts L nm ->
  write_pod type size value nm (Serializer (o :: os) (L :: ls)) =
  Returns (Serializer ((o ++ opened L type nm ++ le_bytes size value) :: os) (entered L :: ls)).
Proof.
  intros Ha. unfold write_pod. rewrite writeElementPrefix_at by done.
  change (write (le_bytes size value) (Serializer ((o ++ opened L type nm) :: os) (entered L :: ls)) =
    Returns (Serializer ((o ++ opened L type nm ++ le_bytes size value) :: os) (entered L :: ls))).
  by rewrite write_top, <- app_assoc.
Qed.

Lemma write_string_at value o os L ls nm :
  accepts L nm -> small_size value = true ->
  write_string value nm (Serializer (o :: os) (L :: ls)) =
  Returns (Serializer ((o ++ opened L TYPE_STRING nm ++ array_size (length value) ++ value) :: os)
             (entered L :: ls)).
Proof.
  intros Ha Hs%small_size_lt. unfold write_string. rewrite writeElementPrefix_at by done. simpl.
  rewrite array_size_Ok by done. simpl. by rewrite write_top, <- app_assoc.
Qed.

Lemma emit_payload v : emits_payload v.
Proof.
  induction v as [v Ho Ha|members IH|items IH] using kv_induction.
  - intros Hok Hs o os L ls nm Hacc _.
    assert (tag v = type_of v) as -> by (destruct v; try done; by destruct (Ha items)).
    destruct v as [t z|b|bits|s|s|members|items]; [..|by destruct (Ho members)|by destruct (Ha items)].
    1,3: by apply write_pod_at.
    + simpl. rewrite write_pod_at by done. by destruct b.
    + by apply write_string_at.
    + destruct s; [done|]. by apply write_string_at.
  - by apply emit_object_payload.
  - by apply emit_array_payload.
Qed.

(** A message of members the format can represent is written, and these are
    the bytes. *)
Lemma packet_bytes members :
  kv_ok (KObject members) = true ->
  packet members = Returns (storage_header ++ payload (KObject members)).
Proof.
  intros Hok. rewrite payload_object. simpl in Hok. rewrite !andb_true_iff in Hok.
  destruct Hok as [[Hm _] Hs%small_size_lt]. pose proof (length_fields_of members).
  unfold packet, new. simpl. rewrite emit_members_at.
  - simpl. unfold dump. simpl. by rewrite Z.add_0_l, array_size_Ok by lia.
  - apply Forall_true. intros m. apply emit_payload.
  - done.
  - lia.
  - lia.
Qed.
End Writer.

(** ** Reading what was written *)

Lemma read_byte_cons b rest : read_uint 1 (b :: rest) = Ok (b, rest).
Proof.
  unfold read_uint. rewrite (rd_bind_step _ _ _ _ _ (read_app [b] rest)).
  unfold mret, rd_ret. simpl. do 2 f_equal. lia.
Qed.

Lemma read_uint_le size x rest :
  read_uint size (le_bytes size x ++ rest) = Ok (wrap (8 * Z.of_nat size) x, rest).
Proof.
  unfold read_uint. pose proof (read_app (le_bytes size x) rest) as H.
  rewrite length_le_bytes in H. rewrite (rd_bind_step _ _ _ _ _ H).
  unfold mret, rd_ret. by rewrite le_value_bytes.
Qed.

Lemma readVarint_bytes_le n i value x rest :
  0 <= i -> i + Z.of_nat n <= 8 -> 0 <= value < 2 ^ (8 * i) -> 0 <= x < 2 ^ (8 * Z.of_nat n) ->
  readVarint_bytes n i value (le_bytes n x ++ rest) = Ok (value + x * 2 ^ (8 * i), rest).
Proof.
  revert i value x. induction n as [|n IH]; intros i value x Hi Hn Hv Hx.
  { change (2 ^ (8 * Z.of_nat 0)) with 1 in Hx. assert (x = 0) as -> by lia.
    simpl. unfold mret, rd_ret. do 2 f_equal. lia. }
  cbn [le_bytes app readVarint_bytes]. rewrite (rd_bind_step _ _ _ _ _ (read_byte_cons _ _)).
  pose proof (Z.mod_pos_bound x 256 ltac:(lia)). pose proof (Z.div_mod x 256 ltac:(lia)).
  assert (2 ^ (8 * (i + 1)) = 256 * 2 ^ (8 * i)) as E1.
  { replace (8 * (i + 1)) with (8 + 8 * i) by lia. by rewrite Z.pow_add_r by lia. }
  assert (2 ^ (8 * Z.of_nat (S n)) = 256 * 2 ^ (8 * Z.of_nat n)) as E2.
  { replace (8 * Z.of_nat (S n)) with (8 + 8 * Z.of_nat n) by lia. by rewrite Z.pow_add_r by lia. }
  assert (2 ^ (8 * (i + 1)) <= 2 ^ 64) by (apply Z.pow_le_mono_r; lia).
  rewrite Z.shiftl_mul_pow2, (Z.mul_comm i 8), wrap_small by (unfold fits; nia).
  rewrite <- Z.shiftl_mul_pow2, lor_add_shiftl by lia.
  rewrite IH by nia. do 2 f_equal. nia.
Qed.

Lemma packVarint_value size mark v :
  (size <= 8)%nat -> 0 <= mark < 4 -> 0 <= v -> 4 * v + 3 < 2 ^ (8 * Z.of_nat size) ->
  packVarint size mark v = le_bytes size (4 * v + mark).
Proof.
  intros Hs Hm Hv Hb. unfold packVarint. f_equal.
  assert (2 ^ (8 * Z.of_nat size) <= 2 ^ 64) by (apply Z.pow_le_mono_r; lia).
  rewrite Z.shiftl_mul_pow2 by lia. change (2 ^ 2) with 4.
  rewrite !wrap_small by (unfold fits; rewrite ?wrap_small by (unfold fits; lia); lia).
  pose proof (lor_add_high v mark 2 ltac:(lia) ltac:(lia)) as E. change (2 ^ 2) with 4 in E. lia.
Qed.

Definition mark_bytes (mark : Z) : nat :=
  if mark =? 0 then 0%nat else if mark =? 1 then 1%nat else if mark =? 2 then 3%nat else 7%nat.

Lemma readVarint_pack mark v rest :
  0 <= mark < 4 -> 0 <= v -> 4 * v + 3 < 2 ^ (8 * Z.of_nat (S (mark_bytes mark))) ->
  kv_readVarint (packVarint (S (mark_bytes mark)) mark v ++ rest) = Ok (v, rest).
Proof.
  intros Hm Hv Hb. assert (mark_bytes mark <= 7)%nat by (unfold mark_bytes; repeat case_match; lia).
  rewrite packVarint_value by lia. cbn [le_bytes app]. unfold kv_readVarint.
  rewrite (rd_bind_step _ _ _ _ _ (read_byte_cons _ _)). cbv zeta.
  set (X := 4 * v + mark) in *. change 0x03 with (2 ^ 2 - 1). rewrite land_ones_mod by lia.
  change (2 ^ 2) with 4. replace ((X mod 256) mod 4) with mark.
  2: { pose proof (Z.div_mod X 256 ltac:(lia)). apply Z.mod_unique with (v - 64 * (X / 256)); lia. }
  fold (mark_bytes mark). pose proof (Z.mod_pos_bound X 256 ltac:(lia)).
  assert (2 ^ (8 * Z.of_nat (S (mark_bytes mark))) = 256 * 2 ^ (8 * Z.of_nat (mark_bytes mark))) as E2.
  { replace (8 * Z.of_nat (S (mark_bytes mark))) with (8 + 8 * Z.of_nat (mark_bytes mark)) by lia.
    by rewrite Z.pow_add_r by lia. }
  assert (0 <= X / 256 < 2 ^ (8 * Z.of_nat (mark_bytes mark))).
  { split; [apply Z.div_pos; lia|]. apply Z.div_lt_upper_bound; lia. }
  erewrite rd_bind_step; [|apply readVarint_bytes_le; [lia|lia|change (2 ^ (8 * 1)) with 256; lia|lia]].
  unfold mret, rd_ret. do 2 f_equal. change (2 ^ (8 * 1)) with 256.
  pose proof (Z.div_mod X 256 ltac:(lia)). replace (X mod 256 + X / 256 * 256) with X by lia.
  rewrite Z.shiftr_div_pow2 by lia. change (2 ^ 2) with 4. symmetry. apply Z.div_unique with mark; lia.
Qed.

Lemma readVarint_array_size n rest :
  Z.of_nat n < 2 ^ 62 -> kv_readVarint (array_size n ++ rest) = Ok (Z.of_nat n, rest).
Proof.
  intros Hn. change (2 ^ 62) with 4611686018427387904 in Hn.
  unfold array_size, writeArraySize. repeat case_match; [..|lia|]; simpl default.
  - apply (readVarint_pack 0); [lia..|]. change (2 ^ _) with 256. lia.
  - apply (readVarint_pack 1); [lia..|]. change (2 ^ _) with 65536. lia.
  - apply (readVarint_pack 2); [lia..|]. change (2 ^ _) with 4294967296. lia.
  - apply (readVarint_pack 3); [lia..|]. change (2 ^ _) with 18446744073709551616. lia.
Qed.

Lemma array_size_length n : Z.of_nat n < 2 ^ 62 -> (1 <= length (array_size n))%nat.
Proof.
  intros Hn. change (2 ^ 62) with 4611686018427387904 in Hn.
  unfold array_size, writeArraySize. repeat case_match; [..|lia|];
    simpl default; unfold packVarint; rewrite length_le_bytes; lia.
Qed.

Lemma payload_length v : kv_ok v = true -> (1 <= length (payload v))%nat.
Proof.
  destruct v as [t z|b|bits|s|s|members|items]; intros Hok.
  - simpl. rewrite length_le_bytes. destruct t; simpl; lia.
  - simpl. lia.
  - simpl. lia.
  - apply small_size_lt, array_size_length in Hok. simpl. rewrite length_app. lia.
  - apply small_size_lt, array_size_length in Hok. simpl. rewrite length_app. lia.
  - simpl in Hok. rewrite !andb_true_iff in Hok. destruct Hok as [_ Hs%small_size_lt].
    pose proof (Writer.length_fields_of members).
    rewrite payload_object, length_app. pose proof (array_size_length (length (fields_of members))). lia.
  - simpl in Hok. rewrite !andb_true_iff in Hok. destruct Hok as [[_ Hs%small_size_lt] _].
    simpl. rewrite length_app. pose proof (array_size_length (length items)). lia.
Qed.

Lemma while_count_0 {S} fuel (body : S -> rd S) st stream :
  while_count fuel 0 body st stream = Ok (st, stream).
Proof. by destruct fuel. Qed.

Lemma while_count_S {S} fuel n (body : S -> rd S) st :
  while_count (Datatypes.S fuel) (Z.of_nat (Datatypes.S n)) body st =
  (st ← body st; while_count fuel (Z.of_nat n) body st).
Proof.
  simpl. replace (Z.of_nat (Datatypes.S n) - 1) with (Z.of_nat n) by lia. reflexivity.
Qed.

Section Reader.
Context (lv : Z -> rd JsonValue).

Definition reads (v : kv) : Prop :=
  forall rest, lv (type_of v) (payload v ++ rest) = Ok (json_of v, rest).

Lemma while_items items ty acc fuel rest :
  Forall (fun v => type_of v = ty /\ reads v) items -> (length items <= fuel)%nat ->
  while_count fuel (Z.of_nat (length items)) (fun items => v ← lv ty; mret (items ++ [v])) acc
    (concat (map payload items) ++ rest) = Ok (acc ++ map json_of items, rest).
Proof.
  intros HF. revert acc fuel. induction HF as [|v items [<- Hv] HF IH]; intros acc fuel Hl.
  { simpl. by rewrite while_count_0, app_nil_r. }
  destruct fuel as [|fuel]; [simpl in Hl; lia|]. cbn [length]. rewrite while_count_S.
  simpl. rewrite <- app_assoc. erewrite rd_bind_step.
  2: { erewrite rd_bind_step; [|apply Hv]. reflexivity. }
  rewrite IH by (simpl in Hl; lia). by rewrite <- app_assoc.
Qed.

Lemma items_length items :
  forallb kv_ok items = true -> (length items <= length (concat (map payload items)))%nat.
Proof.
  induction items as [|v items IH]; [done|]. simpl. rewrite andb_true_iff, length_app.
  intros [Hv%payload_length Hi]. specialize (IH Hi). lia.
Qed.

Lemma loadArray_payload items ty rest :
  Forall (fun v => type_of v = ty /\ reads v) items ->
  forallb kv_ok items = true -> small_size items = true ->
  loadArray lv ty (payload (KArray items) ++ rest) = Ok (json_of (KArray items), rest).
Proof.
  intros HF Hok Hs%small_size_lt. unfold loadArray. simpl. rewrite <- app_assoc.
  erewrite rd_bind_step; [|by apply readVarint_array_size].
  erewrite rd_bind_step; [reflexivity|]. unfold while_stream.
  rewrite while_items with (acc := []); [done|done|].
  rewrite length_app. apply items_length in Hok. lia.
Qed.

Lemma loadEntry_array v rest :
  loadEntry lv (Z.lor FLAG_ARRAY (type_of v) :: rest) = loadArray lv (type_of v) rest.
Proof.
  unfold loadEntry. rewrite (rd_bind_step _ _ _ _ _ (read_byte_cons _ _)).
  destruct v as [[]| | | | | |]; reflexivity.
Qed.

Lemma loadEntry_plain v rest :
  loadEntry lv (type_of v :: rest) = lv (type_of v) rest.
Proof.
  unfold loadEntry. rewrite (rd_bind_step _ _ _ _ _ (read_byte_cons _ _)).
  destruct v as [[]| | | | | |]; reflexivity.
Qed.

(** A member that is written is read as an entry. *)
Definition entered_as (v : kv) : Prop :=
  forall rest, loadEntry lv (tag v :: payload v ++ rest) = Ok (json_of v, rest).

Lemma readName_element prev nm rest :
  name_ok nm = true -> readName prev (element_name nm ++ rest) = Ok (nm, rest).
Proof.
  unfold name_ok. rewrite andb_true_iff, negb_true_iff, bool_decide_eq_false, Z.leb_le.
  intros [Hne Hl]. unfold readName, element_name. simpl.
  rewrite (rd_bind_step _ _ _ _ _ (read_byte_cons _ _)).
  rewrite wrap_small by mlia. destruct (Z.eqb_spec (Z.of_nat (length nm)) 0); [by destruct nm|].
  apply read_app.
Qed.

Lemma find_member_None {A} nm (l : list (bytes * A)) : nm ∉ map fst l -> find_member nm l = None.
Proof.
  induction l as [|[k v] l IH]; [done|]. simpl. rewrite not_elem_of_cons. intros [Hk Hl].
  rewrite decide_False by congruence. by apply IH.
Qed.

Lemma json_members_cons m members :
  json_members (m :: members) =
  if silent m.2 then json_members members else (m.1, json_of m.2) :: json_members members.
Proof. unfold json_members. simpl. by destruct (silent m.2). Qed.

Definition section_body (st : bytes * list (bytes * JsonValue)) : rd (bytes * list (bytes * JsonValue)) :=
  name ← readName st.1; v ← loadEntry lv; mret (name, json_insert name v st.2).

Lemma while_members members prev acc fuel rest :
  Forall (fun m => name_ok m.1 = true /\ (silent m.2 = false -> entered_as m.2)) members ->
  NoDup (map fst acc ++ map fst members) -> (length (fields_of members) <= fuel)%nat ->
  exists last, while_count fuel (Z.of_nat (length (fields_of members))) section_body (prev, acc)
    (concat (fields_of members) ++ rest) = Ok ((last, acc ++ json_members members), rest).
Proof.
  intros HF. revert prev acc fuel. induction HF as [|[n v] members [Hn Hv] HF IH]; intros prev acc fuel Hd Hl.
  { exists prev. simpl. by rewrite while_count_0, app_nil_r. }
  rewrite json_members_cons. rewrite Writer.fields_of_cons in *. simpl in Hv, Hn, Hd, Hl |- *.
  assert (n ∉ map fst acc /\ NoDup (map fst acc ++ map fst members)) as [Hfresh Hd'].
  { apply NoDup_app in Hd as (Ha & Hx & Hm). apply NoDup_cons in Hm as [Hm1 Hm2].
    split; [intros Hin; eapply Hx; [exact Hin|by left]|]. apply NoDup_app.
    split; [done|]. split; [|done]. intros x Hin Hin'. eapply Hx; [exact Hin|by right]. }
  destruct (silent v) eqn:Es; [by apply IH|].
  destruct fuel as [|fuel]; [simpl in Hl; lia|]. cbn [length]. rewrite while_count_S.
  edestruct (IH n (acc ++ [(n, json_of v)]) fuel) as [last E].
  { rewrite map_app, <- app_assoc. exact Hd. }
  { simpl in Hl. lia. }
  exists last. simpl concat. erewrite rd_bind_step; [rewrite E; by rewrite <- app_assoc|].
  unfold section_body. simpl fst. rewrite <- app_comm_cons, <- !app_assoc.
  change (u8 (Z.of_nat (length n)) :: n ++ ?x) with (element_name n ++ x).
  erewrite rd_bind_step; [|by apply readName_element]. simpl app.
  erewrite rd_bind_step; [|by apply Hv].
  unfold mret, rd_ret, json_insert. simpl snd. by rewrite find_member_None.
Qed.

Lemma fields_length members :
  (length (fields_of members) <= length (concat (fields_of members)))%nat.
Proof.
  induction members as [|[n v] members IH]; [done|]. rewrite Writer.fields_of_cons.
  destruct (silent _); [done|]. simpl. rewrite !length_app. lia.
Qed.

Lemma loadSection_payload members rest :
  Forall (fun m => name_ok m.1 = true /\ (silent m.2 = false -> entered_as m.2)) members ->
  NoDup (map fst members) -> small_size members = true ->
  loadSection lv (payload (KObject members) ++ rest) = Ok (json_of (KObject members), rest).
Proof.
  intros HF Hd Hs%small_size_lt. rewrite payload_object, json_of_object, <- app_assoc.
  pose proof (Writer.length_fields_of members). unfold loadSection.
  erewrite rd_bind_step; [|apply readVarint_array_size; lia].
  destruct (while_members members [] []
    (S (length (concat (fields_of members) ++ rest))) rest HF) as [last E].
  - done.
  - rewrite length_app. pose proof (fields_length members). lia.
  - erewrite rd_bind_step; [|exact E]. reflexivity.
Qed.
End Reader.

Lemma int_json t z :
  int_cast t z = z -> i64 (int_cast t (wrap (int_width t) z)) = i64 z.
Proof.
  intros Hz. f_equal. rewrite <- Hz at 2. unfold int_cast, int_width, wrap, swrap.
  destruct t; simpl int_size; rewrite ?Zplus_mod_idemp_l; try done;
    by rewrite Z.mod_mod.
Qed.

Lemma readIntegerJson_payload t z rest :
  int_cast t z = z -> readIntegerJson t (le_bytes (int_size t) z ++ rest) = Ok (JInteger (i64 z), rest).
Proof.
  intros Hz. unfold readIntegerJson. erewrite rd_bind_step; [|apply read_uint_le].
  fold (int_width t). by rewrite int_json.
Qed.

Lemma readString_payload s rest :
  small_size s = true -> readString (array_size (length s) ++ s ++ rest) = Ok (s, rest).
Proof.
  intros Hs%small_size_lt. unfold readString.
  erewrite rd_bind_step; [|by apply readVarint_array_size]. apply read_app.
Qed.

(** An object or array is longer than each of its parts. *)
Lemma member_length members m :
  m ∈ members -> silent m.2 = false ->
  (length (payload m.2) < length (concat (fields_of members)))%nat.
Proof.
  induction 1 as [m members|m x members ? IH]; intros Hs; rewrite Writer.fields_of_cons.
  - rewrite Hs. simpl. rewrite !length_app. simpl. lia.
  - specialize (IH Hs). destruct (silent x.2); [done|]. simpl. rewrite !length_app. simpl. lia.
Qed.

Lemma item_length items v :
  v ∈ items -> (length (payload v) <= length (concat (map payload items)))%nat.
Proof. induction 1; simpl; rewrite length_app; lia. Qed.

(** Reading a value back needs no more fuel than it has bytes. *)
Definition read_back (v : kv) : Prop :=
  kv_ok v = true -> silent v = false -> forall fuel, (length (payload v) < fuel)%nat ->
  entered_as (loadValue fuel) v /\ (type_of v <> TYPE_ARRAY -> reads (loadValue fuel) v).

Lemma read_back_plain v :
  (forall m, v <> KObject m) -> (forall l, v <> KArray l) -> read_back v.
Proof.
  intros Ho Ha Hok _ fuel Hf. assert (reads (loadValue fuel) v) as Hr.
  { destruct fuel as [|fuel]; [lia|]. intros rest.
    destruct v as [t z|b|bits|s|s|members|items]; [..|by destruct (Ho members)|by destruct (Ha items)].
    - simpl in Hok. apply Z.eqb_eq in Hok. destruct t; by apply (readIntegerJson_payload _ z).
    - change (loadValue (S fuel) _) with (v ← read_uint 1; mret (JBool (negb (v =? 0)))).
      erewrite rd_bind_step; [|apply read_byte_cons]. by destruct b.
    - change (loadValue (S fuel) _) with (v ← read_uint 8; mret (JReal v)).
      erewrite rd_bind_step; [|apply read_uint_le].
      simpl in Hok. apply bool_decide_eq_true in Hok. by rewrite wrap_small.
    - change (loadValue (S fuel) _) with (s ← readString; mret (JString s)).
      simpl payload. rewrite <- app_assoc. by erewrite rd_bind_step; [|by apply readString_payload].
    - change (loadValue (S fuel) _) with (s ← readString; mret (JString s)).
      simpl payload. rewrite <- app_assoc. by erewrite rd_bind_step; [|by apply readString_payload]. }
  split; [|done]. intros rest. rewrite tag_plain, loadEntry_plain; [apply Hr|].
  destruct v as [[]| | | | | |items]; try discriminate. by destruct (Ha items).
Qed.

Lemma forallb_Forall_true {A} (f : A -> bool) l : forallb f l = true <-> Forall (fun x => f x = true) l.
Proof. by rewrite forallb_forall, List.Forall_forall. Qed.

Lemma read_back_object members :
  Forall (fun m => read_back m.2) members -> read_back (KObject members).
Proof.
  intros HF Hok _ fuel Hf. assert (reads (loadValue fuel) (KObject members)) as Hr.
  { destruct fuel as [|fuel]; [lia|]. intros rest.
    simpl in Hok. rewrite !andb_true_iff, forallb_Forall_true, bool_decide_eq_true in Hok.
    destruct Hok as [[Hm Hd] Hs]. apply (loadSection_payload (loadValue fuel)); [|done|done].
    rewrite payload_object, length_app in Hf. rewrite Forall_forall in HF, Hm |- *.
    intros m Hin. specialize (Hm m Hin). rewrite andb_true_iff in Hm. destruct Hm as [Hn Hk].
    split; [done|]. intros Hsil. apply (HF m Hin Hk Hsil).
    pose proof (member_length _ _ Hin Hsil). lia. }
  split; [|done]. intros rest. rewrite tag_plain, loadEntry_plain by done. apply Hr.
Qed.

Lemma read_back_array items : Forall read_back items -> read_back (KArray items).
Proof.
  intros HF Hok Hsil fuel Hf. split; [|done]. intros rest.
  destruct items as [|v items]; [done|]. cbn [tag]. rewrite loadEntry_array.
  cbn [kv_ok] in Hok. rewrite !andb_true_iff in Hok. destruct Hok as [[Hk Hs] Hi].
  apply loadArray_payload; [|done|done].
  rewrite forallb_Forall_true, Forall_forall in Hk, Hi. rewrite Forall_forall in HF |- *.
  intros x Hin. specialize (Hi x Hin). unfold item_ok in Hi.
  rewrite !andb_true_iff, !negb_true_iff, Z.eqb_eq, Z.eqb_neq in Hi. destruct Hi as [[Hx1 Hx2] Hx3].
  split; [done|]. apply (HF x Hin (Hk x Hin) Hx1); [|done].
  cbn [payload] in Hf. rewrite length_app in Hf. pose proof (item_length _ _ Hin). lia.
Qed.

Lemma kv_read_back v : read_back v.
Proof.
  induction v as [v ??|members IH|items IH] using kv_induction.
  - by apply read_back_plain.
  - by apply read_back_object.
  - by apply read_back_array.
Qed.

Lemma parseBinary_header body :
  parseBinary (storage_header ++ body) = loadSection (loadValue (S (9 + length body))) body.
Proof.
  unfold parseBinary, parse_packet, storage_header.
  rewrite !length_app, !length_le_bytes, <- !app_assoc.
  erewrite rd_bind_step; [|apply read_uint_le]. erewrite rd_bind_step; [|apply read_uint_le].
  erewrite rd_bind_step; [|apply read_byte_cons]. reflexivity.
Qed.

Lemma read_packet members rest :
  kv_ok (KObject members) = true ->
  parseBinary ((storage_header ++ payload (KObject members)) ++ rest) =
  Ok (JObject (json_members members), rest).
Proof.
  intros Hok. rewrite <- app_assoc, parseBinary_header, <- json_of_object.
  assert (Hr := proj2 (kv_read_back (KObject members) Hok eq_refl
    (S (S (9 + length (payload (KObject members) ++ rest)))) ltac:(rewrite length_app; lia)) ltac:(done)).
  exact (Hr rest).
Qed.

(** C31. A message whose members the format can represent is written without an
    error, and the parser reads it back: the integers with their values, the
    strings, the nested objects and the arrays, and not the empty blocks and
    arrays, which are not written. *)
Theorem kv_roundtrip members rest :
  kv_ok (KObject members) = true ->
  exists bs, packet members = Returns bs /\
    parseBinary (bs ++ rest) = Ok (JObject (json_members members), rest).
Proof.
  intros Hok. eexists. split; [by apply Writer.packet_bytes|]. by apply read_packet.
Qed.

Definition sample_members : list (bytes * kv) :=
  [(str "height", KInt UINT32 100000); (str "delta", KInt INT16 (-3)); (str "ok", KBool true);
   (str "id", KBinary (replicate 32 7)); (str "missing", KBinary []); (str "none", KArray []);
   (str "txs", KArray [KString (str "a"); KString []; KString (replicate 70 9)]);
   (str "blocks", KArray [KObject [(str "n", KInt UINT64 18446744073709551615)]; KObject []])].

Lemma kv_roundtrip_witness :
  exists bs, packet sample_members = Returns bs /\
    parseBinary (bs ++ [1; 2; 3]) = Ok (JObject (json_members sample_members), [1; 2; 3]).
Proof. apply (kv_roundtrip sample_members [1; 2; 3]). vm_compute. reflexivity. Defined.

(** ** Every input

    The parser returns or throws on every input, and what it builds is not
    larger than what it was given. *)

Fixpoint json_nodes (v : JsonValue) : nat :=
  match v with
  | JArray items => S (sum_list_with json_nodes items)
  | JObject members => S (sum_list_with (fun m => json_nodes m.2) members)
  | _ => 1
  end.

(** [Q] holds of what a reader returns; it does not run out of fuel. *)
Definition after {A} (m : rd A) (stream : bytes) (Q : A -> bytes -> Prop) : Prop :=
  match m stream with Ok (a, rest) => Q a rest | Throw e => e <> no_fuel end.

Lemma after_mono {A} (m : rd A) stream (Q Q' : A -> bytes -> Prop) :
  after m stream Q -> (forall a rest, Q a rest -> Q' a rest) -> after m stream Q'.
Proof. unfold after. destruct (m stream) as [[]|]; auto. Qed.

Lemma after_bind {A B} (m : rd A) (f : A -> rd B) stream Q :
  after m stream (fun a rest => after (f a) rest Q) -> after (m ≫= f) stream Q.
Proof. unfold after, mbind, rd_bind. by destruct (m stream) as [[]|]. Qed.

Lemma after_ret {A} (a : A) stream (Q : A -> bytes -> Prop) : Q a stream -> after (mret a) stream Q.
Proof. done. Qed.

(** What is left is no longer, by [n] bytes at least. *)
Definition shorter {A} (n : nat) (stream : bytes) (_ : A) (rest : bytes) : Prop :=
  (n + length rest <= length stream)%nat.

Lemma after_read_shorter size stream : after (read size) stream (shorter 0 stream).
Proof.
  unfold after, shorter. rewrite read_eq. destruct (Z.leb_spec size 0); [simpl; lia|].
  destruct (Z.leb_spec size (Z.of_nat (length stream))); [|done]. rewrite length_drop. lia.
Qed.

Lemma after_read_uint_size size stream : after (read_uint size) stream (shorter size stream).
Proof.
  unfold read_uint. apply after_bind. unfold after. rewrite read_eq.
  destruct (Z.leb_spec (Z.of_nat size) 0).
  { apply after_ret. unfold shorter. lia. }
  destruct (Z.leb_spec (Z.of_nat size) (Z.of_nat (length stream))); [|done].
  apply after_ret. unfold shorter. rewrite length_drop. lia.
Qed.

Lemma after_read_uint size stream : (0 < size)%nat -> after (read_uint size) stream (shorter 1 stream).
Proof.
  intros Hs. eapply after_mono; [apply after_read_uint_size|]. intros v rest. unfold shorter. lia.
Qed.

Lemma after_readVarint_bytes n i value stream :
  after (readVarint_bytes n i value) stream (shorter 0 stream).
Proof.
  revert i value stream. induction n as [|n IH]; intros i value stream.
  { apply after_ret. unfold shorter. lia. }
  simpl. apply after_bind. eapply after_mono; [apply after_read_uint; lia|]. intros b rest Hb.
  eapply after_mono; [apply IH|]. unfold shorter in *. lia.
Qed.

Lemma after_kv_readVarint stream : after kv_readVarint stream (shorter 1 stream).
Proof.
  unfold kv_readVarint. apply after_bind. eapply after_mono; [apply after_read_uint; lia|].
  intros b rest Hb. apply after_bind. eapply after_mono; [apply after_readVarint_bytes|].
  intros v rest' Hv. apply after_ret. unfold shorter in *. lia.
Qed.

Lemma after_readName name stream : after (readName name) stream (shorter 1 stream).
Proof.
  unfold readName. apply after_bind. eapply after_mono; [apply after_read_uint; lia|].
  intros len rest Hl. destruct (negb _); [|by apply after_ret].
  eapply after_mono; [apply after_read_shorter|]. unfold shorter in *. lia.
Qed.

(** The value and what is left fit in what there was. *)
Definition within (stream : bytes) (v : JsonValue) (rest : bytes) : Prop :=
  (json_nodes v + length rest <= length stream)%nat.

Lemma json_nodes_pos v : (1 <= json_nodes v)%nat.
Proof. destruct v; simpl; lia. Qed.

Lemma after_while {S} (body : S -> rd S) (cost : S -> nat) bound :
  (forall st stream, (length stream < bound)%nat ->
     after (body st) stream (fun st' rest =>
       cost st' + length rest <= cost st + length stream /\ length rest < length stream)%nat) ->
  forall count st stream, (length stream < bound)%nat ->
  after (while_stream count body st) stream (fun st' rest =>
    cost st' + length rest <= cost st + length stream)%nat.
Proof.
  intros Hbody count st stream Hs. unfold while_stream, after.
  assert (length stream < Datatypes.S (length stream))%nat as Hf by lia.
  revert Hf. generalize (Datatypes.S (length stream)) as fuel. intros fuel.
  change (length stream < fuel -> after (while_count fuel count body st) stream (fun st' rest =>
    cost st' + length rest <= cost st + length stream))%nat.
  revert count st stream Hs. induction fuel as [|fuel IH]; intros count st stream Hs Hf; [lia|].
  cbn [while_count]. destruct (count =? 0); [apply after_ret; lia|].
  apply after_bind. eapply after_mono; [by apply Hbody|]. intros st' rest [H1 H2].
  eapply after_mono; [apply IH; lia|]. simpl. lia.
Qed.

Section Bounds.
Context (lv : Z -> rd JsonValue) (bound : nat).
Hypothesis lv_within : forall type stream, (length stream < bound)%nat ->
  after (lv type) stream (within stream).

Lemma sum_list_with_app {A} (f : A -> nat) l l' :
  sum_list_with f (l ++ l') = (sum_list_with f l + sum_list_with f l')%nat.
Proof. induction l; simpl; lia. Qed.

Lemma after_loadArray type stream :
  (length stream <= bound)%nat -> after (loadArray lv type) stream (within stream).
Proof using lv_within.
  intros Hs. unfold loadArray. apply after_bind. eapply after_mono; [apply after_kv_readVarint|].
  intros count rest Hc. unfold shorter in Hc. apply after_bind.
  eapply after_mono; [apply (after_while _ (sum_list_with json_nodes) bound); [|lia]|].
  - intros items s Hl. apply after_bind. eapply after_mono; [by apply lv_within|].
    intros v rest' Hv. apply after_ret. rewrite sum_list_with_app. simpl.
    unfold within in Hv. pose proof (json_nodes_pos v). lia.
  - intros items rest' Hi. apply after_ret. unfold within. simpl in *. lia.
Qed.

Lemma after_loadEntry stream :
  (length stream <= bound)%nat ->
  after (loadEntry lv) stream (fun v rest => json_nodes v + length rest < length stream)%nat.
Proof using lv_within.
  intros Hs. unfold loadEntry. apply after_bind. eapply after_mono; [apply after_read_uint; lia|].
  intros type rest Ht. unfold shorter in Ht. destruct (negb _).
  - eapply after_mono; [apply after_loadArray; lia|]. unfold within. lia.
  - eapply after_mono; [apply lv_within; lia|]. unfold within. lia.
Qed.

Lemma json_insert_nodes name v members :
  (sum_list_with (fun m => json_nodes m.2) (json_insert name v members) <=
   sum_list_with (fun m => json_nodes m.2) members + json_nodes v)%nat.
Proof.
  unfold json_insert. destruct (find_member name members); [lia|].
  rewrite sum_list_with_app. simpl. lia.
Qed.

Lemma after_loadSection stream :
  (length stream <= bound)%nat -> after (loadSection lv) stream (within stream).
Proof using lv_within.
  intros Hs. unfold loadSection. apply after_bind. eapply after_mono; [apply after_kv_readVarint|].
  intros count rest Hc. unfold shorter in Hc. apply after_bind.
  eapply after_mono;
    [apply (after_while _ (fun st => sum_list_with (fun m => json_nodes m.2) st.2) bound); [|lia]|].
  - intros st s Hl. apply after_bind. eapply after_mono; [apply after_readName|].
    intros name s' Hn. unfold shorter in Hn. apply after_bind.
    eapply after_mono; [apply after_loadEntry; lia|].
    intros v s'' Hv. apply after_ret. simpl. pose proof (json_insert_nodes name v st.2).
    pose proof (json_nodes_pos v). simpl in *. lia.
  - intros st rest' Hi. apply after_ret. unfold within. simpl in *. lia.
Qed.
End Bounds.

Lemma after_readString stream : after readString stream (shorter 1 stream).
Proof.
  unfold readString. apply after_bind. eapply after_mono; [apply after_kv_readVarint|].
  intros size rest Hs. eapply after_mono; [apply after_read_shorter|]. unfold shorter in *. lia.
Qed.

Lemma after_leaf {A} (m : rd A) (f : A -> JsonValue) stream :
  (forall a, json_nodes (f a) = 1%nat) -> after m stream (shorter 1 stream) ->
  after (a ← m; mret (f a)) stream (within stream).
Proof.
  intros Hf Hm. apply after_bind. eapply after_mono; [exact Hm|].
  intros a rest Ha. apply after_ret. unfold within. rewrite Hf. exact Ha.
Qed.

Lemma after_loadValue fuel type stream :
  (length stream < fuel)%nat -> after (loadValue fuel type) stream (within stream).
Proof.
  revert type stream. induction fuel as [|fuel IH]; intros type stream Hf; [lia|]. cbn [loadValue].
  repeat match goal with |- after (if ?b then _ else _) _ _ => destruct b end.
  all: try (apply after_leaf; [done|]; apply after_read_uint; simpl; lia).
  - by apply after_leaf, after_readString.
  - apply after_loadSection with fuel; [exact IH|lia].
  - apply after_loadArray with fuel; [exact IH|lia].
  - done.
Qed.

Lemma after_parse_packet fuel stream :
  (length stream < fuel)%nat ->
  after (parse_packet fuel) stream (fun v rest => json_nodes v + length rest + 9 <= length stream)%nat.
Proof.
  intros Hf. unfold parse_packet.
  apply after_bind. eapply after_mono; [apply after_read_uint_size|]. intros a s1 H1.
  apply after_bind. eapply after_mono; [apply after_read_uint_size|]. intros b s2 H2.
  apply after_bind. eapply after_mono; [apply after_read_uint_size|]. intros c s3 H3.
  unfold shorter in *. destruct (negb _); [done|]. destruct (negb _); [done|].
  eapply after_mono; [apply (after_loadSection (loadValue fuel) fuel); [|lia]|].
  - apply after_loadValue.
  - unfold within. lia.
Qed.

(** C32. On every input the parser of the packets returns a value or throws one
    of the exceptions of the source: the recursion and the loops end.  The
    value it returns has at most as many nodes as the packet has bytes after
    its header. *)
Theorem parseBinary_bounded stream :
  match parseBinary stream with
  | Ok (v, rest) => (json_nodes v + length rest + 9 <= length stream)%nat
  | Throw e => e <> no_fuel
  end.
Proof. exact (after_parse_packet (S (length stream)) stream (Nat.lt_succ_diag_r _)). Qed.

(** ** The depth of the recursion *)

(** Arrays of one array each, [n] deep. *)
Fixpoint nested (n : nat) : JsonValue := match n with O => JArray [] | S n => JArray [nested n] end.

(** One member, an array of type [BIN_KV_SERIALIZE_TYPE_ARRAY], then [n] times
    the size 1 and once the size 0. *)
Definition nested_packet (n : nat) : bytes :=
  storage_header ++ [4; 1; 97; TYPE_ARRAY] ++ repeat 4 n ++ [0].

(** A loop of one round. *)
Lemma while_once {S A} (body : S -> rd S) (k : S -> rd A) st stream :
  (while_stream 1 body st ≫= k) stream = (body st ≫= k) stream.
Proof.
  unfold while_stream, mbind, rd_bind. change 1 with (Z.of_nat 1). rewrite while_count_S.
  unfold mbind, rd_bind. destruct (body st stream) as [[st' rest]|]; [|done].
  by rewrite while_count_0.
Qed.

Lemma nested_loadValue n fuel :
  loadValue fuel TYPE_ARRAY (repeat 4 n ++ [0]) =
  if (n <? fuel)%nat then Ok (nested n, []) else Throw no_fuel.
Proof.
  revert fuel. induction n as [|n IH]; intros [|fuel]; [done..|].
  change (loadValue (S fuel) TYPE_ARRAY) with (loadArray (loadValue fuel) TYPE_ARRAY).
  unfold loadArray. simpl repeat. simpl app.
  erewrite rd_bind_step; [|exact (readVarint_pack 0 1 _ ltac:(lia) ltac:(lia) ltac:(done))].
  rewrite (while_once _ _ _ (repeat 4 n ++ [0])).
  unfold mbind at 1, rd_bind at 1. unfold mbind at 1, rd_bind at 1. rewrite IH.
  change ((S n <? S fuel)%nat) with ((n <? fuel)%nat). by destruct (n <? fuel)%nat.
Qed.

Lemma parse_nested n fuel :
  parse_packet fuel (nested_packet n) =
  if (n <? fuel)%nat then Ok (JObject [([97], nested n)], []) else Throw no_fuel.
Proof.
  unfold parse_packet, nested_packet, storage_header. rewrite <- !app_assoc.
  erewrite rd_bind_step; [|apply read_uint_le]. erewrite rd_bind_step; [|apply read_uint_le].
  erewrite rd_bind_step; [|apply read_byte_cons].
  change (loadSection (loadValue fuel) (4 :: 1 :: 97 :: TYPE_ARRAY :: repeat 4 n ++ [0]) =
    if (n <? fuel)%nat then Ok (JObject [([97], nested n)], []) else Throw no_fuel).
  unfold loadSection.
  erewrite rd_bind_step; [|exact (readVarint_pack 0 1 _ ltac:(lia) ltac:(lia) ltac:(done))].
  rewrite while_once. unfold mbind at 1, rd_bind at 1.
  erewrite rd_bind_step; [|exact (readName_element [] [97] _ eq_refl)]. unfold mbind at 1, rd_bind at 1.
  rewrite (loadEntry_plain _ (KArray [])). simpl type_of. rewrite nested_loadValue.
  by destruct (n <? fuel)%nat.
Qed.

(** The recursion of the parser is as deep as the packet asks for: a packet
    of [n + 14] bytes is parsed to a value nested [n] deep, and [n] nested
    calls of [loadValue] are not enough for it.  A peer may send 100 MB. *)
Theorem parseBinary_depth n :
  length (nested_packet n) = (n + 14)%nat /\
  parseBinary (nested_packet n) = Ok (JObject [([97], nested n)], []) /\
  forall fuel, (fuel <= n)%nat -> parse_packet fuel (nested_packet n) = Throw no_fuel.
Proof.
  assert (length (nested_packet n) = (n + 14)%nat) as Hl.
  { unfold nested_packet. rewrite !length_app, repeat_length. simpl. lia. }
  split; [exact Hl|]. split.
  - unfold parseBinary. rewrite parse_nested, Hl. destruct (Nat.ltb_spec n (S (n + 14))); [done|lia].
  - intros fuel Hf. rewrite parse_nested. destruct (Nat.ltb_spec n fuel); [lia|done].
Qed.

Lemma parseBinary_depth_witness :
  length (nested_packet 3) = 17%nat /\
  parseBinary (nested_packet 3) = Ok (JObject [([97], nested 3)], []) /\
  parse_packet 3 (nested_packet 3) = Throw no_fuel.
Proof.
  destruct (parseBinary_depth 3) as (H1 & H2 & H3). split; [exact H1|]. split; [exact H2|].
  apply H3. lia.
Defined.
