(* ===== verification/KvMessages.v ===== *)
(** * Messages between peers
      ([src/serialization/json_input_value_serializer.cpp],
      [serialization_overloads.h], [iserializer.h],
      [src/p2p/p2p_protocol_definitions.h],
      [src/mevacoin_protocol/mevacoin_protocol_definitions.h])

    A message is written by running its [serialize] function against
    [KVBinaryOutputStreamSerializer] and read by running the same function
    against [KVBinaryInputStreamSerializer], which walks over the parsed
    packet.  A [kv_codec] is one such function; [KvOk] is what the messages rely
    on of the types they are made of. *)

From S2P Require Import Prelude Stream KvBinary.

(** ** Walking over a parsed packet *)

Module JsonInputValueSerializer.

(** The open values and the positions in the open arrays, the back of the
    vectors first. *)
Record t := Input { chain : list JsonValue; idxs : list Z }.

(** [JsonValue::contains] and the member it finds. *)
Definition member_of (name : bytes) (v : JsonValue) : outcome (option JsonValue) :=
  match v with
  | JObject members => Returns (find_member name members)
  | _ => Raises (runtime_error "JsonValue type is not OBJECT")
  end.

(** [parent->operator[](idxs.back()++)]. *)
Definition next_item (items : list JsonValue) (s : t) : outcome (JsonValue * t) :=
  idx ← back (idxs s);
  match items !! Z.to_nat idx with
  | Some v => Returns (v, Input (chain s) (u64 (idx + 1) :: tail (idxs s)))
  | None => Raises (out_of_range "vector")
  end.

Definition getValue (name : bytes) (s : t) : outcome (option JsonValue * t) :=
  val ← back (chain s);
  match val with
  | JArray items => '(v, s) ← next_item items s; mret (Some v, s)
  | _ => v ← member_of name val; mret (v, s)
  end.

Definition beginObject (name : bytes) (s : t) : outcome (bool * t) :=
  parent ← back (chain s);
  match parent with
  | JArray items =>
      '(v, s) ← next_item items s;
      mret (true, Input (v :: chain s) (idxs s))
  | _ =>
      v ← member_of name parent;
      match v with
      | Some v => mret (true, Input (v :: chain s) (idxs s))
      | None => mret (false, s)
      end
  end.

Definition endObject (s : t) : outcome t :=
  _ ← back (chain s); mret (Input (tail (chain s)) (idxs s)).

(** [JsonValue::size]. *)
Definition json_size (v : JsonValue) : outcome Z :=
  match v with
  | JArray items => Returns (Z.of_nat (length items))
  | JObject members => Returns (Z.of_nat (length members))
  | _ => Raises (runtime_error "JsonValue type is not ARRAY or OBJECT")
  end.

(** The size, when there is such an array. *)
Definition beginArray (name : bytes) (s : t) : outcome (option Z * t) :=
  parent ← back (chain s);
  v ← member_of name parent;
  match v with
  | Some arr =>
      size ← json_size arr;
      mret (Some size, Input (arr :: chain s) (0 :: idxs s))
  | None => mret (None, s)
  end.

Definition endArray (s : t) : outcome t :=
  _ ← back (chain s); _ ← back (idxs s);
  mret (Input (tail (chain s)) (tail (idxs s))).

(** [operator()] of the integers; [None] leaves the variable as it was. *)
Definition getNumber (ty : int_type) (name : bytes) (s : t) : outcome (option Z * t) :=
  '(ptr, s) ← getValue name s;
  match ptr with
  | None => mret (None, s)
  | Some (JInteger z) => mret (Some (int_cast ty z), s)
  | Some _ => Raises (runtime_error "JsonValue type is not INTEGER")
  end.

(** [operator()(std::string &, ...)], and [binary(std::string &, ...)] of
    [KVBinaryInputStreamSerializer]. *)
Definition getString (name : bytes) (s : t) : outcome (option bytes * t) :=
  '(ptr, s) ← getValue name s;
  match ptr with
  | None => mret (None, s)
  | Some (JString str) => mret (Some str, s)
  | Some _ => Raises (runtime_error "JsonValue type is not STRING")
  end.

(** [KVBinaryInputStreamSerializer::binary(void *, uint64_t, ...)]. *)
Definition binary (size : Z) (name : bytes) (s : t) : outcome (option bytes * t) :=
  '(str, s) ← getString name s;
  match str with
  | None => mret (None, s)
  | Some str =>
      if Z.of_nat (length str) =? size then mret (Some str, s)
      else Raises (runtime_error "Binary block size mismatch")
  end.

End JsonInputValueSerializer.

(** ** Serialization functions *)

Module Out := KVBinaryOutputStreamSerializer.
Module In := JsonInputValueSerializer.

(** One [serialize] function: writing, and reading over the value that the
    variable has.  [kv_fresh] is the value of an element that [resize] adds. *)
Record kv_codec (A : Type) := KvCodec {
  kv_put : A -> bytes -> Out.t -> outcome Out.t;
  kv_get : A -> bytes -> In.t -> outcome (A * In.t);
  kv_fresh : A
}.
Arguments KvCodec {A}.
Arguments kv_put {A}.
Arguments kv_get {A}.
Arguments kv_fresh {A}.

(** Keep the value of the variable when there was nothing to read. *)
Definition or_old {A} (old : A) (m : outcome (option A * In.t)) : outcome (A * In.t) :=
  '(v, s) ← m; mret (default old v, s).

Definition kv_int (ty : int_type) : kv_codec Z :=
  {| kv_put := fun v nm => Out.write_pod (int_code ty) (int_size ty) v nm;
     kv_get := fun old nm s => or_old old (In.getNumber ty nm s);
     kv_fresh := 0 |}.

Definition kv_string : kv_codec bytes :=
  {| kv_put := fun v nm => Out.write_string v nm;
     kv_get := fun old nm s => or_old old (In.getString nm s);
     kv_fresh := [] |}.

(** [serializePod]: a value of [size] bytes as they are in memory. *)
Definition kv_pod (size : nat) : kv_codec bytes :=
  {| kv_put := fun v nm => Out.binary v nm;
     kv_get := fun old nm s => or_old old (In.binary (Z.of_nat size) nm s);
     kv_fresh := replicate size 0 |}.

(** The bytes of a type that is copied as it is in memory. *)
Record layout (A : Type) := Layout { pod_size : nat; pod_bytes : A -> bytes; pod_value : bytes -> A }.
Arguments Layout {A}.
Arguments pod_size {A}.
Arguments pod_bytes {A}.
Arguments pod_value {A}.

Fixpoint chunks (n size : nat) (blob : bytes) : list bytes :=
  match n with O => [] | S n => take size blob :: chunks n size (drop size blob) end.

Definition blob_items {A} (p : layout A) (blob : bytes) : outcome (list A) :=
  if negb (Z.of_nat (length blob) mod Z.of_nat (pod_size p) =? 0) then
    Raises (runtime_error "Invalid blob size given!")
  else mret (map (pod_value p) (chunks (length blob / pod_size p) (pod_size p) blob)).

(** [serializeAsBinary(std::vector<T> &, ...)]. *)
Definition kv_blob_vector {A} (p : layout A) : kv_codec (list A) :=
  {| kv_put := fun l nm => Out.binary (concat (map (pod_bytes p) l)) nm;
     kv_get := fun _ nm s =>
       '(blob, s) ← or_old [] (In.getString nm s);
       l ← blob_items p blob; mret (l, s);
     kv_fresh := [] |}.

(** [serializeAsBinary(std::list<T> &, ...)]: what is read is appended. *)
Definition kv_blob_list {A} (p : layout A) : kv_codec (list A) :=
  {| kv_put := fun l nm => Out.binary (concat (map (pod_bytes p) l)) nm;
     kv_get := fun old nm s =>
       '(blob, s) ← or_old [] (In.getString nm s);
       l ← blob_items p blob; mret (old ++ l, s);
     kv_fresh := [] |}.

(** [std::vector::resize]. *)
Definition resized {A} (size : nat) (fresh : A) (l : list A) : list A :=
  take size l ++ replicate (size - length l) fresh.

Fixpoint get_each {A} (c : kv_codec A) (l : list A) (s : In.t) : outcome (list A * In.t) :=
  match l with
  | [] => mret ([], s)
  | old :: l =>
      '(a, s) ← kv_get c old [] s;
      '(l, s) ← get_each c l s;
      mret (a :: l, s)
  end.

(** [serializeContainer]. *)
Definition kv_container {A} (c : kv_codec A) : kv_codec (list A) :=
  {| kv_put := fun l nm s =>
       s ← Out.beginArray (Z.of_nat (length l)) nm s;
       s ← each (fun a s => kv_put c a [] s) l s;
       Out.endArray s;
     kv_get := fun old nm s =>
       '(size, s) ← In.beginArray nm s;
       match size with
       | None => mret ([], s)
       | Some size =>
           '(l, s) ← get_each c (resized (Z.to_nat size) (kv_fresh c) old) s;
           s ← In.endArray s;
           mret (l, s)
       end;
     kv_fresh := [] |}.

(** [KV_MEMBER(x)], that is [s(x, name)], in the structure [A]. *)
Record member (A : Type) := Member {
  m_type : Type;
  m_name : bytes;
  m_codec : kv_codec m_type;
  m_read : A -> m_type;
  m_write : m_type -> A -> A
}.
Arguments Member {A m_type}.
Arguments m_type {A}.
Arguments m_name {A}.
Arguments m_codec {A}.
Arguments m_read {A}.
Arguments m_write {A}.

Definition put_members {A} (ms : list (member A)) (a : A) (s : Out.t) : outcome Out.t :=
  each (fun m s => kv_put (m_codec m) (m_read m a) (m_name m) s) ms s.

Fixpoint get_members {A} (ms : list (member A)) (old : A) (s : In.t) : outcome (A * In.t) :=
  match ms with
  | [] => mret (old, s)
  | m :: ms =>
      '(x, s) ← kv_get (m_codec m) (m_read m old) (m_name m) s;
      get_members ms (m_write m x old) s
  end.

(** [serialize(T &, name, serializer)] of [iserializer.h]. *)
Definition kv_struct {A} (ms : list (member A)) (fresh : A) : kv_codec A :=
  {| kv_put := fun a nm s =>
       s ← Out.beginObject nm s; s ← put_members ms a s; Out.endObject s;
     kv_get := fun old nm s =>
       '(found, s) ← In.beginObject nm s;
       match found with
       | true =>
           '(a, s) ← get_members ms old s;
           s ← In.endObject s;
           mret (a, s)
       | false => mret (old, s)
       end;
     kv_fresh := fresh |}.

(** A variable that is set before it is read. *)
Definition kv_reset {A} (c : kv_codec A) (v : A) : kv_codec A :=
  {| kv_put := kv_put c; kv_get := fun _ nm s => kv_get c v nm s; kv_fresh := kv_fresh c |}.

(** A container that is read into a local variable and then appended. *)
Definition kv_append {A} (c : kv_codec (list A)) : kv_codec (list A) :=
  {| kv_put := kv_put c;
     kv_get := fun old nm s => '(l, s) ← kv_get c (kv_fresh c) nm s; mret (old ++ l, s);
     kv_fresh := [] |}.

(** [LevinProtocol::encode]. *)
Definition encode {A} (ms : list (member A)) (a : A) : outcome bytes :=
  s ← Out.new; s ← put_members ms a s; Out.dump s.

(** [LevinProtocol::decode]: exceptions are caught, the result is [None] for
    [false].  [old] is the value of the variable before. *)
Definition decode {A} (ms : list (member A)) (buf : bytes) (old : A) : outcome (option A) :=
  let body :=
    '(v, _) ← of_res (parseBinary buf);
    '(a, _) ← get_members ms old (In.Input [v] []);
    mret (Some a) in
  match body with
  | Raises _ => mret None
  | other => other
  end.

(** ** The contract of a serialization function

    Over the values that satisfy [valid] it writes the value [shape] gives, and
    reads it back over any variable that is [ready]. *)

(** What a walk over a parsed packet finds of a value. *)
Definition seen (v : kv) : option JsonValue := if silent v then None else Some (json_of v).

Definition at_object (s : In.t) : Prop := exists members ch, In.chain s = JObject members :: ch.

Class KvOk {A} (c : kv_codec A) (valid : A -> Prop) (shape : A -> kv) (ready : A -> Prop) : Prop := {
  kv_put_shape a nm s : valid a -> kv_put c a nm s = emit (shape a) nm s;
  kv_shape_ok a : valid a -> kv_ok (shape a) = true;
  kv_get_shape a old nm s s' :
    valid a -> ready old -> In.getValue nm s = Returns (seen (shape a), s') ->
    (type_of (shape a) = TYPE_ARRAY -> at_object s) ->
    kv_get c old nm s = Returns (a, s');
  kv_fresh_ready : ready (kv_fresh c)
}.

(** The same for the members of a structure; [merge a old] is [old] with the
    members of [a]. *)
Class MembersOk {A} (ms : list (member A)) (valid : A -> Prop) (shapes : A -> list (bytes * kv))
    (ready : A -> Prop) (merge : A -> A -> A) : Prop := {
  put_shapes a s : valid a -> put_members ms a s = each (fun m s => emit m.2 m.1 s) (shapes a) s;
  shapes_ok a : valid a -> forallb (fun m => kv_ok m.2) (shapes a) = true;
  shapes_names a : map fst (shapes a) = map m_name ms;
  get_shapes a old s :
    valid a -> ready old -> at_object s ->
    Forall (fun m => In.getValue m.1 s = Returns (seen m.2, s)) (shapes a) ->
    get_members ms old s = Returns (merge a old, s)
}.

#[global] Instance members_nil {A} :
  MembersOk (A := A) [] (fun _ => True) (fun _ => []) (fun _ => True) (fun _ old => old).
Proof. split; done. Qed.

#[global] Instance members_cons {A B} nm (c : kv_codec B) rd wr v sh r ms V S R M :
  KvOk c v sh r -> MembersOk (A := A) ms V S R M ->
  MembersOk (Member nm c rd wr :: ms)
    (fun a => v (rd a) /\ V a) (fun a => (nm, sh (rd a)) :: S a)
    (fun old => r (rd old) /\ forall x, R (wr x old)) (fun a old => M a (wr (rd a) old)).
Proof.
  intros Hc Hms. split.
  - intros a s [Hv HV]. unfold put_members. simpl.
    rewrite (kv_put_shape (KvOk := Hc)) by done.
    destruct (emit _ nm s) as [s'| |]; [|done..]. apply (put_shapes (MembersOk := Hms) a s' HV).
  - intros a [Hv HV]. simpl. rewrite (kv_shape_ok (KvOk := Hc)) by done.
    apply (shapes_ok (MembersOk := Hms) a HV).
  - intros a. simpl. f_equal. apply shapes_names.
  - intros a old s [Hv HV] [Hr HR] Ho [Hs HF]%Forall_cons. simpl in *.
    rewrite (kv_get_shape (KvOk := Hc) (rd a) (rd old) nm s s) by done. simpl.
    by rewrite (get_shapes (MembersOk := Hms) a (wr (rd a) old) s HV (HR _) Ho HF).
Qed.

(** ** Plain values *)

Lemma wrap_plus w z m : wrap w (z + m * 2 ^ w) = wrap w z.
Proof. apply Z_mod_plus_full. Qed.

Lemma swrap_plus w z m : swrap w (z + m * 2 ^ w) = swrap w z.
Proof.
  unfold swrap. replace (z + m * 2 ^ w + 2 ^ (w - 1)) with (z + 2 ^ (w - 1) + m * 2 ^ w) by lia.
  by rewrite Z_mod_plus_full.
Qed.

Lemma int_cast_i64 t z : int_cast t (i64 z) = int_cast t z.
Proof.
  assert (exists k, i64 z = z + k * 2 ^ 64) as [k ->].
  { exists (- ((z + 2 ^ 63) / 2 ^ 64)). unfold swrap. change (64 - 1) with 63.
    pose proof (Z.div_mod (z + 2 ^ 63) (2 ^ 64) ltac:(done)). lia. }
  assert (exists q, 2 ^ 64 = q * 2 ^ int_width t) as [q ->].
  { exists (2 ^ (64 - int_width t)). rewrite <- Z.pow_add_r by (destruct t; done). f_equal. lia. }
  rewrite Z.mul_assoc. unfold int_cast.
  destruct t; [apply swrap_plus..|apply wrap_plus|apply wrap_plus|apply wrap_plus|apply wrap_plus].
Qed.

#[global] Instance kv_int_ok ty :
  KvOk (kv_int ty) (fun z => int_cast ty z = z) (KInt ty) (fun _ => True).
Proof.
  split.
  - done.
  - intros z Hz. simpl. by apply Z.eqb_eq.
  - intros z old nm s s' Hz _ Hg _. simpl. unfold or_old, In.getNumber. rewrite Hg. simpl.
    by rewrite int_cast_i64, Hz.
  - done.
Qed.

#[global] Instance kv_string_ok :
  KvOk kv_string (fun v => small_size v = true) KString (fun _ => True).
Proof.
  split; [done|done| |done].
  intros v old nm s s' _ _ Hg _. simpl. unfold or_old, In.getString. by rewrite Hg.
Qed.

#[global] Instance kv_pod_ok size :
  KvOk (kv_pod (S size)) (fun v => length v = S size /\ small_size v = true) KBinary (fun _ => True).
Proof.
  split; [done|by intros v [??]| |done].
  intros v old nm s s' [Hl _] _ Hg _. simpl. unfold or_old, In.binary, In.getString. rewrite Hg.
  destruct v as [|b v]; [done|]. cbn [seen silent json_of mbind outcome_bind mret outcome_ret].
  by rewrite Hl, Z.eqb_refl.
Qed.

#[global] Instance kv_reset_ok {A} (c : kv_codec A) v valid shape :
  KvOk c valid shape (fun _ => True) -> KvOk (kv_reset c v) valid shape (fun _ => True).
Proof.
  intros Hc. split; [exact (kv_put_shape (KvOk := Hc))|exact (kv_shape_ok (KvOk := Hc))| |done].
  intros a old nm s s' Ha _. simpl. by apply kv_get_shape.
Qed.

#[global] Instance kv_append_ok {A} (c : kv_codec (list A)) valid shape ready :
  KvOk c valid shape ready -> KvOk (kv_append c) valid shape (fun old => old = []).
Proof.
  intros Hc. split; [exact (kv_put_shape (KvOk := Hc))|exact (kv_shape_ok (KvOk := Hc))| |done].
  intros a old nm s s' Ha -> Hg Ho. simpl.
  by rewrite (kv_get_shape a _ nm s s' Ha (kv_fresh_ready (KvOk := Hc))).
Qed.

(** ** Blocks of values *)

Class PodOk {A} (p : layout A) (valid : A -> Prop) : Prop := {
  pod_pos : (0 < pod_size p)%nat;
  pod_length a : valid a -> length (pod_bytes p a) = pod_size p;
  pod_round a : valid a -> pod_value p (pod_bytes p a) = a
}.

Section Blobs.
Context {A} (p : layout A) (valid : A -> Prop) `{Hp : !PodOk p valid}.

Abbreviation blob l := (concat (map (pod_bytes p) l)).

Lemma blob_length l : Forall valid l -> length (blob l) = (length l * pod_size p)%nat.
Proof using Hp. induction 1; simpl; [done|]. rewrite length_app, pod_length by done. lia. Qed.

Lemma chunks_blob l : Forall valid l -> chunks (length l) (pod_size p) (blob l) = map (pod_bytes p) l.
Proof using Hp.
  induction 1 as [|a l Ha HF IH]; [done|]. simpl. rewrite <- (pod_length a Ha).
  rewrite take_app_length, drop_app_length, pod_length by done. by rewrite IH.
Qed.

Lemma blob_items_blob l : Forall valid l -> blob_items p (blob l) = Returns l.
Proof using Hp.
  intros HF. pose proof pod_pos. unfold blob_items. rewrite blob_length by done.
  rewrite Nat2Z.inj_mul, Z.mod_mul, Nat.div_mul by lia. simpl. rewrite chunks_blob by done.
  rewrite map_map. unfold mret, outcome_ret. f_equal. induction HF; simpl; [done|].
  by rewrite pod_round, IHHF.
Qed.

(** Reading the block under a name, empty when there is none. *)
Lemma read_blob l nm s s' :
  In.getValue nm s = Returns (seen (KBinary (blob l)), s') ->
  or_old [] (In.getString nm s) = Returns (blob l, s').
Proof. unfold or_old, In.getString. intros ->. by destruct (blob l). Qed.

#[global] Instance kv_blob_vector_ok :
  KvOk (kv_blob_vector p) (fun l => Forall valid l /\ small_size (blob l) = true)
    (fun l => KBinary (blob l)) (fun _ => True).
Proof using Hp.
  split; [done|by intros l [??]| |done].
  intros l old nm s s' [Hl _] _ Hg%read_blob _. simpl. rewrite Hg. simpl.
  by rewrite blob_items_blob.
Qed.

#[global] Instance kv_blob_list_ok :
  KvOk (kv_blob_list p) (fun l => Forall valid l /\ small_size (blob l) = true)
    (fun l => KBinary (blob l)) (fun old => old = []).
Proof using Hp.
  split; [done|by intros l [??]| |done].
  intros l old nm s s' [Hl _] -> Hg%read_blob _. simpl. rewrite Hg. simpl.
  by rewrite blob_items_blob.
Qed.
End Blobs.

(** ** Containers *)

Section Containers.
Context {A} (c : kv_codec A) (valid : A -> Prop) (shape : A -> kv) (ready : A -> Prop) (ty : Z).
Context `{Hc : !KvOk c valid shape ready}.
Hypothesis shape_item : forall a, valid a -> item_ok ty (shape a) = true.

Lemma put_each l s :
  Forall valid l ->
  each (fun a s => kv_put c a [] s) l s = each (fun v s => emit v [] s) (map shape l) s.
Proof using Hc.
  intros HF. revert s. induction HF as [|a l Ha HF IH]; intros s; [done|]. simpl.
  rewrite kv_put_shape by done. destruct (emit (shape a) [] s); [|done..]. apply IH.
Qed.

Lemma get_each_items l olds before ch ix :
  Forall valid l -> Forall ready olds -> length olds = length l ->
  Z.of_nat (length before + length l) < 2 ^ 62 ->
  let items := map json_of (map shape (before ++ l)) in
  get_each c olds (In.Input (JArray items :: ch) (Z.of_nat (length before) :: ix)) =
  Returns (l, In.Input (JArray items :: ch) (Z.of_nat (length before + length l) :: ix)).
Proof using Hc shape_item.
  intros HF. revert olds before. induction HF as [|a l Ha HF IH]; intros olds before Hr Hl Hb.
  { destruct olds; [|done]. simpl. by rewrite Nat.add_0_r. }
  destruct olds as [|old olds]; [done|]. apply Forall_cons in Hr as [Hr Hrs].
  pose proof (shape_item a Ha) as Hi. unfold item_ok in Hi.
  rewrite !andb_true_iff, !negb_true_iff, Z.eqb_neq in Hi. destruct Hi as [[Hsil Harr] _].
  cbv zeta. cbn [get_each]. simpl in Hl, Hb. injection Hl as Hl.
  set (items := map json_of (map shape (before ++ a :: l))) in *.
  assert (items !! length before = Some (json_of (shape a))) as Hlook.
  { unfold items. rewrite !map_app, lookup_app_r by (by rewrite !length_map).
    by rewrite !length_map, Nat.sub_diag. }
  assert (In.getValue [] (In.Input (JArray items :: ch) (Z.of_nat (length before) :: ix)) =
    Returns (seen (shape a), In.Input (JArray items :: ch) (Z.of_nat (length before + 1) :: ix))) as Hg.
  { unfold In.getValue, In.next_item. simpl. rewrite Nat2Z.id, Hlook. simpl. unfold seen.
    rewrite Hsil, wrap_small by (change (2 ^ 62) with 4611686018427387904 in Hb; mlia).
    do 3 f_equal. f_equal. lia. }
  rewrite (kv_get_shape a old _ _ _ Ha Hr Hg) by done. simpl.
  specialize (IH olds (before ++ [a]) Hrs Hl). rewrite length_app in IH. simpl in IH.
  rewrite <- app_assoc in IH. simpl in IH. fold items in IH.
  rewrite IH by lia. simpl. do 3 f_equal. f_equal. lia.
Qed.

#[global] Instance kv_container_ok :
  KvOk (kv_container c) (fun l => Forall valid l /\ small_size l = true)
    (fun l => KArray (map shape l)) (Forall ready).
Proof using Hc shape_item.
  split.
  - intros l nm s [HF _]. simpl. rewrite length_map. unfold Out.beginArray. simpl.
    by rewrite put_each.
  - intros l [HF Hs]. cbn [kv_ok]. unfold small_size in *. rewrite length_map, Hs, andb_true_r.
    apply andb_true_iff. split.
    + apply forallb_Forall_true, Forall_map. eapply Forall_impl; [exact HF|]. apply kv_shape_ok.
    + destruct HF as [|a l Ha HF]; [done|]. cbn [map].
      assert (forall b, valid b -> type_of (shape b) = ty) as Hty.
      { intros b Hb%shape_item. unfold item_ok in Hb. rewrite !andb_true_iff, Z.eqb_eq in Hb. tauto. }
      rewrite Hty by done. apply forallb_Forall_true. change (shape a :: map shape l) with (map shape (a :: l)).
      apply Forall_map. eapply Forall_impl; [by apply Forall_cons|]. apply shape_item.
  - intros l old nm s s' [HF Hs%small_size_lt] Hr Hg Ho. destruct (Ho eq_refl) as (members & ch & Hch).
    unfold In.getValue in Hg. rewrite Hch in Hg. simpl in Hg. injection Hg as Hfind <-.
    cbn [kv_get kv_container]. unfold In.beginArray. rewrite Hch. cbn [mbind outcome_bind back In.member_of].
    rewrite Hfind. destruct l as [|a l]; [done|]. unfold seen. cbn [silent map].
    cbn [mbind outcome_bind In.json_size json_of mret outcome_ret]. rewrite Nat2Z.id.
    pose proof (get_each_items (a :: l)
      (resized (length (map json_of (shape a :: map shape l))) (kv_fresh c) old) [] (JObject members :: ch) (In.idxs s) HF)
      as Hget. cbv zeta in Hget. cbn [app map length] in Hget |- *. change (Z.of_nat 0) with 0 in Hget. rewrite Hget; clear Hget.
    + cbn [mbind outcome_bind]. unfold In.endArray. simpl. rewrite <- Hch. by destruct s.
    + unfold resized. apply Forall_app. split; [by apply Forall_take|]. apply Forall_replicate, kv_fresh_ready.
    + unfold resized. rewrite length_app, length_take, length_replicate, !length_map. lia.
    + exact Hs.
  - apply Forall_nil_2.
Qed.
End Containers.

(** ** Structures *)

(** The names of the members, as the source has them. *)
Definition names_ok {A} (ms : list (member A)) : bool :=
  forallb name_ok (map m_name ms) && bool_decide (NoDup (map m_name ms)) && small_size ms.

Lemma find_json_members L n v :
  NoDup (map fst L) -> (n, v) ∈ L -> find_member n (json_members L) = seen v.
Proof.
  induction L as [|[k w] L IH]; [by intros _ ?%not_elem_of_nil|].
  rewrite json_members_cons. cbn [map fst snd]. rewrite NoDup_cons, elem_of_cons. intros [Hk Hd] [[= <- <-]|Hin].
  - unfold seen. destruct (silent v); simpl; [|by rewrite decide_True].
    apply find_member_None. intros Hin. apply Hk. revert Hin. clear.
    induction L as [|[k w] L IH]; [done|]. rewrite json_members_cons. cbn [map fst snd].
    destruct (silent w); cbn [map fst]; rewrite !elem_of_cons; tauto.
  - destruct (silent w); [by apply IH|]. simpl. rewrite decide_False; [by apply IH|].
    intros ->. apply Hk, list_elem_of_fmap. by exists (n, v).
Qed.

Section Structures.
Context {A} (ms : list (member A)) (V : A -> Prop) (S : A -> list (bytes * kv)) (R : A -> Prop) (M : A -> A -> A).
Context `{Hms : !MembersOk ms V S R M}.
Hypothesis Hnames : names_ok ms = true.

Lemma struct_kv_ok a : V a -> kv_ok (KObject (S a)) = true.
Proof using Hms Hnames.
  intros Ha. unfold names_ok in Hnames. rewrite !andb_true_iff, bool_decide_eq_true in Hnames.
  destruct Hnames as [[Hn Hd] Hs]. simpl. rewrite (shapes_names (MembersOk := Hms) a).
  rewrite (bool_decide_true _ Hd), andb_true_r. unfold small_size in *.
  rewrite <- (length_map fst (S a)), (shapes_names (MembersOk := Hms) a), length_map, Hs, andb_true_r.
  pose proof (shapes_ok (MembersOk := Hms) a Ha) as Hk. rewrite <- (shapes_names (MembersOk := Hms) a) in Hn.
  induction (S a) as [|[n v] l IH]; [done|]. simpl in *. rewrite !andb_true_iff in *. tauto.
Qed.

(** The members of the structure as the walk finds them. *)
Lemma struct_found a old ch ix :
  V a -> R old ->
  get_members ms old (In.Input (JObject (json_members (S a)) :: ch) ix) =
  Returns (M a old, In.Input (JObject (json_members (S a)) :: ch) ix).
Proof using Hms Hnames.
  intros Ha Ho. apply (get_shapes (MembersOk := Hms)); [done|done|by eexists _, _|].
  unfold names_ok in Hnames. rewrite !andb_true_iff, bool_decide_eq_true in Hnames.
  destruct Hnames as [[_ Hd] _]. rewrite <- (shapes_names (MembersOk := Hms) a) in Hd.
  apply Forall_forall. intros [n v] Hin. unfold In.getValue. simpl.
  by rewrite (find_json_members _ _ _ Hd Hin).
Qed.

Lemma beginObject_getValue nm s s' v :
  In.getValue nm s = Returns (Some v, s') ->
  In.beginObject nm s = Returns (true, In.Input (v :: In.chain s') (In.idxs s')).
Proof.
  unfold In.getValue, In.beginObject. destruct (back (In.chain s)) as [[]| |]; try done.
  - simpl. by destruct (In.next_item items s) as [[]| |]; simpl; [|done..]; intros [= -> ->].
  - simpl. by intros [= -> ->].
Qed.

#[global] Instance kv_struct_ok fresh :
  (forall a old, V a -> M a old = a) -> R fresh -> KvOk (kv_struct ms fresh) V (fun a => KObject (S a)) R.
Proof using Hms Hnames.
  intros HM Hf. split.
  - intros a nm s Ha. simpl. destruct (Out.beginObject nm s) as [s'| |]; [|done..]. simpl.
    by rewrite (put_shapes (MembersOk := Hms)).
  - intros a. apply struct_kv_ok.
  - intros a old nm s s' Ha Ho Hg%beginObject_getValue _. cbn [kv_get kv_struct]. rewrite Hg.
    cbn [mbind outcome_bind]. rewrite json_of_object, struct_found by done. simpl.
    rewrite HM by done. by destruct s'.
  - exact Hf.
Qed.
End Structures.

(** ** Messages *)

Section Messages.
Context {A} (ms : list (member A)) (V : A -> Prop) (S : A -> list (bytes * kv)) (R : A -> Prop) (M : A -> A -> A).
Context `{Hms : !MembersOk ms V S R M}.

Lemma encode_packet a : V a -> encode ms a = packet (S a).
Proof using Hms.
  intros Ha. unfold encode, packet. destruct Out.new as [s| |]; [|done..]. simpl.
  by rewrite (put_shapes (MembersOk := Hms)).
Qed.

(** A message is encoded without an error and the bytes decode to the same
    message, whatever the variable it is read into holds, as long as the lists
    that are appended to are empty. *)
Lemma decode_encode a old :
  names_ok ms = true -> V a -> R old -> M a old = a ->
  exists buf, encode ms a = Returns buf /\ decode ms buf old = Returns (Some a).
Proof using Hms.
  intros Hn Ha Ho HM. rewrite encode_packet by done.
  rewrite (Writer.packet_bytes _ (struct_kv_ok ms V S R M Hn a Ha)). eexists. split; [done|].
  unfold decode. pose proof (KvBinary.read_packet (S a) [] (struct_kv_ok ms V S R M Hn a Ha)) as Hp.
  rewrite app_nil_r in Hp. rewrite Hp.
  cbn [of_res mbind outcome_bind]. rewrite (struct_found ms V S R M Hn a old) by done. simpl. by rewrite HM.
Qed.

Lemma encode_size a buf : names_ok ms = true -> V a -> encode ms a = Returns buf ->
  (length buf <= 17 + sum_list_with (fun m => 2 + length m.1 + length (payload m.2)) (S a))%nat.
Proof using Hms.
  intros Hn Ha. rewrite encode_packet, (Writer.packet_bytes _ (struct_kv_ok ms V S R M Hn a Ha)) by done.
  intros Hb. assert (buf = storage_header ++ payload (KObject (S a))) as -> by congruence.
  rewrite length_app, payload_object, length_app. pose proof (array_size_at_most (length (fields_of (S a)))).
  change (length storage_header) with 9%nat.
  enough (length (concat (fields_of (S a))) <=
    sum_list_with (fun m => 2 + length m.1 + length (payload m.2)) (S a))%nat by lia.
  clear. induction (S a) as [|[n v] l IH]; [done|]. unfold fields_of in *. cbn [omap list_omap sum_list_with fst snd].
  destruct (silent v); [lia|]. cbn [concat]. rewrite !length_app. cbn [length element_name]. lia.
Qed.
End Messages.

(** ** The messages of the node: [p2p_protocol_types.h] and
    [p2p_protocol_definitions.h] *)

Record NetworkAddress := MkNetworkAddress { ip : Z; port : Z }.

Record PeerlistEntry := MkPeerlistEntry { adr : NetworkAddress; id : Z; last_seen : Z }.

(** [PeerlistEntry] in memory. *)
Definition peer_pod : layout PeerlistEntry :=
  {| pod_size := 24;
     pod_bytes := fun e =>
       le_bytes 4 (ip (adr e)) ++ le_bytes 4 (port (adr e)) ++ le_bytes 8 (id e) ++ le_bytes 8 (last_seen e);
     pod_value := fun bs =>
       MkPeerlistEntry (MkNetworkAddress (le_value (take 4 bs)) (le_value (take 4 (drop 4 bs))))
         (le_value (take 8 (drop 8 bs))) (le_value (take 8 (drop 16 bs))) |}.

Definition hash_pod : layout bytes := {| pod_size := 32; pod_bytes := fun h => h; pod_value := fun h => h |}.

Record basic_node_data := MkNodeData {
  network_id : bytes; version : Z; local_time : Z; my_port : Z; peer_id : Z
}.

Definition node_data_members : list (member basic_node_data) :=
  [Member (str "network_id") (kv_pod 16) network_id
     (fun x d => MkNodeData x (version d) (local_time d) (my_port d) (peer_id d));
   Member (str "version") (kv_reset (kv_int UINT8) 0) version
     (fun x d => MkNodeData (network_id d) x (local_time d) (my_port d) (peer_id d));
   Member (str "peer_id") (kv_int UINT64) peer_id
     (fun x d => MkNodeData (network_id d) (version d) (local_time d) (my_port d) x);
   Member (str "local_time") (kv_int UINT64) local_time
     (fun x d => MkNodeData (network_id d) (version d) x (my_port d) (peer_id d));
   Member (str "my_port") (kv_int UINT32) my_port
     (fun x d => MkNodeData (network_id d) (version d) (local_time d) x (peer_id d))].

Record CORE_SYNC_DATA := MkSyncData { current_height : Z; top_id : bytes }.

Definition sync_data_members : list (member CORE_SYNC_DATA) :=
  [Member (str "current_height") (kv_int UINT32) current_height (fun x d => MkSyncData x (top_id d));
   Member (str "top_id") (kv_pod 32) top_id (fun x d => MkSyncData (current_height d) x)].

Definition kv_node_data : kv_codec basic_node_data :=
  kv_struct node_data_members (MkNodeData (replicate 16 0) 0 0 0 0).

Definition kv_sync_data : kv_codec CORE_SYNC_DATA :=
  kv_struct sync_data_members (MkSyncData 0 (replicate 32 0)).

(** [COMMAND_HANDSHAKE]. *)
Record handshake_request := HandshakeRequest {
  hq_node_data : basic_node_data; hq_payload_data : CORE_SYNC_DATA
}.

Definition handshake_request_members : list (member handshake_request) :=
  [Member (str "node_data") kv_node_data hq_node_data (fun x r => HandshakeRequest x (hq_payload_data r));
   Member (str "payload_data") kv_sync_data hq_payload_data (fun x r => HandshakeRequest (hq_node_data r) x)].

Record handshake_response := HandshakeResponse {
  hs_node_data : basic_node_data; hs_payload_data : CORE_SYNC_DATA;
  hs_local_peerlist : list PeerlistEntry
}.

Definition handshake_response_members : list (member handshake_response) :=
  [Member (str "node_data") kv_node_data hs_node_data
     (fun x r => HandshakeResponse x (hs_payload_data r) (hs_local_peerlist r));
   Member (str "payload_data") kv_sync_data hs_payload_data
     (fun x r => HandshakeResponse (hs_node_data r) x (hs_local_peerlist r));
   Member (str "local_peerlist") (kv_blob_list peer_pod) hs_local_peerlist
     (fun x r => HandshakeResponse (hs_node_data r) (hs_payload_data r) x)].

(** [COMMAND_TIMED_SYNC]; the request has the one member [payload_data]. *)
Definition timed_sync_request_members : list (member CORE_SYNC_DATA) :=
  [Member (str "payload_data") kv_sync_data (fun r => r) (fun x _ => x)].

Record timed_sync_response := TimedSyncResponse {
  ts_local_time : Z; ts_payload_data : CORE_SYNC_DATA; ts_local_peerlist : list PeerlistEntry
}.

Definition timed_sync_response_members : list (member timed_sync_response) :=
  [Member (str "local_time") (kv_int UINT64) ts_local_time
     (fun x r => TimedSyncResponse x (ts_payload_data r) (ts_local_peerlist r));
   Member (str "payload_data") kv_sync_data ts_payload_data
     (fun x r => TimedSyncResponse (ts_local_time r) x (ts_local_peerlist r));
   Member (str "local_peerlist") (kv_blob_list peer_pod) ts_local_peerlist
     (fun x r => TimedSyncResponse (ts_local_time r) (ts_payload_data r) x)].

(** [COMMAND_PING]; the request is empty. *)
Definition ping_request_members : list (member unit) := [].

Record ping_response := PingResponse { pg_status : bytes; pg_peer_id : Z }.

Definition ping_response_members : list (member ping_response) :=
  [Member (str "status") kv_string pg_status (fun x r => PingResponse x (pg_peer_id r));
   Member (str "peer_id") (kv_int UINT64) pg_peer_id (fun x r => PingResponse (pg_status r) x)].

(** ** What the messages may hold *)

Definition node_data_ok (d : basic_node_data) : Prop :=
  length (network_id d) = 16%nat /\ is_u8 (version d) /\ is_u64 (local_time d) /\
  is_u32 (my_port d) /\ is_u64 (peer_id d).

Definition sync_data_ok (d : CORE_SYNC_DATA) : Prop :=
  is_u32 (current_height d) /\ length (top_id d) = 32%nat.

Definition peer_ok (e : PeerlistEntry) : Prop :=
  is_u32 (ip (adr e)) /\ is_u32 (port (adr e)) /\ is_u64 (id e) /\ is_u64 (last_seen e).

Lemma kv_weaken {A} (c : kv_codec A) valid shape ready (valid' ready' : A -> Prop) :
  KvOk c valid shape ready -> (forall a, valid' a -> valid a) -> (forall a, ready' a -> ready a) ->
  ready' (kv_fresh c) -> KvOk c valid' shape ready'.
Proof.
  intros Hc Hv Hr Hf. split; [| | |done].
  - intros a nm s ?%Hv. by apply kv_put_shape.
  - intros a ?%Hv. by apply (kv_shape_ok (KvOk := Hc)).
  - intros a old nm s s' ?%Hv ?%Hr. by apply kv_get_shape.
Qed.

Lemma small_of_length {A} (l : list A) n : length l = n -> (Z.of_nat n <? 2 ^ 62) = true -> small_size l = true.
Proof. unfold small_size. by intros ->. Qed.

Lemma int_ok ty z : match ty with UINT8 | UINT16 | UINT32 | UINT64 => fits (int_width ty) z | _ => False end ->
  int_cast ty z = z.
Proof. by destruct ty; try done; apply wrap_small. Qed.

(** The conditions of the members from those of the structure. *)
Ltac members_valid :=
  repeat match goal with
  | |- _ /\ _ => split
  | |- True => exact I
  | |- int_cast _ _ = _ => apply int_ok
  | |- small_size _ = true => eapply small_of_length; [eassumption|reflexivity]
  end; try assumption; try (by auto).

Definition node_data_shape (d : basic_node_data) : kv :=
  KObject [(str "network_id", KBinary (network_id d)); (str "version", KInt UINT8 (version d));
           (str "peer_id", KInt UINT64 (peer_id d)); (str "local_time", KInt UINT64 (local_time d));
           (str "my_port", KInt UINT32 (my_port d))].

(** The laws of the members of a structure, found by their types. *)
Ltac members_ok ms H :=
  eassert (MembersOk ms _ _ _ _) as H by (unfold ms; apply _).

#[global] Instance kv_node_data_ok : KvOk kv_node_data node_data_ok node_data_shape (fun _ => True).
Proof.
  members_ok node_data_members H. eapply kv_weaken.
  - eapply (kv_struct_ok _ _ _ _ _ (Hms := H)); [evaluate|by intros [] []|]. simpl. auto 10.
  - intros d (? & ? & ? & ? & ?). members_valid.
  - simpl. auto 10.
  - done.
Qed.

Definition sync_data_shape (d : CORE_SYNC_DATA) : kv :=
  KObject [(str "current_height", KInt UINT32 (current_height d)); (str "top_id", KBinary (top_id d))].

#[global] Instance kv_sync_data_ok : KvOk kv_sync_data sync_data_ok sync_data_shape (fun _ => True).
Proof.
  members_ok sync_data_members H. eapply kv_weaken.
  - eapply (kv_struct_ok _ _ _ _ _ (Hms := H)); [evaluate|by intros [] []|]. simpl. auto 10.
  - intros d (? & ?). members_valid.
  - simpl. auto 10.
  - done.
Qed.

#[global] Instance hash_pod_ok : PodOk hash_pod (fun h => length h = 32%nat).
Proof. split; simpl; [lia|done|done]. Qed.

#[global] Instance peer_pod_ok : PodOk peer_pod peer_ok.
Proof.
  split; [simpl; lia|done|].
  intros [[i p] d l] (Hi & Hp & Hd & Hl). unfold peer_pod. cbn [pod_value pod_bytes adr ip port id last_seen] in *.
  assert (forall n x, fits (8 * Z.of_nat n) x -> le_value (le_bytes n x) = x) as E.
  { intros n x Hx. rewrite le_value_bytes. by apply Z.mod_small. }
  f_equal; [f_equal|..].
  - exact (E 4%nat i Hi).
  - exact (E 4%nat p Hp).
  - exact (E 8%nat d Hd).
  - exact (E 8%nat l Hl).
Qed.

(** Encoding and decoding give the message back. *)
Definition round_trips {A} (ms : list (member A)) (a old : A) : Prop :=
  exists buf, encode ms a = Returns buf /\ decode ms buf old = Returns (Some a).

(** A list of at most 2^32 entries, which is more than a packet holds. *)
Definition short {A} (l : list A) : Prop := Z.of_nat (length l) < 2 ^ 32.

Lemma small_blob {A} (p : layout A) valid `{!PodOk p valid} l :
  Forall valid l -> short l -> (pod_size p <= 1024)%nat ->
  small_size (concat (map (pod_bytes p) l)) = true.
Proof.
  intros HF Hs Hp. unfold small_size, short in *. rewrite (blob_length p valid) by done.
  apply Z.ltb_lt. change (2 ^ 32) with 4294967296 in Hs. change (2 ^ 62) with 4611686018427387904. nia.
Qed.

Lemma small_short {A} (l : list A) : short l -> small_size l = true.
Proof.
  unfold small_size, short. change (2 ^ 32) with 4294967296. change (2 ^ 62) with 4611686018427387904. lia.
Qed.

Ltac message_round_trip ms a old :=
  let H := fresh "H" in
  members_ok ms H; apply (decode_encode _ _ _ _ _ (Hms := H));
  [ evaluate
  | members_valid; try (apply (small_blob peer_pod peer_ok); [done|done|simpl; lia]);
    try (apply (small_blob hash_pod (fun h => length h = 32%nat)); [done|done|simpl; lia]);
    try (by apply small_short)
  | simpl; split_and?; intros; split_and?; auto 10 using Forall_true
  | first [reflexivity | destruct a, old; reflexivity] ].

Lemma handshake_response_round a old :
  node_data_ok (hs_node_data a) -> sync_data_ok (hs_payload_data a) ->
  Forall peer_ok (hs_local_peerlist a) -> short (hs_local_peerlist a) ->
  hs_local_peerlist old = [] -> round_trips handshake_response_members a old.
Proof. intros. message_round_trip handshake_response_members a old. Qed.

(** The messages of the node to another node: requests and responses of
    the handshake, of the timed synchronisation and of the ping are encoded and
    decoded to the same message.  The peer list of a response is appended to
    the one of the variable, which has to be empty. *)
Theorem p2p_messages_roundtrip :
  (forall a old, node_data_ok (hq_node_data a) -> sync_data_ok (hq_payload_data a) ->
     round_trips handshake_request_members a old) /\
  (forall a old, node_data_ok (hs_node_data a) -> sync_data_ok (hs_payload_data a) ->
     Forall peer_ok (hs_local_peerlist a) -> short (hs_local_peerlist a) ->
     hs_local_peerlist old = [] -> round_trips handshake_response_members a old) /\
  (forall a old, sync_data_ok a -> round_trips timed_sync_request_members a old) /\
  (forall a old, is_u64 (ts_local_time a) -> sync_data_ok (ts_payload_data a) ->
     Forall peer_ok (ts_local_peerlist a) -> short (ts_local_peerlist a) ->
     ts_local_peerlist old = [] -> round_trips timed_sync_response_members a old) /\
  (forall a old, short (pg_status a) -> is_u64 (pg_peer_id a) ->
     round_trips ping_response_members a old).
Proof.
  split; [|split; [|split; [|split]]]; intros a old; intros.
  - message_round_trip handshake_request_members a old.
  - by apply handshake_response_round.
  - message_round_trip timed_sync_request_members a old.
  - message_round_trip timed_sync_response_members a old.
  - message_round_trip ping_response_members a old.
Qed.

Definition sample_node_data : basic_node_data := MkNodeData (replicate 16 3) 4 1700000000 11897 77.
Definition sample_sync_data : CORE_SYNC_DATA := MkSyncData 12 (replicate 32 5).
Definition sample_response : handshake_response :=
  HandshakeResponse sample_node_data sample_sync_data
    [MkPeerlistEntry (MkNetworkAddress 16777226 11897) 9 1600000000].

Lemma sample_node_data_ok : node_data_ok sample_node_data.
Proof. unfold node_data_ok. split_and!; evaluate. Qed.

Lemma sample_sync_data_ok : sync_data_ok sample_sync_data.
Proof. unfold sync_data_ok. split_and!; evaluate. Qed.

Lemma p2p_messages_roundtrip_witness :
  round_trips handshake_response_members sample_response
    (HandshakeResponse sample_node_data sample_sync_data []).
Proof.
  destruct p2p_messages_roundtrip as (_ & H & _). apply H.
  - exact sample_node_data_ok.
  - exact sample_sync_data_ok.
  - apply Forall_singleton. unfold peer_ok. split_and!; evaluate.
  - unfold short. simpl. lia.
  - reflexivity.
Defined.

(** ** The notifications: [mevacoin_protocol_definitions.h] and the functions
    [serialize] of [mevacoin_protocol_handler.cpp] *)

Record RawBlockLegacy := MkRawBlockLegacy { blockTemplate : bytes; transactions : list bytes }.

Definition raw_block_members : list (member RawBlockLegacy) :=
  [Member (str "block") (kv_append kv_string) blockTemplate (fun x b => MkRawBlockLegacy x (transactions b));
   Member (str "txs") (kv_append (kv_container kv_string)) transactions
     (fun x b => MkRawBlockLegacy (blockTemplate b) x)].

Definition kv_raw_block : kv_codec RawBlockLegacy := kv_struct raw_block_members (MkRawBlockLegacy [] []).

Record NOTIFY_NEW_BLOCK_request := NewBlock {
  nb_block : RawBlockLegacy; nb_current_blockchain_height : Z; nb_hop : Z
}.

Definition new_block_members : list (member NOTIFY_NEW_BLOCK_request) :=
  [Member (str "b") kv_raw_block nb_block (fun x r => NewBlock x (nb_current_blockchain_height r) (nb_hop r));
   Member (str "current_blockchain_height") (kv_int UINT32) nb_current_blockchain_height
     (fun x r => NewBlock (nb_block r) x (nb_hop r));
   Member (str "hop") (kv_int UINT32) nb_hop
     (fun x r => NewBlock (nb_block r) (nb_current_blockchain_height r) x)].

(** [NOTIFY_NEW_TRANSACTIONS_request] is its one member [txs]. *)
Definition new_transactions_members : list (member (list bytes)) :=
  [Member (str "txs") (kv_append (kv_container kv_string)) (fun r => r) (fun x _ => x)].

Record NOTIFY_REQUEST_GET_OBJECTS_request := RequestGetObjects { rq_txs : list bytes; rq_blocks : list bytes }.

Definition request_get_objects_members : list (member NOTIFY_REQUEST_GET_OBJECTS_request) :=
  [Member (str "txs") (kv_blob_vector hash_pod) rq_txs (fun x r => RequestGetObjects x (rq_blocks r));
   Member (str "blocks") (kv_blob_vector hash_pod) rq_blocks (fun x r => RequestGetObjects (rq_txs r) x)].

Record NOTIFY_RESPONSE_GET_OBJECTS_request := ResponseGetObjects {
  rs_txs : list bytes; rs_blocks : list RawBlockLegacy; rs_missed_ids : list bytes;
  rs_current_blockchain_height : Z
}.

Definition response_get_objects_members : list (member NOTIFY_RESPONSE_GET_OBJECTS_request) :=
  [Member (str "txs") (kv_container kv_string) rs_txs
     (fun x r => ResponseGetObjects x (rs_blocks r) (rs_missed_ids r) (rs_current_blockchain_height r));
   Member (str "blocks") (kv_container kv_raw_block) rs_blocks
     (fun x r => ResponseGetObjects (rs_txs r) x (rs_missed_ids r) (rs_current_blockchain_height r));
   Member (str "missed_ids") (kv_blob_vector hash_pod) rs_missed_ids
     (fun x r => ResponseGetObjects (rs_txs r) (rs_blocks r) x (rs_current_blockchain_height r));
   Member (str "current_blockchain_height") (kv_int UINT32) rs_current_blockchain_height
     (fun x r => ResponseGetObjects (rs_txs r) (rs_blocks r) (rs_missed_ids r) x)].

(** [NOTIFY_REQUEST_CHAIN::request] is its one member [block_ids]. *)
Definition request_chain_members : list (member (list bytes)) :=
  [Member (str "block_ids") (kv_blob_vector hash_pod) (fun r => r) (fun x _ => x)].

Record NOTIFY_RESPONSE_CHAIN_ENTRY_request := ResponseChainEntry {
  ce_start_height : Z; ce_total_height : Z; ce_m_block_ids : list bytes
}.

Definition response_chain_entry_members : list (member NOTIFY_RESPONSE_CHAIN_ENTRY_request) :=
  [Member (str "start_height") (kv_int UINT32) ce_start_height
     (fun x r => ResponseChainEntry x (ce_total_height r) (ce_m_block_ids r));
   Member (str "total_height") (kv_int UINT32) ce_total_height
     (fun x r => ResponseChainEntry (ce_start_height r) x (ce_m_block_ids r));
   Member (str "m_block_ids") (kv_blob_vector hash_pod) ce_m_block_ids
     (fun x r => ResponseChainEntry (ce_start_height r) (ce_total_height r) x)].

(** [NOTIFY_REQUEST_TX_POOL_request] is its one member [txs]. *)
Definition request_tx_pool_members : list (member (list bytes)) :=
  [Member (str "txs") (kv_blob_vector hash_pod) (fun r => r) (fun x _ => x)].

Record NOTIFY_NEW_LITE_BLOCK_request := NewLiteBlock {
  lb_blockTemplate : bytes; lb_current_blockchain_height : Z; lb_hop : Z
}.

Definition new_lite_block_members : list (member NOTIFY_NEW_LITE_BLOCK_request) :=
  [Member (str "current_blockchain_height") (kv_int UINT32) lb_current_blockchain_height
     (fun x r => NewLiteBlock (lb_blockTemplate r) x (lb_hop r));
   Member (str "hop") (kv_int UINT32) lb_hop
     (fun x r => NewLiteBlock (lb_blockTemplate r) (lb_current_blockchain_height r) x);
   Member (str "blockTemplate") (kv_append kv_string) lb_blockTemplate
     (fun x r => NewLiteBlock x (lb_current_blockchain_height r) (lb_hop r))].

Record NOTIFY_MISSING_TXS_request := MissingTxs {
  mt_blockHash : bytes; mt_current_blockchain_height : Z; mt_missing_txs : list bytes
}.

Definition missing_txs_members : list (member NOTIFY_MISSING_TXS_request) :=
  [Member (str "current_blockchain_height") (kv_int UINT32) mt_current_blockchain_height
     (fun x r => MissingTxs (mt_blockHash r) x (mt_missing_txs r));
   Member (str "blockHash") (kv_pod 32) mt_blockHash
     (fun x r => MissingTxs x (mt_current_blockchain_height r) (mt_missing_txs r));
   Member (str "missing_txs") (kv_blob_vector hash_pod) mt_missing_txs
     (fun x r => MissingTxs (mt_blockHash r) (mt_current_blockchain_height r) x)].

#[global] Instance kv_strings_ok :
  KvOk (kv_container kv_string) (fun l => Forall short l /\ short l)
    (fun l => KArray (map KString l)) (Forall (fun _ => True)).
Proof.
  eapply kv_weaken.
  - eapply (kv_container_ok kv_string _ _ _ TYPE_STRING). done.
  - intros l [HF Hs]. split; [|by apply small_short]. eapply Forall_impl; [exact HF|]. apply small_short.
  - done.
  - apply Forall_nil_2.
Qed.

Definition raw_block_ok (b : RawBlockLegacy) : Prop :=
  short (blockTemplate b) /\ Forall short (transactions b) /\ short (transactions b).

Definition raw_block_shape (b : RawBlockLegacy) : kv :=
  KObject [(str "block", KString (blockTemplate b)); (str "txs", KArray (map KString (transactions b)))].

Definition empty_block (b : RawBlockLegacy) : Prop := blockTemplate b = [] /\ transactions b = [].

#[global] Instance kv_raw_block_ok : KvOk kv_raw_block raw_block_ok raw_block_shape empty_block.
Proof.
  members_ok raw_block_members H. eapply kv_weaken.
  - eapply (kv_struct_ok _ _ _ _ _ (Hms := H)); [evaluate|by intros [] []|]. simpl. auto.
  - intros b (? & ? & ?). members_valid. by apply small_short.
  - intros b [??]. simpl. auto.
  - done.
Qed.

#[global] Instance kv_raw_blocks_ok :
  KvOk (kv_container kv_raw_block) (fun l => Forall raw_block_ok l /\ short l)
    (fun l => KArray (map raw_block_shape l)) (Forall empty_block).
Proof.
  eapply kv_weaken.
  - eapply (kv_container_ok kv_raw_block _ _ _ TYPE_OBJECT). done.
  - intros l [HF Hs]. split; [done|by apply small_short].
  - done.
  - apply Forall_nil_2.
Qed.

Definition hashes (l : list bytes) : Prop := Forall (fun h => length h = 32%nat) l /\ short l.

Lemma new_transactions_round a :
  Forall short a -> short a -> round_trips new_transactions_members a [].
Proof. intros. message_round_trip new_transactions_members a (@nil bytes). Qed.

Lemma request_get_objects_round a old :
  hashes (rq_txs a) -> hashes (rq_blocks a) -> round_trips request_get_objects_members a old.
Proof. intros [] []. message_round_trip request_get_objects_members a old. Qed.

Lemma response_get_objects_round a old :
  Forall short (rs_txs a) -> short (rs_txs a) -> Forall raw_block_ok (rs_blocks a) -> short (rs_blocks a) ->
  hashes (rs_missed_ids a) -> is_u32 (rs_current_blockchain_height a) -> Forall empty_block (rs_blocks old) ->
  round_trips response_get_objects_members a old.
Proof. intros ? ? ? ? [] ? ?. message_round_trip response_get_objects_members a old. Qed.

Lemma request_chain_round a old : hashes a -> round_trips request_chain_members a old.
Proof. intros []. message_round_trip request_chain_members a old. Qed.

Lemma response_chain_entry_round a old :
  is_u32 (ce_start_height a) -> is_u32 (ce_total_height a) -> hashes (ce_m_block_ids a) ->
  round_trips response_chain_entry_members a old.
Proof. intros ? ? []. message_round_trip response_chain_entry_members a old. Qed.

Lemma request_tx_pool_round a old : hashes a -> round_trips request_tx_pool_members a old.
Proof. intros []. message_round_trip request_tx_pool_members a old. Qed.

Lemma missing_txs_round a old :
  length (mt_blockHash a) = 32%nat -> is_u32 (mt_current_blockchain_height a) -> hashes (mt_missing_txs a) ->
  round_trips missing_txs_members a old.
Proof. intros ? ? []. message_round_trip missing_txs_members a old. Qed.

(** C20. The notifications about blocks, transactions and chains are encoded and
    decoded to the same message: lists of hashes, raw blocks with their
    transactions, heights.  Blocks and transactions are appended to those of
    the variable, which have to be empty. *)
Theorem notifications_roundtrip :
  (forall a old, raw_block_ok (nb_block a) -> is_u32 (nb_current_blockchain_height a) -> is_u32 (nb_hop a) ->
     empty_block (nb_block old) -> round_trips new_block_members a old) /\
  (forall a, Forall short a -> short a -> round_trips new_transactions_members a []) /\
  (forall a old, hashes (rq_txs a) -> hashes (rq_blocks a) ->
     round_trips request_get_objects_members a old) /\
  (forall a old, Forall short (rs_txs a) -> short (rs_txs a) ->
     Forall raw_block_ok (rs_blocks a) -> short (rs_blocks a) -> hashes (rs_missed_ids a) ->
     is_u32 (rs_current_blockchain_height a) -> Forall empty_block (rs_blocks old) ->
     round_trips response_get_objects_members a old) /\
  (forall a old, hashes a -> round_trips request_chain_members a old) /\
  (forall a old, is_u32 (ce_start_height a) -> is_u32 (ce_total_height a) -> hashes (ce_m_block_ids a) ->
     round_trips response_chain_entry_members a old) /\
  (forall a old, hashes a -> round_trips request_tx_pool_members a old) /\
  (forall a old, short (lb_blockTemplate a) -> is_u32 (lb_current_blockchain_height a) -> is_u32 (lb_hop a) ->
     lb_blockTemplate old = [] -> round_trips new_lite_block_members a old) /\
  (forall a old, length (mt_blockHash a) = 32%nat -> is_u32 (mt_current_blockchain_height a) ->
     hashes (mt_missing_txs a) -> round_trips missing_txs_members a old).
Proof.
  split_and!; intros a; try intros old; intros.
  - message_round_trip new_block_members a old.
  - by apply new_transactions_round.
  - by apply request_get_objects_round.
  - by apply response_get_objects_round.
  - by apply request_chain_round.
  - by apply response_chain_entry_round.
  - by apply request_tx_pool_round.
  - message_round_trip new_lite_block_members a old.
  - by apply missing_txs_round.
Qed.

Definition sample_block : NOTIFY_NEW_BLOCK_request :=
  NewBlock (MkRawBlockLegacy (replicate 90 1) [replicate 70 2; replicate 80 3]) 100 1.

Lemma sample_block_ok : raw_block_ok (nb_block sample_block).
Proof.
  split_and!; [unfold short; simpl; lia| |unfold short; simpl; lia].
  apply Forall_cons. split; [unfold short; simpl; lia|]. apply Forall_singleton. unfold short. simpl. lia.
Qed.

Lemma notifications_roundtrip_witness :
  round_trips new_block_members sample_block (NewBlock (MkRawBlockLegacy [] []) 0 0).
Proof.
  destruct notifications_roundtrip as (H & _). apply H.
  - exact sample_block_ok.
  - evaluate.
  - evaluate.
  - split; reflexivity.
Defined.

(** ** Packets of another shape *)

(** A handshake whose member [node_data] is an empty array. *)
Definition array_packet : bytes :=
  storage_header ++ [4] ++ element_name (str "node_data") ++ [Z.lor FLAG_ARRAY (int_code UINT64); 0].

(** A packet of 22 bytes in which an array stands for a structure takes the
    reader out of the language: [beginObject] opens the array as an object, and
    the first member reads [idxs.back()] of an empty vector.  No exception is
    thrown that [decode] could catch. *)
Theorem decode_array_undefined old :
  length array_packet = 22%nat /\ decode handshake_request_members array_packet old = Undefined.
Proof. split; reflexivity. Qed.
