(* ===== verification/Levin.v ===== *)
(** * The Levin protocol
      ([src/p2p/levin_protocol.cpp], [levin_protocol.h])

    Commands on a stream of bytes.  The connection is seen through its reads
    and writes, each of which moves as many bytes as it likes. *)

From S2P Require Import Prelude Stream KvBinary KvMessages.

(** ** The connection

    [TcpConnection::read] returns some of the bytes that have arrived, at most
    as many as asked for, and none when the peer has closed.  The bytes of the
    successive arrivals are the chunks. *)

Definition connection : Type := list bytes.

Definition conn_read (size : nat) (conn : connection) : bytes * connection :=
  match conn with
  | [] => ([], [])
  | chunk :: conn =>
      if (length chunk <=? size)%nat then (chunk, conn)
      else (take size chunk, drop size chunk :: conn)
  end.

(** [readStrict]: every round gets a byte at least, or stops. *)
Fixpoint readStrict_loop (fuel size : nat) (conn : connection) : option bytes * connection :=
  match size, fuel with
  | O, _ => (Some [], conn)
  | S _, O => (None, conn)
  | S _, S fuel =>
      let '(data, conn) := conn_read size conn in
      if bool_decide (data = []) then (None, conn)
      else
        let '(rest, conn) := readStrict_loop fuel (size - length data) conn in
        (app data <$> rest, conn)
  end.

Definition readStrict (size : nat) (conn : connection) : option bytes * connection :=
  readStrict_loop size size conn.

(** [writeStrict] on a connection that accepts the given numbers of bytes, one
    after the other: what is sent, and what is left when it has to wait. *)
Fixpoint writeStrict (accepted : list nat) (data : bytes) : bytes * bytes :=
  match data, accepted with
  | [], _ => ([], [])
  | _, [] => ([], data)
  | _, n :: accepted =>
      let '(sent, unsent) := writeStrict accepted (drop n data) in
      (take n data ++ sent, unsent)
  end.

(** ** Frames *)

Abbreviation LEVIN_SIGNATURE := 0x0101010101012101 (only parsing).
Abbreviation LEVIN_PACKET_REQUEST := 1 (only parsing).
Abbreviation LEVIN_PACKET_RESPONSE := 2 (only parsing).
Abbreviation LEVIN_DEFAULT_MAX_PACKET_SIZE := 100000000 (only parsing).

Record bucket_head2 := Head {
  m_signature : Z;
  m_cb : Z;
  m_have_to_return_data : bool;
  m_command : Z;
  m_return_code : Z;
  m_flags : Z;
  m_protocol_version : Z
}.

(** The packed structure in memory: 33 bytes. *)
Definition head_bytes (h : bucket_head2) : bytes :=
  le_bytes 8 (m_signature h) ++ le_bytes 8 (m_cb h) ++ [if m_have_to_return_data h then 1 else 0] ++
  le_bytes 4 (m_command h) ++ le_bytes 4 (m_return_code h) ++ le_bytes 4 (m_flags h) ++
  le_bytes 4 (m_protocol_version h).

Definition head_value (bs : bytes) : bucket_head2 :=
  {| m_signature := le_value (take 8 bs);
     m_cb := le_value (take 8 (drop 8 bs));
     m_have_to_return_data := negb (default 0 (bs !! 16%nat) =? 0);
     m_command := le_value (take 4 (drop 17 bs));
     m_return_code := i32 (le_value (take 4 (drop 21 bs)));
     m_flags := le_value (take 4 (drop 25 bs));
     m_protocol_version := le_value (take 4 (drop 29 bs)) |}.

(** [LevinProtocol::Command]. *)
Record Command := MkCommand { command : Z; isNotify : bool; isResponse : bool; buf : bytes }.

Definition needReply (cmd : Command) : bool := negb (isNotify cmd || isResponse cmd).

(** The bytes that [sendMessage] hands to [writeStrict]. *)
Definition sendMessage (cmd : Z) (out : bytes) (needResponse : bool) : bytes :=
  head_bytes (Head LEVIN_SIGNATURE (u64 (Z.of_nat (length out))) needResponse cmd 0 LEVIN_PACKET_REQUEST 1) ++ out.

Definition sendReply (cmd : Z) (out : bytes) (returnCode : Z) : bytes :=
  head_bytes (Head LEVIN_SIGNATURE (u64 (Z.of_nat (length out))) false cmd returnCode LEVIN_PACKET_RESPONSE 1) ++ out.

(** [None] for [false]: the connection was closed. *)
Definition readCommand (conn : connection) : res (option Command * connection) :=
  match readStrict 33 conn with
  | (None, conn) => Ok (None, conn)
  | (Some bs, conn) =>
      let head := head_value bs in
      if negb (m_signature head =? LEVIN_SIGNATURE) then Throw (runtime_error "Levin signature mismatch")
      else if LEVIN_DEFAULT_MAX_PACKET_SIZE <? m_cb head then
        Throw (runtime_error "Levin packet size is too big")
      else
        match readStrict (Z.to_nat (m_cb head)) conn with
        | (None, conn) => Ok (None, conn)
        | (Some body, conn) =>
            Ok (Some {| command := m_command head;
                        isNotify := negb (m_have_to_return_data head);
                        isResponse := Z.land (m_flags head) LEVIN_PACKET_RESPONSE =? LEVIN_PACKET_RESPONSE;
                        buf := body |}, conn)
        end
  end.

(** [notify]: what is sent. *)
Definition notify {A} (cmd : Z) (ms : list (member A)) (request : A) : outcome bytes :=
  out ← encode ms request; mret (sendMessage cmd out false).

(** [invoke]: what is sent, and the response when there is one.  The result of
    [readCommand] is not looked at; [cmd] has no value when it was [false]. *)
Definition invoke {A B} (cmd : Z) (ms : list (member A)) (request : A) (ms' : list (member B))
    (response : B) (conn : connection) : outcome (bytes * option B * connection) :=
  out ← encode ms request;
  r ← of_res (readCommand conn);
  match r with
  | (None, _) => Undefined
  | (Some c, conn) =>
      if negb (isResponse c) then mret (sendMessage cmd out true, None, conn)
      else v ← decode ms' (buf c) response; mret (sendMessage cmd out true, v, conn)
  end.

(** ** Reading and writing in pieces *)

(** Bytes have arrived with every read: the peer has not closed. *)
Definition open_conn (conn : connection) : Prop := Forall (fun chunk => chunk <> []) conn.

Lemma conn_read_open size conn data conn' :
  open_conn conn -> (0 < size)%nat -> concat conn <> [] -> conn_read size conn = (data, conn') ->
  open_conn conn' /\ concat conn = data ++ concat conn' /\ data <> [] /\ (length data <= size)%nat.
Proof.
  intros Ho Hs Hne. destruct conn as [|chunk conn]; [done|].
  apply Forall_cons in Ho as [Hc Ho]. simpl. destruct (Nat.leb_spec (length chunk) size); intros [= <- <-].
  - done.
  - split; [apply Forall_cons; split; [|done]|split; [|split]].
    + intros E%(f_equal length). rewrite length_drop in E. simpl in E. lia.
    + simpl. by rewrite app_assoc, take_drop.
    + intros E%(f_equal length). rewrite length_take in E. simpl in E. lia.
    + rewrite length_take. lia.
Qed.

Lemma readStrict_loop_open fuel size conn data rest :
  open_conn conn -> concat conn = data ++ rest -> length data = size -> (size <= fuel)%nat ->
  exists conn', readStrict_loop fuel size conn = (Some data, conn') /\ open_conn conn' /\ concat conn' = rest.
Proof.
  revert size conn data. induction fuel as [|fuel IH]; intros size conn data Ho Hc Hl Hf.
  { destruct data; [|simpl in *; lia]. simpl in *. subst size. by exists conn. }
  destruct size as [|size]; [destruct data; [|done]; by exists conn|].
  cbn [readStrict_loop]. destruct (conn_read (S size) conn) as [got conn1] eqn:E.
  apply conn_read_open in E as (Ho1 & Hc1 & Hne & Hle);
    [|done|lia|rewrite Hc; by destruct data].
  rewrite bool_decide_false by done. rewrite Hc in Hc1.
  assert (data = got ++ drop (length got) data /\ drop (length got) data ++ rest = concat conn1) as [Hd Hr].
  { assert (got = take (length got) data) as Hg.
    { apply (f_equal (take (length got))) in Hc1. rewrite take_app_length, take_app_le in Hc1 by lia. done. }
    split; [rewrite Hg at 1; by rewrite take_drop|].
    apply (f_equal (drop (length got))) in Hc1. by rewrite drop_app_length, drop_app_le in Hc1 by lia. }
  destruct (IH (S size - length got)%nat conn1 (drop (length got) data)) as (conn2 & -> & Ho2 & Hc2).
  - done.
  - done.
  - rewrite length_drop. lia.
  - destruct got; [done|]. simpl in *. lia.
  - exists conn2. simpl. by rewrite <- Hd.
Qed.

Lemma readStrict_open conn data rest :
  open_conn conn -> concat conn = data ++ rest ->
  exists conn', readStrict (length data) conn = (Some data, conn') /\ open_conn conn' /\ concat conn' = rest.
Proof. intros Ho Hc. by eapply readStrict_loop_open. Qed.

Lemma conn_read_concat size conn data conn' :
  conn_read size conn = (data, conn') -> concat conn = data ++ concat conn'.
Proof.
  destruct conn as [|chunk conn]; simpl; [by intros [= <- <-]|].
  destruct (length chunk <=? size)%nat; intros [= <- <-]; [done|]. simpl. by rewrite app_assoc, take_drop.
Qed.

Lemma readStrict_loop_short fuel size conn :
  (length (concat conn) < size)%nat -> exists conn', readStrict_loop fuel size conn = (None, conn').
Proof.
  revert size conn. induction fuel as [|fuel IH]; intros [|size] conn Hl; try lia; [by exists conn|].
  cbn [readStrict_loop]. destruct (conn_read (S size) conn) as [got conn1] eqn:E.
  apply conn_read_concat in E. rewrite E, length_app in Hl.
  destruct (bool_decide (got = [])); [by exists conn1|].
  destruct (IH (S size - length got)%nat conn1) as [conn2 ->]; [lia|]. by exists conn2.
Qed.

Lemma writeStrict_conserves accepted data :
  let '(sent, unsent) := writeStrict accepted data in sent ++ unsent = data.
Proof.
  revert data. induction accepted as [|n accepted IH]; intros [|b data]; try done.
  cbn [writeStrict]. specialize (IH (drop n (b :: data))).
  destruct (writeStrict accepted (drop n (b :: data))) as [sent unsent].
  by rewrite <- app_assoc, IH, take_drop.
Qed.

Lemma writeStrict_all accepted data :
  (length data <= sum_list accepted)%nat -> (writeStrict accepted data).1 = data.
Proof.
  revert data. induction accepted as [|n accepted IH]; intros [|b data] Hs; try done; [simpl in Hs; lia|].
  cbn [writeStrict]. specialize (IH (drop n (b :: data))).
  destruct (writeStrict accepted (drop n (b :: data))) as [sent unsent]. simpl in IH |- *.
  rewrite IH; [apply take_drop|]. rewrite length_drop. simpl in *. lia.
Qed.

(** ** Frames on the stream *)

Definition head_ok (h : bucket_head2) : Prop :=
  is_u64 (m_signature h) /\ is_u64 (m_cb h) /\ is_u32 (m_command h) /\
  i32 (m_return_code h) = m_return_code h /\ is_u32 (m_flags h) /\ is_u32 (m_protocol_version h).

Lemma le_value_small n x : fits (8 * Z.of_nat n) x -> le_value (le_bytes n x) = x.
Proof. intros Hx. rewrite le_value_bytes. by apply Z.mod_small. Qed.

Lemma head_round h : head_ok h -> head_value (head_bytes h) = h.
Proof.
  destruct h as [s cb r c rc f v]. intros (Hs & Hcb & Hc & Hrc & Hf & Hv). simpl in *.
  unfold head_value, head_bytes. cbn [m_signature m_cb m_have_to_return_data m_command m_return_code m_flags m_protocol_version].
  f_equal.
  - exact (le_value_small 8 s Hs).
  - exact (le_value_small 8 cb Hcb).
  - by destruct r.
  - exact (le_value_small 4 c Hc).
  - change (i32 (le_value (le_bytes 4 rc)) = rc). rewrite le_value_bytes.
    change (8 * Z.of_nat 4) with 32. rewrite <- Hrc at 2. unfold swrap. by rewrite Zplus_mod_idemp_l.
  - exact (le_value_small 4 f Hf).
  - exact (le_value_small 4 v Hv).
Qed.

Lemma length_head_bytes h : length (head_bytes h) = 33%nat.
Proof. reflexivity. Qed.

(** What a frame says, and the frame: a request, a notification or a reply. *)
Inductive frame :=
| Message (cmd : Z) (out : bytes) (needResponse : bool)
| Reply (cmd : Z) (out : bytes) (returnCode : Z).

Definition frame_bytes (f : frame) : bytes :=
  match f with
  | Message cmd out needResponse => sendMessage cmd out needResponse
  | Reply cmd out returnCode => sendReply cmd out returnCode
  end.

Definition frame_command (f : frame) : Command :=
  match f with
  | Message cmd out needResponse => MkCommand cmd (negb needResponse) false out
  | Reply cmd out _ => MkCommand cmd true true out
  end.

Definition frame_ok (f : frame) : Prop :=
  match f with
  | Message cmd _ _ => is_u32 cmd
  | Reply cmd _ returnCode => is_u32 cmd /\ i32 returnCode = returnCode
  end.

Definition frame_size (f : frame) : Z := Z.of_nat (length (buf (frame_command f))).

(** The head of a frame, whatever its size. *)
Lemma frame_head f rest :
  frame_ok f -> is_u64 (frame_size f) ->
  exists h, frame_bytes f ++ rest = head_bytes h ++ buf (frame_command f) ++ rest /\
    head_value (head_bytes h) = h /\ m_signature h = LEVIN_SIGNATURE /\ m_cb h = frame_size f /\
    frame_command f = {| command := m_command h; isNotify := negb (m_have_to_return_data h);
      isResponse := Z.land (m_flags h) LEVIN_PACKET_RESPONSE =? LEVIN_PACKET_RESPONSE;
      buf := buf (frame_command f) |}.
Proof.
  destruct f as [cmd out need|cmd out code]; intros Hok Hs.
  - eexists. split.
    { cbn [frame_bytes frame_command buf]. unfold sendMessage. rewrite <- app_assoc. reflexivity. }
    split.
    + apply head_round. split_and!; [evaluate|by apply wrap_fits|exact Hok|reflexivity|evaluate|evaluate].
    + unfold frame_size in *. simpl in *. by rewrite wrap_small.
  - destruct Hok as [Hc Hr]. eexists. split.
    { cbn [frame_bytes frame_command buf]. unfold sendReply. rewrite <- app_assoc. reflexivity. }
    split.
    + apply head_round. split_and!; [evaluate|by apply wrap_fits|exact Hc|exact Hr|evaluate|evaluate].
    + unfold frame_size in *. simpl in *. by rewrite wrap_small.
Qed.

Lemma readCommand_head conn h body :
  open_conn conn -> concat conn = head_bytes h ++ body -> head_value (head_bytes h) = h ->
  m_signature h = LEVIN_SIGNATURE ->
  exists conn', open_conn conn' /\ concat conn' = body /\
    readCommand conn =
    if LEVIN_DEFAULT_MAX_PACKET_SIZE <? m_cb h then Throw (runtime_error "Levin packet size is too big")
    else match readStrict (Z.to_nat (m_cb h)) conn' with
         | (None, conn) => Ok (None, conn)
         | (Some body, conn) =>
             Ok (Some {| command := m_command h; isNotify := negb (m_have_to_return_data h);
               isResponse := Z.land (m_flags h) LEVIN_PACKET_RESPONSE =? LEVIN_PACKET_RESPONSE;
               buf := body |}, conn)
         end.
Proof.
  intros Ho Hc Hh Hsig. destruct (readStrict_open conn _ _ Ho Hc) as (conn' & Hr & Ho' & Hc').
  exists conn'. split; [done|]. split; [done|]. unfold readCommand.
  rewrite length_head_bytes in Hr. rewrite Hr, Hh, Hsig, Z.eqb_refl. reflexivity.
Qed.

Lemma readCommand_frame conn f rest :
  open_conn conn -> concat conn = frame_bytes f ++ rest -> frame_ok f ->
  frame_size f <= LEVIN_DEFAULT_MAX_PACKET_SIZE ->
  exists conn', readCommand conn = Ok (Some (frame_command f), conn') /\
    open_conn conn' /\ concat conn' = rest.
Proof.
  intros Ho Hc Hf Hs.
  destruct (frame_head f rest Hf) as (h & Hb & Hh & Hsig & Hcb & Hcmd).
  { unfold frame_size in *. mlia. }
  rewrite Hb in Hc. destruct (readCommand_head conn h _ Ho Hc Hh Hsig) as (conn1 & Ho1 & Hc1 & ->).
  rewrite Hcb.
  destruct (Z.ltb_spec 100000000 (frame_size f)); [lia|]. unfold frame_size. rewrite Nat2Z.id.
  destruct (readStrict_open conn1 _ _ Ho1 Hc1) as (conn2 & -> & Ho2 & Hc2).
  exists conn2. by rewrite <- Hcmd.
Qed.

(** A frame that has not arrived completely. *)
Lemma readCommand_cut conn f missing :
  open_conn conn -> concat conn ++ missing = frame_bytes f -> missing <> [] -> frame_ok f ->
  frame_size f <= LEVIN_DEFAULT_MAX_PACKET_SIZE -> exists conn', readCommand conn = Ok (None, conn').
Proof.
  intros Ho Hc Hm Hf Hs.
  destruct (frame_head f [] Hf) as (h & Hb & Hh & Hsig & Hcb & Hcmd).
  { unfold frame_size in *. mlia. }
  rewrite !app_nil_r in Hb. rewrite Hb in Hc.
  assert (0 < length missing)%nat by (destruct missing; [done|simpl; lia]).
  pose proof (f_equal length Hc) as Hl. rewrite !length_app, length_head_bytes in Hl.
  destruct (Nat.lt_ge_cases (length (concat conn)) 33) as [Hlt|Hge].
  { unfold readCommand, readStrict.
    destruct (readStrict_loop_short 33 33 conn Hlt) as [conn' ->]. by exists conn'. }
  assert (concat conn = head_bytes h ++ drop 33 (concat conn)) as Hc'.
  { apply (f_equal (take 33)) in Hc. rewrite take_app_le, take_app_length' in Hc by (rewrite ?length_head_bytes; lia).
    rewrite <- Hc. by rewrite take_drop. }
  destruct (readCommand_head conn h _ Ho Hc' Hh Hsig) as (conn1 & Ho1 & Hc1 & ->).
  rewrite Hcb.
  destruct (Z.ltb_spec 100000000 (frame_size f)); [lia|]. unfold frame_size. rewrite Nat2Z.id.
  destruct (readStrict_loop_short (length (buf (frame_command f))) (length (buf (frame_command f))) conn1)
    as [conn2 E]; [rewrite Hc1, length_drop; lia|].
  unfold readStrict. rewrite E. by exists conn2.
Qed.

(** One [readCommand] after the other. *)
Fixpoint read_commands (n : nat) (conn : connection) : res (list (option Command) * connection) :=
  match n with
  | O => Ok ([], conn)
  | S n => '(c, conn) ← readCommand conn; '(cs, conn) ← read_commands n conn; mret (c :: cs, conn)
  end.

(** A sequence of frames, cut into arrivals in any way, is read back as the
    sequence of commands that was sent, one [readCommand] for each, as long as
    no frame is larger than 100 MB.  Nothing of what follows is taken. *)
Theorem levin_stream frames rest conn :
  Forall frame_ok frames -> Forall (fun f => frame_size f <= LEVIN_DEFAULT_MAX_PACKET_SIZE) frames ->
  open_conn conn -> concat conn = concat (map frame_bytes frames) ++ rest ->
  exists conn', read_commands (length frames) conn = Ok (map (fun f => Some (frame_command f)) frames, conn') /\
    concat conn' = rest.
Proof.
  intros HF. revert conn. induction HF as [|f frames Hf HF IH]; intros conn Hs Ho Hc.
  { by exists conn. }
  apply Forall_cons in Hs as [Hsf Hs]. simpl in Hc. rewrite <- app_assoc in Hc.
  destruct (readCommand_frame conn f _ Ho Hc Hf Hsf) as (conn1 & E & Ho1 & Hc1).
  destruct (IH conn1 Hs Ho1 Hc1) as (conn2 & E2 & Hc2). exists conn2. split; [|done].
  cbn [length read_commands map]. rewrite E. simpl. by rewrite E2.
Qed.

(** Two frames whose bytes arrive in pieces of seven. *)
Definition sample_frames : list frame := [Message 1001 [1; 2; 3] true; Reply 1001 [] (-7)].

Definition sample_conn : connection := chunks 10 7 (concat (map frame_bytes sample_frames) ++ [9]).

Lemma levin_stream_witness :
  exists conn', read_commands 2 sample_conn =
    Ok ([Some (MkCommand 1001 false false [1; 2; 3]); Some (MkCommand 1001 true true [])], conn') /\
    concat conn' = [9].
Proof.
  apply (levin_stream sample_frames [9] sample_conn).
  - apply Forall_cons. split; [evaluate|]. apply Forall_singleton. split; evaluate.
  - apply Forall_cons. split; [vm_compute; discriminate|]. apply Forall_singleton. vm_compute. discriminate.
  - unfold open_conn. evaluate.
  - vm_compute. reflexivity.
Defined.

(** A frame larger than 100 MB is refused by the reader when its head has
    arrived, although [sendMessage] and [sendReply] send it. *)
Lemma levin_too_big f rest conn :
  frame_ok f -> LEVIN_DEFAULT_MAX_PACKET_SIZE < frame_size f < 2 ^ 64 ->
  open_conn conn -> concat conn = frame_bytes f ++ rest ->
  readCommand conn = Throw (runtime_error "Levin packet size is too big").
Proof.
  intros Hf Hs Ho Hc. destruct (frame_head f rest Hf) as (h & Hb & Hh & Hsig & Hcb & _).
  { unfold frame_size in *. mlia. }
  rewrite Hb in Hc. destruct (readCommand_head conn h _ Ho Hc Hh Hsig) as (conn1 & _ & _ & ->).
  rewrite Hcb. by destruct (Z.ltb_spec LEVIN_DEFAULT_MAX_PACKET_SIZE (frame_size f)); [|lia].
Qed.

(** C22. Whatever is sent through the frames arrives: a notification with a
    message that the format can hold is encoded, framed, cut into arrivals in
    any way, read and decoded to the same message. *)
Theorem notify_delivers {A} (ms : list (member A)) V S R M `{!MembersOk ms V S R M} cmd a old rest :
  names_ok ms = true -> V a -> R old -> M a old = a -> is_u32 cmd ->
  exists sent, notify cmd ms a = Returns sent /\
    (Z.of_nat (length sent) <= LEVIN_DEFAULT_MAX_PACKET_SIZE ->
     forall conn, open_conn conn -> concat conn = sent ++ rest ->
     exists c conn', readCommand conn = Ok (Some c, conn') /\ concat conn' = rest /\
       command c = cmd /\ needReply c = false /\ isResponse c = false /\
       decode ms (buf c) old = Returns (Some a)).
Proof.
  intros Hn Ha Ho HM Hcmd.
  destruct (decode_encode ms V S R M a old Hn Ha Ho HM) as (out & He & Hd).
  unfold notify. rewrite He. simpl. eexists. split; [done|]. intros Hs conn Hopen Hc.
  destruct (readCommand_frame conn (Message cmd out false) rest) as (conn' & E & _ & Hc'); [done..| |].
  - unfold frame_size. simpl. unfold sendMessage in Hs. rewrite length_app in Hs. lia.
  - exists (frame_command (Message cmd out false)), conn'. done.
Qed.

Section Invoke.
Context {A B} (ms : list (member A)) (ms' : list (member B)).
Context V S R M `{Hms : !MembersOk ms V S R M}.
Context V' S' R' M' `{Hms' : !MembersOk ms' V' S' R' M'}.
Context (cmd : Z) (request : A) (Hn : names_ok ms = true) (Hv : V request) (Hcmd : is_u32 cmd).

Lemma request_encoded : exists out, encode ms request = Returns out.
Proof using Hms Hn Hv.
  exists (storage_header ++ payload (KObject (S request))).
  rewrite (encode_packet ms V S R M request Hv).
  exact (Writer.packet_bytes _ (struct_kv_ok ms V S R M Hn request Hv)).
Qed.

(** C23. A request is answered: when the peer sends the encoding of a response
    with [sendReply], in whatever pieces, [invoke] returns that response. *)
Theorem invoke_answered answer reply old code rest conn :
  names_ok ms' = true -> V' answer -> R' old -> M' answer old = answer ->
  i32 code = code -> encode ms' answer = Returns reply ->
  Z.of_nat (length reply) <= LEVIN_DEFAULT_MAX_PACKET_SIZE ->
  open_conn conn -> concat conn = sendReply cmd reply code ++ rest ->
  exists sent conn', invoke cmd ms request ms' old conn = Returns (sent, Some answer, conn') /\
    concat conn' = rest.
Proof using Hms Hms' Hn Hv Hcmd.
  intros Hn' Hv' Hr' HM' Hcode He Hs Ho Hc. destruct request_encoded as [out Hout].
  destruct (decode_encode ms' V' S' R' M' answer old Hn' Hv' Hr' HM') as (reply' & He' & Hd).
  assert (reply' = reply) as -> by congruence.
  destruct (readCommand_frame conn (Reply cmd reply code) rest) as (conn' & E & _ & Hc'); [done..|].
  exists (sendMessage cmd out true), conn'. split; [|done].
  unfold invoke. rewrite Hout. simpl. rewrite E. simpl. by rewrite Hd.
Qed.

(** When the peer closes the connection before its answer is complete,
    after no byte or in the middle of the frame, [readCommand] returns [false],
    and [invoke], which does not look at the result, goes on with a command
    that was never filled in. *)
Theorem invoke_closed old reply code conn missing :
  i32 code = code -> Z.of_nat (length reply) <= LEVIN_DEFAULT_MAX_PACKET_SIZE -> open_conn conn ->
  concat conn ++ missing = sendReply cmd reply code -> missing <> [] ->
  invoke cmd ms request ms' old conn = Undefined.
Proof using Hms Hn Hv Hcmd.
  intros Hcode Hs Ho Hc Hm. destruct request_encoded as [out Hout]. unfold invoke. rewrite Hout. simpl.
  destruct (readCommand_cut conn (Reply cmd reply code) missing) as [conn' ->]; done.
Qed.
End Invoke.

(** ** Examples *)

Definition empty_new_block : NOTIFY_NEW_BLOCK_request := NewBlock (MkRawBlockLegacy [] []) 0 0.

Lemma notify_delivers_witness :
  exists sent, notify 2001 new_block_members sample_block = Returns sent /\
    (Z.of_nat (length sent) <= LEVIN_DEFAULT_MAX_PACKET_SIZE ->
     forall conn, open_conn conn -> concat conn = sent ++ [] ->
     exists c conn', readCommand conn = Ok (Some c, conn') /\ concat conn' = [] /\
       command c = 2001 /\ needReply c = false /\ isResponse c = false /\
       decode new_block_members (buf c) empty_new_block = Returns (Some sample_block)).
Proof.
  members_ok new_block_members H.
  apply (notify_delivers new_block_members _ _ _ _ (MembersOk0 := H)).
  - evaluate.
  - split; [exact sample_block_ok|]. members_valid; evaluate.
  - simpl. split; [split; reflexivity|]. auto.
  - reflexivity.
  - evaluate.
Defined.

Definition sample_pong : ping_response := PingResponse (str "OK") 77.

(** What the peer sends back, in pieces of ten bytes. *)
Definition sample_reply : bytes :=
  match encode ping_response_members sample_pong with Returns bs => bs | _ => [] end.

Definition in_tens (bs : bytes) : connection := chunks ((length bs + 9) / 10) 10 bs.

Lemma invoke_answered_witness :
  exists sent conn',
    invoke 1003 ping_request_members tt ping_response_members (PingResponse [] 0)
      (in_tens (sendReply 1003 sample_reply 1)) = Returns (sent, Some sample_pong, conn') /\
    concat conn' = [].
Proof.
  members_ok ping_request_members H. members_ok ping_response_members H'.
  apply (invoke_answered ping_request_members ping_response_members _ _ _ _ _ _ _ _
    (Hms := H) (Hms' := H')) with (reply := sample_reply) (code := 1).
  - evaluate.
  - done.
  - evaluate.
  - evaluate.
  - split; [|split; [|exact I]]; evaluate.
  - done.
  - reflexivity.
  - evaluate.
  - vm_compute. reflexivity.
  - vm_compute. discriminate.
  - unfold open_conn. evaluate.
  - vm_compute. reflexivity.
Defined.

(** The peer closes after 40 bytes. *)
Lemma invoke_closed_witness :
  invoke 1003 ping_request_members tt ping_response_members (PingResponse [] 0)
    (in_tens (take 40 (sendReply 1003 sample_reply 1))) = Undefined.
Proof.
  members_ok ping_request_members H.
  apply (invoke_closed ping_request_members ping_response_members _ _ _ _ (Hms := H))
    with (reply := sample_reply) (code := 1) (missing := drop 40 (sendReply 1003 sample_reply 1)).
  - evaluate.
  - done.
  - evaluate.
  - evaluate.
  - vm_compute. discriminate.
  - unfold open_conn. evaluate.
  - vm_compute. reflexivity.
  - vm_compute. discriminate.
Defined.
