(* ===== verification/Peers.v ===== *)
(** * The lists of known peers
      ([src/p2p/peer_list_manager.cpp], [peerlist.cpp],
      [src/syst/ipv4_address.cpp], [src/p2p/net_node.cpp])

    The node keeps two lists of peers: the white ones it has reached, the gray
    ones it has heard of.  What a peer sends in a handshake goes to the gray
    list; the newest white peers are what it sends itself. *)

From stdpp Require Import sorting.
From S2P Require Import Prelude Stream Serializer KvBinary KvMessages.

#[global] Instance NetworkAddress_eq_dec : EqDecision NetworkAddress.
Proof. solve_decision. Defined.

#[global] Instance PeerlistEntry_eq_dec : EqDecision PeerlistEntry.
Proof. solve_decision. Defined.

Abbreviation P2P_LOCAL_WHITE_PEERLIST_LIMIT := 1000%nat (only parsing).
Abbreviation P2P_LOCAL_GRAY_PEERLIST_LIMIT := 5000%nat (only parsing).
Abbreviation P2P_DEFAULT_PEERS_IN_HANDSHAKE := 250 (only parsing).

(** ** Addresses *)

Definition hostToNetwork (n : Z) : Z :=
  Z.lor (Z.lor (Z.lor (u32 (Z.shiftl n 24)) (u32 (Z.shiftl (Z.land n 0xff00) 8)))
    (Z.shiftr (Z.land n 0xff0000) 8)) (Z.shiftr n 24).

Definition isLoopback (value : Z) : bool := Z.land value 0xff000000 =? Z.shiftl 127 24.

Definition isPrivate (value : Z) : bool :=
  (i32 (Z.land value 0xff000000) =? i32 (Z.shiftl 10 24)) ||
  (i32 (Z.land value 0xfff00000) =? i32 (Z.lor (Z.shiftl 172 24) (Z.shiftl 16 16))) ||
  (i32 (Z.land value 0xffff0000) =? i32 (Z.lor (Z.shiftl 192 24) (Z.shiftl 168 16))).

(** ** The lists *)

Record PeerlistManager := Manager {
  m_allow_local_ip : bool;
  m_peers_gray : list PeerlistEntry;
  m_peers_white : list PeerlistEntry
}.

(** [PeerlistManager::init], on start, after the lists were loaded. *)
Definition peerlist_init (allow_local_ip : bool) (m : PeerlistManager) : PeerlistManager :=
  Manager allow_local_ip (m_peers_gray m) (m_peers_white m).

(** [networkToHost] is [hostToNetwork]. *)
Definition is_ip_allowed (m : PeerlistManager) (ip : Z) : bool :=
  let addr := hostToNetwork ip in
  if isLoopback addr then false
  else negb (negb (m_allow_local_ip m) && isPrivate addr).

(** [std::find_if] for the address and the assignment to what it finds. *)
Fixpoint update_peer (p : PeerlistEntry) (l : list PeerlistEntry) : option (list PeerlistEntry) :=
  match l with
  | [] => None
  | x :: l => if decide (adr x = adr p) then Some (p :: l) else cons x <$> update_peer p l
  end.

(** [std::find_if] for the address and [erase] of what it finds. *)
Fixpoint erase_peer (a : NetworkAddress) (l : list PeerlistEntry) : list PeerlistEntry :=
  match l with
  | [] => []
  | x :: l => if decide (adr x = a) then l else x :: erase_peer a l
  end.

Definition known (a : NetworkAddress) (l : list PeerlistEntry) : bool := bool_decide (a ∈ map adr l).

(** The comparator of the sorts: newer peers come first. *)
Definition newer (p q : PeerlistEntry) : Prop := last_seen q <= last_seen p.

(** What [std::sort] promises; the order of peers seen at the same time is not
    specified. *)
Class Sorts (sort : list PeerlistEntry -> list PeerlistEntry) : Prop := {
  sort_permutes l : sort l ≡ₚ l;
  sort_sorts l : StronglySorted newer (sort l)
}.

Section Manager.
Context (sort : list PeerlistEntry -> list PeerlistEntry).

(** [Peerlist::trim]. *)
Definition peerlist_trim (maxSize : nat) (peers : list PeerlistEntry) : list PeerlistEntry :=
  if (length peers <=? maxSize)%nat then peers else take maxSize (sort peers).

(** [Peerlist::get]: the list is sorted on the way. *)
Definition peerlist_get (i : nat) (peers : list PeerlistEntry) : option PeerlistEntry * list PeerlistEntry :=
  if (length peers <=? i)%nat then (None, peers) else (sort peers !! i, sort peers).

Definition append_with_peer_white (newPeer : PeerlistEntry) (m : PeerlistManager) : PeerlistManager :=
  if negb (is_ip_allowed m (ip (adr newPeer))) then m
  else
    let white :=
      match update_peer newPeer (m_peers_white m) with
      | None => peerlist_trim P2P_LOCAL_WHITE_PEERLIST_LIMIT (m_peers_white m ++ [newPeer])
      | Some white => white
      end in
    Manager (m_allow_local_ip m) (erase_peer (adr newPeer) (m_peers_gray m)) white.

Definition append_with_peer_gray (newPeer : PeerlistEntry) (m : PeerlistManager) : PeerlistManager :=
  if negb (is_ip_allowed m (ip (adr newPeer))) then m
  else if known (adr newPeer) (m_peers_white m) then m
  else
    let gray :=
      match update_peer newPeer (m_peers_gray m) with
      | None => peerlist_trim P2P_LOCAL_GRAY_PEERLIST_LIMIT (m_peers_gray m ++ [newPeer])
      | Some gray => gray
      end in
    Manager (m_allow_local_ip m) gray (m_peers_white m).

Definition merge_peerlist (outer_bs : list PeerlistEntry) (m : PeerlistManager) : PeerlistManager :=
  let m := foldl (fun m be => append_with_peer_gray be m) m outer_bs in
  Manager (m_allow_local_ip m) (peerlist_trim P2P_LOCAL_GRAY_PEERLIST_LIMIT (m_peers_gray m)) (m_peers_white m).

(** The loop of [get_peerlist_head]. *)
Fixpoint head_loop (depth i : Z) (peers : list PeerlistEntry) : list PeerlistEntry :=
  match peers with
  | [] => []
  | peer :: peers =>
      if last_seen peer =? 0 then head_loop depth i peers
      else peer :: (if depth <? i then [] else head_loop depth (u32 (i + 1)) peers)
  end.

(** The list that is sent, appended to [bs_head]; the white list is sorted. *)
Definition get_peerlist_head (bs_head : list PeerlistEntry) (depth : Z) (m : PeerlistManager) :
    list PeerlistEntry * PeerlistManager :=
  let white := sort (m_peers_white m) in
  (bs_head ++ head_loop depth 0 white, Manager (m_allow_local_ip m) (m_peers_gray m) white).

Definition set_peer_just_seen (now peer : Z) (addr : NetworkAddress) (m : PeerlistManager) : PeerlistManager :=
  append_with_peer_white (MkPeerlistEntry addr peer (u64 now)) m.

(** [NodeServer::fix_time_delta]: [None] for [false].  The difference of the
    clocks is added modulo [2 ^ 64]; for clocks that are [2 ^ 63] apart the
    signed subtraction of the source is undefined, and wraps in practice. *)
Fixpoint fix_time_delta (now local_time : Z) (local_peerlist : list PeerlistEntry) : option (list PeerlistEntry) :=
  match local_peerlist with
  | [] => Some []
  | be :: rest =>
      if u64 local_time <? last_seen be then None
      else
        rest ← fix_time_delta now local_time rest;
        Some (MkPeerlistEntry (adr be) (id be) (u64 (last_seen be + (now - local_time))) :: rest)
  end.

(** [NodeServer::handle_remote_peerlist]: [local_time] is the clock of the
    peer, as a [time_t]. *)
Definition handle_remote_peerlist (now local_time : Z) (peerlist : list PeerlistEntry) (m : PeerlistManager) :
    option PeerlistManager :=
  peerlist ← fix_time_delta now local_time peerlist; Some (merge_peerlist peerlist m).
End Manager.

(** ** Saving and loading

    The state file is written with the binary serializers. *)

Definition serialize_PeerlistEntry : codec PeerlistEntry :=
  {| put := fun pe =>
       put (varint 32) (ip (adr pe)) +++ put (varint 32) (port (adr pe)) +++
       put (varint 64) (id pe) +++ put (varint 64) (last_seen pe);
     get :=
       i ← get (varint 32); p ← get (varint 32); d ← get (varint 64); t ← get (varint 64);
       mret (MkPeerlistEntry (MkNetworkAddress i p) d t) |}.

(** [PeerlistManager::serialize] on output. *)
Definition put_peers (m : PeerlistManager) : res bytes :=
  put (varint 8) 1 +++ put (vector serialize_PeerlistEntry) (m_peers_white m) +++
  put (vector serialize_PeerlistEntry) (m_peers_gray m).

(** [PeerlistManager::serialize] on input: another version is not read. *)
Definition get_peers (m : PeerlistManager) : rd PeerlistManager :=
  version ← get (varint 8);
  if negb (version =? 1) then mret m
  else
    white ← get (vector serialize_PeerlistEntry);
    gray ← get (vector serialize_PeerlistEntry);
    mret (Manager (m_allow_local_ip m) gray white).

(** ** Searching by address *)

Lemma update_peer_None p l : update_peer p l = None -> adr p ∉ map adr l.
Proof.
  induction l as [|x l IH]; simpl; [by intros _ ?%not_elem_of_nil|].
  case_decide as Hx; [done|]. rewrite not_elem_of_cons. destruct (update_peer p l); [done|].
  intros _. split; [congruence|by apply IH].
Qed.

Lemma update_peer_Some p l l' :
  update_peer p l = Some l' -> map adr l' = map adr l /\ p ∈ l' /\ forall x, x ∈ l' -> x = p \/ x ∈ l.
Proof.
  revert l'. induction l as [|x l IH]; intros l'; simpl; [done|]. case_decide as Hx.
  - intros [= <-]. simpl. split; [by rewrite Hx|]. split; [by left|].
    intros y [->|Hy]%elem_of_cons; [by left|]. right. by right.
  - destruct (update_peer p l) as [l1|]; [|done]. intros [= <-]. destruct (IH l1 eq_refl) as (H1 & H2 & H3).
    simpl. split; [by rewrite H1|]. split; [by right|].
    intros y [->|Hy]%elem_of_cons; [right; by left|]. destruct (H3 y Hy); [by left|right; by right].
Qed.

Lemma erase_peer_sublist a l : erase_peer a l `sublist_of` l.
Proof.
  induction l as [|x l IH]; simpl; [done|]. case_decide; [by apply sublist_cons|by apply sublist_skip].
Qed.

Lemma erase_peer_gone a l : NoDup (map adr l) -> a ∉ map adr (erase_peer a l).
Proof.
  induction l as [|x l IH]; simpl; [intros _ ?%not_elem_of_nil; done|]. rewrite NoDup_cons. intros [Hx Hd].
  case_decide as Ha; [congruence|]. simpl. rewrite not_elem_of_cons. split; [congruence|by apply IH].
Qed.

Lemma known_spec a l : known a l = true <-> a ∈ map adr l.
Proof. apply bool_decide_eq_true. Qed.

(** ** The invariant *)

Definition allowed (m : PeerlistManager) (p : PeerlistEntry) : Prop := is_ip_allowed m (ip (adr p)) = true.

(** No address twice, neither in a list nor in both; both within their limits;
    no forbidden address. *)
Definition peers_wf (m : PeerlistManager) : Prop :=
  NoDup (map adr (m_peers_gray m ++ m_peers_white m)) /\
  (length (m_peers_gray m) <= P2P_LOCAL_GRAY_PEERLIST_LIMIT)%nat /\
  (length (m_peers_white m) <= P2P_LOCAL_WHITE_PEERLIST_LIMIT)%nat /\
  Forall (allowed m) (m_peers_gray m ++ m_peers_white m).

(** Both lists are made of entries of [l]. *)
Lemma NoDup_part l l' : l ⊆+ l' -> NoDup (map adr l') -> NoDup (map adr l).
Proof.
  intros [k Hk]%submseteq_Permutation. rewrite Hk, map_app. by intros [? _]%NoDup_app.
Qed.

Lemma Forall_part (P : PeerlistEntry -> Prop) l l' : l ⊆+ l' -> Forall P l' -> Forall P l.
Proof. intros [k Hk]%submseteq_Permutation. rewrite Hk. by intros [? _]%Forall_app. Qed.

Lemma wf_part m gray white :
  peers_wf m -> gray ++ white ⊆+ m_peers_gray m ++ m_peers_white m ->
  (length gray <= P2P_LOCAL_GRAY_PEERLIST_LIMIT)%nat ->
  (length white <= P2P_LOCAL_WHITE_PEERLIST_LIMIT)%nat -> peers_wf (Manager (m_allow_local_ip m) gray white).
Proof.
  intros (Hd & _ & _ & Ha) Hp Hg Hw. split; [by eapply NoDup_part|]. split; [done|]. split; [done|].
  by eapply Forall_part.
Qed.

(** A new entry and, perhaps, fewer of the old ones. *)
Lemma insert_part m p l l' :
  NoDup (map adr l) -> Forall (allowed m) l -> adr p ∉ map adr l -> allowed m p -> l' ⊆+ l ++ [p] ->
  NoDup (map adr l') /\ Forall (allowed m) l'.
Proof.
  intros Hd Ha Hn Hp Hsub. split.
  - eapply NoDup_part; [exact Hsub|]. rewrite map_app. apply NoDup_app.
    split; [done|]. split; [|apply NoDup_singleton]. simpl. by intros a Hin ->%list_elem_of_singleton.
  - eapply Forall_part; [exact Hsub|]. apply Forall_app. split; [done|]. by apply Forall_singleton.
Qed.

(** An entry in the place of an old one. *)
Lemma update_part m p l l' :
  Forall (allowed m) l -> allowed m p -> update_peer p l = Some l' ->
  map adr l' = map adr l /\ length l' = length l /\ Forall (allowed m) l'.
Proof.
  intros Ha Hp (E1 & _ & E3)%update_peer_Some. split; [done|]. split.
  - by rewrite <- (length_map adr l'), E1, length_map.
  - apply Forall_forall. intros x [->|Hx]%E3; [done|]. by eapply Forall_forall in Ha.
Qed.

Section Invariant.
Context (sort : list PeerlistEntry -> list PeerlistEntry) `{Hsort : !Sorts sort}.

Lemma trim_part n l : peerlist_trim sort n l ⊆+ l.
Proof using Hsort.
  unfold peerlist_trim. destruct (length l <=? n)%nat; [done|].
  rewrite <- (sort_permutes l) at 2. apply sublist_submseteq, sublist_take.
Qed.

Lemma trim_length n l : (length (peerlist_trim sort n l) <= n)%nat.
Proof.
  unfold peerlist_trim. destruct (Nat.leb_spec (length l) n); [done|]. rewrite length_take. lia.
Qed.

Lemma trim_fits n l : (length l <= n)%nat -> peerlist_trim sort n l = l.
Proof. unfold peerlist_trim. by destruct (Nat.leb_spec (length l) n); [|lia]. Qed.

Lemma append_white_wf p m : peers_wf m -> peers_wf (append_with_peer_white sort p m).
Proof using Hsort.
  intros Hwf. pose proof Hwf as (Hd & Hg & Hw & Ha). unfold append_with_peer_white.
  destruct (is_ip_allowed m (ip (adr p))) eqn:Hip; [|done]. simpl.
  set (gray := erase_peer (adr p) (m_peers_gray m)).
  assert (gray ⊆+ m_peers_gray m) as Hsub by (apply sublist_submseteq, erase_peer_sublist).
  assert (length gray <= P2P_LOCAL_GRAY_PEERLIST_LIMIT)%nat as Hgl.
  { etransitivity; [by apply submseteq_length|done]. }
  assert (adr p ∉ map adr gray) as Hgone.
  { apply erase_peer_gone. rewrite map_app in Hd. by apply NoDup_app in Hd as [? _]. }
  assert (peers_wf (Manager (m_allow_local_ip m) gray (m_peers_white m))) as (Hd1 & _ & _ & Ha1).
  { apply wf_part; [done|by apply submseteq_skips_r|done|done]. }
  simpl in Hd1, Ha1. destruct (update_peer p (m_peers_white m)) as [white|] eqn:E.
  - apply Forall_app in Ha1 as [Ha1 Ha2].
    destruct (update_part m p _ _ Ha2 Hip E) as (E1 & E2 & E3).
    split; [|split; [done|split]]; simpl.
    + by rewrite map_app, E1, <- map_app.
    + lia.
    + by apply Forall_app.
  - apply update_peer_None in E.
    destruct (insert_part m p (gray ++ m_peers_white m)
      (gray ++ peerlist_trim sort P2P_LOCAL_WHITE_PEERLIST_LIMIT (m_peers_white m ++ [p]))) as [Hd2 Ha2]; try done.
    { rewrite map_app, elem_of_app. by intros []. }
    { rewrite <- app_assoc. apply submseteq_skips_l, trim_part. }
    split; [done|]. split; [done|]. split; [apply trim_length|done].
Qed.

Lemma append_gray_wf p m : peers_wf m -> peers_wf (append_with_peer_gray sort p m).
Proof using Hsort.
  intros Hwf. pose proof Hwf as (Hd & Hg & Hw & Ha). unfold append_with_peer_gray.
  destruct (is_ip_allowed m (ip (adr p))) eqn:Hip; [|done]. simpl.
  destruct (known (adr p) (m_peers_white m)) eqn:Ek; [done|].
  destruct (update_peer p (m_peers_gray m)) as [gray|] eqn:E.
  - apply Forall_app in Ha as [Ha1 Ha2].
    destruct (update_part m p _ _ Ha1 Hip E) as (E1 & E2 & E3).
    split; [|split; [|split; [done|]]]; simpl.
    + by rewrite map_app, E1, <- map_app.
    + lia.
    + by apply Forall_app.
  - apply update_peer_None in E.
    destruct (insert_part m p (m_peers_gray m ++ m_peers_white m)
      (peerlist_trim sort P2P_LOCAL_GRAY_PEERLIST_LIMIT (m_peers_gray m ++ [p]) ++ m_peers_white m))
      as [Hd2 Ha2]; try done.
    { rewrite map_app, elem_of_app. intros []; [done|]. apply not_true_iff_false in Ek. by rewrite known_spec in Ek. }
    { rewrite <- app_assoc, (Permutation_app_comm (m_peers_white m)), app_assoc.
      apply submseteq_skips_r, trim_part. }
    split; [done|]. split; [apply trim_length|]. split; [done|done].
Qed.

Lemma merge_wf l m : peers_wf m -> peers_wf (merge_peerlist sort l m).
Proof using Hsort.
  intros Hwf. unfold merge_peerlist.
  assert (peers_wf (foldl (fun m be => append_with_peer_gray sort be m) m l)) as H.
  { revert m Hwf. induction l as [|p l IH]; intros m Hwf; [done|]. simpl. by apply IH, append_gray_wf. }
  pose proof H as (_ & _ & Hw & _). apply wf_part; [done| |apply trim_length|done].
  apply submseteq_skips_r, trim_part.
Qed.

Lemma sort_wf m gray white :
  peers_wf m -> gray ≡ₚ m_peers_gray m -> white ≡ₚ m_peers_white m ->
  peers_wf (Manager (m_allow_local_ip m) gray white).
Proof.
  intros Hwf Hg Hw. pose proof Hwf as (_ & Hgl & Hwl & _). apply wf_part; [done| | |].
  - by rewrite Hg, Hw.
  - by rewrite Hg.
  - by rewrite Hw.
Qed.

(** ** Every sequence of operations *)

Inductive peer_op :=
| AppendWhite (p : PeerlistEntry)
| AppendGray (p : PeerlistEntry)
| Merge (l : list PeerlistEntry)
| JustSeen (now peer : Z) (addr : NetworkAddress)
| Head (depth : Z)
| GetWhite (i : nat)
| GetGray (i : nat)
| Remote (now local_time : Z) (l : list PeerlistEntry).

Definition run_op (op : peer_op) (m : PeerlistManager) : PeerlistManager :=
  match op with
  | AppendWhite p => append_with_peer_white sort p m
  | AppendGray p => append_with_peer_gray sort p m
  | Merge l => merge_peerlist sort l m
  | JustSeen now peer addr => set_peer_just_seen sort now peer addr m
  | Head depth => (get_peerlist_head sort [] depth m).2
  | GetWhite i => Manager (m_allow_local_ip m) (m_peers_gray m) (peerlist_get sort i (m_peers_white m)).2
  | GetGray i => Manager (m_allow_local_ip m) (peerlist_get sort i (m_peers_gray m)).2 (m_peers_white m)
  | Remote now local_time l => default m (handle_remote_peerlist sort now local_time l m)
  end.

Lemma get_permutes i l : (peerlist_get sort i l).2 ≡ₚ l.
Proof using Hsort. unfold peerlist_get. destruct (length l <=? i)%nat; [done|]. exact (sort_permutes l). Qed.

Lemma run_op_wf op m : peers_wf m -> peers_wf (run_op op m).
Proof using Hsort.
  intros Hwf. destruct op; simpl.
  - by apply append_white_wf.
  - by apply append_gray_wf.
  - by apply merge_wf.
  - by apply append_white_wf.
  - apply sort_wf; [done|done|exact (sort_permutes (m_peers_white m))].
  - by apply sort_wf; [| |apply get_permutes].
  - by apply sort_wf; [|apply get_permutes|].
  - unfold handle_remote_peerlist. destruct (fix_time_delta now local_time l); [|done]. simpl.
    by apply merge_wf.
Qed.

(** C29. Along every sequence of operations on the peer lists, whatever peers
    send, from empty lists, no address is twice in a list or in both lists, the white list has
    at most 1000 entries and the gray list 5000, and no loopback address, nor a
    private one unless that is allowed, gets in. *)
Theorem peers_reachable allow m ops :
  m_peers_gray m = [] -> m_peers_white m = [] ->
  peers_wf (foldl (fun m op => run_op op m) (peerlist_init allow m) ops).
Proof using Hsort.
  intros Hgray Hwhite. unfold peerlist_init. rewrite Hgray, Hwhite.
  assert (peers_wf (Manager allow [] [])) as H.
  { split; [apply NoDup_nil_2|]. split; [simpl; lia|]. split; [simpl; lia|apply Forall_nil_2]. }
  revert H. generalize (Manager allow [] []). induction ops as [|op ops IH]; intros start Hm; [done|].
  simpl. by apply IH, run_op_wf.
Qed.

(** ** What is sent *)

Lemma head_loop_take depth i l :
  0 <= i <= depth + 1 -> depth + 2 < 2 ^ 32 ->
  head_loop depth i l = take (Z.to_nat (depth + 2 - i)) (filter (fun p => last_seen p <> 0) l).
Proof.
  revert i. induction l as [|p l IH]; intros i Hi Hd; [by destruct (Z.to_nat _)|]. simpl.
  rewrite filter_cons. destruct (Z.eqb_spec (last_seen p) 0) as [E|E].
  - rewrite decide_False by (intros ?; done). by apply IH.
  - rewrite decide_True by done. destruct (Z.to_nat (depth + 2 - i)) as [|n] eqn:En; [lia|].
    simpl. f_equal. destruct (Z.ltb_spec depth i).
    + assert (n = 0)%nat as -> by lia. by rewrite take_0.
    + rewrite wrap_small by mlia. rewrite IH by lia. f_equal. lia.
Qed.

Lemma head_loop_sublist depth i l : head_loop depth i l `sublist_of` l.
Proof.
  revert i. induction l as [|p l IH]; intros i; simpl; [done|].
  destruct (last_seen p =? 0); [by apply sublist_cons|]. apply sublist_skip.
  destruct (depth <? i); [apply sublist_nil_l|apply IH].
Qed.

Lemma head_part depth m : (get_peerlist_head sort [] depth m).1 ⊆+ m_peers_white m.
Proof using Hsort.
  simpl. transitivity (sort (m_peers_white m)).
  - apply sublist_submseteq, head_loop_sublist.
  - apply Permutation_submseteq, sort_permutes.
Qed.

Lemma filter_sorted (P : PeerlistEntry -> Prop) `{!forall p, Decision (P p)} l :
  StronglySorted newer l -> StronglySorted newer (filter P l).
Proof.
  induction 1 as [|p q Hq IH Hf]; [constructor|]. rewrite filter_cons. case_decide; [|done].
  constructor; [done|]. rewrite Forall_forall in Hf |- *. intros x [_ Hx]%list_elem_of_filter. by apply Hf.
Qed.

(** The list a node sends is the newest of the white peers that were ever
    seen, two more of them than [depth] says: 252 with the default of 250.
    Every white peer that was seen and is not sent is at most as new as every
    one that is. *)
Theorem get_peerlist_head_sends depth m sent m' :
  0 <= depth -> depth + 2 < 2 ^ 32 -> get_peerlist_head sort [] depth m = (sent, m') ->
  Z.of_nat (length sent) = Z.min (depth + 2)
    (Z.of_nat (length (filter (fun p => last_seen p <> 0) (m_peers_white m)))) /\
  exists kept, filter (fun p => last_seen p <> 0) (m_peers_white m) ≡ₚ sent ++ kept /\
    (forall p q, p ∈ sent -> q ∈ kept -> last_seen q <= last_seen p) /\
    StronglySorted newer sent /\ m_peers_white m' ≡ₚ m_peers_white m /\ m_peers_gray m' = m_peers_gray m.
Proof using Hsort.
  intros H0 Hd [= <- <-]. rewrite head_loop_take by lia. rewrite Z.sub_0_r. simpl.
  set (l := filter (fun p => last_seen p <> 0) (sort (m_peers_white m))).
  assert (filter (fun p => last_seen p <> 0) (m_peers_white m) ≡ₚ l) as Hl.
  { unfold l. by rewrite (sort_permutes (m_peers_white m)). }
  assert (StronglySorted newer l) as Hs.
  { apply filter_sorted, sort_sorts. }
  rewrite (Permutation_length Hl), length_take. split; [lia|].
  exists (drop (Z.to_nat (depth + 2)) l). rewrite take_drop. split; [done|].
  rewrite <- (take_drop (Z.to_nat (depth + 2)) l) in Hs.
  split; [|split; [|split; [exact (sort_permutes (m_peers_white m))|done]]].
  - intros p q Hp Hq. exact (StronglySorted_app_1_elem_of newer _ _ p q Hs Hp Hq).
  - by eapply StronglySorted_app_1_l.
Qed.
End Invariant.

(** ** What is learned *)

Section Learned.
Context (sort : list PeerlistEntry -> list PeerlistEntry).

Lemma append_gray_white p m : m_peers_white (append_with_peer_gray sort p m) = m_peers_white m.
Proof. unfold append_with_peer_gray. repeat case_match; reflexivity. Qed.

Lemma append_gray_allow p m : m_allow_local_ip (append_with_peer_gray sort p m) = m_allow_local_ip m.
Proof. unfold append_with_peer_gray. repeat case_match; reflexivity. Qed.

(** With room in the gray list, a peer that may be known is known. *)
Lemma append_gray_known p m :
  allowed m p -> (length (m_peers_gray m) < P2P_LOCAL_GRAY_PEERLIST_LIMIT)%nat ->
  let m' := append_with_peer_gray sort p m in
  adr p ∈ map adr (m_peers_gray m') ++ map adr (m_peers_white m') /\
  (length (m_peers_gray m') <= S (length (m_peers_gray m)))%nat /\
  (forall a, a ∈ map adr (m_peers_gray m) -> a ∈ map adr (m_peers_gray m')).
Proof.
  intros Ha Hl. cbv zeta. unfold append_with_peer_gray. unfold allowed in Ha. rewrite !Ha. cbn [negb].
  destruct (known (adr p) (m_peers_white m)) eqn:Ek.
  { cbv iota. apply known_spec in Ek. rewrite elem_of_app. split; [by right|]. split; [lia|auto]. }
  destruct (update_peer p (m_peers_gray m)) as [gray|] eqn:E; cbn [m_peers_gray m_peers_white].
  - apply update_peer_Some in E as (E1 & E2 & _). split; [|split].
    + apply elem_of_app. left. apply list_elem_of_fmap. by exists p.
    + rewrite <- (length_map adr gray), E1, length_map. lia.
    + intros a. by rewrite E1.
  - rewrite trim_fits by (rewrite length_app; simpl; lia). rewrite map_app, length_app. simpl.
    split; [|split; [lia|]].
    + rewrite elem_of_app. left. rewrite elem_of_app. right. by left.
    + intros a ?. apply elem_of_app. by left.
Qed.

Lemma merge_loop_known l m :
  (length (m_peers_gray m) + length l <= P2P_LOCAL_GRAY_PEERLIST_LIMIT)%nat ->
  let m' := foldl (fun m be => append_with_peer_gray sort be m) m l in
  m_peers_white m' = m_peers_white m /\ m_allow_local_ip m' = m_allow_local_ip m /\
  (length (m_peers_gray m') <= P2P_LOCAL_GRAY_PEERLIST_LIMIT)%nat /\
  (forall a, a ∈ map adr (m_peers_gray m) -> a ∈ map adr (m_peers_gray m')) /\
  (forall p, p ∈ l -> allowed m p -> adr p ∈ map adr (m_peers_gray m') ++ map adr (m_peers_white m')).
Proof.
  cbv zeta. revert m. induction l as [|p l IH]; intros m Hl.
  { simpl in *. split_and!; [done|done|lia|auto|]. by intros p ?%not_elem_of_nil. }
  simpl foldl. set (m1 := append_with_peer_gray sort p m). simpl in Hl.
  assert (length (m_peers_gray m1) <= S (length (m_peers_gray m)) /\
    forall a, a ∈ map adr (m_peers_gray m) -> a ∈ map adr (m_peers_gray m1))%nat as [Hl1 Hk1].
  { unfold m1. destruct (is_ip_allowed m (ip (adr p))) eqn:Ha.
    - destruct (append_gray_known p m Ha ltac:(lia)) as (_ & ? & ?). done.
    - unfold append_with_peer_gray. rewrite !Ha. simpl. split; [lia|auto]. }
  destruct (IH m1 ltac:(lia)) as (Hw & Hal & Hlen & Hkeep & Hnew).
  unfold m1 in Hw, Hal. rewrite append_gray_white in Hw. rewrite append_gray_allow in Hal.
  fold m1 in Hw, Hal. split_and!; [done|done|done|auto|].
  intros q [->|Hq]%elem_of_cons Ha.
  - destruct (append_gray_known p m Ha) as (Hin & _ & _); [lia|]. fold m1 in Hin.
    rewrite elem_of_app in Hin |- *. rewrite Hw. unfold m1 in Hin at 2. rewrite append_gray_white in Hin.
    destruct Hin; auto.
  - apply Hnew; [done|]. unfold allowed, is_ip_allowed in *. unfold m1. by rewrite append_gray_allow.
Qed.

Lemma merge_known l m :
  (length (m_peers_gray m) + length l <= P2P_LOCAL_GRAY_PEERLIST_LIMIT)%nat ->
  m_peers_white (merge_peerlist sort l m) = m_peers_white m /\
  (forall a, a ∈ map adr (m_peers_gray m) -> a ∈ map adr (m_peers_gray (merge_peerlist sort l m))) /\
  (forall p, p ∈ l -> allowed m p ->
     adr p ∈ map adr (m_peers_gray (merge_peerlist sort l m)) ++ map adr (m_peers_white (merge_peerlist sort l m))).
Proof.
  intros (Hw & _ & Hl & Hk & Hn)%merge_loop_known. unfold merge_peerlist. cbn [m_peers_white m_peers_gray].
  rewrite trim_fits by done. auto.
Qed.
End Learned.

(** A peer's list is shifted by the difference of the clocks and refused
    when an entry was seen after the peer's own clock.  Entries that are not
    older than the clock of the node, counted from the clock of the peer, come
    out at [now] at the latest.  A peer whose clock says twice the time makes
    entries that it never saw come out far in the future: the subtraction
    wraps. *)
Theorem fix_time_delta_future now :
  0 < now < 2 ^ 62 ->
  (forall local_time l l', 0 <= local_time < 2 ^ 63 ->
     Forall (fun p => 0 <= last_seen p /\ local_time - last_seen p <= now) l ->
     fix_time_delta now local_time l = Some l' -> Forall (fun p => last_seen p <= now) l') /\
  (forall l, Forall (fun p => last_seen p = 0) l ->
     exists l', fix_time_delta now (2 * now) l = Some l' /\ map adr l' = map adr l /\
       Forall (fun p => 2 ^ 63 < last_seen p) l').
Proof.
  intros Hnow. change (2 ^ 62) with 4611686018427387904 in Hnow. split.
  - intros t l l' Ht HF. revert l'. induction HF as [|p l [H1 H2] HF IH]; intros l' E; simpl in E.
    { injection E as <-. apply Forall_nil_2. }
    rewrite wrap_small in E by mlia. destruct (Z.ltb_spec t (last_seen p)); [done|].
    destruct (fix_time_delta now t l) as [rest|]; [|done]. injection E as <-.
    apply Forall_cons. split; [|by apply IH]. simpl. rewrite wrap_small by mlia. lia.
  - intros l HF. induction HF as [|p l Hp HF (l' & E1 & E2 & E3)].
    { exists []. split; [done|]. split; [done|apply Forall_nil_2]. }
    simpl. rewrite Hp, wrap_small, E1 by mlia. destruct (Z.ltb_spec (2 * now) 0); [lia|]. simpl.
    eexists. split; [done|]. simpl. rewrite E2. split; [done|]. apply Forall_cons. split; [|done]. simpl.
    replace (0 + (now - 2 * now)) with (2 ^ 64 - now + -1 * 2 ^ 64) by lia. unfold wrap.
    rewrite Z_mod_plus_full, Z.mod_small by mlia. mlia.
Qed.

Lemma fix_time_delta_total now t l :
  Forall (fun p => last_seen p <= u64 t) l ->
  exists l', fix_time_delta now t l = Some l' /\ map adr l' = map adr l.
Proof.
  induction 1 as [|p l Hp HF (l' & E1 & E2)]; [by exists []|]. simpl.
  destruct (Z.ltb_spec (u64 t) (last_seen p)); [lia|]. rewrite E1. simpl.
  eexists. split; [done|]. simpl. by rewrite E2.
Qed.

Lemma u64_i64 x : is_u64 x -> u64 (i64 x) = x.
Proof.
  intros Hx. change (int_cast UINT64 (i64 x) = x). rewrite int_cast_i64. by apply wrap_small.
Qed.

(** C30. Peers learn of each other: the newest white peers of a node, put into
    the response of a handshake, are encoded and decoded to the same list, and
    the node that asked knows every one of them whose address it allows
    afterwards, when it has room, whatever the two clocks say.  Its white list
    is not touched. *)
Theorem gossip_learned sort `{!Sorts sort} mA mB depth node payload now :
  Forall peer_ok (m_peers_white mA) -> node_data_ok node -> sync_data_ok payload ->
  Forall (fun p => last_seen p <= local_time node) (m_peers_white mA) ->
  short (m_peers_white mA) ->
  (length (m_peers_gray mB) + length (m_peers_white mA) <= P2P_LOCAL_GRAY_PEERLIST_LIMIT)%nat ->
  let sent := (get_peerlist_head sort [] depth mA).1 in
  let response := HandshakeResponse node payload sent in
  exists buf, encode handshake_response_members response = Returns buf /\
    decode handshake_response_members buf (HandshakeResponse node payload []) = Returns (Some response) /\
    exists mB', handle_remote_peerlist sort now (i64 (local_time node)) sent mB = Some mB' /\
      m_peers_white mB' = m_peers_white mB /\
      forall p, p ∈ sent -> allowed mB p -> adr p ∈ map adr (m_peers_gray mB') ++ map adr (m_peers_white mB').
Proof.
  intros Hp Hn Hs Ht Hsh Hroom sent response.
  assert (Hsub := head_part sort depth mA : sent ⊆+ m_peers_white mA).
  pose proof (submseteq_length _ _ Hsub) as Hlen.
  destruct (handshake_response_round response (HandshakeResponse node payload [])) as (buf & He & Hd).
  1,2: done.
  { by eapply Forall_part. }
  { unfold short in *. simpl. lia. }
  { done. }
  exists buf. split; [done|]. split; [done|].
  destruct (fix_time_delta_total now (i64 (local_time node)) sent) as (l & El & Eadr).
  { rewrite u64_i64 by apply Hn. by eapply Forall_part. }
  exists (merge_peerlist sort l mB). unfold handle_remote_peerlist. rewrite El. split; [done|].
  assert (length l = length sent) as Hll by (rewrite <- (length_map adr l), Eadr; apply length_map).
  destruct (merge_known sort l mB ltac:(lia)) as (Hw & _ & Hk). split; [done|].
  intros p Hin Ha. assert (exists q, adr p = adr q /\ q ∈ l) as (q & Hqp & Hq).
  { apply list_elem_of_fmap. change (adr p ∈ map adr l). rewrite Eadr. apply list_elem_of_fmap. by exists p. }
  rewrite Hqp. apply Hk; [done|]. unfold allowed in *. by rewrite <- Hqp.
Qed.

(** ** Which addresses are allowed *)

(** The four octets of an address, in the order of the network. *)
Definition octets (a b c d : Z) : Z := a + b * 2 ^ 8 + c * 2 ^ 16 + d * 2 ^ 24.

Lemma hostToNetwork_octets a b c d :
  is_u8 a -> is_u8 b -> is_u8 c -> is_u8 d ->
  hostToNetwork (octets a b c d) = d + c * 2 ^ 8 + b * 2 ^ 16 + a * 2 ^ 24.
Proof.
  intros Ha Hb Hc Hd. unfold hostToNetwork, octets.
  set (n := a + b * 2 ^ 8 + c * 2 ^ 16 + d * 2 ^ 24).
  assert (u32 (Z.shiftl n 24) = a * 2 ^ 24) as ->.
  { rewrite Z.shiftl_mul_pow2 by lia.
    replace (n * 2 ^ 24) with (a * 2 ^ 24 + (b + c * 2 ^ 8 + d * 2 ^ 16) * 2 ^ 32) by (unfold n; lia).
    unfold wrap. rewrite Z_mod_plus_full. apply Z.mod_small. mlia. }
  assert (forall k x y z, 0 <= k -> is_u8 y -> 0 <= x < 2 ^ k ->
    Z.land (x + y * 2 ^ k + z * 2 ^ (k + 8)) ((2 ^ 8 - 1) * 2 ^ k) = y * 2 ^ k) as field.
  { intros k x y z Hk Hy Hx. rewrite land_field by lia. f_equal.
    replace (x + y * 2 ^ k + z * 2 ^ (k + 8)) with (x + (y + z * 2 ^ 8) * 2 ^ k) by (rewrite Z.pow_add_r by lia; lia).
    rewrite Z.div_add, Z.div_small, Z.add_0_l, Z_mod_plus_full by lia. by apply Z.mod_small. }
  assert (Z.land n 0xff00 = b * 2 ^ 8) as ->.
  { rewrite <- (field 8 a b (c + d * 2 ^ 8)) by (done || mlia). f_equal. unfold n. lia. }
  assert (Z.land n 0xff0000 = c * 2 ^ 16) as ->.
  { rewrite <- (field 16 (a + b * 2 ^ 8) c d) by (done || mlia). f_equal. }
  rewrite !Z.shiftr_div_pow2, Z.shiftl_mul_pow2 by lia.
  replace (b * 2 ^ 8 * 2 ^ 8) with (b * 2 ^ 16) by lia. rewrite wrap_small by mlia.
  replace (c * 2 ^ 16 / 2 ^ 8) with (c * 2 ^ 8) by (apply Z.div_unique_exact; lia).
  replace (n / 2 ^ 24) with d by (apply Z.div_unique with (a + b * 2 ^ 8 + c * 2 ^ 16); [left|unfold n]; mlia).
  rewrite (lor_add_high a (b * 2 ^ 16) 24) by mlia.
  replace (a * 2 ^ 24 + b * 2 ^ 16) with ((a * 2 ^ 8 + b) * 2 ^ 16) by lia.
  rewrite (lor_add_high (a * 2 ^ 8 + b) (c * 2 ^ 8) 16) by mlia.
  replace ((a * 2 ^ 8 + b) * 2 ^ 16 + c * 2 ^ 8) with ((a * 2 ^ 16 + b * 2 ^ 8 + c) * 2 ^ 8) by lia.
  rewrite (lor_add_high (a * 2 ^ 16 + b * 2 ^ 8 + c) d 8) by mlia. lia.
Qed.

Lemma i32_eqb x y : is_u32 x -> is_u32 y -> (i32 x =? i32 y) = (x =? y).
Proof.
  intros Hx Hy. destruct (Z.eqb_spec x y) as [->|Hne]; [apply Z.eqb_refl|]. apply Z.eqb_neq. intros E. apply Hne.
  rewrite <- (wrap_small 32 x Hx), <- (wrap_small 32 y Hy).
  assert (forall z, u32 (i32 z) = u32 z) as Hr.
  { intros z. unfold wrap, swrap. rewrite Zminus_mod_idemp_l. f_equal. lia. }
  by rewrite <- (Hr x), <- (Hr y), E.
Qed.

(** Which addresses are let in, by their octets: not 127/8, and 10/8, 172.16/12
    and 192.168/16 only when local addresses are allowed. *)
Lemma is_ip_allowed_octets m a b c d :
  is_u8 a -> is_u8 b -> is_u8 c -> is_u8 d ->
  is_ip_allowed m (octets a b c d) =
  negb (a =? 127) &&
  (m_allow_local_ip m ||
   negb ((a =? 10) || ((a =? 172) && (16 <=? b) && (b <? 32)) || ((a =? 192) && (b =? 168)))).
Proof.
  intros Ha Hb Hc Hd. unfold is_ip_allowed, isLoopback, isPrivate.
  rewrite hostToNetwork_octets by done. set (v := d + c * 2 ^ 8 + b * 2 ^ 16 + a * 2 ^ 24).
  assert (forall k n, 0 <= k -> 0 <= n -> k + n = 32 -> Z.land v ((2 ^ n - 1) * 2 ^ k) = v / 2 ^ k * 2 ^ k) as top.
  { intros k n Hk Hn Hs. rewrite land_field by lia. f_equal. apply Z.mod_small. split.
    - apply Z.div_pos; [unfold v; mlia|apply Z.pow_pos_nonneg; lia].
    - apply Z.div_lt_upper_bound; [apply Z.pow_pos_nonneg; lia|]. rewrite <- Z.pow_add_r, Hs by lia. unfold v. mlia. }
  assert (v / 2 ^ 24 = a) as V24.
  { symmetry. apply Z.div_unique with (d + c * 2 ^ 8 + b * 2 ^ 16); [left|unfold v]; mlia. }
  assert (v / 2 ^ 16 = a * 2 ^ 8 + b) as V16.
  { symmetry. apply Z.div_unique with (d + c * 2 ^ 8); [left|unfold v]; mlia. }
  pose proof (Z.div_mod b 16 ltac:(lia)). pose proof (Z.mod_pos_bound b 16 ltac:(lia)).
  assert (v / 2 ^ 20 = a * 2 ^ 4 + b / 16) as V20.
  { symmetry. apply Z.div_unique with (d + c * 2 ^ 8 + b mod 16 * 2 ^ 16); [left|unfold v]; mlia. }
  change 0xff000000 with ((2 ^ 8 - 1) * 2 ^ 24). change 0xfff00000 with ((2 ^ 12 - 1) * 2 ^ 20).
  change 0xffff0000 with ((2 ^ 16 - 1) * 2 ^ 16). rewrite !top, V24, V20, V16 by lia.
  change (Z.lor (Z.shiftl 172 24) (Z.shiftl 16 16)) with ((172 * 2 ^ 4 + 1) * 2 ^ 20).
  change (Z.lor (Z.shiftl 192 24) (Z.shiftl 168 16)) with ((192 * 2 ^ 8 + 168) * 2 ^ 16).
  change (Z.shiftl 127 24) with (127 * 2 ^ 24). change (Z.shiftl 10 24) with (10 * 2 ^ 24).
  rewrite !i32_eqb by mlia.
  destruct (Z.eqb_spec (a * 2 ^ 24) (127 * 2 ^ 24)), (Z.eqb_spec a 127); try done; try mlia.
  destruct (m_allow_local_ip m); [done|]. simpl. f_equal. clear -Ha Hb H H0 n.
  destruct (Z.eqb_spec (a * 2 ^ 24) (10 * 2 ^ 24)), (Z.eqb_spec a 10); mlia.
Qed.

(** ** The state file *)

#[global] Instance PeerlistEntry_ok : CodecOk serialize_PeerlistEntry peer_ok.
Proof.
  split.
  - intros [[i p] d t] (? & ? & ? & ?). cbn [put get serialize_PeerlistEntry]. do 4 emits_step.
  - intros stream v rest Hb H. cbn [get serialize_PeerlistEntry] in H. rd_inv.
    codec_invert. split; [by split|]. cbn [put serialize_PeerlistEntry]. codec_written.
Qed.

(** What was saved is loaded, over whatever lists were there; with the same
    choice about local addresses the state after a restart is the state before. *)
Lemma peers_saved m m' rest :
  is_vector peer_ok (m_peers_white m) -> is_vector peer_ok (m_peers_gray m) ->
  exists bs, put_peers m = Ok bs /\
    get_peers m' (bs ++ rest) = Ok (Manager (m_allow_local_ip m') (m_peers_gray m) (m_peers_white m), rest).
Proof.
  intros Hw Hg.
  assert (emits (put_peers m) (get_peers m')
    (Manager (m_allow_local_ip m') (m_peers_gray m) (m_peers_white m))) as (bs & Hp & _ & Hget).
  { unfold put_peers, get_peers. eapply emits_bind; [apply (get_put (c := varint 8) 1); evaluate|].
    change (negb (1 =? 1)) with false. cbv iota. do 2 emits_step. }
  exists bs. split; [done|]. apply Hget.
Qed.

(** ** Examples *)

#[global] Instance newer_dec p q : Decision (newer p q).
Proof. unfold newer. apply _. Defined.

#[global] Instance newer_total : Total newer.
Proof. intros p q. unfold newer. lia. Qed.

#[global] Instance newer_transitive : Transitive newer.
Proof. intros p q r. unfold newer. lia. Qed.

(** A merge sort keeps the promises of [std::sort]. *)
#[global] Instance merge_sort_sorts : Sorts (merge_sort newer).
Proof.
  split.
  - intros l. apply merge_sort_Permutation.
  - intros l. apply (StronglySorted_merge_sort newer).
Qed.

Definition sample_peer (n seen : Z) : PeerlistEntry :=
  MkPeerlistEntry (MkNetworkAddress (octets 8 8 8 n) 11897) n seen.

Definition sample_ops : list peer_op :=
  [AppendGray (sample_peer 1 5); AppendWhite (sample_peer 1 7); AppendWhite (sample_peer 2 9);
   Merge [sample_peer 2 3; sample_peer 3 4; MkPeerlistEntry (MkNetworkAddress (octets 127 0 0 1) 1) 1 1];
   Head 1; Remote 100 90 [sample_peer 4 50]].

Definition sample_manager : PeerlistManager :=
  foldl (fun m op => run_op (merge_sort newer) op m) (peerlist_init false (Manager true [] [])) sample_ops.

Lemma peers_reachable_witness :
  peers_wf sample_manager /\ m_peers_white sample_manager = [sample_peer 2 9; sample_peer 1 7] /\
  m_peers_gray sample_manager = [sample_peer 3 4; sample_peer 4 60].
Proof.
  split; [exact (peers_reachable (merge_sort newer) false (Manager true [] []) sample_ops eq_refl eq_refl)|]. split; vm_compute; reflexivity.
Defined.

Lemma get_peerlist_head_sends_witness :
  exists sent m', get_peerlist_head (merge_sort newer) [] 1 sample_manager = (sent, m') /\
    Z.of_nat (length sent) = Z.min 3
      (Z.of_nat (length (filter (fun p => last_seen p <> 0) (m_peers_white sample_manager)))).
Proof.
  eexists _, _. split; [reflexivity|].
  refine (proj1 (get_peerlist_head_sends (merge_sort newer) 1 sample_manager _ _ _ _ eq_refl)); lia.
Defined.

Lemma fix_time_delta_future_witness :
  exists l', fix_time_delta 1700000000 3400000000 [sample_peer 1 0] = Some l' /\
    map adr l' = [MkNetworkAddress (octets 8 8 8 1) 11897] /\ Forall (fun p => 2 ^ 63 < last_seen p) l'.
Proof.
  apply (fix_time_delta_future 1700000000 ltac:(lia)). by apply Forall_singleton.
Defined.

Lemma sample_white : m_peers_white sample_manager = [sample_peer 2 9; sample_peer 1 7].
Proof. vm_compute. reflexivity. Qed.

Lemma gossip_learned_witness :
  let sent := (get_peerlist_head (merge_sort newer) [] 250 sample_manager).1 in
  let response := HandshakeResponse sample_node_data sample_sync_data sent in
  exists buf, encode handshake_response_members response = Returns buf /\
    decode handshake_response_members buf (HandshakeResponse sample_node_data sample_sync_data []) =
      Returns (Some response) /\
    exists mB', handle_remote_peerlist (merge_sort newer) 100 (i64 (local_time sample_node_data)) sent
        (Manager false [] []) = Some mB' /\
      m_peers_white mB' = m_peers_white (Manager false [] []) /\
      forall p, p ∈ sent -> allowed (Manager false [] []) p ->
        adr p ∈ map adr (m_peers_gray mB') ++ map adr (m_peers_white mB').
Proof.
  refine (gossip_learned (merge_sort newer) sample_manager (Manager false [] []) 250
    sample_node_data sample_sync_data 100 _ sample_node_data_ok sample_sync_data_ok _ _ _);
    rewrite sample_white.
  - apply Forall_cons. split; [split_and!; evaluate|]. apply Forall_singleton. split_and!; evaluate.
  - evaluate.
  - unfold short. simpl. lia.
  - apply Nat.leb_le. vm_compute. reflexivity.
Defined.
