(* ===== verification/TxQueries.v ===== *)
(** * Transactions by their hashes ([src/mevacoin_core/core.cpp])

    What the core knows of a transaction, in a block of whatever chain or in
    the pool, and what the pool has that a peer does not know. *)

From stdpp Require Import gmap fin_sets.
From S2P Require Import Prelude Config Stream Serializer Transaction Block Cached Pool PoolCleaner.
From S2P Require Import Segments ChainSpec Validation Core CoreSpec AddBlock.
Import BlockchainCache.

Section Queries.
Variable cn_fast_hash : bytes -> Hash.
Context {P : Type} `{!ITransactionPool P}.
(** Hashed sets are walked in an order of their own. *)
Variable hash_order : list Hash -> list Hash.
Abbreviation Core := (Core (P := P)).
Implicit Types k : Core.

(** The segments in the order in which they are searched: the main chain from
    its end, then every other chain down to where it leaves the main chain. *)
Fixpoint alternative_part (mainChainSet : gset nat) (ids : list nat) : list nat :=
  match ids with
  | [] => []
  | id :: ids => if bool_decide (id ∈ mainChainSet) then [] else id :: alternative_part mainChainSet ids
  end.
Definition search_order k : list nat :=
  path (chainsStorage k) (main_leaf k) ++
  concat (map (fun leaf => alternative_part (mainChainSet k) (path (chainsStorage k) leaf)) (tail (chainsLeaves k))).

Definition findSegmentContainingTransaction (transactionHash : Hash) k : option nat :=
  find (fun id => match chainsStorage k !! id with
                  | Some n => hasTransaction transactionHash (seg n)
                  | None => false
                  end) (search_order k).

(** [Core::getTransaction]; the outer [None] is a lookup outside a vector. *)
Definition core_getTransaction (hash : Hash) k : option (option bytes) :=
  match findSegmentContainingTransaction hash k with
  | Some id =>
      '(found, _) ← getRawTransactions cn_fast_hash [hash] (chain_of (chainsStorage k) id);
      Some <$> head found
  | None => Some (getTransactionBinaryArray <$> ip_get hash (transactionPool (pool k)))
  end.

(** The loops of [Core::getTransactions] over the segments. *)
Fixpoint gather (ids : list nat) (leftTransactions : list Hash) k : option (list bytes * list Hash) :=
  match ids with
  | [] => Some ([], leftTransactions)
  | id :: ids =>
      '(found, missed) ← getRawTransactions cn_fast_hash leftTransactions (chain_of (chainsStorage k) id);
      '(more, missed) ← gather ids missed k;
      Some (found ++ more, missed)
  end.
(** [(transactions, missedHashes)] *)
Definition core_getTransactions (transactionHashes : list Hash) k : option (list bytes * list Hash) :=
  gather (search_order k) transactionHashes k.

(** [(newTransactions, deletedTransactions)] *)
Definition getTransactionPoolDifference (knownHashes : list Hash) k : list Hash * list Hash :=
  let poolTransactions : gset Hash := list_to_set (ip_hashes (transactionPool (pool k))) in
  let knownTransactions : gset Hash := list_to_set knownHashes in
  (hash_order (elements (poolTransactions ∖ knownTransactions)),
   hash_order (elements (knownTransactions ∖ poolTransactions))).

(** [(addedTransactions, deletedTransactions)] *)
Definition getPoolChanges (knownHashes : list Hash) k : option (list bytes * list Hash) :=
  let '(newTransactions, deletedTransactions) := getTransactionPoolDifference knownHashes k in
  added ← mapM (fun hash => getTransactionBinaryArray <$> ip_get hash (transactionPool (pool k))) newTransactions;
  Some (added, deletedTransactions).
End Queries.
