(* ===== verification/World.v ===== *)
(** * The node and its connections
      ([src/p2p/connection_context.h], [net_node.h], [net_node.cpp],
      [src/mevacoin_protocol/mevacoin_protocol_handler.h])

    The state that the handlers of messages share: the core, the connections
    with their queues of messages to write, the counters of the protocol
    handler and the peer lists.  A handler is an action on it that may throw;
    what it changed before is changed.  A connection is found by its id in the
    map of connections, so that a handler which gets a reference to its
    connection and one that walks over all connections see the same object. *)

From stdpp Require Import gmap fin_sets fin_maps.
From S2P Require Import Prelude Config Transaction Block Pool PoolCleaner Segments Core KvBinary KvMessages Levin Peers.

(** ** Actions *)

Definition act (W A : Type) : Type := W -> outcome A * W.

#[global] Instance act_ret W : MRet (act W) := fun A a w => (Returns a, w).
#[global] Instance act_bind W : MBind (act W) := fun A B f m w =>
  match m w with
  | (Returns a, w) => f a w
  | (Raises e, w) => (Raises e, w)
  | (Undefined, w) => (Undefined, w)
  end.

Definition gets {W A} (f : W -> A) : act W A := fun w => (Returns (f w), w).
Definition modify {W} (f : W -> W) : act W unit := fun w => (Returns tt, f w).
Definition lift {W A} (m : outcome A) : act W A := fun w => (m, w).
(** A reference or an element that is not there. *)
Definition or_undefined {W A} (o : option A) : act W A :=
  lift (match o with Some a => Returns a | None => Undefined end).
Definition raise {W A} (e : exn) : act W A := lift (Raises e).

(** *** What an action may do

    [moves R m]: whatever the outcome, the state after [m] is related to the
    state before by the preorder [R].  The rules follow the structure of the
    code, and [solve_moves] applies them. *)

Definition moves {W A} (R : W -> W -> Prop) (m : act W A) : Prop := forall w, R w (m w).2.

Create HintDb moves.

Section Moves.
Context {W : Type} (R : W -> W -> Prop) `{!PreOrder R}.

Lemma moves_ret {A} (a : A) : moves R (mret a).
Proof. intros w. reflexivity. Qed.

Lemma moves_bind {A B} (f : A -> act W B) (m : act W A) : moves R m -> (forall a, moves R (f a)) -> moves R (m ≫= f).
Proof.
  intros Hm Hf w. unfold mbind, act_bind. specialize (Hm w). destruct (m w) as [[a|e|] w']; simpl in *; [|done..].
  etransitivity; [exact Hm|apply Hf].
Qed.

Lemma moves_gets {A} (f : W -> A) : moves R (gets f).
Proof. intros w. reflexivity. Qed.

Lemma moves_lift {A} (o : outcome A) : moves R (lift o).
Proof. intros w. reflexivity. Qed.

Lemma moves_or_undefined {A} (o : option A) : moves R (or_undefined o).
Proof. intros w. reflexivity. Qed.

Lemma moves_raise {A} e : moves R (raise e : act W A).
Proof. intros w. reflexivity. Qed.

Lemma moves_modify (f : W -> W) : (forall w, R w (f w)) -> moves R (modify f).
Proof. intros Hf w. apply Hf. Qed.
End Moves.

#[export] Hint Resolve moves_ret moves_bind moves_gets moves_lift moves_or_undefined moves_raise : moves.

(** Binds, tests and matches; what is left are the changes themselves. *)
Ltac solve_moves :=
  repeat match goal with
         | |- forall _, _ => intros
         | |- moves _ (_ ≫= _) => apply moves_bind; [apply _| |]
         | |- moves _ (match ?x with _ => _ end) => destruct x
         | |- moves _ (let '(_, _) := ?x in _) => destruct x
         | |- moves _ _ => solve [eauto with moves typeclass_instances]
         | |- _ => progress cbv beta zeta
         end.

(** ** Connections *)

(** The states of a connection. *)
Inductive state :=
| state_befor_handshake | state_synchronizing | state_idle | state_normal | state_sync_required
| state_pool_sync_required | state_shutdown.
#[global] Instance state_eq_dec : EqDecision state.
Proof. solve_decision. Defined.

Record PendingLiteBlock := { request : NOTIFY_NEW_LITE_BLOCK_request; missed_transactions : gset Hash }.

(** [m_connection_id] is the key of the connection; when it was opened is only
    printed. *)
Record CryptoNoteConnectionContext := Context {
  version : Z;
  m_remote_ip : Z;
  m_remote_port : Z;
  m_is_income : bool;
  m_state : state;
  m_pending_lite_block : option PendingLiteBlock;
  m_needed_objects : list Hash;
  m_requested_objects : gset Hash;
  m_remote_blockchain_height : Z;
  m_last_response_height : Z
}.

Inductive message_type := COMMAND | REPLY | NOTIFY.
Record P2pMessage := Message { msg_type : message_type; msg_command : Z; buffer : bytes; returnCode : Z }.

(** The socket and the coroutine are outside; that they were interrupted is
    [stopped]. *)
Record P2pConnectionContext := P2pContext {
  base :> CryptoNoteConnectionContext;
  peerId : Z;
  writeQueue : list P2pMessage;
  writeQueueSize : Z;
  stopped : bool
}.

Definition on_base (f : CryptoNoteConnectionContext -> CryptoNoteConnectionContext) (c : P2pConnectionContext) :
    P2pConnectionContext :=
  P2pContext (f (base c)) (peerId c) (writeQueue c) (writeQueueSize c) (stopped c).

Definition set_version (v : Z) : P2pConnectionContext -> P2pConnectionContext := on_base (fun c =>
  Context v (m_remote_ip c) (m_remote_port c) (m_is_income c) (m_state c) (m_pending_lite_block c)
    (m_needed_objects c) (m_requested_objects c) (m_remote_blockchain_height c) (m_last_response_height c)).
Definition set_state (s : state) : P2pConnectionContext -> P2pConnectionContext := on_base (fun c =>
  Context (version c) (m_remote_ip c) (m_remote_port c) (m_is_income c) s (m_pending_lite_block c)
    (m_needed_objects c) (m_requested_objects c) (m_remote_blockchain_height c) (m_last_response_height c)).
Definition set_pending (p : option PendingLiteBlock) : P2pConnectionContext -> P2pConnectionContext := on_base (fun c =>
  Context (version c) (m_remote_ip c) (m_remote_port c) (m_is_income c) (m_state c) p
    (m_needed_objects c) (m_requested_objects c) (m_remote_blockchain_height c) (m_last_response_height c)).
Definition set_objects (needed : list Hash) (requested : gset Hash) : P2pConnectionContext -> P2pConnectionContext :=
  on_base (fun c =>
  Context (version c) (m_remote_ip c) (m_remote_port c) (m_is_income c) (m_state c) (m_pending_lite_block c)
    needed requested (m_remote_blockchain_height c) (m_last_response_height c)).
Definition set_remote_height (h : Z) : P2pConnectionContext -> P2pConnectionContext := on_base (fun c =>
  Context (version c) (m_remote_ip c) (m_remote_port c) (m_is_income c) (m_state c) (m_pending_lite_block c)
    (m_needed_objects c) (m_requested_objects c) h (m_last_response_height c)).
Definition set_last_response (h : Z) : P2pConnectionContext -> P2pConnectionContext := on_base (fun c =>
  Context (version c) (m_remote_ip c) (m_remote_port c) (m_is_income c) (m_state c) (m_pending_lite_block c)
    (m_needed_objects c) (m_requested_objects c) (m_remote_blockchain_height c) h).
Definition set_peerId (p : Z) (c : P2pConnectionContext) : P2pConnectionContext :=
  P2pContext (base c) p (writeQueue c) (writeQueueSize c) (stopped c).

Abbreviation P2P_CONNECTION_MAX_WRITE_BUFFER_SIZE := (32 * 1024 * 1024) (only parsing).

(** [P2pConnectionContext::pushMessage]: a queue that grows too long stops the
    connection. *)
Definition pushMessage (msg : P2pMessage) (c : P2pConnectionContext) : P2pConnectionContext :=
  let size := u64 (writeQueueSize c + Z.of_nat (length (buffer msg))) in
  if P2P_CONNECTION_MAX_WRITE_BUFFER_SIZE <? size
  then P2pContext (base c) (peerId c) (writeQueue c) size true
  else P2pContext (base c) (peerId c) (writeQueue c ++ [msg]) size (stopped c).

(** [P2pConnectionContext::popBuffer], when there is a message or the
    connection was stopped. *)
Definition popBuffer (c : P2pConnectionContext) : list P2pMessage * P2pConnectionContext :=
  (writeQueue c, P2pContext (base c) (peerId c) [] 0 (stopped c)).

(** The frames that [NodeServer::writeHandler] writes. *)
Definition write_message (msg : P2pMessage) : bytes :=
  match msg_type msg with
  | COMMAND => sendMessage (msg_command msg) (buffer msg) true
  | NOTIFY => sendMessage (msg_command msg) (buffer msg) false
  | REPLY => sendReply (msg_command msg) (buffer msg) (returnCode msg)
  end.

(** ** The node *)

(** What [remoteSpawn] puts off: the two ways to relay a notification. *)
Inductive spawned :=
| RelayToAll (cmd : Z) (data_buff : bytes) (excludeConnection : option Z)
| RelayToList (cmd : Z) (data_buff : bytes) (relayList : list Z).

(** The calls that change the core, with the time at which they are made. *)
Inductive core_call :=
| AddRawBlock (now : Z) (raw : RawBlock)
| AddBlock (now : Z) (b : BlockchainCache.CachedBlock) (raw : RawBlock)
| AddTransaction (now : Z) (tx : bytes).

Section World.
Context {P : Type}.

(** [m_calls] is a history variable: the calls of the core so far.  The code
    does not keep it, and no operation reads it. *)
Record World := MkWorld {
  m_core : Core (P := P);
  m_connections : gmap Z P2pConnectionContext;
  m_synchronized : bool;
  m_stop : bool;
  m_observedHeight : Z;
  m_blockchainHeight : Z;
  m_peersCount : Z;
  m_peerlist : PeerlistManager;
  m_spawned : list spawned;
  clock : Z;
  m_calls : list core_call
}.

Definition set_core (k : Core (P := P)) (w : World) : World :=
  MkWorld k (m_connections w) (m_synchronized w) (m_stop w) (m_observedHeight w) (m_blockchainHeight w)
    (m_peersCount w) (m_peerlist w) (m_spawned w) (clock w) (m_calls w).
Definition set_connections (m : gmap Z P2pConnectionContext) (w : World) : World :=
  MkWorld (m_core w) m (m_synchronized w) (m_stop w) (m_observedHeight w) (m_blockchainHeight w)
    (m_peersCount w) (m_peerlist w) (m_spawned w) (clock w) (m_calls w).
Definition set_synchronized (b : bool) (w : World) : World :=
  MkWorld (m_core w) (m_connections w) b (m_stop w) (m_observedHeight w) (m_blockchainHeight w)
    (m_peersCount w) (m_peerlist w) (m_spawned w) (clock w) (m_calls w).
Definition set_heights (observed chain : Z) (w : World) : World :=
  MkWorld (m_core w) (m_connections w) (m_synchronized w) (m_stop w) observed chain
    (m_peersCount w) (m_peerlist w) (m_spawned w) (clock w) (m_calls w).
Definition set_peersCount (n : Z) (w : World) : World :=
  MkWorld (m_core w) (m_connections w) (m_synchronized w) (m_stop w) (m_observedHeight w) (m_blockchainHeight w)
    n (m_peerlist w) (m_spawned w) (clock w) (m_calls w).
Definition set_peerlist (m : PeerlistManager) (w : World) : World :=
  MkWorld (m_core w) (m_connections w) (m_synchronized w) (m_stop w) (m_observedHeight w) (m_blockchainHeight w)
    (m_peersCount w) m (m_spawned w) (clock w) (m_calls w).
Definition set_spawned (l : list spawned) (w : World) : World :=
  MkWorld (m_core w) (m_connections w) (m_synchronized w) (m_stop w) (m_observedHeight w) (m_blockchainHeight w)
    (m_peersCount w) (m_peerlist w) l (clock w) (m_calls w).

Definition record_call (call : core_call) (w : World) : World :=
  MkWorld (m_core w) (m_connections w) (m_synchronized w) (m_stop w) (m_observedHeight w) (m_blockchainHeight w)
    (m_peersCount w) (m_peerlist w) (m_spawned w) (clock w) (m_calls w ++ [call]).

(** The connection behind the reference [conn]. *)
Definition p2p_context (conn : Z) : act World P2pConnectionContext :=
  fun w => or_undefined (m_connections w !! conn) w.
Definition context (conn : Z) : act World CryptoNoteConnectionContext :=
  fun w => or_undefined (base <$> m_connections w !! conn) w.
Definition change (conn : Z) (f : P2pConnectionContext -> P2pConnectionContext) : act World unit :=
  modify (fun w => set_connections (alter f conn (m_connections w)) w).

(** ** Sending *)

(** [NodeServer::invoke_notify_to_peer] *)
Definition invoke_notify_to_peer (cmd : Z) (buf : bytes) (conn : Z) : act World bool :=
  found ← gets (fun w => bool_decide (is_Some (m_connections w !! conn)));
  change conn (pushMessage (Message NOTIFY cmd buf 0));;
  mret found.

(** [post_notify] *)
Definition post_notify {A} (cmd : Z) (ms : list (member A)) (arg : A) (conn : Z) : act World bool :=
  buf ← lift (encode ms arg); invoke_notify_to_peer cmd buf conn.

(** [NodeServer::externalRelayNotifyToAll], [externalRelayNotifyToList] *)
Definition spawn (s : spawned) : act World unit := modify (fun w => set_spawned (m_spawned w ++ [s]) w).

(** Which connections take a relayed notification. *)
Definition takes_relay (c : P2pConnectionContext) : bool :=
  negb (peerId c =? 0) && (bool_decide (m_state c = state_normal) || bool_decide (m_state c = state_synchronizing)).

(** [NodeServer::relay_notify_to_all] *)
Definition relay_notify_to_all (cmd : Z) (data_buff : bytes) (excludeConnection : option Z) (w : World) : World :=
  let excludeId := default 0 excludeConnection in
  set_connections (map_imap (fun conn c =>
    Some (if takes_relay c && negb (conn =? excludeId) then pushMessage (Message NOTIFY cmd data_buff 0) c else c))
    (m_connections w)) w.

(** What the dispatcher runs for [externalRelayNotifyToList]. *)
Definition relay_notify_to_list (cmd : Z) (data_buff : bytes) (relayList : list Z) (w : World) : World :=
  set_connections (map_imap (fun conn c =>
    Some (if bool_decide (conn ∈ relayList) && takes_relay c then pushMessage (Message NOTIFY cmd data_buff 0) c else c))
    (m_connections w)) w.

Definition run_spawned (s : spawned) : World -> World :=
  match s with
  | RelayToAll cmd data_buff excludeConnection => relay_notify_to_all cmd data_buff excludeConnection
  | RelayToList cmd data_buff relayList => relay_notify_to_list cmd data_buff relayList
  end.

(** ** Relations that do not see what the handlers keep for themselves *)

Class Blind (R : World -> World -> Prop) : Prop := {
  blind_preorder :: PreOrder R;
  blind_connections w m : R w (set_connections m w);
  blind_spawned w l : R w (set_spawned l w);
  blind_heights w a b : R w (set_heights a b w);
  blind_peersCount w n : R w (set_peersCount n w);
  blind_synchronized w b : R w (set_synchronized b w)
}.

Section Blind.
Context (R : World -> World -> Prop) `{!Blind R}.

Lemma moves_context conn : moves R (context conn).
Proof. intros w. reflexivity. Qed.

Lemma moves_p2p_context conn : moves R (p2p_context conn).
Proof. intros w. reflexivity. Qed.

Lemma moves_change conn f : moves R (change conn f).
Proof. apply moves_modify. intros w. apply blind_connections. Qed.

Lemma moves_spawn t : moves R (spawn t).
Proof. apply moves_modify. intros w. apply blind_spawned. Qed.

Lemma moves_post_notify {A} cmd (ms : list (member A)) arg conn : moves R (post_notify cmd ms arg conn).
Proof. unfold post_notify, invoke_notify_to_peer. solve_moves. apply moves_change. Qed.
End Blind.
End World.
#[export] Hint Resolve moves_context moves_p2p_context moves_change moves_spawn moves_post_notify : moves.
#[export] Hint Extern 1 (moves _ (modify _)) =>
  apply moves_modify; intros; first [apply blind_heights | apply blind_peersCount | apply blind_synchronized] : moves.
