(* ===== verification/Protocol.v ===== *)
(** * The chain protocol
      ([src/mevacoin_protocol/mevacoin_protocol_handler.cpp])

    What a node does with the notifications of its peers: new blocks, lite
    blocks and transactions, requests for chains, blocks and pool contents, and
    the answers to its own requests.  [CryptoNoteProtocolHandler] keeps a state
    for every connection; the handlers below are actions on the [World].  The
    handlers run one at a time; where one of them yields to the others,
    [others] stands for whatever they do. *)

From stdpp Require Import gmap fin_sets fin_maps.
From S2P Require Import Prelude Config Stream Serializer Transaction Block Cached Pool Currency PoolCleaner.
From S2P Require Import Segments Validation Core CoreQueries TxQueries KvBinary KvMessages Levin Peers World.
Import BlockchainCache.

Abbreviation NOTIFY_NEW_BLOCK_ID := 2001 (only parsing).
Abbreviation NOTIFY_NEW_TRANSACTIONS_ID := 2002 (only parsing).
Abbreviation NOTIFY_REQUEST_GET_OBJECTS_ID := 2003 (only parsing).
Abbreviation NOTIFY_RESPONSE_GET_OBJECTS_ID := 2004 (only parsing).
Abbreviation NOTIFY_REQUEST_CHAIN_ID := 2006 (only parsing).
Abbreviation NOTIFY_RESPONSE_CHAIN_ENTRY_ID := 2007 (only parsing).
Abbreviation NOTIFY_REQUEST_TX_POOL_ID := 2008 (only parsing).
Abbreviation NOTIFY_NEW_LITE_BLOCK_ID := 2009 (only parsing).
Abbreviation NOTIFY_MISSING_TXS_ID := 2010 (only parsing).
Abbreviation P2P_LITE_BLOCKS_PROPOGATION_VERSION := 4 (only parsing).

Definition convertRawBlocksToRawBlocksLegacy : list RawBlock -> list RawBlockLegacy :=
  map (fun r => MkRawBlockLegacy (rb_block r) (rb_transactions r)).
Definition convertRawBlocksLegacyToRawBlocks : list RawBlockLegacy -> list RawBlock :=
  map (fun l => {| rb_block := blockTemplate l; rb_transactions := KvMessages.transactions l |}).

Section Handler.
Variable E : Environment.
Context {P : Type} `{!ITransactionPool P}.
Variable hash_order : list Hash -> list Hash.
Variable others : World (P := P) -> World (P := P).
Abbreviation World := (World (P := P)).
Abbreviation cn_fast_hash := (Core.cn_fast_hash E).

(** ** Calls of the core *)

Definition core_result (r : checked AddBlockErrorCode) : outcome (checked AddBlockErrorCode) :=
  match r with
  | inr Exception => Raises (runtime_error "addBlock")
  | inr UndefinedBehaviour => Undefined
  | _ => Returns r
  end.
(** A call of the core, which is added to the history. *)
Definition with_core {A} (call : Z -> core_call) (f : Z -> Core (P := P) -> A * Core (P := P)) : act World A := fun w =>
  let '(a, k) := f (clock w) (m_core w) in (Returns a, set_core k (record_call (call (clock w)) w)).

Definition call_addRawBlock (raw : RawBlock) : act World (checked AddBlockErrorCode) :=
  r ← with_core (fun now => AddRawBlock now raw) (fun now => addRawBlock E hash_order now raw); lift (core_result r).
Definition call_addBlock (b : CachedBlock) (raw : RawBlock) : act World (checked AddBlockErrorCode) :=
  r ← with_core (fun now => AddBlock now b raw) (fun now => addBlock E hash_order now b raw); lift (core_result r).
Definition call_addTransactionToPool (tx : bytes) : act World bool :=
  with_core (fun now => AddTransaction now tx) (fun now => addRawTransactionToPool E now tx).

(** What the calls of the history do to the core and to the node. *)
Definition run_call (k : Core (P := P)) (call : core_call) : Core (P := P) :=
  match call with
  | AddRawBlock now raw => (addRawBlock E hash_order now raw k).2
  | AddBlock now b raw => (addBlock E hash_order now b raw k).2
  | AddTransaction now tx => (addRawTransactionToPool E now tx k).2
  end.
Definition called (call : core_call) (w : World) : World :=
  set_core (run_call (m_core w) call) (record_call call w).

(** ** Heights *)

Definition recalculateMaxObservedHeight (conn : Z) : act World unit :=
  context ← context conn;
  modify (fun w =>
    let peerHeight := map_fold (fun id (ctx : P2pConnectionContext) h =>
      if bool_decide (id = conn) then h else Z.max h (m_remote_blockchain_height ctx)) 0 (m_connections w) in
    let top := core_getTopBlockIndex (m_core w) in
    set_heights (if bool_decide (m_state context = state_normal) then top else Z.max peerHeight (u32 (top + 1)))
      (m_blockchainHeight w) w).

Definition updateObservedHeight (peerHeight conn : Z) : act World unit :=
  context ← context conn;
  let remote := m_remote_blockchain_height context in
  observed ← gets m_observedHeight;
  (if negb (remote =? 0) && (m_last_response_height context <=? u32 (remote - 1)) then
     modify (fun w => set_heights (u32 (remote - 1)) (m_blockchainHeight w) w)
   else if remote <? peerHeight then
     modify (fun w => set_heights (Z.max observed peerHeight) (m_blockchainHeight w) w)
   else if negb (peerHeight =? remote) && (remote =? observed) then recalculateMaxObservedHeight conn
   else mret tt);;
  modify (fun w =>
    if m_blockchainHeight w <? peerHeight then set_heights (m_observedHeight w) peerHeight w else w).

Definition onConnectionClosed (conn : Z) : act World unit :=
  recalculateMaxObservedHeight conn;;
  context ← context conn;
  if bool_decide (m_state context = state_befor_handshake) then mret tt
  else modify (fun w => set_peersCount (u64 (m_peersCount w - 1)) w).

(** ** Requests *)

(** [r.block_ids = m_core.buildSparseChain()] and its [post_notify]. *)
Definition request_chain (conn : Z) : act World unit :=
  k ← gets m_core;
  block_ids ← or_undefined (buildSparseChain k);
  post_notify NOTIFY_REQUEST_CHAIN_ID request_chain_members block_ids conn;;
  mret tt.

Definition start_sync (conn : Z) : act World bool :=
  context ← context conn;
  (if bool_decide (m_state context = state_synchronizing) then request_chain conn else mret tt);;
  mret true.

Definition requestMissingPoolTransactions (conn : Z) : act World unit :=
  context ← context conn;
  if version context <? 1 then mret tt
  else
    txs ← gets (fun w => ip_hashes (transactionPool (pool (m_core w))));
    post_notify NOTIFY_REQUEST_TX_POOL_ID request_tx_pool_members txs conn;;
    mret tt.

Definition on_connection_synchronized : act World unit := modify (set_synchronized true).

Definition process_payload_sync_data (hshd : CORE_SYNC_DATA) (conn : Z) (is_initial : bool) : act World bool :=
  context ← context conn;
  if bool_decide (m_state context = state_befor_handshake) && negb is_initial then mret true
  else
    known ← gets (fun w => core_hasBlock (top_id hshd) (m_core w));
    (if bool_decide (m_state context = state_synchronizing) then mret tt
     else if known : bool then
       if is_initial then on_connection_synchronized;; change conn (set_state state_pool_sync_required)
       else change conn (set_state state_normal)
     else change conn (set_state state_sync_required));;
    updateObservedHeight (current_height hshd) conn;;
    change conn (set_remote_height (current_height hshd));;
    (if is_initial then modify (fun w => set_peersCount (u64 (m_peersCount w + 1)) w) else mret tt);;
    mret true.

Definition get_payload_sync_data : act World CORE_SYNC_DATA :=
  k ← gets m_core;
  top ← or_undefined (core_getTopBlockHash k);
  mret (MkSyncData (u32 (core_getTopBlockIndex k + 1)) top).

(** The loop of [request_missing_objects]: the ids to ask for and the ones that
    are left. *)
Fixpoint take_needed (have : Hash -> bool) (count : nat) (needed : list Hash) : list Hash * list Hash :=
  match needed, count with
  | [], _ => ([], [])
  | _, O => ([], needed)
  | h :: needed, S count' =>
      if have h then take_needed have count needed
      else let '(blocks, rest) := take_needed have count' needed in (h :: blocks, rest)
  end.

Definition request_missing_objects (conn : Z) (check_having_blocks : bool) : act World bool :=
  context ← context conn;
  if bool_decide (m_needed_objects context <> []) then
    k ← gets m_core;
    let '(blocks, rest) := take_needed (fun h => check_having_blocks && core_hasBlock h k)
                             (Z.to_nat BLOCKS_SYNCHRONIZING_DEFAULT_COUNT) (m_needed_objects context) in
    change conn (set_objects rest (m_requested_objects context ∪ list_to_set blocks));;
    post_notify NOTIFY_REQUEST_GET_OBJECTS_ID request_get_objects_members (RequestGetObjects [] blocks) conn;;
    mret true
  else if m_last_response_height context <? u32 (m_remote_blockchain_height context - 1) then
    request_chain conn;; mret true
  else if negb ((m_last_response_height context =? u32 (m_remote_blockchain_height context - 1))
                && bool_decide (m_requested_objects context = ∅)) then mret false
  else
    requestMissingPoolTransactions conn;;
    change conn (set_state state_normal);;
    on_connection_synchronized;;
    mret true.

(** ** Relaying *)

Definition relayBlock (arg : NOTIFY_NEW_BLOCK_request) : act World unit :=
  let lite_arg := NewLiteBlock (blockTemplate (nb_block arg)) (nb_current_blockchain_height arg) (nb_hop arg) in
  buf ← lift (encode new_block_members arg);
  lite_buf ← lift (encode new_lite_block_members lite_arg);
  connections ← gets (fun w => map_to_list (m_connections w));
  let lite c := P2P_LITE_BLOCKS_PROPOGATION_VERSION <=? version (base c) in
  let liteBlockConnections := map fst (filter (fun x : Z * P2pConnectionContext => lite x.2 = true) connections) in
  let normalBlockConnections := map fst (filter (fun x : Z * P2pConnectionContext => lite x.2 = false) connections) in
  (if bool_decide (liteBlockConnections = []) then mret tt
   else spawn (RelayToList NOTIFY_NEW_LITE_BLOCK_ID lite_buf liteBlockConnections));;
  (if bool_decide (normalBlockConnections = []) then mret tt
   else spawn (RelayToList NOTIFY_NEW_BLOCK_ID buf normalBlockConnections)).

Definition relayTransactions (transactions : list bytes) : act World unit :=
  buf ← lift (encode new_transactions_members transactions);
  spawn (RelayToAll NOTIFY_NEW_TRANSACTIONS_ID buf None).

(** [relay_post_notify] *)
Definition relay_post_notify {A} (cmd : Z) (ms : list (member A)) (arg : A) (excludeConnection : option Z) :
    act World unit :=
  buf ← lift (encode ms arg); spawn (RelayToAll cmd buf excludeConnection).

(** ** Blocks and transactions of the peer *)

(** What follows [addBlock] for a block that was announced. *)
Definition block_announced (result : checked AddBlockErrorCode) (relay : act World unit) (conn : Z) : act World unit :=
  match result with
  | inl ADDED_TO_ALTERNATIVE_AND_SWITCHED => relay;; requestMissingPoolTransactions conn
  | inl ADDED_TO_MAIN => relay
  | inl _ => mret tt
  | inr REJECTED_AS_ORPHANED => change conn (set_state state_synchronizing);; request_chain conn
  | inr _ => change conn (set_state state_shutdown)
  end.

Definition handle_notify_new_block (arg : NOTIFY_NEW_BLOCK_request) (conn : Z) : act World Z :=
  updateObservedHeight (nb_current_blockchain_height arg) conn;;
  change conn (set_remote_height (nb_current_blockchain_height arg));;
  context ← context conn;
  if negb (bool_decide (m_state context = state_normal)) then mret 1
  else
    result ← call_addRawBlock {| rb_block := blockTemplate (nb_block arg);
                                 rb_transactions := KvMessages.transactions (nb_block arg) |};
    block_announced result
      (relayBlock (NewBlock (nb_block arg) (nb_current_blockchain_height arg) (u32 (nb_hop arg + 1)))) conn;;
    mret 1.

(** [provided_txs]: a hash has the last transaction that was sent for it. *)
Fixpoint provide (missingTxs : list bytes) (provided_txs : gmap Hash bytes) : outcome (gmap Hash bytes) :=
  match missingTxs with
  | [] => Returns provided_txs
  | tx :: missingTxs =>
      match CachedTransaction_binary tx with
      | None => Raises (runtime_error "CachedTransaction")
      | Some _ => provide missingTxs (<[cn_fast_hash tx := tx]> provided_txs)
      end
  end.

(** [(have_txs, need_txs)] *)
Fixpoint sort_out (provided_txs : gmap Hash bytes) (transactionHashes : list Hash) (k : Core (P := P)) :
    option (list bytes * list Hash) :=
  match transactionHashes with
  | [] => Some ([], [])
  | h :: transactionHashes =>
      blob ← match provided_txs !! h with Some tx => Some (Some tx) | None => core_getTransaction cn_fast_hash h k end;
      '(have_txs, need_txs) ← sort_out provided_txs transactionHashes k;
      Some (match blob with Some tx => (tx :: have_txs, need_txs) | None => (have_txs, h :: need_txs) end)
  end.

Definition doPushLiteBlock (arg : NOTIFY_NEW_LITE_BLOCK_request) (conn : Z) (missingTxs : list bytes) : act World Z :=
  match fromBinaryArray (serialize_BlockTemplate cn_fast_hash) (lb_blockTemplate arg) with
  | None => change conn (set_state state_shutdown);; mret 1
  | Some newBlockTemplate =>
      provided_txs ← lift (provide missingTxs ∅);
      context ← context conn;
      let pending := m_pending_lite_block context in
      let missed := from_option missed_transactions ∅ pending in
      if negb (bool_decide (set_Forall (fun h => is_Some (provided_txs !! h)) missed)) then
        change conn (set_pending None);; change conn (set_state state_shutdown);; mret 1
      else
        k ← gets m_core;
        sorted ← or_undefined (sort_out provided_txs (transactionHashes newBlockTemplate) k);
        let '(have_txs, need_txs) := sorted in
        match need_txs with
        | [] =>
            change conn (set_pending None);;
            result ← call_addRawBlock {| rb_block := lb_blockTemplate arg; rb_transactions := have_txs |};
            let arg := NewLiteBlock (lb_blockTemplate arg) (lb_current_blockchain_height arg) (u32 (lb_hop arg + 1)) in
            block_announced result
              (relay_post_notify NOTIFY_NEW_LITE_BLOCK_ID new_lite_block_members arg (Some conn)) conn;;
            mret 1
        | _ =>
            match pending with
            | Some _ => change conn (set_pending None);; change conn (set_state state_shutdown);; mret 1
            | None =>
                b ← match CachedBlock_new E newBlockTemplate with
                    | Some b => mret b
                    | None => raise (runtime_error "getBlockHash")
                    end;
                let req := MissingTxs (getBlockHash b) (lb_current_blockchain_height arg) need_txs in
                change conn (set_pending (Some {| request := arg; missed_transactions := list_to_set need_txs |}));;
                sent ← post_notify NOTIFY_MISSING_TXS_ID missing_txs_members req conn;
                (if sent : bool then mret tt else change conn (set_state state_shutdown));;
                mret 1
            end
        end
  end.

Definition handle_notify_new_lite_block (arg : NOTIFY_NEW_LITE_BLOCK_request) (conn : Z) : act World Z :=
  updateObservedHeight (lb_current_blockchain_height arg) conn;;
  change conn (set_remote_height (lb_current_blockchain_height arg));;
  context ← context conn;
  if negb (bool_decide (m_state context = state_normal)) then mret 1 else doPushLiteBlock arg conn [].
(** The transactions that the pool took. *)
Fixpoint add_transactions (txs : list bytes) : act World (list bytes) :=
  match txs with
  | [] => mret []
  | tx :: txs =>
      added ← call_addTransactionToPool tx;
      rest ← add_transactions txs;
      mret (if added : bool then tx :: rest else rest)
  end.

Definition handle_notify_new_transactions (txs : list bytes) (conn : Z) : act World Z :=
  context ← context conn;
  if negb (bool_decide (m_state context = state_normal)) then mret 1
  else
    match m_pending_lite_block context with
    | Some pending => doPushLiteBlock (request pending) conn txs
    | None =>
        txs ← add_transactions txs;
        (if bool_decide (txs = []) then mret tt
         else relay_post_notify NOTIFY_NEW_TRANSACTIONS_ID new_transactions_members txs (Some conn));;
        mret 1
    end.

Definition handle_request_get_objects (arg : NOTIFY_REQUEST_GET_OBJECTS_request) (conn : Z) : act World Z :=
  k ← gets m_core;
  found ← or_undefined (getBlocks_by_hash (rq_blocks arg) k);
  let '(rawBlocks, missed_ids) := found in
  let rsp := ResponseGetObjects [] (convertRawBlocksToRawBlocksLegacy rawBlocks) missed_ids
               (u32 (core_getTopBlockIndex k + 1)) in
  post_notify NOTIFY_RESPONSE_GET_OBJECTS_ID response_get_objects_members rsp conn;;
  mret 1.

Definition drop_connection (conn : Z) : act World unit := change conn (set_state state_shutdown).
Definition make_idle (conn : Z) : act World unit :=
  change conn (set_state state_idle);; change conn (set_objects [] ∅).

(** The loop of [handle_response_get_objects] from [index] on; [None] is an
    early return. *)
Fixpoint check_objects (index : nat) (rawBlocks : list RawBlock) (conn : Z) : act World (option (list CachedBlock)) :=
  match rawBlocks with
  | [] => mret (Some [])
  | raw :: rawBlocks =>
      match fromBinaryArray (serialize_BlockTemplate cn_fast_hash) (rb_block raw) with
      | None => drop_connection conn;; mret None
      | Some blockTemplate =>
          match CachedBlock_new E blockTemplate with
          | None => raise (runtime_error "getBlockHash")
          | Some b =>
              known ← gets (fun w => core_hasBlock (getBlockHash b) (m_core w));
              if (index =? 1)%nat && known then make_idle conn;; mret None
              else
                context ← context conn;
                if negb (bool_decide (getBlockHash b ∈ m_requested_objects context)) then
                  drop_connection conn;; mret None
                else if negb (length (transactionHashes blockTemplate) =? length (rb_transactions raw))%nat then
                  drop_connection conn;; mret None
                else
                  change conn (set_objects (m_needed_objects context)
                                 (m_requested_objects context ∖ {[getBlockHash b]}));;
                  rest ← check_objects (S index) rawBlocks conn;
                  mret (cons b <$> rest)
          end
      end
  end.

Fixpoint processObjects (conn : Z) (blocks : list (CachedBlock * RawBlock)) : act World Z :=
  match blocks with
  | [] => mret 0
  | (b, raw) :: blocks =>
      stop ← gets m_stop;
      if stop : bool then mret 0
      else
        addResult ← call_addBlock b raw;
        match addResult with
        | inr _ => drop_connection conn;; mret 1
        | inl ALREADY_EXISTS => make_idle conn;; mret 1
        | inl _ => modify others;; processObjects conn blocks
        end
  end.

Definition handle_response_get_objects (arg : NOTIFY_RESPONSE_GET_OBJECTS_request) (conn : Z) : act World Z :=
  context0 ← context conn;
  if rs_current_blockchain_height arg <? m_last_response_height context0 then drop_connection conn;; mret 1
  else
    updateObservedHeight (rs_current_blockchain_height arg) conn;;
    change conn (set_remote_height (rs_current_blockchain_height arg));;
    let rawBlocks := convertRawBlocksLegacyToRawBlocks (rs_blocks arg) in
    checked ← check_objects 0 rawBlocks conn;
    match checked with
    | None => mret 1
    | Some cachedBlocks =>
        context1 ← context conn;
        if negb (bool_decide (m_requested_objects context1 = ∅)) then drop_connection conn;; mret 1
        else
          result ← processObjects conn (zip cachedBlocks rawBlocks);
          if negb (result =? 0) then mret result
          else
            stop ← gets m_stop;
            context2 ← context conn;
            (if negb stop && bool_decide (m_state context2 = state_synchronizing)
             then request_missing_objects conn true;; mret tt
             else mret tt);;
            mret 1
    end.

Definition handle_request_chain (block_ids : list Hash) (conn : Z) : act World Z :=
  match last block_ids with
  | None => drop_connection conn;; mret 1
  | Some back =>
      k ← gets m_core;
      genesis ← or_undefined (segment_getBlockHash 0 (main_chain k));
      if negb (bool_decide (back = genesis)) then drop_connection conn;; mret 1
      else
        match findBlockchainSupplement_hashes block_ids BLOCKS_IDS_SYNCHRONIZING_DEFAULT_COUNT k with
        | None => raise (runtime_error "Genesis block hash was not found.")
        | Some (total_height, start_height, m_block_ids) =>
            post_notify NOTIFY_RESPONSE_CHAIN_ENTRY_ID response_chain_entry_members
              (ResponseChainEntry start_height total_height m_block_ids) conn;;
            mret 1
        end
  end.

(** The ids from the first unknown one on. *)
Fixpoint unknown_part (have : Hash -> bool) (ids : list Hash) : list Hash :=
  match ids with
  | [] => []
  | h :: ids' => if have h then unknown_part have ids' else ids
  end.

Definition handle_response_chain_entry (arg : NOTIFY_RESPONSE_CHAIN_ENTRY_request) (conn : Z) : act World Z :=
  k ← gets m_core;
  match ce_m_block_ids arg with
  | [] => drop_connection conn;; mret 1
  | front :: _ =>
      if negb (core_hasBlock front k) then drop_connection conn;; mret 1
      else
        let last_response :=
          u32 (ce_start_height arg + u32 (Z.of_nat (length (ce_m_block_ids arg))) - 1) in
        change conn (set_remote_height (ce_total_height arg));;
        change conn (set_last_response last_response);;
        (if ce_total_height arg <? last_response then drop_connection conn else mret tt);;
        context ← context conn;
        change conn (set_objects
          (m_needed_objects context ++ unknown_part (fun h => core_hasBlock h k) (ce_m_block_ids arg))
          (m_requested_objects context));;
        request_missing_objects conn false;;
        mret 1
  end.

Definition handleRequestTxPool (txs : list Hash) (conn : Z) : act World Z :=
  k ← gets m_core;
  changes ← or_undefined (getPoolChanges hash_order txs k);
  (if bool_decide (changes.1 = []) then mret tt
   else post_notify NOTIFY_NEW_TRANSACTIONS_ID new_transactions_members changes.1 conn;; mret tt);;
  mret 1.

Definition handle_notify_missing_txs (arg : NOTIFY_MISSING_TXS_request) (conn : Z) : act World Z :=
  k ← gets m_core;
  found ← or_undefined (core_getTransactions cn_fast_hash (mt_missing_txs arg) k);
  let '(txs, missedHashes) := found in
  if negb (bool_decide (missedHashes = [])) then drop_connection conn;; mret 1
  else post_notify NOTIFY_NEW_TRANSACTIONS_ID new_transactions_members txs conn;; mret 1.

(** ** Commands *)

Definition notifyAdaptor {A} (ms : list (member A)) (initial : A) (reqBuf : bytes) (handler : A -> Z -> act World Z)
    (conn : Z) : act World Z :=
  req ← lift (decode ms reqBuf initial);
  match req with
  | None => raise (runtime_error "Failed to load_from_binary in command")
  | Some req => handler req conn
  end.

(** [(ret, handled)] *)
Definition payload_handleCommand (command : Z) (buf : bytes) (conn : Z) : act World (Z * bool) :=
  let handle {A} (ms : list (member A)) initial handler :=
    ret ← notifyAdaptor ms initial buf handler conn; mret (ret, true) in
  if command =? NOTIFY_NEW_BLOCK_ID then
    handle new_block_members (NewBlock (MkRawBlockLegacy [] []) 0 0) handle_notify_new_block
  else if command =? NOTIFY_NEW_TRANSACTIONS_ID then
    handle new_transactions_members [] handle_notify_new_transactions
  else if command =? NOTIFY_REQUEST_GET_OBJECTS_ID then
    handle request_get_objects_members (RequestGetObjects [] []) handle_request_get_objects
  else if command =? NOTIFY_RESPONSE_GET_OBJECTS_ID then
    handle response_get_objects_members (ResponseGetObjects [] [] [] 0) handle_response_get_objects
  else if command =? NOTIFY_REQUEST_CHAIN_ID then handle request_chain_members [] handle_request_chain
  else if command =? NOTIFY_RESPONSE_CHAIN_ENTRY_ID then
    handle response_chain_entry_members (ResponseChainEntry 0 0 []) handle_response_chain_entry
  else if command =? NOTIFY_REQUEST_TX_POOL_ID then handle request_tx_pool_members [] handleRequestTxPool
  else if command =? NOTIFY_NEW_LITE_BLOCK_ID then
    handle new_lite_block_members (NewLiteBlock [] 0 0) handle_notify_new_lite_block
  else if command =? NOTIFY_MISSING_TXS_ID then
    handle missing_txs_members (MissingTxs NULL_HASH 0 []) handle_notify_missing_txs
  else mret (0, false).
End Handler.

(** ** What the handlers may do

    The handlers change the core by its own operations only.  A relation that
    holds for those, and for what the other coroutines do, holds for the
    handlers. *)

Section Moves.
Variable E : Environment.
Context {P : Type} `{!ITransactionPool P}.
Variable hash_order : list Hash -> list Hash.
Variable others : World (P := P) -> World (P := P).
Abbreviation World := (World (P := P)).
Context (R : World -> World -> Prop) `{!Blind R}.
Context (R_raw_block : forall w raw, R w (called E hash_order (AddRawBlock (clock w) raw) w)).
Context (R_block : forall w b raw, R w (called E hash_order (AddBlock (clock w) b raw) w)).
Context (R_transaction : forall w tx, R w (called E hash_order (AddTransaction (clock w) tx) w)).
Context (R_others : forall w, R w (others w)).

Lemma moves_addBlock b raw : moves R (call_addBlock E hash_order b raw).
Proof.
  unfold call_addBlock. solve_moves. intros w. unfold with_core. specialize (R_block w b raw).
  unfold called, run_call in R_block. destruct (addBlock _ _ _ _ _ _). exact R_block.
Qed.

Lemma moves_addRawBlock raw : moves R (call_addRawBlock E hash_order raw).
Proof.
  unfold call_addRawBlock. solve_moves. intros w. unfold with_core. specialize (R_raw_block w raw).
  unfold called, run_call in R_raw_block. destruct (addRawBlock _ _ _ _ _). exact R_raw_block.
Qed.

Lemma moves_addTransaction tx : moves R (call_addTransactionToPool E tx).
Proof.
  intros w. unfold call_addTransactionToPool, with_core. specialize (R_transaction w tx).
  unfold called, run_call in R_transaction. destruct (addRawTransactionToPool _ _ _ _). exact R_transaction.
Qed.
Hint Resolve moves_addBlock moves_addRawBlock moves_addTransaction : moves.

Lemma moves_recalculate conn : moves R (recalculateMaxObservedHeight conn).
Proof. unfold recalculateMaxObservedHeight. solve_moves. Qed.
Hint Resolve moves_recalculate : moves.

Lemma moves_updateObservedHeight h conn : moves R (updateObservedHeight h conn).
Proof.
  unfold updateObservedHeight. solve_moves. apply moves_modify. intros w.
  destruct (_ <? _); [apply blind_heights|reflexivity].
Qed.
Hint Resolve moves_updateObservedHeight : moves.

Lemma moves_onConnectionClosed conn : moves R (onConnectionClosed conn).
Proof. unfold onConnectionClosed. solve_moves. Qed.

Lemma moves_request_chain conn : moves R (request_chain conn).
Proof. unfold request_chain. solve_moves. Qed.
Hint Resolve moves_request_chain : moves.

Lemma moves_start_sync conn : moves R (start_sync conn).
Proof. unfold start_sync. solve_moves. Qed.

Lemma moves_requestMissingPoolTransactions conn : moves R (requestMissingPoolTransactions conn).
Proof. unfold requestMissingPoolTransactions. solve_moves. Qed.
Hint Resolve moves_requestMissingPoolTransactions : moves.

Lemma moves_on_connection_synchronized : moves R on_connection_synchronized.
Proof. apply moves_modify. intros w. apply blind_synchronized. Qed.
Hint Resolve moves_on_connection_synchronized : moves.

Lemma moves_process_payload d conn b : moves R (process_payload_sync_data d conn b).
Proof. unfold process_payload_sync_data. solve_moves. Qed.

Lemma moves_get_payload : moves R get_payload_sync_data.
Proof. unfold get_payload_sync_data. solve_moves. Qed.

Lemma moves_request_missing_objects conn b : moves R (request_missing_objects conn b).
Proof. unfold request_missing_objects. solve_moves. Qed.
Hint Resolve moves_request_missing_objects : moves.

Lemma moves_relayBlock arg : moves R (relayBlock arg).
Proof. unfold relayBlock. solve_moves. Qed.

Lemma moves_relay_post {A} cmd (ms : list (member A)) arg c : moves R (relay_post_notify cmd ms arg c).
Proof. unfold relay_post_notify. solve_moves. Qed.
Hint Resolve moves_relayBlock moves_relay_post : moves.

Lemma moves_block_announced r relay conn : moves R relay -> moves R (block_announced r relay conn).
Proof. intros H. unfold block_announced. solve_moves. Qed.

Lemma moves_new_block arg conn : moves R (handle_notify_new_block E hash_order arg conn).
Proof. unfold handle_notify_new_block. solve_moves. apply moves_block_announced. solve_moves. Qed.

Lemma moves_doPushLiteBlock arg conn txs : moves R (doPushLiteBlock E hash_order arg conn txs).
Proof.
  unfold doPushLiteBlock. solve_moves; apply moves_block_announced; solve_moves.
Qed.
Hint Resolve moves_doPushLiteBlock : moves.

Lemma moves_new_lite_block arg conn : moves R (handle_notify_new_lite_block E hash_order arg conn).
Proof. unfold handle_notify_new_lite_block. solve_moves. Qed.

Lemma moves_add_transactions txs : moves R (add_transactions E txs).
Proof. induction txs; simpl; solve_moves. Qed.
Hint Resolve moves_add_transactions : moves.

Lemma moves_new_transactions txs conn : moves R (handle_notify_new_transactions E hash_order txs conn).
Proof. unfold handle_notify_new_transactions. solve_moves. Qed.

Lemma moves_request_get_objects arg conn : moves R (handle_request_get_objects arg conn).
Proof. unfold handle_request_get_objects. solve_moves. Qed.

Lemma moves_make_idle conn : moves R (make_idle conn).
Proof. unfold make_idle. solve_moves. Qed.

Lemma moves_drop_connection conn : moves R (drop_connection conn).
Proof. unfold drop_connection. eauto with moves. Qed.
Hint Resolve moves_make_idle moves_drop_connection : moves.

Lemma moves_check_objects i raws conn : moves R (check_objects E i raws conn).
Proof. revert i. induction raws; intros i; simpl; solve_moves. Qed.
Hint Resolve moves_check_objects : moves.

Lemma moves_processObjects conn blocks : moves R (processObjects E hash_order others conn blocks).
Proof.
  induction blocks as [|[b raw] blocks IH]; simpl; solve_moves; by apply moves_modify.
Qed.
Hint Resolve moves_processObjects : moves.

Lemma moves_response_get_objects arg conn : moves R (handle_response_get_objects E hash_order others arg conn).
Proof. unfold handle_response_get_objects. solve_moves. Qed.

Lemma moves_handle_request_chain ids conn : moves R (handle_request_chain ids conn).
Proof. unfold handle_request_chain. solve_moves. Qed.

Lemma moves_response_chain_entry arg conn : moves R (handle_response_chain_entry arg conn).
Proof. unfold handle_response_chain_entry. solve_moves. Qed.

Lemma moves_handleRequestTxPool txs conn : moves R (handleRequestTxPool hash_order txs conn).
Proof. unfold handleRequestTxPool. solve_moves. Qed.

Lemma moves_missing_txs arg conn : moves R (handle_notify_missing_txs E arg conn).
Proof. unfold handle_notify_missing_txs. solve_moves. Qed.
Hint Resolve moves_new_block moves_new_lite_block moves_new_transactions moves_request_get_objects
  moves_response_get_objects moves_handle_request_chain moves_response_chain_entry moves_handleRequestTxPool
  moves_missing_txs : moves.

Lemma moves_notifyAdaptor {A} (ms : list (member A)) initial b handler conn :
  (forall a c, moves R (handler a c)) -> moves R (notifyAdaptor ms initial b handler conn).
Proof. intros H. unfold notifyAdaptor. solve_moves. Qed.

Lemma moves_payload_handleCommand cmd b conn : moves R (payload_handleCommand E hash_order others cmd b conn).
Proof.
  unfold payload_handleCommand. solve_moves; apply moves_notifyAdaptor; eauto with moves.
Qed.
End Moves.
