(* ===== verification/NodeServer.v ===== *)
(** * The peer-to-peer node ([src/p2p/net_node.cpp])

    Handshakes, timed synchronization and pings, the turns of a connection, and
    the connections that the node opens itself.  [others] is what the other
    coroutines do while one of these waits; [ping_answer] is what a peer
    answers to the ping that checks its address. *)

From stdpp Require Import gmap fin_sets fin_maps.
From S2P Require Import Prelude Config Stream Serializer Transaction Block Cached Pool Currency PoolCleaner.
From S2P Require Import Segments Validation Core CoreQueries TxQueries KvBinary KvMessages Levin Peers World Protocol.
Import BlockchainCache.

Abbreviation COMMAND_HANDSHAKE_ID := 1001 (only parsing).
Abbreviation COMMAND_TIMED_SYNC_ID := 1002 (only parsing).
Abbreviation COMMAND_PING_ID := 1003 (only parsing).
Abbreviation P2P_CURRENT_VERSION := 5 (only parsing).
Abbreviation P2P_MINIMUM_VERSION := 4 (only parsing).
Abbreviation ERROR_CONNECTION_HANDLER_NOT_DEFINED := (-6) (only parsing).

(** What [NodeServer] is configured with. *)
Record NodeServer := {
  m_network_id : bytes;
  m_peer_id : Z;
  m_hide_my_port : bool;
  m_external_port : Z;
  m_listeningPort : Z
}.

Definition null_node_data : basic_node_data := MkNodeData (replicate 16 0) 0 0 0 0.
Definition null_sync_data : CORE_SYNC_DATA := MkSyncData 0 NULL_HASH.

Definition get_local_node_data (s : NodeServer) (now : Z) : basic_node_data :=
  MkNodeData (m_network_id s) P2P_CURRENT_VERSION (u64 now)
    (if m_hide_my_port s then 0 else if negb (m_external_port s =? 0) then m_external_port s else m_listeningPort s)
    (m_peer_id s).

Section Server.
Variable E : Environment.
Context {P : Type} `{!ITransactionPool P}.
Variable hash_order : list Hash -> list Hash.
Variable sort : list PeerlistEntry -> list PeerlistEntry.
Variable others : World (P := P) -> World (P := P).
Variable ping_answer : Z -> Z -> option ping_response.
Variable s : NodeServer.
Abbreviation World := (World (P := P)).

Definition with_peers (f : PeerlistManager -> PeerlistManager) : act World unit :=
  modify (fun w => set_peerlist (f (m_peerlist w)) w).

(** The head of the white list, with the default depth. *)
Definition peerlist_head : act World (list PeerlistEntry) := fun w =>
  let '(head, m) := get_peerlist_head sort [] P2P_DEFAULT_PEERS_IN_HANDSHAKE (m_peerlist w) in
  (Returns head, set_peerlist m w).

(** [false] where [handle_remote_peerlist] refuses the list. *)
Definition remote_peerlist (peerlist : list PeerlistEntry) (local_time : Z) : act World bool := fun w =>
  match handle_remote_peerlist sort (clock w) (i64 local_time) peerlist (m_peerlist w) with
  | Some m => (Returns true, set_peerlist m w)
  | None => (Returns false, w)
  end.

Definition just_seen (peer : Z) (context : CryptoNoteConnectionContext) : act World unit :=
  now ← gets clock;
  with_peers (set_peer_just_seen sort now peer (MkNetworkAddress (m_remote_ip context) (m_remote_port context))).

(** ** Handshakes *)

(** [NodeServer::handshake], with the response of the peer. *)
Definition handshake (rsp : handshake_response) (conn : Z) (just_take_peerlist : bool) : act World bool :=
  let node_data := hs_node_data rsp in
  change conn (set_version (KvMessages.version node_data));;
  if negb (bool_decide (network_id node_data = m_network_id s)) then mret false
  else if KvMessages.version node_data <? P2P_MINIMUM_VERSION then mret false
  else
    merged ← remote_peerlist (hs_local_peerlist rsp) (local_time node_data);
    if negb merged then mret false
    else if just_take_peerlist then mret true
    else
      processed ← process_payload_sync_data (hs_payload_data rsp) conn true;
      if negb processed then mret false
      else
        change conn (set_peerId (peer_id node_data));;
        context ← context conn;
        just_seen (peer_id node_data) context;;
        mret (negb (peer_id node_data =? m_peer_id s)).

(** A connection that has just been opened; its version has no value yet. *)
Definition new_connection (uninitialized_version ip port : Z) (income : bool) : P2pConnectionContext :=
  P2pContext (Context uninitialized_version ip port income state_befor_handshake None [] ∅ 0 0) 0 [] 0 false.

Definition open_connection (conn : Z) (c : P2pConnectionContext) : act World unit :=
  modify (fun w => set_connections (<[conn := c]> (m_connections w)) w).
Definition erase_connection (conn : Z) : act World unit :=
  modify (fun w => set_connections (delete conn (m_connections w)) w).

(** [try_to_connect_and_handshake_with_new_peer], when the peer has answered
    with [rsp].  The code puts the connection into the map after the handshake;
    before, no part of it is seen by others, as its [peerId] is zero. *)
Definition try_to_connect_and_handshake_with_new_peer (na : NetworkAddress) (rsp : handshake_response)
    (conn uninitialized_version : Z) (just_take_peerlist : bool) : act World bool :=
  open_connection conn (new_connection uninitialized_version (ip na) (port na) false);;
  ok ← handshake rsp conn just_take_peerlist;
  if negb ok then erase_connection conn;; mret false
  else if just_take_peerlist then erase_connection conn;; mret true
  else
    now ← gets clock;
    c ← p2p_context conn;
    with_peers (append_with_peer_white sort (MkPeerlistEntry na (peerId c) (u64 now)));;
    stop ← gets m_stop;
    if stop : bool then erase_connection conn;; raise (system_error 4) else mret true.

(** [acceptLoop]: a connection of a peer. *)
Definition acceptLoop (conn uninitialized_version host port : Z) : act World unit :=
  open_connection conn (new_connection uninitialized_version (hostToNetwork host) port true).

Definition try_ping (node_data : basic_node_data) (conn : Z) : act World bool :=
  if my_port node_data =? 0 then mret false
  else
    context ← context conn;
    m ← gets m_peerlist;
    if negb (is_ip_allowed m (m_remote_ip context)) then mret false
    else
      modify others;;
      mret (match ping_answer (m_remote_ip context) (u16 (my_port node_data)) with
            | None => false
            | Some rsp => bool_decide (pg_status rsp = str "OK") && (peer_id node_data =? pg_peer_id rsp)
            end).

Definition handle_handshake (arg : handshake_request) (conn : Z) : act World (Z * handshake_response) :=
  let refused := change conn (set_state state_shutdown);;
                 mret (1, HandshakeResponse null_node_data null_sync_data []) in
  let node_data := hq_node_data arg in
  change conn (set_version (KvMessages.version node_data));;
  c ← p2p_context conn;
  if negb (bool_decide (network_id node_data = m_network_id s)) then refused
  else if KvMessages.version node_data <? P2P_MINIMUM_VERSION then refused
  else if negb (m_is_income (base c)) then refused
  else if negb (peerId c =? 0) then refused
  else
    processed ← process_payload_sync_data (hq_payload_data arg) conn true;
    if negb processed then refused
    else
      change conn (set_peerId (peer_id node_data));;
      (if negb (peer_id node_data =? m_peer_id s) && negb (my_port node_data =? 0) then
         pinged ← try_ping node_data conn;
         if pinged : bool then
           now ← gets clock;
           with_peers (append_with_peer_white sort
             (MkPeerlistEntry (MkNetworkAddress (m_remote_ip (base c)) (my_port node_data)) (peer_id node_data) (u64 now)))
         else mret tt
       else mret tt);;
      head ← peerlist_head;
      now ← gets clock;
      payload ← get_payload_sync_data;
      mret (1, HandshakeResponse (get_local_node_data s now) payload head).

(** ** Timed synchronization and ping *)

Definition handle_timed_sync (arg : CORE_SYNC_DATA) (conn : Z) : act World (Z * timed_sync_response) :=
  processed ← process_payload_sync_data arg conn false;
  if negb processed then change conn (set_state state_shutdown);; mret (1, TimedSyncResponse 0 null_sync_data [])
  else
    now ← gets clock;
    head ← peerlist_head;
    payload ← get_payload_sync_data;
    mret (1, TimedSyncResponse (u64 now) payload head).

(** [rsp] has no value before it is decoded. *)
Definition handleTimedSyncResponse (uninitialized : timed_sync_response) (buf : bytes) (conn : Z) : act World bool :=
  decoded ← lift (decode timed_sync_response_members buf uninitialized);
  match decoded with
  | None => mret false
  | Some rsp =>
      merged ← remote_peerlist (ts_local_peerlist rsp) (ts_local_time rsp);
      if negb merged then mret false
      else
        c ← p2p_context conn;
        (if negb (m_is_income (base c)) then just_seen (peerId c) (base c) else mret tt);;
        process_payload_sync_data (ts_payload_data rsp) conn false
  end.

Definition handle_ping (_ : unit) (conn : Z) : act World (Z * ping_response) :=
  mret (1, PingResponse (str "OK") (m_peer_id s)).

Definition timedSync : act World unit :=
  payload ← get_payload_sync_data;
  cmdBuf ← lift (encode timed_sync_request_members payload);
  modify (fun w => set_connections (map_imap (fun _ conn =>
    Some (if negb (peerId conn =? 0)
             && (bool_decide (m_state conn = state_normal) || bool_decide (m_state conn = state_idle))
          then pushMessage (Message COMMAND COMMAND_TIMED_SYNC_ID cmdBuf 0) conn else conn)) (m_connections w)) w).

(** ** Commands *)

Definition invokeAdaptor {A B} (ms : list (member A)) (initial : A) (ms' : list (member B)) (reqBuf : bytes)
    (handler : A -> Z -> act World (Z * B)) (conn : Z) : act World (Z * bytes) :=
  req ← lift (decode ms reqBuf initial);
  match req with
  | None => raise (runtime_error "Failed to load_from_binary in command")
  | Some req =>
      r ← handler req conn;
      resBuf ← lift (encode ms' r.2);
      mret (r.1, resBuf)
  end.

(** [(ret, out, handled)] *)
Definition handleCommand (uninitialized : timed_sync_response) (cmd : Command) (conn : Z) : act World (Z * bytes * bool) :=
  if isResponse cmd && (command cmd =? COMMAND_TIMED_SYNC_ID) then
    ok ← handleTimedSyncResponse uninitialized (buf cmd) conn;
    (if ok : bool then mret tt else change conn (set_state state_shutdown));;
    mret (0, [], true)
  else if command cmd =? COMMAND_HANDSHAKE_ID then
    r ← invokeAdaptor handshake_request_members (HandshakeRequest null_node_data null_sync_data)
          handshake_response_members (buf cmd) handle_handshake conn; mret (r, true)
  else if command cmd =? COMMAND_TIMED_SYNC_ID then
    r ← invokeAdaptor timed_sync_request_members null_sync_data timed_sync_response_members (buf cmd)
          handle_timed_sync conn; mret (r, true)
  else if command cmd =? COMMAND_PING_ID then
    r ← invokeAdaptor ping_request_members tt ping_response_members (buf cmd) handle_ping conn; mret (r, true)
  else
    r ← payload_handleCommand E hash_order others (i32 (command cmd)) (buf cmd) conn; mret (r.1, [], r.2).

(** ** The turns of a connection: [connectionHandler] *)

(** Before the next command is read. *)
Definition begin_turn (conn : Z) : act World unit :=
  context ← context conn;
  if bool_decide (m_state context = state_sync_required) then
    change conn (set_state state_synchronizing);; start_sync conn;; mret tt
  else if bool_decide (m_state context = state_pool_sync_required) then
    change conn (set_state state_normal);; requestMissingPoolTransactions conn
  else mret tt.

(** A command was read; the result is whether the connection goes on. *)
Definition serve (uninitialized : timed_sync_response) (cmd : Command) (conn : Z) : act World bool :=
  r ← handleCommand uninitialized cmd conn;
  let '(retcode, response, handled) := r in
  (if needReply cmd then
     change conn (pushMessage
       (if handled : bool then Message REPLY (command cmd) response retcode
        else Message REPLY (command cmd) [] ERROR_CONNECTION_HANDLER_NOT_DEFINED))
   else mret tt);;
  context ← context conn;
  mret (negb (bool_decide (m_state context = state_shutdown))).

(** What follows the loop of [connectionHandler]. *)
Definition close_connection (conn : Z) : act World unit := onConnectionClosed conn;; erase_connection conn.

(** One command of the peer, an exception included, which ends the connection. *)
Definition turn (uninitialized : timed_sync_response) (cmd : Command) (conn : Z) : act World unit := fun w =>
  match serve uninitialized cmd conn w with
  | (Returns true, w) => (Returns tt, w)
  | (Returns false, w) | (Raises _, w) => close_connection conn w
  | (Undefined, w) => (Undefined, w)
  end.

(** ** Which peers to connect to *)

Definition is_peer_used (peer : PeerlistEntry) (w : World) : bool :=
  (m_peer_id s =? id peer) ||
  existsb (fun c : Z * P2pConnectionContext =>
    (peerId c.2 =? id peer) || negb (m_is_income c.2) && (ip (adr peer) =? m_remote_ip c.2)
                               && (port (adr peer) =? m_remote_port c.2)) (map_to_list (m_connections w)).

Definition is_addr_connected (peer : NetworkAddress) (w : World) : bool :=
  existsb (fun c : Z * P2pConnectionContext =>
    negb (m_is_income c.2) && (ip peer =? m_remote_ip c.2) && (port peer =? m_remote_port c.2))
    (map_to_list (m_connections w)).

Definition get_outgoing_connections_count (w : World) : nat :=
  length (filter (fun c : Z * P2pConnectionContext => m_is_income c.2 = false) (map_to_list (m_connections w))).
End Server.
