(* ===== verification/ProtocolSpec.v ===== *)
(** * What the chain protocol achieves

    Running the handlers step by step, and the first results: which blocks a
    command of a peer brings to the core.  They were asked for, or they were
    announced on a connection that is in [state_normal]. *)

From stdpp Require Import gmap fin_sets fin_maps.
From S2P Require Import Prelude Config Stream Serializer Transaction Block Cached Pool Currency PoolCleaner Checkpoints.
From S2P Require Import Segments ChainSpec Validation Core CoreSpec AddBlock CoreStart CoreQueries TxQueries Template.
From S2P Require Import KvBinary KvMessages Levin Peers World Protocol.
Import BlockchainCache.

(** ** Running actions *)

Lemma act_bind_returns {W A B} (m : act W A) (f : A -> act W B) w a w' :
  m w = (Returns a, w') -> (m ≫= f) w = f a w'.
Proof. intros H. unfold mbind, act_bind. by rewrite H. Qed.

Lemma act_bind_eq {W A B} (m : act W A) (f : A -> act W B) w :
  (m ≫= f) w = match m w with
               | (Returns a, w) => f a w
               | (Raises e, w) => (Raises e, w)
               | (Undefined, w) => (Undefined, w)
               end.
Proof. done. Qed.

Lemma act_bind_inv {W A B} (m : act W A) (f : A -> act W B) w b w' :
  (m ≫= f) w = (Returns b, w') -> exists a w1, m w = (Returns a, w1) /\ f a w1 = (Returns b, w').
Proof. unfold mbind, act_bind. destruct (m w) as [[a|e|] w1]; intros H; [by exists a, w1|done..]. Qed.

Section Spec.
Variable E : Environment.
Context {P : Type} `{!ITransactionPool P}.
Variable hash_order : list Hash -> list Hash.
Abbreviation World := (World (P := P)).
Abbreviation Core := (Core (P := P)).
Abbreviation cn_fast_hash := (Core.cn_fast_hash E).
Implicit Types (w : World) (c : P2pConnectionContext).

Lemma run_context w conn c : m_connections w !! conn = Some c -> context conn w = (Returns (base c), w).
Proof. intros H. unfold context. by rewrite H. Qed.

Lemma run_change w conn f :
  change conn f w = (Returns tt, set_connections (alter f conn (m_connections w)) w).
Proof. done. Qed.

Lemma change_lookup w conn f c :
  m_connections w !! conn = Some c ->
  m_connections (set_connections (alter f conn (m_connections w)) w) !! conn = Some (f c).
Proof. intros H. simpl. by rewrite lookup_alter_eq, H. Qed.

Lemma run_post_notify {A} cmd (ms : list (member A)) arg conn w c buf :
  m_connections w !! conn = Some c -> encode ms arg = Returns buf ->
  post_notify cmd ms arg conn w =
    (Returns true, set_connections (alter (pushMessage (Message NOTIFY cmd buf 0)) conn (m_connections w)) w).
Proof.
  intros Hc Hb. unfold post_notify, invoke_notify_to_peer. rewrite Hb.
  rewrite (act_bind_returns (lift (Returns buf)) _ _ _ _ eq_refl).
  rewrite (act_bind_returns (gets _) _ _ _ _ eq_refl), (act_bind_returns _ _ _ _ _ (run_change _ _ _)).
  by rewrite bool_decide_eq_true_2 by (by eexists).
Qed.

Lemma push_base msg c : base (pushMessage msg c) = base c.
Proof. unfold pushMessage. by destruct (_ <? _). Qed.

(** ** Only what was asked for *)

(** The block of a message, as [check_objects] accepts it. *)
Definition sent_as (b : CachedBlock) (raw : RawBlock) : Prop :=
  fromBinaryArray (serialize_BlockTemplate cn_fast_hash) (rb_block raw) = Some (getBlock b) /\
  CachedBlock_new E (getBlock b) = Some b /\
  length (transactionHashes (getBlock b)) = length (rb_transactions raw).

Lemma CachedBlock_new_block t b : CachedBlock_new E t = Some b -> getBlock b = t.
Proof. unfold CachedBlock_new. destruct (Block.getBlockHash _ t); [|done]. by intros [= <-]. Qed.

Lemma check_objects_accepts i raws conn w c bs w' :
  m_connections w !! conn = Some c -> check_objects E i raws conn w = (Returns (Some bs), w') ->
  Forall2 sent_as bs raws /\ NoDup (map getBlockHash bs) /\
  list_to_set (map getBlockHash bs) ⊆ m_requested_objects c /\
  m_core w' = m_core w /\ clock w' = clock w /\ m_stop w' = m_stop w /\
  exists c' : P2pConnectionContext, m_connections w' !! conn = Some c' /\ m_state c' = m_state c /\
    m_requested_objects c' = m_requested_objects c ∖ list_to_set (map getBlockHash bs).
Proof.
  revert i w c bs. induction raws as [|raw raws IH]; intros i w c bs Hc H; simpl in H.
  { injection H as <- <-. split; [constructor|]. split; [apply NoDup_nil_2|]. split; [set_solver|].
    split_and!; [done..|]. exists c. split_and!; [done|done|set_solver]. }
  destruct (fromBinaryArray _ _) as [t|] eqn:Et; [|done]. destruct (CachedBlock_new E t) as [b|] eqn:Eb; [|done].
  pose proof (CachedBlock_new_block _ _ Eb) as Ht. subst t.
  apply act_bind_inv in H as (known & w1 & [= <- <-] & H). destruct (_ && _); [done|].
  rewrite (act_bind_returns _ _ _ _ _ (run_context w conn c Hc)) in H.
  case_bool_decide as Hreq; [|done]. simpl in H.
  destruct (Nat.eqb_spec (length (transactionHashes (getBlock b))) (length (rb_transactions raw))) as [Hl|]; [|done].
  simpl in H. rewrite (act_bind_returns _ _ _ _ _ (run_change _ _ _)) in H.
  apply act_bind_inv in H as (rest & w2 & Hrest & [= Hbs <-]). destruct rest as [rest|]; [|done].
  injection Hbs as <-. apply (IH _ _ _ _ (change_lookup _ _ _ _ Hc)) in Hrest
    as (HF & Hd & Hsub & Hk & Hclk & Hst & c' & Hc' & Hs' & Hr').
  simpl in *. split_and!; [by constructor| |set_solver|done..|].
  - apply NoDup_cons. split; [|done]. intros Hin. assert (getBlockHash b ∈ (list_to_set (map getBlockHash rest) : gset Hash)) by
      (by apply elem_of_list_to_set). set_solver.
  - exists c'. split_and!; [done|done|]. rewrite Hr'. set_solver.
Qed.

(** The parts of the handlers that do not call the core. *)
Definition quiet (w w' : World) : Prop :=
  m_core w' = m_core w /\ clock w' = clock w /\ m_stop w' = m_stop w /\ m_calls w' = m_calls w.

#[global] Instance quiet_blind : Blind quiet.
Proof.
  split; [|done..]. split; [done|]. intros w1 w2 w3 (H1 & H2 & H3 & H4) (G1 & G2 & G3 & G4). repeat split; congruence.
Qed.

(** The calls of the core between two states are of the kind [Q]. *)
Definition calls_of (Q : core_call -> Prop) (w w' : World) : Prop :=
  exists calls, m_calls w' = m_calls w ++ calls /\ Forall Q calls.

#[global] Instance calls_of_blind Q : Blind (calls_of Q).
Proof.
  split; [|intros; exists []; by rewrite app_nil_r..]. split; [intros w; exists []; by rewrite app_nil_r|].
  intros w1 w2 w3 (l & Hl & HQ) (l' & Hl' & HQ'). exists (l ++ l'). by rewrite Hl', Hl, app_assoc, Forall_app.
Qed.

Lemma calls_of_called (Q : core_call -> Prop) call w : Q call -> calls_of Q w (called E hash_order call w).
Proof. intros H. exists [call]. by rewrite Forall_singleton. Qed.

Lemma calls_of_weaken (Q Q' : core_call -> Prop) w w' : (forall call, Q call -> Q' call) -> calls_of Q w w' -> calls_of Q' w w'.
Proof. intros H (l & Hl & HQ). exists l. split; [done|]. by eapply Forall_impl. Qed.

Lemma quiet_calls Q w w' : quiet w w' -> calls_of Q w w'.
Proof. intros (_ & _ & _ & H). exists []. by rewrite app_nil_r. Qed.

Definition add_to (now : Z) (k : Core) (block : CachedBlock * RawBlock) : Core :=
  (addBlock E hash_order now block.1 block.2 k).2.

(** The blocks go to the core one after the other; the other coroutines run
    behind each, but behind the last only when the core took it. *)
Inductive feeds (others : World -> World) : World -> list (CachedBlock * RawBlock) -> World -> Prop :=
| feeds_none w : feeds others w [] w
| feeds_last x w : feeds others w [x] (called E hash_order (AddBlock (clock w) x.1 x.2) w)
| feeds_next x blocks w w' :
    feeds others (others (called E hash_order (AddBlock (clock w) x.1 x.2) w)) blocks w' ->
    feeds others w (x :: blocks) w'.

(** When nothing else runs, the core gets them all. *)
Lemma feeds_alone w blocks w' : feeds (fun w => w) w blocks w' ->
  m_core w' = foldl (add_to (clock w)) (m_core w) blocks.
Proof. by induction 1. Qed.

Lemma processObjects_feeds others conn blocks w :
  exists n w', feeds others w (take n blocks) w' /\ quiet w' (processObjects E hash_order others conn blocks w).2.
Proof.
  revert w. induction blocks as [|[b raw] blocks IH]; intros w; [exists 0%nat, w; split; [constructor|done]|].
  cbn [processObjects]. rewrite (act_bind_returns (gets m_stop) _ _ _ _ eq_refl).
  destruct (m_stop w); [exists 0%nat, w; split; [constructor|done]|].
  set (w1 := called E hash_order (AddBlock (clock w) b raw) w).
  assert (exists o, call_addBlock E hash_order b raw w = (o, w1)) as [o Ho].
  { unfold call_addBlock, w1, called, run_call. rewrite act_bind_eq. unfold with_core.
    destruct (addBlock _ _ _ _ _ _) as [r k]. by exists (core_result r). }
  assert (forall m : act World Z, moves quiet m -> exists n w',
    feeds others w (take n ((b, raw) :: blocks)) w' /\ quiet w' (m w1).2) as Hstop.
  { intros m Hm. exists 1%nat, w1. split; [apply feeds_last|apply Hm]. }
  rewrite act_bind_eq, Ho. destruct o as [[code|e]|e|]; [|apply Hstop; solve_moves|by apply (Hstop (fun w => (_, w)))..].
  assert (exists n w', feeds others w (take n ((b, raw) :: blocks)) w' /\
    quiet w' ((modify others;; processObjects E hash_order others conn blocks) w1).2) as Hgo.
  { destruct (IH (others w1)) as (n & w' & Hf & Hq). exists (S n), w'. split; [by apply feeds_next|exact Hq]. }
  destruct code; [exact Hgo..|]. apply Hstop. solve_moves.
Qed.

Lemma set_heights_twice a b a' b' w : set_heights a b (set_heights a' b' w) = set_heights a b w.
Proof. done. Qed.

Lemma set_heights_id w : set_heights (m_observedHeight w) (m_blockchainHeight w) w = w.
Proof. by destruct w. Qed.

Lemma run_recalculate conn w c : m_connections w !! conn = Some c ->
  exists a, recalculateMaxObservedHeight conn w = (Returns tt, set_heights a (m_blockchainHeight w) w).
Proof.
  intros Hc. unfold recalculateMaxObservedHeight. rewrite (act_bind_returns _ _ _ _ _ (run_context w conn c Hc)).
  eexists. reflexivity.
Qed.

Lemma run_updateObservedHeight h conn w c : m_connections w !! conn = Some c ->
  exists a b, updateObservedHeight h conn w = (Returns tt, set_heights a b w).
Proof.
  intros Hc. unfold updateObservedHeight. rewrite (act_bind_returns _ _ _ _ _ (run_context w conn c Hc)).
  cbv zeta. rewrite (act_bind_returns (gets m_observedHeight) _ _ _ _ eq_refl).
  match goal with |- context [mbind _ ?m w] => assert (exists a, m w = (Returns tt, set_heights a (m_blockchainHeight w) w)) as [a Ha] end.
  { destruct (_ && _); [by eexists|]. destruct (_ <? _); [by eexists|].
    destruct (_ && _); [by eapply run_recalculate|]. exists (m_observedHeight w). by rewrite set_heights_id. }
  rewrite (act_bind_returns _ _ _ _ _ Ha). unfold modify. simpl m_blockchainHeight.
  destruct (m_blockchainHeight w <? h); eexists _, _; reflexivity.
Qed.

Lemma response_feeds others arg conn w c :
  m_connections w !! conn = Some c ->
  let w' := (handle_response_get_objects E hash_order others arg conn w).2 in
  quiet w w' \/
  exists blocks n w1 w2, Forall2 sent_as blocks (convertRawBlocksLegacyToRawBlocks (rs_blocks arg)) /\
    NoDup (map getBlockHash blocks) /\ list_to_set (map getBlockHash blocks) = m_requested_objects c /\
    quiet w w1 /\ quiet w2 w' /\
    feeds others w1 (take n (zip blocks (convertRawBlocksLegacyToRawBlocks (rs_blocks arg)))) w2.
Proof.
  intros Hc w'. subst w'. unfold handle_response_get_objects. set (raws := convertRawBlocksLegacyToRawBlocks _).
  rewrite (act_bind_returns _ _ _ _ _ (run_context w conn c Hc)). destruct (_ <? _); [by left|].
  destruct (run_updateObservedHeight (rs_current_blockchain_height arg) conn w c Hc) as (a & b & Ha).
  rewrite (act_bind_returns _ _ _ _ _ Ha), (act_bind_returns _ _ _ _ _ (run_change _ _ _)).
  set (w1 := set_connections _ _). assert (quiet w w1) as Hq1 by done.
  assert (m_connections w1 !! conn = Some (set_remote_height (rs_current_blockchain_height arg) c)) as Hc1
    by (by apply change_lookup).
  cbv zeta. pose proof (moves_check_objects E quiet 0 raws conn w1) as Hq2.
  rewrite act_bind_eq. destruct (check_objects E 0 raws conn w1) as [[[bs|]|e|] w2] eqn:Ec; simpl in Hq2.
  2-4: left; by etransitivity.
  destruct (check_objects_accepts _ _ _ _ _ _ _ Hc1 Ec) as (HF & Hd & Hsub & Hk & Hclk & Hst & c2 & Hc2 & Hs2 & Hr2).
  simpl in Hsub, Hr2. rewrite (act_bind_returns _ _ _ _ _ (run_context w2 conn c2 Hc2)).
  case_bool_decide as He; [|left; transitivity w2; [by etransitivity|done]]. simpl. right.
  destruct (processObjects_feeds others conn (zip bs raws) w2) as (n & w3 & Hf & Hq3).
  exists bs, n, w2, w3. split; [done|]. split; [done|]. split.
  { apply (anti_symm (⊆)); [done|]. rewrite Hr2 in He. by apply empty_difference_subseteq_L. }
  split; [by etransitivity|]. split; [|done]. etransitivity; [exact Hq3|]. rewrite act_bind_eq.
  destruct (processObjects _ _ _ _ _ w2) as [[r|e|] w4]; [|done..]. destruct (negb _); [done|].
  match goal with |- quiet _ (?m _).2 => assert (moves quiet m) as Hm end; [|exact (Hm w4)].
  solve_moves. apply moves_request_missing_objects. apply _.
Qed.

Lemma feeds_calls (Q : core_call -> Prop) others w blocks w' : feeds others w blocks w' ->
  (forall w, calls_of Q w (others w)) -> Forall (fun x => forall now, Q (AddBlock now x.1 x.2)) blocks -> calls_of Q w w'.
Proof.
  intros Hf Ho. induction Hf as [w|x w|x blocks w w' _ IH]; intros HF; [reflexivity| |].
  - apply calls_of_called. inversion HF; subst. eauto.
  - apply Forall_cons in HF as [Hx HF]. etransitivity; [by apply calls_of_called|]. etransitivity; [apply Ho|by apply IH].
Qed.

(** The commands that announce something: a block, a block without its
    transactions, or transactions, which complete such a block. *)
Definition announces (command : Z) : bool :=
  (command =? NOTIFY_NEW_BLOCK_ID) || (command =? NOTIFY_NEW_LITE_BLOCK_ID) || (command =? NOTIFY_NEW_TRANSACTIONS_ID).

(** What a command may hand to the core for the connection [c]. *)
Definition admitted (command : Z) c (call : core_call) : Prop :=
  match call with
  | AddBlock _ b raw =>
      command = NOTIFY_RESPONSE_GET_OBJECTS_ID /\ sent_as b raw /\ getBlockHash b ∈ m_requested_objects c
  | AddRawBlock _ _ => announces command = true /\ m_state c = state_normal
  | AddTransaction _ _ => command = NOTIFY_NEW_TRANSACTIONS_ID /\ m_state c = state_normal
  end.

(** The connection as [handle_notify_new_block] and its likes see it. *)
Lemma run_height h conn w c (m : CryptoNoteConnectionContext -> act World Z) : m_connections w !! conn = Some c ->
  exists w0, quiet w w0 /\
    (updateObservedHeight h conn;; change conn (set_remote_height h);; context ← context conn; m context) w =
      m (base (set_remote_height h c)) w0.
Proof.
  intros Hc. destruct (run_updateObservedHeight h conn w c Hc) as (a & b & Ha).
  exists (set_connections (alter (set_remote_height h) conn (m_connections w)) (set_heights a b w)). split; [done|].
  rewrite (act_bind_returns _ _ _ _ _ Ha), (act_bind_returns _ _ _ _ _ (run_change _ _ _)).
  by rewrite (act_bind_returns _ _ _ _ _ (run_context _ conn _ (change_lookup (set_heights a b w) conn _ c Hc))).
Qed.

Section Reach.
Variables (others : World -> World) (Q : core_call -> Prop).
Hypothesis others_calls : forall w, calls_of Q w (others w).
Variables (conn : Z) (w : World) (c : P2pConnectionContext).
Hypothesis Hc : m_connections w !! conn = Some c.
Abbreviation reached command := (calls_of (fun call => Q call \/ admitted command c call)).

Lemma reach_new_block arg : reached NOTIFY_NEW_BLOCK_ID w (handle_notify_new_block E hash_order arg conn w).2.
Proof.
  unfold handle_notify_new_block. edestruct (run_height (nb_current_blockchain_height arg) conn w c) as (w0 & Hq & ->); [done|].
  etransitivity; [by apply quiet_calls|]. cbn [m_state base set_remote_height on_base].
  case_bool_decide as Hs; [|reflexivity]. cbn [negb].
  match goal with |- calls_of _ _ (?m _).2 => enough (moves (reached NOTIFY_NEW_BLOCK_ID) m) as Hm by exact (Hm w0) end.
  solve_moves; [|apply moves_block_announced; [apply _|]; apply moves_relayBlock; apply _].
  apply moves_addRawBlock; [apply _|]. intros w1 raw. apply calls_of_called. right. done.
Qed.

Lemma reach_lite command arg txs : announces command = true -> m_state c = state_normal ->
  moves (reached command) (doPushLiteBlock E hash_order arg conn txs).
Proof.
  intros Hcmd Hs. apply moves_doPushLiteBlock; [apply _|]. intros w1 raw. apply calls_of_called. right. done.
Qed.

Lemma reach_new_lite_block arg : reached NOTIFY_NEW_LITE_BLOCK_ID w (handle_notify_new_lite_block E hash_order arg conn w).2.
Proof.
  unfold handle_notify_new_lite_block. edestruct (run_height (lb_current_blockchain_height arg) conn w c) as (w0 & Hq & ->); [done|].
  etransitivity; [by apply quiet_calls|]. cbn [m_state base set_remote_height on_base].
  case_bool_decide as Hs; [|reflexivity]. cbn [negb]. by apply reach_lite.
Qed.

Lemma reach_new_transactions txs :
  reached NOTIFY_NEW_TRANSACTIONS_ID w (handle_notify_new_transactions E hash_order txs conn w).2.
Proof.
  unfold handle_notify_new_transactions. rewrite (act_bind_returns _ _ _ _ _ (run_context w conn c Hc)).
  case_bool_decide as Hs; [|reflexivity]. cbn [negb]. destruct (m_pending_lite_block _); [by apply reach_lite|].
  match goal with |- calls_of _ _ (?m _).2 => enough (moves (reached NOTIFY_NEW_TRANSACTIONS_ID) m) as Hm by exact (Hm w) end.
  solve_moves; [|apply moves_relay_post; apply _].
  apply moves_add_transactions with (hash_order := hash_order); [apply _|]. intros w1 tx. apply calls_of_called. right. done.
Qed.

Lemma reach_response arg :
  reached NOTIFY_RESPONSE_GET_OBJECTS_ID w (handle_response_get_objects E hash_order others arg conn w).2.
Proof.
  destruct (response_feeds others arg conn w c Hc) as [Hq|(blocks & n & w1 & w2 & HF & _ & Hset & Hq1 & Hq2 & Hf)];
    [by apply quiet_calls|].
  etransitivity; [by apply quiet_calls|]. etransitivity; [|by apply quiet_calls].
  eapply feeds_calls; [exact Hf| |].
  { intros w0. eapply calls_of_weaken; [|apply others_calls]. by left. }
  apply Forall_take, Forall_forall. intros [b raw] Hin now. right. split; [done|]. simpl.
  apply list_elem_of_lookup in Hin as [i [Hb Hr]%lookup_zip_Some]. split; [by eapply Forall2_lookup_lr|].
  rewrite <- Hset. apply elem_of_list_to_set, list_elem_of_fmap_2. by eapply list_elem_of_lookup_2.
Qed.

Lemma reach_adaptor {A} command (ms : list (member A)) initial buf handler :
  (forall a, reached command w (handler a conn w).2) ->
  reached command w (notifyAdaptor ms initial buf handler conn w).2.
Proof.
  intros H. unfold notifyAdaptor. rewrite act_bind_eq. destruct (decode ms buf initial) as [[a|]|e|]; [apply H|reflexivity..].
Qed.
End Reach.

(** What a command hands to the core, whatever its bytes are. *)
Lemma command_calls others (Q : core_call -> Prop) command buf conn w c :
  m_connections w !! conn = Some c -> (forall w, calls_of Q w (others w)) ->
  calls_of (fun call => Q call \/ admitted command c call) w
    (payload_handleCommand E hash_order others command buf conn w).2.
Proof.
  intros Hc Ho. unfold payload_handleCommand. cbv zeta.
  repeat match goal with
         | |- context [if ?x =? ?y then _ else _] => destruct (Z.eqb_spec x y) as [->|_]
         end; try reflexivity;
    rewrite act_bind_eq;
    match goal with |- calls_of ?R _ _ => set (R0 := R) end;
    match goal with |- context [notifyAdaptor ?ms ?i ?b ?h ?conn w] =>
      enough (calls_of R0 w (notifyAdaptor ms i b h conn w).2) as H;
        [destruct (notifyAdaptor ms i b h conn w) as [[]]; exact H|apply reach_adaptor]
    end; intros a; subst R0.
  - by apply reach_new_block.
  - by apply reach_new_transactions.
  - apply moves_request_get_objects. apply _.
  - by apply reach_response.
  - apply moves_handle_request_chain. apply _.
  - apply moves_response_chain_entry. apply _.
  - apply moves_handleRequestTxPool. apply _.
  - by apply reach_new_lite_block.
  - apply moves_missing_txs. apply _.
Qed.

(** C11. Which blocks a peer can bring to the core.  When it answers a request
    for blocks, either the core is left alone, or the peer has sent exactly the
    blocks that were requested from it, each once, well formed and with as many
    transactions as they name, and the handler hands these blocks, or the first
    of them, to the core in the order in which they were sent.  Blocks that
    nobody asked for reach the core only when they are announced, complete or as
    a lite block that is completed, while the connection is in [state_normal],
    and so do transactions: besides the calls that other coroutines make while
    it waits, a command hands nothing else to the core, whatever its bytes are. *)
Theorem response_adds_requested others (Q : core_call -> Prop) conn w c :
  m_connections w !! conn = Some c -> (forall w, calls_of Q w (others w)) ->
  (forall arg, let w' := (handle_response_get_objects E hash_order others arg conn w).2 in
    quiet w w' \/
    exists blocks n w1 w2, Forall2 sent_as blocks (convertRawBlocksLegacyToRawBlocks (rs_blocks arg)) /\
      NoDup (map getBlockHash blocks) /\ list_to_set (map getBlockHash blocks) = m_requested_objects c /\
      quiet w w1 /\ quiet w2 w' /\
      feeds others w1 (take n (zip blocks (convertRawBlocksLegacyToRawBlocks (rs_blocks arg)))) w2) /\
  (forall command buf, calls_of (fun call => Q call \/ admitted command c call) w
    (payload_handleCommand E hash_order others command buf conn w).2).
Proof. intros Hc Ho. split; intros; [by apply response_feeds|by apply command_calls]. Qed.
End Spec.

(** ** A run *)

#[local] Existing Instance run_pool.

(** A block behind the sample chain, as it is sent. *)
Definition next_template : BlockTemplate :=
  {| header := {| majorVersion := 1; minorVersion := 0; nonce := 0; timestamp := 40; previousBlockHash := replicate 32 3 |};
     parentBlock := no_parent; baseTransaction := baseTransaction (getBlock (block_at 3 0 0)); transactionHashes := [] |}.
Definition next_raw : RawBlock :=
  {| rb_block := default [] (toBinaryArray (serialize_BlockTemplate sum_key) next_template); rb_transactions := [] |}.
Definition next_block : CachedBlock := default (block_at 0 0 0) (CachedBlock_new template_environment next_template).
Definition next_core : Core (P := TransactionPool (C := list PendingTransactionInfo)) :=
  add_to template_environment (fun l => l) 100 sample_core (next_block, next_raw).

Lemma next_sent : sent_as template_environment next_block next_raw.
Proof. split; [vm_compute; reflexivity|]. split; vm_compute; reflexivity. Qed.

Lemma sample_core_template_wf : core_wf template_environment sample_core.
Proof.
  apply sample_core_wf_in. split.
  - intros [|[|[|j]]] info; intros [= <-]; do 2 eexists; (split; [reflexivity|]); (split; [vm_compute; reflexivity|reflexivity]).
  - evaluate.
  - evaluate.
Qed.

Lemma next_room : room template_environment next_block next_raw sample_core.
Proof.
  apply (sample_room_in _ _ _ (block_base 3 0 0) [] 0); [constructor|vm_compute; reflexivity|vm_compute; reflexivity|vm_compute; lia|].
  intros l r d. destruct l as [|? [|? [|? [|? ?]]]]; intros [=]; subst; intros Hd; vm_compute in Hd; injection Hd as <-; reflexivity.
Qed.

(** A node with one connection. *)
Definition sample_context (s : state) (requested : gset Hash) : P2pConnectionContext :=
  P2pContext (Context 4 77 11897 false s None [] requested 4 3) 9 [] 0 false.
Definition sample_world (k : Core (P := TransactionPool (C := list PendingTransactionInfo))) (c : P2pConnectionContext) :
    World (P := TransactionPool (C := list PendingTransactionInfo)) :=
  MkWorld k {[ 1 := c ]} false false 4 4 1 (Manager false [] []) [] 100 [].

Definition sample_response : NOTIFY_RESPONSE_GET_OBJECTS_request :=
  ResponseGetObjects [] (convertRawBlocksToRawBlocksLegacy [next_raw]) [] 4.
Definition asking_world : World (P := TransactionPool (C := list PendingTransactionInfo)) :=
  sample_world sample_core (sample_context state_synchronizing {[ getBlockHash next_block ]}).

Definition announcing_world : World (P := TransactionPool (C := list PendingTransactionInfo)) :=
  sample_world sample_core (sample_context state_normal ∅).
Definition announcement : bytes :=
  match encode new_block_members (NewBlock (MkRawBlockLegacy (rb_block next_raw) []) 4 0) with Returns buf => buf | _ => [] end.

(** The block is taken when it was requested; on another connection it is taken
    when it is announced. *)
Lemma response_adds_requested_witness :
  let w' := (handle_response_get_objects template_environment (fun l => l) (fun w => w) sample_response 1 asking_world).2 in
  let v' := (payload_handleCommand template_environment (fun l => l) (fun w => w) NOTIFY_NEW_BLOCK_ID announcement 1 announcing_world).2 in
  m_calls w' = [AddBlock 100 next_block next_raw] /\ m_calls v' = [AddRawBlock 100 next_raw] /\
  length (main_blocks (m_core w')) = 4%nat /\
  (quiet asking_world w' \/
   exists blocks n w1 w2, Forall2 (sent_as template_environment) blocks [next_raw] /\ NoDup (map getBlockHash blocks) /\
     list_to_set (map getBlockHash blocks) =@{gset Hash} {[ getBlockHash next_block ]} /\
     quiet asking_world w1 /\ quiet w2 w' /\
     feeds template_environment (fun l => l) (fun w => w) w1 (take n (zip blocks [next_raw])) w2) /\
  calls_of (fun call => False \/ admitted template_environment NOTIFY_NEW_BLOCK_ID (sample_context state_normal ∅) call)
    announcing_world v'.
Proof.
  assert (forall w : World (P := TransactionPool (C := list PendingTransactionInfo)), calls_of (fun _ => False) w w) as Hid by (intros w; reflexivity).
  split; [vm_compute; reflexivity|]. split; [vm_compute; reflexivity|]. split; [vm_compute; reflexivity|]. split.
  - exact (proj1 (response_adds_requested template_environment (fun l => l) (fun w => w) (fun _ => False) 1 asking_world
      (sample_context state_synchronizing {[ getBlockHash next_block ]}) eq_refl Hid) sample_response).
  - exact (proj2 (response_adds_requested template_environment (fun l => l) (fun w => w) (fun _ => False) 1 announcing_world
      (sample_context state_normal ∅) eq_refl Hid) NOTIFY_NEW_BLOCK_ID announcement).
Defined.
