(* ===== verification/NodeRun.v ===== *)
(** * Runs of the node

    The steps of the peer-to-peer node in any order: connections come and go,
    commands arrive, relayed notifications and timed synchronization are
    queued, queues are written.  While a command waits, other coroutines take
    such steps too.  Whatever the peers send, the node changes its core by the
    calls of its history only, and its peer lists by their operations. *)

From stdpp Require Import gmap fin_sets fin_maps relations sorting.
From S2P Require Import Prelude Config Stream Serializer Transaction Block Cached Pool Currency PoolCleaner Checkpoints.
From S2P Require Import Segments ChainSpec Validation Core CoreSpec AddBlock CoreStart CoreQueries TxQueries Template.
From S2P Require Import KvBinary KvMessages Levin Peers World Protocol NodeServer ProtocolSpec.
Import BlockchainCache.

Section Run.
Variable E : Environment.
Context {P : Type} `{!ITransactionPool P}.
Variable hash_order : list Hash -> list Hash.
Variable sort : list PeerlistEntry -> list PeerlistEntry.
Variable s : NodeServer.
Abbreviation World := (World (P := P)).
Abbreviation Core := (Core (P := P)).

(** ** Traces *)

(** What the core and the peer lists went through.  The calls of the core are
    the ones that the history has more. *)
Definition core_trace (w w' : World) : Prop := exists calls,
  m_calls w' = m_calls w ++ calls /\ m_core w' = foldl (run_call E hash_order) (m_core w) calls.
Definition peers_trace (w w' : World) : Prop :=
  exists ops, m_peerlist w' = foldl (fun m op => run_op sort op m) (m_peerlist w) ops.
Definition trace (w w' : World) : Prop := core_trace w w' /\ peers_trace w w'.

Lemma trace_same w w' : m_core w' = m_core w -> m_calls w' = m_calls w -> m_peerlist w' = m_peerlist w -> trace w w'.
Proof. intros Hk Hc Hm. split; exists []; [by rewrite app_nil_r, Hc, Hk|by rewrite Hm]. Qed.

#[local] Instance trace_preorder : PreOrder trace.
Proof.
  split; [intros w; by apply trace_same|].
  intros w1 w2 w3 [(o1 & C1 & H1) [p1 G1]] [(o2 & C2 & H2) [p2 G2]]. split.
  - exists (o1 ++ o2). by rewrite C2, C1, app_assoc, foldl_app, <- H1.
  - exists (p1 ++ p2). by rewrite foldl_app, <- G1.
Qed.

#[local] Instance trace_blind : Blind trace.
Proof. split; [apply _|intros; by apply trace_same..]. Qed.

Lemma trace_called w call : trace w (called E hash_order call w).
Proof. split; [by exists [call]|by exists []]. Qed.

Lemma trace_peers w op : trace w (set_peerlist (run_op sort op (m_peerlist w)) w).
Proof. split; [exists []; by rewrite app_nil_r|by exists [op]]. Qed.

(** ** The commands of the node *)

Section Commands.
Variable others : World -> World.
Variable ping_answer : Z -> Z -> option ping_response.
Context (others_trace : forall w, trace w (others w)).

Lemma moves_head : moves trace (peerlist_head sort).
Proof. intros w. exact (trace_peers w (Head 250)). Qed.

Lemma moves_remote_peerlist l t : moves trace (remote_peerlist sort l t).
Proof.
  intros w. unfold remote_peerlist. pose proof (trace_peers w (Remote (clock w) (i64 t) l)) as H. simpl in H.
  destruct (handle_remote_peerlist sort _ _ _ _); [exact H|]. by apply trace_same.
Qed.

Lemma moves_append_white p : moves trace (with_peers (append_with_peer_white sort p)).
Proof. intros w. exact (trace_peers w (AppendWhite p)). Qed.

Lemma moves_just_seen peer c : moves trace (just_seen sort peer c).
Proof. unfold just_seen. solve_moves. intros w. exact (trace_peers w (JustSeen _ _ _)). Qed.

Lemma moves_open conn c : moves trace (open_connection conn c).
Proof. apply moves_modify. intros w. apply blind_connections. Qed.

Lemma moves_erase conn : moves trace (erase_connection conn).
Proof. apply moves_modify. intros w. apply blind_connections. Qed.

Hint Resolve moves_process_payload moves_get_payload moves_start_sync moves_onConnectionClosed
  moves_requestMissingPoolTransactions trace_called : moves.
Hint Resolve moves_head moves_remote_peerlist moves_append_white moves_just_seen moves_open moves_erase : moves.

Lemma moves_handshake rsp conn b : moves trace (handshake sort s rsp conn b).
Proof. unfold handshake. solve_moves. Qed.
Hint Resolve moves_handshake : moves.

Lemma moves_connect na rsp conn v b :
  moves trace (try_to_connect_and_handshake_with_new_peer sort s na rsp conn v b).
Proof. unfold try_to_connect_and_handshake_with_new_peer. solve_moves. Qed.

Lemma moves_try_ping d conn : moves trace (try_ping others ping_answer d conn).
Proof. unfold try_ping. solve_moves. Qed.
Hint Resolve moves_try_ping : moves.

Lemma moves_handle_handshake arg conn : moves trace (handle_handshake sort others ping_answer s arg conn).
Proof. unfold handle_handshake. solve_moves. Qed.

Lemma moves_timed_sync arg conn : moves trace (handle_timed_sync sort arg conn).
Proof. unfold handle_timed_sync. solve_moves. Qed.

Lemma moves_timed_sync_response u b conn : moves trace (handleTimedSyncResponse sort u b conn).
Proof. unfold handleTimedSyncResponse. solve_moves. Qed.

Lemma moves_ping u conn : moves trace (handle_ping s u conn : act World _).
Proof. unfold handle_ping. solve_moves. Qed.
Hint Resolve moves_handle_handshake moves_timed_sync moves_timed_sync_response moves_ping : moves.

Lemma moves_invokeAdaptor {A B} (ms : list (member A)) i (ms' : list (member B)) b handler conn :
  (forall a c, moves trace (handler a c)) -> moves trace (invokeAdaptor ms i ms' b handler conn).
Proof. intros H. unfold invokeAdaptor. solve_moves. Qed.

Lemma moves_handleCommand u cmd conn :
  moves trace (handleCommand E hash_order sort others ping_answer s u cmd conn).
Proof.
  unfold handleCommand. solve_moves; try (apply moves_invokeAdaptor; eauto with moves).
  apply moves_payload_handleCommand; eauto using trace_called with typeclass_instances.
Qed.

Lemma moves_begin_turn conn : moves trace (begin_turn conn).
Proof. unfold begin_turn. solve_moves. Qed.

Lemma moves_close conn : moves trace (close_connection conn).
Proof. unfold close_connection. solve_moves. Qed.

Lemma moves_turn u cmd conn : moves trace (turn E hash_order sort others ping_answer s u cmd conn).
Proof.
  assert (moves trace (serve E hash_order sort others ping_answer s u cmd conn)) as H.
  { unfold serve. solve_moves. apply moves_handleCommand. }
  intros w. unfold turn. specialize (H w). destruct (serve _ _ _ _ _ _ _ _ _ w) as [[[]|e|] w'];
    simpl in *; try done; (etransitivity; [exact H|apply moves_close]).
Qed.
End Commands.

(** ** Steps *)

Definition set_clock (t : Z) (w : World) : World :=
  MkWorld (m_core w) (m_connections w) (m_synchronized w) (m_stop w) (m_observedHeight w) (m_blockchainHeight w)
    (m_peersCount w) (m_peerlist w) (m_spawned w) t (m_calls w).

(** What happens to a node.  A command may let other coroutines run; what they
    do are such steps again, any number of them. *)
Inductive node_step : World -> World -> Prop :=
| step_accept conn v host port w : m_connections w !! conn = None ->
    node_step w (acceptLoop conn v host port w).2
| step_connect na rsp conn v just_take_peerlist w : m_connections w !! conn = None ->
    node_step w (try_to_connect_and_handshake_with_new_peer sort s na rsp conn v just_take_peerlist w).2
| step_begin conn w : node_step w (begin_turn conn w).2
| step_command others ping_answer u cmd conn w : (forall w, rtc node_step w (others w)) ->
    node_step w (turn E hash_order sort others ping_answer s u cmd conn w).2
| step_closed conn w : node_step w (close_connection conn w).2
| step_timed_sync w : node_step w (timedSync w).2
| step_relay t rest w : m_spawned w = t :: rest -> node_step w (run_spawned t (set_spawned rest w))
| step_write conn c w : m_connections w !! conn = Some c ->
    node_step w (set_connections (<[conn := (popBuffer c).2]> (m_connections w)) w)
| step_submit_block b raw w : node_step w (called E hash_order (AddBlock (clock w) b raw) w)
| step_submit_transaction tx w : node_step w (called E hash_order (AddTransaction (clock w) tx) w)
| step_relay_block arg w : node_step w (relayBlock arg w).2
| step_relay_transactions txs w : node_step w (relayTransactions txs w).2
| step_clock t w : node_step w (set_clock t w).

Lemma moves_timedSync : moves trace timedSync.
Proof.
  unfold timedSync. solve_moves; [apply moves_get_payload; apply _|].
  apply moves_modify. intros w. apply blind_connections.
Qed.

Lemma run_spawned_trace t w : trace w (run_spawned t w).
Proof. destruct t; apply blind_connections. Qed.

Lemma step_trace : forall w w', node_step w w' -> trace w w'.
Proof.
  fix IH 3. intros w w' [].
  - apply moves_open.
  - apply moves_connect.
  - apply moves_begin_turn.
  - apply moves_turn. intros w1. specialize (H w1).
    induction H as [|w1 w2 w3 Hs _ IHs]; [reflexivity|]. transitivity w2; [exact (IH _ _ Hs)|exact IHs].
  - apply moves_close.
  - apply moves_timedSync.
  - etransitivity; [apply blind_spawned|apply run_spawned_trace].
  - apply blind_connections.
  - apply trace_called.
  - apply trace_called.
  - apply moves_relayBlock. apply _.
  - unfold relayTransactions. eapply (moves_bind trace); eauto with moves typeclass_instances.
  - by apply trace_same.
Qed.

Lemma steps_trace w w' : rtc node_step w w' -> trace w w'.
Proof. induction 1 as [|? ? ? ?%step_trace _ IH]; [reflexivity|]. by etransitivity. Qed.

(** A block fits: the counters of the core have room for it, and it is not in
    the zone of the checkpoints. *)
Definition fits_block (b : CachedBlock) (raw : RawBlock) (k : Core) : Prop :=
  room E b raw k /\ isInCheckpointZone (cb_index b) (checkpoints E) = false.

(** Every block that was handed to the core fitted when it was. *)
Fixpoint fits (calls : list core_call) (k : Core) : Prop :=
  match calls with
  | [] => True
  | call :: calls =>
      match call with
      | AddRawBlock _ raw => forall t b,
          fromBinaryArray (serialize_BlockTemplate (cn_fast_hash E)) (rb_block raw) = Some t ->
          CachedBlock_new E t = Some b -> fits_block b raw k
      | AddBlock _ b raw => fits_block b raw k
      | AddTransaction _ _ => True
      end /\ fits calls (run_call E hash_order k call)
  end.

Lemma fits_wf now b raw k : core_wf E k -> fits_block b raw k -> core_wf E (addBlock E hash_order now b raw k).2.
Proof.
  intros Hk [Hr Hz]. pose proof (addBlock_ok E hash_order now b raw k Hk Hr Hz) as H.
  destruct (addBlock _ _ _ _ _ _). apply H.
Qed.

Lemma core_calls_wf calls k : core_wf E k -> fits calls k -> core_wf E (foldl (run_call E hash_order) k calls).
Proof.
  revert k. induction calls as [|call calls IH]; intros k Hk Hf; [done|]. destruct Hf as [Hop Hf]. simpl. apply IH; [|done].
  destruct call as [now raw|now b raw|now tx]; simpl.
  - unfold addRawBlock. destruct (fromBinaryArray _ _) as [t|] eqn:Et; [|done].
    destruct (CachedBlock_new E t) as [b|] eqn:Eb; [|done]. apply fits_wf; eauto.
  - by apply fits_wf.
  - eapply same_tree_wf; [apply add_raw_same|done].
Qed.

Lemma peer_ops_wf `{!Sorts sort} ops m : peers_wf m -> peers_wf (foldl (fun m op => run_op sort op m) m ops).
Proof. revert m. induction ops as [|op ops IH]; intros m Hm; [done|]. simpl. by apply IH, run_op_wf. Qed.

(** The calls of the core from one state to a later one. *)
Definition calls_between (w w' : World) : list core_call := drop (length (m_calls w)) (m_calls w').

End Run.

(** ** A run *)

#[local] Existing Instance run_pool.

Definition sample_server : NodeServer :=
  {| m_network_id := replicate 16 7; m_peer_id := 5; m_hide_my_port := false; m_external_port := 0; m_listeningPort := 11897 |}.

(** A connection is accepted, the block that was requested arrives, with timed
    synchronization while the handler waits, and once more behind it. *)
Definition run_command : Command :=
  {| command := NOTIFY_RESPONSE_GET_OBJECTS_ID; isNotify := true; isResponse := false;
     buf := match encode response_get_objects_members sample_response with Returns out => out | _ => [] end |}.
Definition run_world1 := (acceptLoop 2 0 78 11897 asking_world).2.
Definition run_world2 :=
  (turn template_environment (fun l => l) (merge_sort newer) (fun w => (timedSync w).2) (fun _ _ => None) sample_server
    (TimedSyncResponse 0 null_sync_data []) run_command 1 run_world1).2.
Definition run_world3 := (timedSync run_world2).2.

Lemma run_calls : calls_between asking_world run_world3 = [AddBlock 100 next_block next_raw].
Proof. vm_compute. reflexivity. Qed.

