(* ===== verification/LiteBlock.v ===== *)
(** * Lite blocks

    A lite block is a block without its transactions.  The node takes those it
    knows from its pool and its chains, asks the peer for the others, and adds
    the block when they have come. *)

From stdpp Require Import gmap fin_sets fin_maps.
From S2P Require Import Prelude Config Stream Serializer Transaction Block Cached Pool Currency PoolCleaner Checkpoints.
From S2P Require Import Segments ChainSpec Validation Core CoreSpec AddBlock CoreStart CoreQueries TxQueries Template.
From S2P Require Import KvBinary KvMessages Levin Peers World Protocol ProtocolSpec.
Import BlockchainCache.

Section Lite.
Variable E : Environment.
Context {P : Type} `{!ITransactionPool P}.
Variable hash_order : list Hash -> list Hash.
Abbreviation World := (World (P := P)).
Abbreviation Core := (Core (P := P)).
Abbreviation cn_fast_hash := (Core.cn_fast_hash E).
Implicit Types (w : World) (c : P2pConnectionContext).

Lemma core_after_call raw w :
  m_core (call_addRawBlock E hash_order raw w).2 = (addRawBlock E hash_order (clock w) raw (m_core w)).2.
Proof.
  unfold call_addRawBlock. rewrite act_bind_eq. unfold with_core.
  by destruct (addRawBlock E hash_order (clock w) raw (m_core w)) as [r k].
Qed.

(** Whatever the answer of the core is, the rest of the handler leaves it. *)
Lemma core_after_announcement {A} raw (f : checked AddBlockErrorCode -> act World A) w :
  (forall r, moves quiet (f r)) ->
  m_core ((call_addRawBlock E hash_order raw ≫= f) w).2 = (addRawBlock E hash_order (clock w) raw (m_core w)).2.
Proof.
  intros Hf. rewrite <- core_after_call, act_bind_eq. destruct (call_addRawBlock E hash_order raw w) as [[r|e|] w'];
    [|done..]. apply Hf.
Qed.

Lemma new_block_core arg conn w c :
  m_connections w !! conn = Some c -> m_state c = state_normal ->
  m_core (handle_notify_new_block E hash_order arg conn w).2 =
  (addRawBlock E hash_order (clock w)
     {| rb_block := blockTemplate (nb_block arg); rb_transactions := KvMessages.transactions (nb_block arg) |}
     (m_core w)).2.
Proof.
  intros Hc Hs. unfold handle_notify_new_block.
  destruct (run_updateObservedHeight (nb_current_blockchain_height arg) conn w c Hc) as (a & b & Ha).
  rewrite (act_bind_returns _ _ _ _ _ Ha), (act_bind_returns _ _ _ _ _ (run_change _ _ _)).
  set (w1 := set_connections _ _).
  assert (m_connections w1 !! conn = Some (set_remote_height (nb_current_blockchain_height arg) c)) as Hc1
    by (by apply change_lookup).
  rewrite (act_bind_returns _ _ _ _ _ (run_context w1 conn _ Hc1)).
  rewrite bool_decide_eq_true_2 by exact Hs. cbn [negb]. refine (core_after_announcement _ _ w1 _).
  intros r. apply (moves_bind quiet); [|solve_moves]. apply moves_block_announced; [apply _|].
  apply moves_relayBlock. apply _.
Qed.

(** ** Sorting out the transactions *)

Lemma provide_spec txs m : Forall (fun tx => is_Some (CachedTransaction_binary tx)) txs ->
  exists m', provide E txs m = Returns m' /\
    (forall h tx, m' !! h = Some tx -> (tx ∈ txs /\ cn_fast_hash tx = h) \/ m !! h = Some tx) /\
    (forall h, h ∈ map cn_fast_hash txs \/ is_Some (m !! h) -> is_Some (m' !! h)).
Proof.
  intros HF. revert m. induction HF as [|tx txs [t Ht] HF IH]; intros m; simpl.
  { exists m. split; [done|]. split; [by right|]. by intros h [?%not_elem_of_nil|]. }
  rewrite Ht. destruct (IH (<[cn_fast_hash tx := tx]> m)) as (m' & Hm' & Hin & Hdom). exists m'. split; [done|]. split.
  - intros h tx' [[Hin' Hh]|H]%Hin; [left; split; [by right|done]|].
    apply lookup_insert_Some in H as [[<- <-]|[_ H]]; [left; split; [by left|done]|by right].
  - intros h Hh. apply Hdom. rewrite elem_of_cons in Hh. destruct (decide (h = cn_fast_hash tx)) as [->|Hne].
    + right. rewrite lookup_insert_eq. by eexists.
    + rewrite lookup_insert_ne by done. naive_solver.
Qed.

(** Where the transaction of a hash comes from. *)
Definition comes_from (txs : list bytes) (k : Core) (h : Hash) (tx : bytes) : Prop :=
  (tx ∈ txs /\ cn_fast_hash tx = h) \/ core_getTransaction cn_fast_hash h k = Some (Some tx).

Lemma sort_out_completed txs provided hs (k : Core) have need :
  sort_out E ∅ hs k = Some (have, need) ->
  (forall h tx, provided !! h = Some tx -> tx ∈ txs /\ cn_fast_hash tx = h) ->
  (forall h, h ∈ need -> is_Some (provided !! h)) ->
  exists full, sort_out E provided hs k = Some (full, []) /\ Forall2 (comes_from txs k) hs full.
Proof.
  intros H Hprov. revert have need H. induction hs as [|h hs IH]; intros have need H Hneed; simpl in H.
  { injection H as <- <-. by exists []. }
  rewrite lookup_empty in H. apply bind_Some in H as (blob & Hblob & H). apply bind_Some in H as ([have' need'] & Hrest & H).
  destruct (IH have' need' Hrest) as (full & Hfull & HF).
  { intros h' Hin. apply Hneed. destruct blob; injection H as <- <-; [done|by right]. }
  simpl. destruct (provided !! h) as [tx|] eqn:Ep.
  - rewrite Hfull. simpl. exists (tx :: full). split; [done|]. constructor; [left; by apply Hprov|done].
  - destruct blob as [tx|].
    + rewrite Hblob, Hfull. simpl. exists (tx :: full). split; [done|]. constructor; [by right|done].
    + injection H as <- <-. destruct (Hneed h); [by left|congruence].
Qed.

(** ** The two ways of [doPushLiteBlock] *)

Lemma push_complete arg conn txs w c t provided full :
  m_connections w !! conn = Some c ->
  fromBinaryArray (serialize_BlockTemplate cn_fast_hash) (lb_blockTemplate arg) = Some t ->
  provide E txs ∅ = Returns provided ->
  set_Forall (fun h => is_Some (provided !! h)) (from_option missed_transactions ∅ (m_pending_lite_block c)) ->
  sort_out E provided (transactionHashes t) (m_core w) = Some (full, []) ->
  m_core (doPushLiteBlock E hash_order arg conn txs w).2 =
  (addRawBlock E hash_order (clock w) {| rb_block := lb_blockTemplate arg; rb_transactions := full |} (m_core w)).2.
Proof.
  intros Hc Ht Hp Hm Hs. unfold doPushLiteBlock. rewrite Ht, Hp.
  rewrite (act_bind_returns (lift (Returns provided)) _ _ _ _ eq_refl).
  rewrite (act_bind_returns _ _ _ _ _ (run_context w conn c Hc)). cbv zeta.
  rewrite bool_decide_eq_true_2 by exact Hm. cbn [negb].
  rewrite (act_bind_returns (gets m_core) _ _ _ _ eq_refl), Hs.
  rewrite (act_bind_returns (or_undefined (Some (full, []))) _ _ _ _ eq_refl).
  rewrite (act_bind_returns _ _ _ _ _ (run_change _ _ _)).
  refine (core_after_announcement _ _ (set_connections _ w) _). intros r.
  apply (moves_bind quiet); [|solve_moves]. apply moves_block_announced; [apply _|]. apply moves_relay_post. apply _.
Qed.

Definition asking (arg : NOTIFY_NEW_LITE_BLOCK_request) (need : list Hash) (buf : bytes) (c : P2pConnectionContext) :
    P2pConnectionContext :=
  pushMessage (Message NOTIFY NOTIFY_MISSING_TXS_ID buf 0)
    (set_pending (Some {| request := arg; missed_transactions := list_to_set need |}) c).

Lemma push_asks arg conn w c t b have need buf :
  m_connections w !! conn = Some c -> m_pending_lite_block c = None ->
  fromBinaryArray (serialize_BlockTemplate cn_fast_hash) (lb_blockTemplate arg) = Some t ->
  CachedBlock_new E t = Some b ->
  sort_out E ∅ (transactionHashes t) (m_core w) = Some (have, need) -> need <> [] ->
  encode missing_txs_members (MissingTxs (getBlockHash b) (lb_current_blockchain_height arg) need) = Returns buf ->
  doPushLiteBlock E hash_order arg conn [] w =
  (Returns 1, set_connections (alter (asking arg need buf) conn (m_connections w)) w).
Proof.
  intros Hc Hpend Ht Hb Hs Hne Hbuf. unfold doPushLiteBlock. rewrite Ht. simpl provide.
  rewrite (act_bind_returns (lift (Returns ∅)) _ _ _ _ eq_refl).
  rewrite (act_bind_returns _ _ _ _ _ (run_context w conn c Hc)). cbv zeta. rewrite Hpend. cbn [from_option].
  rewrite bool_decide_eq_true_2 by (by intros h ?%not_elem_of_empty). cbn [negb].
  rewrite (act_bind_returns (gets m_core) _ _ _ _ eq_refl), Hs.
  rewrite (act_bind_returns (or_undefined (Some (have, need))) _ _ _ _ eq_refl).
  destruct need as [|n need]; [done|]. rewrite Hb.
  rewrite (act_bind_returns (mret b) _ _ _ _ eq_refl). cbv zeta.
  rewrite (act_bind_returns _ _ _ _ _ (run_change _ _ _)).
  rewrite (act_bind_returns _ _ _ _ _ (run_post_notify _ _ _ _ _ _ _ (change_lookup _ _ _ _ Hc) Hbuf)).
  rewrite (act_bind_returns (mret tt) _ _ _ _ eq_refl). unfold mret, act_ret. f_equal.
  unfold set_connections. simpl. by rewrite alter_alter_eq.
Qed.

(** The announcement of a lite block ends in [doPushLiteBlock]. *)
Lemma lite_block_pushed arg conn w c : m_connections w !! conn = Some c -> m_state c = state_normal ->
  exists w0, handle_notify_new_lite_block E hash_order arg conn w = doPushLiteBlock E hash_order arg conn [] w0 /\
    quiet w w0 /\ m_connections w0 !! conn = Some (set_remote_height (lb_current_blockchain_height arg) c).
Proof.
  intros Hc Hst. destruct (run_updateObservedHeight (lb_current_blockchain_height arg) conn w c Hc) as (x & y & Ha).
  pose proof (change_lookup (set_heights x y w) conn (set_remote_height (lb_current_blockchain_height arg)) c Hc) as Hc0.
  eexists. split; [|split; [|exact Hc0]]; [|done]. unfold handle_notify_new_lite_block.
  rewrite (act_bind_returns _ _ _ _ _ Ha), (act_bind_returns _ _ _ _ _ (run_change _ _ _)).
  rewrite (act_bind_returns _ _ _ _ _ (run_context _ conn _ Hc0)). by rewrite bool_decide_eq_true_2 by exact Hst.
Qed.

(** The transactions come. *)
Lemma answer_complete arg conn txs w c t need buf provided full :
  m_connections w !! conn = Some (asking arg need buf c) -> m_state c = state_normal ->
  fromBinaryArray (serialize_BlockTemplate cn_fast_hash) (lb_blockTemplate arg) = Some t ->
  provide E txs ∅ = Returns provided -> (forall h, h ∈ need -> is_Some (provided !! h)) ->
  sort_out E provided (transactionHashes t) (m_core w) = Some (full, []) ->
  m_core (handle_notify_new_transactions E hash_order txs conn w).2 =
  (addRawBlock E hash_order (clock w) {| rb_block := lb_blockTemplate arg; rb_transactions := full |} (m_core w)).2.
Proof.
  intros Hc Hst Ht Hprov Hneed Hfull. unfold handle_notify_new_transactions.
  rewrite (act_bind_returns _ _ _ _ _ (run_context w conn _ Hc)).
  assert (m_state (asking arg need buf c) = state_normal) as Hst' by (unfold asking; by rewrite push_base).
  assert (m_pending_lite_block (asking arg need buf c) =
    Some {| request := arg; missed_transactions := list_to_set need |}) as Hp by (unfold asking; by rewrite push_base).
  rewrite bool_decide_eq_true_2 by exact Hst'. rewrite Hp. cbn [negb request].
  apply (push_complete arg conn txs w (asking arg need buf c) t provided full); [done..| |done].
  rewrite Hp. simpl. intros h Hh%elem_of_list_to_set. by apply Hneed.
Qed.

(** C12. A lite block is as good as the block.  The node that gets one takes the
    transactions it knows from its chains and its pool.  When it lacks some it
    asks for exactly those, leaving its core alone; when the peer sends
    transactions that have these hashes, the core is where the full block would
    have brought it.  Every transaction of that block has been sent by the peer
    under its hash, or is the one the node knows. *)
Theorem lite_block_as_full arg conn w c t b have need txs :
  m_connections w !! conn = Some c -> m_state c = state_normal -> m_pending_lite_block c = None ->
  fromBinaryArray (serialize_BlockTemplate cn_fast_hash) (lb_blockTemplate arg) = Some t ->
  CachedBlock_new E t = Some b -> length (getBlockHash b) = 32%nat -> is_u32 (lb_current_blockchain_height arg) ->
  sort_out E ∅ (transactionHashes t) (m_core w) = Some (have, need) -> KvMessages.hashes need ->
  Forall (fun tx => is_Some (CachedTransaction_binary tx)) txs ->
  (forall h, h ∈ need -> h ∈ map cn_fast_hash txs) ->
  let w1 := (handle_notify_new_lite_block E hash_order arg conn w).2 in
  let w2 := if bool_decide (need = []) then w1 else (handle_notify_new_transactions E hash_order txs conn w1).2 in
  (need <> [] -> m_core w1 = m_core w /\ exists c1 buf, m_connections w1 !! conn = Some c1 /\
     c1 = asking arg need buf (set_remote_height (lb_current_blockchain_height arg) c) /\
     decode missing_txs_members buf (MissingTxs NULL_HASH 0 []) =
       Returns (Some (MissingTxs (getBlockHash b) (lb_current_blockchain_height arg) need))) /\
  exists full, Forall2 (comes_from txs (m_core w)) (transactionHashes t) full /\
    m_core w2 = m_core (handle_notify_new_block E hash_order
      (NewBlock (MkRawBlockLegacy (lb_blockTemplate arg) full) (lb_current_blockchain_height arg) (lb_hop arg)) conn w).2.
Proof.
  intros Hc Hst Hpend Ht Hb Hlen Hh Hs Hneed HF Hcover w1 w2.
  destruct (missing_txs_round (MissingTxs (getBlockHash b) (lb_current_blockchain_height arg) need)
    (MissingTxs NULL_HASH 0 []) Hlen Hh Hneed) as (buf & Hbuf & Hdec).
  destruct (lite_block_pushed arg conn w c Hc Hst) as (w0 & Hw1 & (Hk0 & Hclk0 & _) & Hc0).
  set (c0 := set_remote_height (lb_current_blockchain_height arg) c) in *. rewrite <- Hk0 in Hs |- *.
  assert (need <> [] -> w1 = set_connections (alter (asking arg need buf) conn (m_connections w0)) w0) as Hw1'.
  { intros Hne. unfold w1. rewrite Hw1. by rewrite (push_asks arg conn w0 c0 t b have need buf). }
  split.
  { intros Hne. rewrite (Hw1' Hne). split; [done|]. exists (asking arg need buf c0), buf.
    split; [by apply change_lookup|]. done. }
  destruct (provide_spec txs ∅ HF) as (provided & Hprov & Hin & Hdom).
  destruct (decide (need = [])) as [Hne|Hne].
  - destruct (sort_out_completed [] ∅ (transactionHashes t) (m_core w0) have need Hs) as (full & Hfull & HF2); [done|set_solver|].
    exists full. split.
    { eapply Forall2_impl; [exact HF2|]. intros h tx [[?%not_elem_of_nil _]|?]; [done|by right]. }
    rewrite (new_block_core _ _ _ _ Hc Hst), <- Hk0, <- Hclk0. unfold w2, w1. rewrite bool_decide_eq_true_2, Hw1 by done.
    by apply (push_complete arg conn [] w0 c0 t ∅ full); [| | |simpl; rewrite Hpend; intros h ?%not_elem_of_empty|].
  - destruct (sort_out_completed txs provided (transactionHashes t) (m_core w0) have need Hs) as (full & Hfull & HF2).
    { intros h tx [?|?]%Hin; [done|by rewrite lookup_empty in *]. }
    { intros h Hh'. apply Hdom. left. by apply Hcover. }
    exists full. split; [done|]. rewrite (new_block_core _ _ _ _ Hc Hst), <- Hk0, <- Hclk0. unfold w2.
    rewrite bool_decide_eq_false_2, (Hw1' Hne) by done.
    rewrite (answer_complete arg conn txs (set_connections (alter (asking arg need buf) conn (m_connections w0)) w0)
      c0 t need buf provided full); [done|by apply change_lookup|done..| |done].
    intros h Hh'. apply Hdom. left. by apply Hcover.
Qed.
End Lite.

(** ** A run *)

#[local] Existing Instance run_pool.

Definition lite_tx : bytes := getTransactionBinaryArray spend_tx.
Definition lite_template : BlockTemplate :=
  {| header := header next_template; parentBlock := no_parent; baseTransaction := baseTransaction next_template;
     transactionHashes := [sum_key lite_tx] |}.
Definition lite_announcement : NOTIFY_NEW_LITE_BLOCK_request :=
  NewLiteBlock (default [] (toBinaryArray (serialize_BlockTemplate sum_key) lite_template)) 4 0.
Definition lite_cached : CachedBlock := default (block_at 0 0 0) (CachedBlock_new template_environment lite_template).
Definition normal_world : World (P := TransactionPool (C := list PendingTransactionInfo)) :=
  sample_world sample_core (sample_context state_normal ∅).

Lemma lite_block_as_full_witness :
  let w1 := (handle_notify_new_lite_block template_environment (fun l => l) lite_announcement 1 normal_world).2 in
  let w2 := (handle_notify_new_transactions template_environment (fun l => l) [lite_tx] 1 w1).2 in
  exists full, Forall2 (comes_from template_environment [lite_tx] sample_core) [sum_key lite_tx] full /\
    m_core w2 = m_core (handle_notify_new_block template_environment (fun l => l)
      (NewBlock (MkRawBlockLegacy (lb_blockTemplate lite_announcement) full) 4 0) 1 normal_world).2.
Proof.
  refine (proj2 (lite_block_as_full template_environment (fun l => l) lite_announcement 1 normal_world
    (sample_context state_normal ∅) lite_template lite_cached [] [sum_key lite_tx] [lite_tx] _ _ _ _ _ _ _ _ _ _ _)).
  - reflexivity.
  - reflexivity.
  - reflexivity.
  - vm_compute. reflexivity.
  - vm_compute. reflexivity.
  - vm_compute. reflexivity.
  - vm_compute. split; [discriminate|reflexivity].
  - vm_compute. reflexivity.
  - split; [|reflexivity]. apply Forall_singleton. vm_compute. reflexivity.
  - apply Forall_singleton. vm_compute. by eexists.
  - intros h Hh. exact Hh.
Defined.
