(* ===== verification/Sync.v ===== *)
(** * Two nodes synchronize

    A node whose peer has blocks that it lacks asks for the chain, is told the
    hashes from a common block on, asks for the blocks behind the ones it has,
    and gets them.  Both nodes run the handlers; what one queues for its peer
    is decoded by the other. *)

From stdpp Require Import gmap fin_sets fin_maps.
From S2P Require Import Prelude Config Stream Serializer Transaction Block Cached Pool Currency PoolCleaner Checkpoints.
From S2P Require Import Segments ChainSpec Validation Core CoreSpec AddBlock CoreQueries TxQueries.
From S2P Require Import KvBinary KvMessages Levin Peers World Protocol ProtocolSpec.
Import BlockchainCache.

(** ** Messages between the nodes *)

(** A message that is small enough for the queue, and its bytes. *)
Definition delivers {A} (ms : list (member A)) (a old : A) (buf : bytes) : Prop :=
  encode ms a = Returns buf /\ decode ms buf old = Returns (Some a) /\
  Z.of_nat (length buf) <= P2P_CONNECTION_MAX_WRITE_BUFFER_SIZE.

Lemma blob_size l : Forall (fun h => length h = 32%nat) l -> Z.of_nat (length l) <= 10000 ->
  (length (payload (KBinary (concat (map (pod_bytes hash_pod) l)))) <= 8 + 32 * length l)%nat /\
  small_size (concat (map (pod_bytes hash_pod) l)) = true.
Proof.
  intros HF Hn. assert (length (concat (map (pod_bytes hash_pod) l)) = 32 * length l)%nat as Hl.
  { rewrite (blob_length hash_pod (fun h => length h = 32%nat)); [simpl; lia|done]. }
  unfold small_size. rewrite Hl.
  split; [|apply Z.ltb_lt; change (2 ^ 62) with 4611686018427387904; lia]. cbn [payload]. rewrite length_app, Hl.
  pose proof (array_size_at_most (32 * length l)). lia.
Qed.

Ltac hash_message_size ms a He :=
  let H := fresh "H" in
  let Hs := fresh "Hs" in
  members_ok ms H;
  eapply (encode_size _ _ _ _ _ (Hms := H) a) in He as Hs; [|evaluate|];
  [ cbn [sum_list_with fst snd] in Hs; clear H;
    repeat match type of Hs with context [length (str ?n)] =>
      let l := eval vm_compute in (length (str n)) in change (length (str n)) with l in Hs end;
    repeat match type of Hs with context [length (payload (KInt UINT32 ?z))] =>
      change (length (payload (KInt UINT32 z))) with 4%nat in Hs end
  | split_and?; try done ].

Lemma request_chain_delivers l old : KvMessages.hashes l -> Z.of_nat (length l) <= 10000 ->
  exists buf, delivers request_chain_members l old buf.
Proof.
  intros Hl Hn. destruct (request_chain_round l old Hl) as (buf & He & Hd). exists buf. split; [done|]. split; [done|].
  destruct Hl as [HF _]. destruct (blob_size l HF Hn) as [Hb Hsm].
  hash_message_size request_chain_members l He. lia.
Qed.

Lemma request_get_objects_delivers l old : KvMessages.hashes l -> Z.of_nat (length l) <= 10000 ->
  exists buf, delivers request_get_objects_members (RequestGetObjects [] l) old buf.
Proof.
  intros Hl Hn. assert (KvMessages.hashes []) as H0 by (split; [constructor|done]).
  destruct (request_get_objects_round (RequestGetObjects [] l) old H0 Hl) as (buf & He & Hd).
  exists buf. split; [done|]. split; [done|]. destruct Hl as [HF _]. destruct (blob_size l HF Hn) as [Hb Hsm].
  hash_message_size request_get_objects_members (RequestGetObjects [] l) He; [|by constructor..].
  destruct (blob_size [] ltac:(constructor) ltac:(done)) as [Hb0 _]. cbn [rq_txs rq_blocks] in Hs. cbn [length] in Hb0. lia.
Qed.

Lemma response_chain_entry_delivers start total l old : is_u32 start -> is_u32 total ->
  KvMessages.hashes l -> Z.of_nat (length l) <= 10000 ->
  exists buf, delivers response_chain_entry_members (ResponseChainEntry start total l) old buf.
Proof.
  intros Hst Ht Hl Hn. destruct (response_chain_entry_round (ResponseChainEntry start total l) old Hst Ht Hl) as (buf & He & Hd).
  exists buf. split; [done|]. split; [done|]. destruct Hl as [HF _]. destruct (blob_size l HF Hn) as [Hb Hsm].
  hash_message_size response_chain_entry_members (ResponseChainEntry start total l) He; cbn [ce_m_block_ids] in *.
  - lia.
  - by apply wrap_small.
  - by apply wrap_small.
Qed.

Section Sync.
Variable E : Environment.
Context {P : Type} `{!ITransactionPool P}.
Variable hash_order : list Hash -> list Hash.
Abbreviation World := (World (P := P)).
Abbreviation Core := (Core (P := P)).
Abbreviation cn_fast_hash := (Core.cn_fast_hash E).
Abbreviation main_hashes k := (AddBlock.hashes (main_blocks k)).
Implicit Types (w v : World) (k : Core) (c : P2pConnectionContext).

(** ** What the core answers *)

Lemma hasBlock_main k h : core_wf E k -> h ∈ main_hashes k -> core_hasBlock h k = true.
Proof.
  intros Hk [i Hi]%list_elem_of_lookup. destruct (find_main_at E k h i Hk Hi) as (id & n & Hf & _).
  unfold core_hasBlock, findSegmentContainingBlock. rewrite Hf. by apply bool_decide_eq_true_2.
Qed.

Lemma find_main_suffix k h id : core_wf E k -> findMainChainSegmentContainingBlock h k = Some id ->
  exists pre n, main_chain k = pre ++ chain_of (chainsStorage k) id /\ chainsStorage k !! id = Some n.
Proof.
  intros Hk Hf. pose proof (fw_tree _ _ _ (cw_forest _ _ Hk)) as Hwf. destruct (find_main E k h id Hk Hf) as (n & _ & _ & Hn & _).
  destruct (main_leaf_elem E k Hk) as (nm & Hnm & _). destruct (tw_path _ Hwf _ nm Hnm) as (l & Hl & _).
  apply find_some in Hf as [Hin _]. rewrite (path_is _ _ _ Hl) in Hin. apply list_elem_of_In in Hin.
  destruct (path_suffix _ _ _ id Hwf Hl Hin) as [pre Hpre]. by exists pre, n.
Qed.

Lemma main_count k : core_wf E k -> u32 (core_getTopBlockIndex k + 1) = Z.of_nat (length (main_hashes k)).
Proof.
  intros Hk. destruct (main_height E k Hk) as (_ & Htop & Hh & _). rewrite Htop, wrap_small by mlia.
  unfold AddBlock.hashes. rewrite length_map. unfold height, main_blocks, main_chain, blocks. lia.
Qed.

(** The raw block of a hash of the main chain. *)
Lemma getBlocks_main k i n : core_wf E k -> stored (main_chain k) -> (i + n <= length (main_hashes k))%nat ->
  getBlocks_by_hash (take n (drop i (main_hashes k))) k = Some (take n (drop i (chain_storage (main_chain k))), []).
Proof.
  intros Hk Hst. revert i. induction n as [|n IH]; intros i Hl; [done|].
  destruct (main_height E k Hk) as (Hwf & _). pose proof (stored_height _ Hst) as Hsh.
  assert (Z.of_nat (length (main_hashes k)) = height (main_chain k)) as Hh by (unfold AddBlock.hashes; by rewrite length_map).
  destruct (lookup_lt_is_Some_2 (main_hashes k) i) as [h Eh]; [lia|].
  destruct (lookup_lt_is_Some_2 (chain_storage (main_chain k)) i) as [raw Er]; [lia|].
  rewrite (drop_S _ _ _ Eh), (drop_S _ _ _ Er). cbn [take getBlocks_by_hash].
  destruct (find_main_at E k h i Hk Eh) as (id & m & Hf & Hm & Hi & r & Hr).
  unfold findSegmentContainingBlock. rewrite Hf, Hm. cbn [mbind option_bind]. rewrite Hi. cbn [mbind option_bind].
  assert (getBlockByIndex (Z.of_nat i) (chain_of (chainsStorage k) id) = Some raw) as ->.
  { destruct (find_main_suffix k h id Hk Hf) as (pre & n' & Ec & Hn').
    pose proof (fw_tree _ _ _ (cw_forest _ _ Hk)) as Htw. pose proof (chain_of_wf _ _ _ Htw Hn') as Hcw.
    destruct (getBlockIndex_place _ _ _ _ _ Htw Hm Hi) as [_ Hp]. rewrite Nat2Z.id in Hp. apply lookup_lt_Some in Hp.
    unfold AddBlock.hashes in Hp. rewrite length_map in Hp.
    rewrite Ec in Hst, Er. apply Forall_app in Hst as [_ Hst']. pose proof (stored_height _ Hst') as Hsh'.
    rewrite getBlockByIndex_flat by (done || lia). rewrite Nat2Z.id.
    rewrite chain_storage_app, lookup_app_l in Er by (unfold height, blocks in *; lia). done. }
  cbn [mbind option_bind]. by rewrite IH by lia.
Qed.

(** ** What the handlers queue *)

Abbreviation on_conn conn f w := (set_connections (alter f conn (m_connections w)) w).
Abbreviation notify cmd buf := (pushMessage (Message NOTIFY cmd buf 0)).

Lemma run_request_chain w conn c sparse buf :
  m_connections w !! conn = Some c -> buildSparseChain (m_core w) = Some sparse ->
  encode request_chain_members sparse = Returns buf ->
  request_chain conn w = (Returns tt, on_conn conn (notify NOTIFY_REQUEST_CHAIN_ID buf) w).
Proof.
  intros Hc Hb He. unfold request_chain. rewrite (act_bind_returns (gets m_core) _ _ _ _ eq_refl), Hb.
  rewrite (act_bind_returns (or_undefined (Some sparse)) _ _ _ _ eq_refl).
  by rewrite (act_bind_returns _ _ _ _ _ (run_post_notify _ _ _ _ _ _ _ Hc He)).
Qed.

Lemma start_sync_asks w conn c sparse buf :
  m_connections w !! conn = Some c -> m_state c = state_synchronizing -> buildSparseChain (m_core w) = Some sparse ->
  encode request_chain_members sparse = Returns buf ->
  start_sync conn w = (Returns true, on_conn conn (notify NOTIFY_REQUEST_CHAIN_ID buf) w).
Proof.
  intros Hc Hs Hb He. unfold start_sync. rewrite (act_bind_returns _ _ _ _ _ (run_context w conn c Hc)).
  rewrite bool_decide_eq_true_2 by exact Hs.
  rewrite (act_bind_returns _ _ _ _ _ (run_request_chain _ _ _ _ _ Hc Hb He)). done.
Qed.

Lemma request_chain_answered v conn c sparse g start buf : core_wf E (m_core v) ->
  m_connections v !! conn = Some c -> last sparse = Some g -> head (main_hashes (m_core v)) = Some g ->
  findBlockchainSupplement sparse (m_core v) = Some start -> 0 <= start ->
  encode response_chain_entry_members (ResponseChainEntry start (Z.of_nat (length (main_hashes (m_core v))))
    (take (Z.to_nat BLOCKS_IDS_SYNCHRONIZING_DEFAULT_COUNT) (drop (Z.to_nat start) (main_hashes (m_core v))))) = Returns buf ->
  handle_request_chain sparse conn v = (Returns 1, on_conn conn (notify NOTIFY_RESPONSE_CHAIN_ENTRY_ID buf) v).
Proof.
  intros Hk Hc Hlast Hg Hs Hst He. unfold handle_request_chain. rewrite Hlast.
  destruct (main_height E _ Hk) as (Hwf & Htop & Hh & _).
  rewrite (act_bind_returns (gets m_core) _ _ _ _ eq_refl).
  assert (segment_getBlockHash 0 (main_chain (m_core v)) = Some g) as ->.
  { rewrite (getBlockHash_flat _ 0 Hwf ltac:(lia)). unfold AddBlock.hashes, main_blocks in Hg. rewrite head_lookup in Hg.
    by rewrite <- Hg, list_lookup_fmap. }
  rewrite (act_bind_returns (or_undefined (Some g)) _ _ _ _ eq_refl), bool_decide_eq_true_2 by done. cbn [negb].
  unfold findBlockchainSupplement_hashes. rewrite Hs. cbn [mbind option_bind].
  unfold core_getBlockHashes. rewrite getBlockHashes_flat by (done || lia).
  rewrite main_count by done.
  change (u32 10000) with 10000.
  by rewrite (act_bind_returns _ _ _ _ _ (run_post_notify _ _ _ _ _ _ _ Hc He)).
Qed.

Lemma unknown_part_app (have : Hash -> bool) known new :
  Forall (fun h => have h = true) known -> (forall h, h ∈ new -> have h = false) -> unknown_part have (known ++ new) = new.
Proof.
  intros HF Hn. induction HF as [|h known Hh HF IH]; simpl; [|by rewrite Hh].
  destruct new as [|h new]; [done|]. simpl. by rewrite Hn by left.
Qed.

Lemma take_needed_all have n l : (forall h, h ∈ l -> have h = false) -> take_needed have n l = (take n l, drop n l).
Proof.
  revert n. induction l as [|h l IH]; intros n Hl; [by destruct n|]. destruct n as [|n]; [done|]. simpl.
  rewrite Hl by left. rewrite IH; [done|]. intros h' ?. apply Hl. by right.
Qed.

Lemma run_request_objects w conn c b buf : m_connections w !! conn = Some c -> m_needed_objects c <> [] ->
  (forall h, h ∈ m_needed_objects c -> core_hasBlock h (m_core w) = false) ->
  encode request_get_objects_members (RequestGetObjects [] (take 100 (m_needed_objects c))) = Returns buf ->
  exists w', request_missing_objects conn b w = (Returns true, w') /\ quiet w w' /\
    m_connections w' !! conn = Some (notify NOTIFY_REQUEST_GET_OBJECTS_ID buf
      (set_objects (drop 100 (m_needed_objects c)) (m_requested_objects c ∪ list_to_set (take 100 (m_needed_objects c))) c)).
Proof.
  intros Hc Hne Hnew He. unfold request_missing_objects. rewrite (act_bind_returns _ _ _ _ _ (run_context w conn c Hc)).
  rewrite bool_decide_eq_true_2 by exact Hne. rewrite (act_bind_returns (gets m_core) _ _ _ _ eq_refl).
  rewrite take_needed_all by (intros h Hh; rewrite (Hnew h Hh); apply andb_false_r).
  change (Z.to_nat 100) with 100%nat. cbv zeta beta. rewrite (act_bind_returns _ _ _ _ _ (run_change _ _ _)).
  rewrite (act_bind_returns _ _ _ _ _ (run_post_notify _ _ _ _ _ _ _ (change_lookup _ _ _ _ Hc) He)).
  eexists. split; [reflexivity|]. split; [done|]. by apply change_lookup, change_lookup.
Qed.

Lemma chain_entry_asks w conn c known new start total buf : m_connections w !! conn = Some c ->
  m_needed_objects c = [] -> m_requested_objects c = ∅ -> known <> [] -> new <> [] ->
  Forall (fun h => core_hasBlock h (m_core w) = true) known ->
  (forall h, h ∈ new -> core_hasBlock h (m_core w) = false) ->
  0 <= start -> start + Z.of_nat (length (known ++ new)) <= total < 2 ^ 32 ->
  encode request_get_objects_members (RequestGetObjects [] (take 100 new)) = Returns buf ->
  exists w', handle_response_chain_entry (ResponseChainEntry start total (known ++ new)) conn w = (Returns 1, w') /\
    quiet w w' /\ m_connections w' !! conn = Some (notify NOTIFY_REQUEST_GET_OBJECTS_ID buf
      (set_objects (drop 100 new) (list_to_set (take 100 new))
        (set_last_response (start + Z.of_nat (length (known ++ new)) - 1) (set_remote_height total c)))).
Proof.
  intros Hc Hn Hr Hk Hne Hknown Hnew Hs Hl He. unfold handle_response_chain_entry.
  rewrite (act_bind_returns (gets m_core) _ _ _ _ eq_refl). cbn [ce_m_block_ids ce_start_height ce_total_height].
  set (ids := known ++ new) in *. assert (exists front rest, ids = front :: rest /\ core_hasBlock front (m_core w) = true) as (front & rest & Hids & Hf).
  { destruct known as [|front known]; [done|]. inversion Hknown; subst. by exists front, (known ++ new). }
  assert (length ids = S (length rest)) as Hlen by (by rewrite Hids).
  rewrite Hids, Hf, <- Hids. cbn [negb]. cbv zeta.
  rewrite (wrap_small 32 (Z.of_nat _)), wrap_small by mlia. rewrite (proj2 (Z.ltb_ge _ _)) by lia.
  rewrite !(act_bind_returns _ _ _ _ _ (run_change _ _ _)), (act_bind_returns (mret tt) _ _ _ _ eq_refl).
  pose proof (change_lookup _ _ (set_last_response (start + Z.of_nat (length ids) - 1)) _
    (change_lookup _ _ (set_remote_height total) _ Hc)) as Hc2.
  rewrite (act_bind_returns _ _ _ _ _ (run_context _ conn _ Hc2)), (act_bind_returns _ _ _ _ _ (run_change _ _ _)).
  replace (unknown_part (fun h => core_hasBlock h (m_core w)) ids) with new by (symmetry; by apply unknown_part_app).
  cbn [base set_last_response set_remote_height on_base m_needed_objects m_requested_objects].
  rewrite Hn, Hr. pose proof (change_lookup _ _ (set_objects ([] ++ new) ∅) _ Hc2) as Hc3.
  destruct (run_request_objects _ conn _ false buf Hc3) as (w' & Hw' & Hq & Hc'); [done|done|done|].
  rewrite (act_bind_returns _ _ _ _ _ Hw'). exists w'. split; [done|]. split; [done|].
  rewrite Hc'. simpl. by rewrite (left_id_L ∅ (∪)).
Qed.

Lemma objects_answered v conn c i n buf : core_wf E (m_core v) -> stored (main_chain (m_core v)) ->
  m_connections v !! conn = Some c -> (i + n <= length (main_hashes (m_core v)))%nat ->
  encode response_get_objects_members (ResponseGetObjects []
    (convertRawBlocksToRawBlocksLegacy (take n (drop i (chain_storage (main_chain (m_core v)))))) []
    (Z.of_nat (length (main_hashes (m_core v))))) = Returns buf ->
  handle_request_get_objects (RequestGetObjects [] (take n (drop i (main_hashes (m_core v))))) conn v =
    (Returns 1, on_conn conn (notify NOTIFY_RESPONSE_GET_OBJECTS_ID buf) v).
Proof.
  intros Hk Hst Hc Hn He. unfold handle_request_get_objects. rewrite (act_bind_returns (gets m_core) _ _ _ _ eq_refl).
  cbn [rq_blocks]. rewrite getBlocks_main by done. rewrite (act_bind_returns (or_undefined (Some _)) _ _ _ _ eq_refl).
  cbv zeta beta iota. rewrite main_count by done. by rewrite (act_bind_returns _ _ _ _ _ (run_post_notify _ _ _ _ _ _ _ Hc He)).
Qed.

(** ** Blocks that were asked for *)

Abbreviation block_hashes blocks := (map (fun x => getBlockHash x.1) blocks).
Implicit Types blocks : list (CachedBlock * RawBlock).

Lemma check_objects_all i blocks conn w c : m_connections w !! conn = Some c ->
  Forall (fun x => sent_as E x.1 x.2) blocks -> NoDup (block_hashes blocks) ->
  list_to_set (block_hashes blocks) ⊆ m_requested_objects c ->
  Forall (fun x => core_hasBlock (getBlockHash x.1) (m_core w) = false) blocks ->
  exists w', check_objects E i (map snd blocks) conn w = (Returns (Some (map fst blocks)), w') /\ quiet w w' /\
    m_connections w' !! conn =
      Some (set_objects (m_needed_objects c) (m_requested_objects c ∖ list_to_set (block_hashes blocks)) c).
Proof.
  intros Hc HF. revert i w c Hc. induction HF as [|[b raw] blocks (Hb & Hn & Hl) HF IH]; intros i w c Hc Hd Hsub Hnew.
  { exists w. split; [done|]. split; [done|]. rewrite Hc. f_equal. simpl. rewrite difference_empty_L. by destruct c as [[]]. }
  cbn [map snd fst check_objects] in *. simpl in Hb, Hn, Hl. rewrite Hb, Hn.
  apply NoDup_cons in Hd as [Hni Hd]. apply Forall_cons in Hnew as [Hn0 Hnew]. simpl in Hn0.
  rewrite (act_bind_returns (gets _) _ _ _ _ eq_refl), Hn0, andb_false_r.
  rewrite (act_bind_returns _ _ _ _ _ (run_context w conn c Hc)), bool_decide_eq_true_2 by set_solver.
  cbn [negb]. rewrite (proj2 (Nat.eqb_eq _ _) Hl). cbn [negb]. rewrite (act_bind_returns _ _ _ _ _ (run_change _ _ _)).
  set (f := set_objects _ _). destruct (IH (S i) (on_conn conn f w) (f c)) as (w' & Hw' & Hq & Hc').
  { by apply change_lookup. }
  { done. }
  { simpl. intros h Hh. apply elem_of_difference. split; [set_solver|]. intros ->%elem_of_singleton.
    by apply Hni, (elem_of_list_to_set (C := gset Hash)). }
  { done. }
  rewrite (act_bind_returns _ _ _ _ _ Hw'). exists w'. split; [done|]. split; [done|]. rewrite Hc'. f_equal. simpl.
  unfold f, set_objects, on_base. simpl. do 2 f_equal. set_solver.
Qed.

(** The core takes the blocks in their order, none of which it has. *)
Fixpoint accepts (now : Z) k blocks : Prop :=
  match blocks with
  | [] => True
  | x :: rest =>
      Forall (fun y => core_hasBlock (getBlockHash y.1) k = false) blocks /\
      (exists code, (addBlock E hash_order now x.1 x.2 k).1 = inl code /\ code <> ALREADY_EXISTS) /\
      accepts now (add_to E hash_order now k x) rest
  end.

(** The node after the core has got the blocks. *)
Definition after_blocks w blocks : World :=
  foldl (fun w x => called E hash_order (AddBlock (clock w) x.1 x.2) w) w blocks.

Lemma after_blocks_core w blocks : m_core (after_blocks w blocks) = foldl (add_to E hash_order (clock w)) (m_core w) blocks.
Proof. revert w. induction blocks as [|x blocks IH]; intros w; [done|]. simpl. by rewrite IH. Qed.

Lemma after_blocks_rest w blocks : m_connections (after_blocks w blocks) = m_connections w /\
  clock (after_blocks w blocks) = clock w /\ m_stop (after_blocks w blocks) = m_stop w.
Proof. revert w. induction blocks as [|x blocks IH]; intros w; [done|]. simpl. by destruct (IH (called E hash_order (AddBlock (clock w) x.1 x.2) w)). Qed.

Lemma processObjects_all conn blocks w : m_stop w = false -> accepts (clock w) (m_core w) blocks ->
  processObjects E hash_order (fun w => w) conn blocks w = (Returns 0, after_blocks w blocks).
Proof.
  revert w. induction blocks as [|[b raw] blocks IH]; intros w Hst Ha; [done|].
  destruct Ha as (_ & (code & Hcode & Hne) & Ha). cbn [processObjects].
  rewrite (act_bind_returns (gets m_stop) _ _ _ _ eq_refl), Hst. unfold after_blocks. cbn [foldl fst snd].
  specialize (IH (called E hash_order (AddBlock (clock w) b raw) w) Hst Ha). unfold call_addBlock.
  rewrite !act_bind_eq. unfold with_core. unfold called, run_call in *. cbn [fst snd] in *.
  destruct (addBlock E hash_order (clock w) b raw (m_core w)) as [r k'] eqn:Er. simpl in Hcode. subst r.
  destruct code; [..|done]; exact IH.
Qed.

Lemma accepts_app now k blocks rest : accepts now k (blocks ++ rest) ->
  accepts now k blocks /\ accepts now (foldl (add_to E hash_order now) k blocks) rest.
Proof.
  revert k. induction blocks as [|x blocks IH]; intros k Ha; [done|]. destruct Ha as (HF & Hx & Ha).
  apply IH in Ha as [H1 H2]. split; [|done]. split; [|done]. rewrite app_comm_cons in HF. by apply Forall_app in HF as [HF _].
Qed.

Lemma accepts_unknown now k blocks : accepts now k blocks ->
  Forall (fun y => core_hasBlock (getBlockHash y.1) k = false) blocks.
Proof. destruct blocks; [constructor|]. by intros [HF _]. Qed.

(** ** The end of the synchronization *)

(** The queue of the connection has been written. *)
Definition idle_queue c : Prop := writeQueue c = [] /\ writeQueueSize c = 0.

Lemma notify_idle cmd buf c : idle_queue c -> Z.of_nat (length buf) <= P2P_CONNECTION_MAX_WRITE_BUFFER_SIZE ->
  writeQueue (notify cmd buf c) = [Message NOTIFY cmd buf 0].
Proof.
  intros [Hq Hs] Hl. unfold pushMessage. cbn [buffer]. rewrite Hs, Hq, wrap_small by mlia.
  by rewrite (proj2 (Z.ltb_ge _ _)) by lia.
Qed.

Lemma run_finished w conn c : m_connections w !! conn = Some c -> m_needed_objects c = [] -> m_requested_objects c = ∅ ->
  m_last_response_height c = u32 (m_remote_blockchain_height c - 1) ->
  KvMessages.hashes (ip_hashes (transactionPool (pool (m_core w)))) ->
  exists w' c', request_missing_objects conn true w = (Returns true, w') /\ quiet w w' /\
    m_connections w' !! conn = Some c' /\ m_state c' = state_normal /\ m_synchronized w' = true.
Proof.
  intros Hc Hn Hr Hl Hp. unfold request_missing_objects. rewrite (act_bind_returns _ _ _ _ _ (run_context w conn c Hc)).
  rewrite bool_decide_eq_false_2 by (intros H; by apply H). rewrite Hl, Z.ltb_irrefl, Z.eqb_refl, bool_decide_eq_true_2 by done.
  cbn [negb andb]. assert (exists f, requestMissingPoolTransactions conn w = (Returns tt, on_conn conn f w) /\
    forall c, base (f c) = base c) as (f & Hf & _).
  { unfold requestMissingPoolTransactions. rewrite (act_bind_returns _ _ _ _ _ (run_context w conn c Hc)).
    destruct (_ <? 1); [exists (fun c => c); split; [|done]; rewrite alter_id; by destruct w|].
    rewrite (act_bind_returns (gets _) _ _ _ _ eq_refl). destruct (request_tx_pool_round _ [] Hp) as (buf & He & _).
    rewrite (act_bind_returns _ _ _ _ _ (run_post_notify _ _ _ _ _ _ _ Hc He)). eexists. split; [done|]. apply push_base. }
  rewrite (act_bind_returns _ _ _ _ _ Hf), (act_bind_returns _ _ _ _ _ (run_change _ _ _)).
  rewrite (act_bind_returns on_connection_synchronized _ _ _ _ eq_refl).
  eexists _, _. split; [reflexivity|]. split; [done|]. split; [by apply change_lookup, change_lookup|]. done.
Qed.
End Sync.
