(* ===== verification/SyncRun.v ===== *)
(** * A synchronization from its beginning to its end

    Two nodes that are connected exchange messages until the one that lacks
    blocks has them all. *)

From stdpp Require Import gmap fin_sets fin_maps.
From S2P Require Import Prelude Config Stream Serializer Transaction Block Cached Pool Currency PoolCleaner Checkpoints.
From S2P Require Import Segments ChainSpec Validation Core CoreSpec AddBlock CoreStart CoreQueries TxQueries Template.
From S2P Require Import KvBinary KvMessages Levin Peers World Protocol ProtocolSpec Sync.
Import BlockchainCache.

Section Exchange.
Variable E : Environment.
Context {P : Type} `{!ITransactionPool P}.
Variable hash_order : list Hash -> list Hash.
Abbreviation World := (World (P := P)).
Abbreviation Core := (Core (P := P)).
Implicit Types (w v : World) (k : Core) (c : P2pConnectionContext).

(** The messages that are queued for the peer, and the connection after they
    have been written. *)
Definition written (conn : Z) (w : World) : list P2pMessage * World :=
  match m_connections w !! conn with
  | Some c => let '(msgs, c) := popBuffer c in (msgs, set_connections (<[conn := c]> (m_connections w)) w)
  | None => ([], w)
  end.

(** The node gets the messages in their order. *)
Definition receive (conn : Z) (w : World) (msgs : list P2pMessage) : World :=
  foldl (fun w msg => (payload_handleCommand E hash_order (fun w => w) (msg_command msg) (buffer msg) conn w).2) w msgs.

(** The first node writes what it has for the second, and gets the answers;
    [a] is the connection of the first to the second, [b] the other end. *)
Definition exchange (a b : Z) (nodes : World * World) : World * World :=
  let '(asked, w) := written a nodes.1 in
  let '(answered, v) := written b (receive b nodes.2 asked) in
  (receive a w answered, v).
End Exchange.

Section SyncRun.
Variable E : Environment.
Context {P : Type} `{!ITransactionPool P}.
Variable hash_order : list Hash -> list Hash.
Abbreviation World := (World (P := P)).
Abbreviation Core := (Core (P := P)).
Abbreviation main_hashes k := (AddBlock.hashes (main_blocks k)).
Abbreviation on_conn conn f w := (set_connections (alter f conn (m_connections w)) w).
Abbreviation notify cmd buf := (pushMessage (Message NOTIFY cmd buf 0)).
Abbreviation block_hashes blocks := (map (fun x => getBlockHash x.1) blocks).
Abbreviation accepts := (accepts E hash_order).
Abbreviation add_to := (add_to E hash_order).
Implicit Types (w v : World) (k : Core) (c : P2pConnectionContext) (blocks : list (CachedBlock * RawBlock)).

(** ** One exchange *)

Lemma receive_one {A} (ms : list (member A)) initial (handler : A -> Z -> act World Z) cmd buf req conn w w' r :
  decode ms buf initial = Returns (Some req) -> handler req conn w = (Returns r, w') ->
  (forall w, payload_handleCommand E hash_order (fun w => w) cmd buf conn w =
     (ret ← notifyAdaptor ms initial buf handler conn; mret (ret, true)) w) ->
  receive E hash_order conn w [Message NOTIFY cmd buf 0] = w'.
Proof.
  intros Hd Hh Hp. unfold receive. cbn [foldl msg_command buffer]. rewrite Hp. unfold notifyAdaptor. rewrite Hd.
  rewrite !act_bind_eq. cbn [lift]. by rewrite Hh.
Qed.

(** A request with one answer. *)
Lemma exchange_answer a b w v c d req cmd buf : m_connections w !! a = Some c -> writeQueue c = [req] ->
  m_connections v !! b = Some d -> idle_queue d -> Z.of_nat (length buf) <= P2P_CONNECTION_MAX_WRITE_BUFFER_SIZE ->
  receive E hash_order b v [req] = on_conn b (notify cmd buf) v ->
  exists v' d', exchange E hash_order a b (w, v) =
      (receive E hash_order a (set_connections (<[a := (popBuffer c).2]> (m_connections w)) w) [Message NOTIFY cmd buf 0], v') /\
    m_core v' = m_core v /\ m_connections v' !! b = Some d' /\ idle_queue d'.
Proof.
  intros Hc Hq Hd Hi Hl Hr. unfold exchange, written. cbn [fst snd]. rewrite Hc. cbn [popBuffer]. rewrite Hq, Hr.
  rewrite (change_lookup _ _ _ _ Hd). cbn [popBuffer]. rewrite notify_idle by done.
  eexists _, _. split; [reflexivity|]. split; [done|]. split; [simpl; apply lookup_insert_eq|done].
Qed.

(** ** The blocks of one answer *)

(** The first node has asked for the first of these blocks, all that it lacks. *)
Definition waits (a total : Z) (w : World) blocks : Prop := exists c buf,
  m_connections w !! a = Some c /\ writeQueue c = [Message NOTIFY NOTIFY_REQUEST_GET_OBJECTS_ID buf 0] /\
  decode request_get_objects_members buf (RequestGetObjects [] []) =
    Returns (Some (RequestGetObjects [] (take 100 (block_hashes blocks)))) /\
  m_state c = state_synchronizing /\ m_needed_objects c = drop 100 (block_hashes blocks) /\
  m_requested_objects c = list_to_set (take 100 (block_hashes blocks)) /\
  m_last_response_height c = total - 1 /\ m_stop w = false.

Definition finished (a : Z) (w : World) : Prop :=
  m_synchronized w = true /\ exists c, m_connections w !! a = Some c /\ m_state c = state_normal.

Lemma legacy_round raws : convertRawBlocksLegacyToRawBlocks (convertRawBlocksToRawBlocksLegacy raws) = raws.
Proof.
  unfold convertRawBlocksLegacyToRawBlocks, convertRawBlocksToRawBlocksLegacy. rewrite map_map.
  rewrite <- (map_id raws) at 2. apply map_ext. by intros [].
Qed.

Lemma zip_fst_snd {A B} (l : list (A * B)) : zip (map fst l) (map snd l) = l.
Proof. induction l as [|[] l IH]; simpl; by rewrite ?IH. Qed.

(** What the node does when it has added the blocks. *)
Lemma objects_continue a total w c rest : m_connections w !! a = Some c -> idle_queue c ->
  m_state c = state_synchronizing -> m_stop w = false -> m_needed_objects c = block_hashes rest ->
  m_requested_objects c = ∅ -> m_last_response_height c = total - 1 -> m_remote_blockchain_height c = total ->
  0 < total < 2 ^ 32 -> accepts (clock w) (m_core w) rest -> Forall (fun h => length h = 32%nat) (block_hashes rest) ->
  (rest = [] -> KvMessages.hashes (ip_hashes (transactionPool (pool (m_core w))))) ->
  exists w', request_missing_objects a true w = (Returns true, w') /\ quiet w w' /\
    if bool_decide (rest = []) then finished a w' else waits a total w' rest.
Proof.
  intros Hc Hi Hs Hstop Hn Hr Hl Hrem Ht Ha H32 Hp. case_bool_decide as Hrest.
  - subst rest. destruct (run_finished w a c Hc Hn Hr) as (w' & c' & Hw & Hq & Hc' & Hs' & Hy); [|by apply Hp|].
    { rewrite Hl, Hrem, wrap_small by mlia. done. }
    exists w'. split; [done|]. split; [done|]. split; [done|]. by exists c'.
  - assert (KvMessages.hashes (take 100 (block_hashes rest))) as Hh.
    { split; [by apply Forall_take|]. unfold short. rewrite length_take. lia. }
    destruct (request_get_objects_delivers (take 100 (block_hashes rest)) (RequestGetObjects [] []) Hh) as (buf & He & Hd & Hb).
    { rewrite length_take. lia. }
    rewrite <- Hn in He. destruct (run_request_objects w a c true buf Hc) as (w' & Hw & Hq & Hc'); [|..|done|].
    { rewrite Hn. by destruct rest. }
    { rewrite Hn. apply Forall_forall. apply Forall_map. exact (accepts_unknown E hash_order _ _ _ Ha). }
    exists w'. split; [done|]. split; [done|]. eexists _, buf. split; [exact Hc'|].
    rewrite notify_idle, !push_base by done. simpl. rewrite Hn, Hr, (left_id_L ∅ (∪)).
    destruct Hq as (_ & _ & -> & _). done.
Qed.

(** The blocks that were asked for are added, whatever the state of the
    connection is. *)
Lemma objects_added a total w c chunk : m_connections w !! a = Some c -> m_stop w = false ->
  m_requested_objects c = list_to_set (block_hashes chunk) -> m_last_response_height c <= total ->
  Forall (fun x => sent_as E x.1 x.2) chunk -> NoDup (block_hashes chunk) -> accepts (clock w) (m_core w) chunk ->
  exists w', m_connections w' !! a = Some (set_objects (m_needed_objects c) ∅ (set_remote_height total c)) /\
    m_core w' = foldl (add_to (clock w)) (m_core w) chunk /\ clock w' = clock w /\ m_stop w' = false /\
    handle_response_get_objects E hash_order (fun w => w)
      (ResponseGetObjects [] (convertRawBlocksToRawBlocksLegacy (map snd chunk)) [] total) a w =
    (if bool_decide (m_state c = state_synchronizing)
     then request_missing_objects a true ≫= (fun _ => mret 1) else mret 1) w'.
Proof.
  intros Hc Hstop Hr Hl HF Hnd Ha.
  unfold handle_response_get_objects. cbn [rs_current_blockchain_height rs_blocks]. rewrite legacy_round.
  rewrite (act_bind_returns _ _ _ _ _ (run_context w a c Hc)), (proj2 (Z.ltb_ge _ _)) by lia.
  destruct (run_updateObservedHeight total a w c Hc) as (x & y & Hu).
  rewrite (act_bind_returns _ _ _ _ _ Hu), (act_bind_returns _ _ _ _ _ (run_change _ _ _)). cbv zeta.
  set (w1 := set_connections _ _). assert (m_connections w1 !! a = Some (set_remote_height total c)) as Hc1 by (by apply change_lookup).
  destruct (check_objects_all E 0 chunk a w1 _ Hc1 HF Hnd) as (w2 & Hw2 & (Hk2 & Hclk2 & Hst2 & _) & Hc2).
  { simpl. by rewrite Hr. }
  { exact (accepts_unknown E hash_order _ _ _ Ha). }
  change (m_core w1) with (m_core w) in Hk2. change (clock w1) with (clock w) in Hclk2. change (m_stop w1) with (m_stop w) in Hst2.
  change (m_requested_objects (set_remote_height total c)) with (m_requested_objects c) in Hc2.
  rewrite Hr, difference_diag_L in Hc2.
  rewrite (act_bind_returns _ _ _ _ _ Hw2), (act_bind_returns _ _ _ _ _ (run_context w2 a _ Hc2)).
  rewrite bool_decide_eq_true_2 by done. cbn [negb]. rewrite zip_fst_snd.
  rewrite (act_bind_returns _ _ _ _ _ (processObjects_all E hash_order a chunk w2 ltac:(by rewrite Hst2) ltac:(by rewrite Hclk2, Hk2))).
  change (negb (0 =? 0)) with false. cbv iota. set (w3 := after_blocks _ _ w2 chunk).
  destruct (after_blocks_rest E hash_order w2 chunk) as (Hc3 & Hclk3 & Hst3). fold w3 in Hc3, Hclk3, Hst3. rewrite <- Hc3 in Hc2.
  rewrite (act_bind_returns (gets m_stop) _ _ _ _ eq_refl), (act_bind_returns _ _ _ _ _ (run_context w3 a _ Hc2)).
  exists w3. split; [exact Hc2|]. split; [unfold w3; by rewrite after_blocks_core, Hclk2, Hk2|].
  split; [by rewrite Hclk3|]. split; [by rewrite Hst3, Hst2|].
  rewrite Hst3, Hst2, Hstop. simpl m_state. cbn [negb andb]. case_bool_decide; [|done].
  rewrite !act_bind_eq. by destruct (request_missing_objects a true w3) as [[]].
Qed.

Lemma objects_taken a total w c chunk rest : m_connections w !! a = Some c -> idle_queue c ->
  m_state c = state_synchronizing -> m_stop w = false -> m_needed_objects c = block_hashes rest ->
  m_requested_objects c = list_to_set (block_hashes chunk) -> m_last_response_height c = total - 1 -> 0 < total < 2 ^ 32 ->
  Forall (fun x => sent_as E x.1 x.2) chunk -> NoDup (block_hashes chunk) ->
  accepts (clock w) (m_core w) (chunk ++ rest) -> Forall (fun h => length h = 32%nat) (block_hashes rest) ->
  (rest = [] -> KvMessages.hashes (ip_hashes (transactionPool (pool (foldl (add_to (clock w)) (m_core w) chunk))))) ->
  exists w', handle_response_get_objects E hash_order (fun w => w)
      (ResponseGetObjects [] (convertRawBlocksToRawBlocksLegacy (map snd chunk)) [] total) a w = (Returns 1, w') /\
    m_core w' = foldl (add_to (clock w)) (m_core w) chunk /\ clock w' = clock w /\
    if bool_decide (rest = []) then finished a w' else waits a total w' rest.
Proof.
  intros Hc Hi Hs Hstop Hn Hr Hl Ht HF Hnd Ha H32 Hp. apply accepts_app in Ha as [Ha Hrest].
  destruct (objects_added a total w c chunk Hc Hstop Hr ltac:(lia) HF Hnd Ha) as (w3 & Hc3 & Hk3 & Hclk3 & Hst3 & ->).
  rewrite bool_decide_eq_true_2 by done. rewrite <- Hk3, <- Hclk3 in Hrest.
  destruct (objects_continue a total w3 _ rest Hc3) as (w' & Hw' & (Hk' & Hclk' & _) & Hend);
    [done|done|done|done|done|done|done|done|done|done|by rewrite Hk3|].
  exists w'. rewrite (act_bind_returns _ _ _ _ _ Hw'). split; [done|]. split; [by rewrite Hk'|]. split; [by rewrite Hclk'|done].
Qed.

(** ** The blocks behind a common block *)

(** The main chain of the second node has these blocks from [off] on.  They are
    stored the way they were serialized, and an answer with a hundred of them
    is not too long for the queue. *)
Record serves k (off : nat) blocks : Prop := {
  sv_wf : core_wf E k;
  sv_stored : stored (main_chain k);
  sv_32 : Forall (fun h => length h = 32%nat) (main_hashes k);
  sv_hashes : drop off (main_hashes k) = block_hashes blocks;
  sv_raws : drop off (chain_storage (main_chain k)) = map snd blocks;
  sv_sent : Forall (fun x => sent_as E x.1 x.2) blocks;
  sv_ok : Forall raw_block_ok (convertRawBlocksToRawBlocksLegacy (map snd blocks));
  sv_fits i buf : encode response_get_objects_members
      (ResponseGetObjects [] (convertRawBlocksToRawBlocksLegacy (map snd (take 100 (drop i blocks)))) []
        (Z.of_nat (length (main_hashes k)))) = Returns buf ->
    Z.of_nat (length buf) <= P2P_CONNECTION_MAX_WRITE_BUFFER_SIZE
}.

Lemma serves_drop k off blocks n : serves k off blocks -> serves k (off + n) (drop n blocks).
Proof.
  intros [Hwf Hst H32 Hh Hr Hs Hok Hf]. split; [done|done|done|..].
  - by rewrite <- drop_drop, Hh, skipn_map.
  - by rewrite <- drop_drop, Hr, skipn_map.
  - by apply Forall_drop.
  - unfold convertRawBlocksToRawBlocksLegacy in *. rewrite <- !skipn_map. by apply Forall_drop.
  - intros i buf. rewrite drop_drop. apply Hf.
Qed.

Lemma serves_length k off blocks : serves k off blocks -> blocks <> [] ->
  (off + length blocks = length (main_hashes k))%nat /\ NoDup (block_hashes blocks) /\
  Forall (fun h => length h = 32%nat) (block_hashes blocks).
Proof.
  intros [Hwf Hst H32 Hh _ _ _ _] Hne. split_and!.
  - apply (f_equal length) in Hh. rewrite length_drop, length_map in Hh. destruct blocks; [done|]. simpl in *. lia.
  - rewrite <- Hh. eapply sublist_NoDup; [by apply main_NoDup with (E := E)|apply sublist_drop].
  - rewrite <- Hh. by apply Forall_drop.
Qed.

(** One request and its answer. *)
Lemma exchange_blocks a b w v d off blocks : serves (m_core v) off blocks -> blocks <> [] ->
  waits a (Z.of_nat (length (main_hashes (m_core v)))) w blocks -> accepts (clock w) (m_core w) blocks ->
  m_connections v !! b = Some d -> idle_queue d ->
  KvMessages.hashes (ip_hashes (transactionPool (pool (foldl (add_to (clock w)) (m_core w) blocks)))) ->
  exists w' v' d', exchange E hash_order a b (w, v) = (w', v') /\
    m_core v' = m_core v /\ m_connections v' !! b = Some d' /\ idle_queue d' /\
    m_core w' = foldl (add_to (clock w)) (m_core w) (take 100 blocks) /\ clock w' = clock w /\
    if bool_decide (drop 100 blocks = []) then finished a w'
    else waits a (Z.of_nat (length (main_hashes (m_core v)))) w' (drop 100 blocks).
Proof.
  intros Hsv Hne (c & buf & Hc & Hq & Hdec & Hs & Hn & Hr & Hl & Hstop) Ha Hd Hi Hp.
  destruct (serves_length _ _ _ Hsv Hne) as (Hlen & Hnd & H32). pose proof Hsv as [Hwf Hst _ Hh Hraw Hsent Hok Hfit].
  destruct (main_height E _ Hwf) as (_ & _ & Hht & _).
  set (total := Z.of_nat (length (main_hashes (m_core v)))) in *.
  assert (0 < total < 2 ^ 32) as Ht by (unfold total, AddBlock.hashes; rewrite length_map; exact Hht).
  set (n := length (take 100 blocks)).
  assert (take n (drop off (main_hashes (m_core v))) = take 100 (block_hashes blocks)) as Etake.
  { unfold n. rewrite Hh, length_take, <- (length_map (fun x => getBlockHash x.1)). apply take_min. }
  assert (take n (drop off (chain_storage (main_chain (m_core v)))) = map snd (take 100 blocks)) as Eraw.
  { unfold n. rewrite Hraw, length_take, <- firstn_map, <- (length_map snd blocks). apply take_min. }
  destruct (response_get_objects_round (ResponseGetObjects [] (convertRawBlocksToRawBlocksLegacy (map snd (take 100 blocks))) [] total)
    (ResponseGetObjects [] [] [] 0)) as (buf2 & He2 & Hd2).
  { constructor. }
  { done. }
  { cbn [rs_blocks]. unfold convertRawBlocksToRawBlocksLegacy in *. rewrite <- !firstn_map. by apply Forall_take. }
  { unfold short. cbn [rs_blocks]. unfold convertRawBlocksToRawBlocksLegacy. rewrite !length_map, length_take. lia. }
  { split; [constructor|done]. }
  { cbn [rs_current_blockchain_height]. mlia. }
  { constructor. }
  destruct (exchange_answer a b w v c d _ NOTIFY_RESPONSE_GET_OBJECTS_ID buf2 Hc Hq Hd Hi) as (v' & d' & Hex & Hk' & Hd' & Hi').
  { exact (Hfit 0%nat buf2 He2). }
  { eapply (receive_one request_get_objects_members _ handle_request_get_objects); [exact Hdec| |reflexivity].
    rewrite <- Etake. apply (objects_answered E v b d off n buf2); [done|done|done| |by rewrite Eraw].
    unfold n. rewrite length_take. lia. }
  rewrite Hex. set (w0 := set_connections _ w) in *.
  rewrite <- (take_drop 100 blocks) in Ha, Hp.
  destruct (objects_taken a total w0 (popBuffer c).2 (take 100 blocks) (drop 100 blocks)) as (w' & Hw' & Hk1 & Hclk & Hend); try done.
  { simpl. apply lookup_insert_eq. }
  { simpl. by rewrite Hn, skipn_map. }
  { simpl. by rewrite Hr, firstn_map. }
  { by apply Forall_take. }
  { rewrite <- firstn_map. eapply sublist_NoDup; [exact Hnd|apply sublist_take]. }
  { rewrite <- skipn_map. by apply Forall_drop. }
  { intros Hnil. rewrite Hnil, app_nil_r in Hp. exact Hp. }
  exists w', v', d'. split; [f_equal|by split_and!].
  eapply (receive_one response_get_objects_members _ (handle_response_get_objects E hash_order (fun w => w))); [exact Hd2|exact Hw'|reflexivity].
Qed.

Lemma exchanges_finish a b w v d off blocks : serves (m_core v) off blocks -> blocks <> [] ->
  waits a (Z.of_nat (length (main_hashes (m_core v)))) w blocks -> accepts (clock w) (m_core w) blocks ->
  m_connections v !! b = Some d -> idle_queue d ->
  KvMessages.hashes (ip_hashes (transactionPool (pool (foldl (add_to (clock w)) (m_core w) blocks)))) ->
  exists n, let '(w', v') := Nat.iter n (exchange E hash_order a b) (w, v) in
    finished a w' /\ m_core w' = foldl (add_to (clock w)) (m_core w) blocks /\ m_core v' = m_core v.
Proof.
  remember (length blocks) as len eqn:Elen. revert w v d off blocks Elen.
  induction len as [len IH] using lt_wf_ind. intros w v d off blocks Elen Hsv Hne Hw Ha Hd Hi Hp.
  destruct (exchange_blocks a b w v d off blocks Hsv Hne Hw Ha Hd Hi Hp)
    as (w1 & v1 & d1 & Hex & Hkv & Hd1 & Hi1 & Hkw & Hclk & Hend).
  rewrite <- (take_drop 100 blocks) in Ha, Hp. apply accepts_app in Ha as [_ Ha]. rewrite foldl_app in Hp.
  case_bool_decide as Hdone.
  - exists 1%nat. simpl. rewrite Hex. split; [done|]. rewrite <- (take_ge blocks 100); [done|].
    apply (f_equal length) in Hdone. rewrite length_drop in Hdone. simpl in Hdone. lia.
  - rewrite <- Hkv in Hend. rewrite <- Hkw, <- Hclk in Ha, Hp. pose proof (serves_drop _ _ _ 100 Hsv) as Hsv'. rewrite <- Hkv in Hsv'.
    assert (length (drop 100 blocks) < len)%nat as Hlt by (rewrite length_drop; destruct blocks; [done|]; simpl in *; lia).
    destruct (IH _ Hlt w1 v1 d1 _ (drop 100 blocks) eq_refl Hsv' Hdone Hend Ha Hd1 Hi1 Hp) as [n Hn].
    exists (S n). rewrite Nat.iter_succ_r, Hex. destruct (Nat.iter n _ _) as [w' v'].
    rewrite Hclk, Hkw, Hkv, <- foldl_app, take_drop in Hn. exact Hn.
Qed.

(** ** The chain *)

(** The ids of the answer fit into one message. *)
Lemma entry_window {A} (common theirs : list A) start : 0 <= start < Z.of_nat (length common) ->
  Z.of_nat (length common) - start + Z.of_nat (length theirs) <= 10000 ->
  let known := drop (Z.to_nat start) common in
  take (Z.to_nat BLOCKS_IDS_SYNCHRONIZING_DEFAULT_COUNT) (drop (Z.to_nat start) (common ++ theirs)) = known ++ theirs /\
  known <> [] /\ Z.of_nat (length (known ++ theirs)) <= 10000 /\
  start + Z.of_nat (length (known ++ theirs)) = Z.of_nat (length (common ++ theirs)).
Proof.
  intros Hs Hl known. assert (length known = length common - Z.to_nat start)%nat as Hk by apply length_drop.
  rewrite drop_app_le, take_ge by (rewrite ?length_app; fold known; lia). rewrite !length_app.
  split_and!; [done|destruct known; [simpl in *; lia|done]|lia..].
Qed.

Lemma entry_waits a w c known blocks start total : m_connections w !! a = Some c -> idle_queue c ->
  m_state c = state_synchronizing -> m_needed_objects c = [] -> m_requested_objects c = ∅ -> m_stop w = false ->
  known <> [] -> blocks <> [] -> Forall (fun h => core_hasBlock h (m_core w) = true) known ->
  (forall h, h ∈ block_hashes blocks -> core_hasBlock h (m_core w) = false) ->
  Forall (fun h => length h = 32%nat) (block_hashes blocks) ->
  0 <= start -> start + Z.of_nat (length (known ++ block_hashes blocks)) = total -> total < 2 ^ 32 ->
  exists w', handle_response_chain_entry (ResponseChainEntry start total (known ++ block_hashes blocks)) a w = (Returns 1, w') /\
    quiet w w' /\ waits a total w' blocks.
Proof.
  intros Hc Hi Hs Hn Hr Hstop Hk0 Hb0 Hknown Hnew H32 H0 Htot Ht.
  destruct (request_get_objects_delivers (take 100 (block_hashes blocks)) (RequestGetObjects [] [])) as (buf & He & Hd & Hb).
  { split; [by apply Forall_take|]. unfold short. rewrite length_take. lia. }
  { rewrite length_take. lia. }
  destruct (chain_entry_asks w a c known (block_hashes blocks) start total buf) as (w' & Hw' & Hq & Hc'); try done.
  { by destruct blocks. }
  { lia. }
  exists w'. split; [done|]. split; [done|]. destruct Hq as (_ & _ & Hst' & _).
  eexists _, buf. split; [exact Hc'|]. rewrite notify_idle, !push_base, Htot, Hst' by done. done.
Qed.

(** The first node asks for the chain, and the answer leads it to the blocks
    that it lacks. *)
Lemma exchange_chain a b w v c d common mine blocks : core_wf E (m_core w) ->
  main_hashes (m_core w) = common ++ mine -> main_hashes (m_core v) = common ++ block_hashes blocks ->
  common <> [] -> blocks <> [] -> serves (m_core v) (length common) blocks ->
  Forall (fun h => length h = 32%nat) mine ->
  Z.of_nat (length (common ++ mine)) <= 2 ^ 31 + 1 -> Z.of_nat (length mine + 1 + length blocks) <= 10000 ->
  m_connections w !! a = Some c -> idle_queue c -> m_state c = state_synchronizing -> m_needed_objects c = [] ->
  m_requested_objects c = ∅ -> m_stop w = false -> m_connections v !! b = Some d -> idle_queue d ->
  (forall h, h ∈ block_hashes blocks -> core_hasBlock h (m_core w) = false) ->
  exists w' v' d', exchange E hash_order a b ((start_sync a w).2, v) = (w', v') /\ m_core w' = m_core w /\
    clock w' = clock w /\ m_core v' = m_core v /\ m_connections v' !! b = Some d' /\ idle_queue d' /\
    waits a (Z.of_nat (length (main_hashes (m_core v)))) w' blocks.
Proof.
  intros Hk Ew Ev Hc0 Hb0 Hsv H32 Hlen Hwin Hc Hi Hs Hn Hr Hstop Hd Hdi Hnew.
  pose proof (sv_wf _ _ _ Hsv) as Hkv. pose proof (sv_32 _ _ _ Hsv) as H32v. rewrite Ev in H32v.
  destruct (supplement_near E (m_core w) (m_core v) common mine (block_hashes blocks) Hk Hkv Ew Ev Hc0)
    as (sparse & start & Hsp & Hsup & Hst & Hnear & Hlast & Hsl & Hin).
  { intros h Hm Hh. specialize (Hnew h Hh). rewrite (hasBlock_main E) in Hnew; [done|done|]. rewrite Ew. apply elem_of_app. by right. }
  { rewrite <- Ew in Hlen. unfold AddBlock.hashes in Hlen. by rewrite length_map in Hlen. }
  destruct (entry_window common (block_hashes blocks) start) as (Eids & Hknown & Hlids & Hend); [lia|..].
  { rewrite length_map. unfold AddBlock.hashes in Ew. apply (f_equal length) in Ew. rewrite length_map, length_app in Ew. lia. }
  set (known := drop (Z.to_nat start) common) in *. set (total := Z.of_nat (length (main_hashes (m_core v)))).
  destruct (main_height E _ Hkv) as (_ & _ & Hht & _).
  assert (0 < total < 2 ^ 32) as Ht by (unfold total, AddBlock.hashes; rewrite length_map; exact Hht).
  assert (start + Z.of_nat (length (known ++ block_hashes blocks)) = total) as Etot by (by rewrite Hend, <- Ev).
  apply Forall_app in H32v as [H32c H32b].
  destruct (request_chain_delivers sparse []) as (buf1 & He1 & Hd1 & Hb1).
  { split; [|unfold short; lia]. eapply Forall_impl; [exact Hin|]. apply Forall_forall. by apply Forall_app. }
  { lia. }
  destruct (response_chain_entry_delivers start total (known ++ block_hashes blocks) (ResponseChainEntry 0 0 [])) as (buf2 & He2 & Hd2 & Hb2).
  { mlia. }
  { mlia. }
  { split; [|unfold short; lia]. apply Forall_app. split; [by apply Forall_drop|done]. }
  { done. }
  rewrite (start_sync_asks w a c sparse buf1 Hc Hs Hsp He1). cbn [snd].
  destruct common as [|g common]; [done|].
  destruct (exchange_answer a b (on_conn a (notify NOTIFY_REQUEST_CHAIN_ID buf1) w) v _ d _ NOTIFY_RESPONSE_CHAIN_ENTRY_ID buf2
    (change_lookup _ _ _ _ Hc) (notify_idle _ _ _ Hi Hb1) Hd Hdi Hb2) as (v' & d' & Hex & Hkv' & Hd' & Hi').
  { eapply (receive_one request_chain_members _ handle_request_chain); [exact Hd1| |reflexivity].
    apply (request_chain_answered E v b d sparse g start buf2); [done|done|done|by rewrite Ev|done|lia|]. by rewrite Ev, Eids, <- Ev. }
  rewrite Hex. set (c1 := (popBuffer (notify NOTIFY_REQUEST_CHAIN_ID buf1 c)).2).
  set (w1 := set_connections (<[a := c1]> _) _).
  assert (base c1 = base c) as Ec1 by (unfold c1; cbn [popBuffer snd base]; apply push_base).
  destruct (entry_waits a w1 c1 known blocks start total) as (w' & Hw' & (Hk' & Hclk' & _) & Hwait);
    [by simpl; apply lookup_insert_eq|done|by rewrite Ec1..|done|done|done| |done|done|lia|done|lia|].
  { apply Forall_drop, Forall_forall. intros h Hh. apply (hasBlock_main E); [done|]. change (m_core w1) with (m_core w). rewrite Ew.
    apply elem_of_app. by left. }
  exists w', v', d'. split; [f_equal|by split_and!].
  eapply (receive_one response_chain_entry_members _ handle_response_chain_entry); [exact Hd2|exact Hw'|reflexivity].
Qed.

(** C2. A node that lacks blocks gets them.  A node whose main chain is
    [common ++ mine] is connected to one whose main chain goes on from [common]
    with blocks that it does not have.  It asks for the chain; after some
    exchanges of queued messages, each of which the other end decodes and
    handles, it has added exactly these blocks, in their order, has nothing left
    to ask for, takes the connection for a normal one and itself for
    synchronized; the core of the peer is what it was.  The blocks have to be
    acceptable one after the other, and the fork and the missing blocks have to
    fit into one list of hashes. *)
Theorem sync_completes a b w v c d common mine blocks : core_wf E (m_core w) ->
  main_hashes (m_core w) = common ++ mine -> main_hashes (m_core v) = common ++ block_hashes blocks ->
  common <> [] -> blocks <> [] -> serves (m_core v) (length common) blocks ->
  Forall (fun h => length h = 32%nat) mine ->
  Z.of_nat (length (common ++ mine)) <= 2 ^ 31 + 1 -> Z.of_nat (length mine + 1 + length blocks) <= 10000 ->
  m_connections w !! a = Some c -> idle_queue c -> m_state c = state_synchronizing -> m_needed_objects c = [] ->
  m_requested_objects c = ∅ -> m_stop w = false -> m_connections v !! b = Some d -> idle_queue d ->
  accepts (clock w) (m_core w) blocks ->
  KvMessages.hashes (ip_hashes (transactionPool (pool (foldl (add_to (clock w)) (m_core w) blocks)))) ->
  exists n, let '(w', v') := Nat.iter n (exchange E hash_order a b) ((start_sync a w).2, v) in
    finished a w' /\ m_core w' = foldl (add_to (clock w)) (m_core w) blocks /\ m_core v' = m_core v.
Proof.
  intros Hk Ew Ev Hc0 Hb0 Hsv H32 Hlen Hwin Hc Hi Hs Hn Hr Hstop Hd Hdi Ha Hp.
  destruct (exchange_chain a b w v c d common mine blocks) as (w1 & v1 & d1 & Hex & Hkw & Hclk & Hkv & Hd1 & Hi1 & Hw1);
    [assumption..| |].
  { apply Forall_forall, Forall_map. exact (accepts_unknown E hash_order _ _ _ Ha). }
  rewrite <- Hkv in Hw1, Hsv. rewrite <- Hkw, <- Hclk in Ha, Hp.
  destruct (exchanges_finish a b w1 v1 d1 (length common) blocks Hsv Hb0 Hw1 Ha Hd1 Hi1 Hp) as [n Hn'].
  exists (S n). rewrite Nat.iter_succ_r, Hex. destruct (Nat.iter n _ _) as [w' v']. by rewrite <- Hkv, <- Hkw, <- Hclk.
Qed.
End SyncRun.

(** ** A run *)

#[local] Existing Instance run_pool.

Lemma next_core_wf : core_wf template_environment next_core.
Proof.
  pose proof (addBlock_ok template_environment (fun l => l) 100 next_block next_raw sample_core sample_core_template_wf next_room eq_refl) as H.
  unfold next_core, add_to. cbn [fst snd]. destruct (addBlock _ _ _ _ _ _) as [r k']. apply H.
Qed.

Lemma next_core_stored : stored (main_chain next_core).
Proof.
  assert (map (fun s => length (storage s)) (main_chain next_core) = map (fun s => length (blockInfos s)) (main_chain next_core))
    as H by (vm_compute; reflexivity).
  unfold stored. revert H. induction (main_chain next_core) as [|s c IH]; intros H; [apply Forall_nil_2|].
  injection H as Hs Hc. apply Forall_cons. split; [exact Hs|by apply IH].
Qed.

Lemma next_core_serves : serves template_environment next_core 3 [(next_block, next_raw)].
Proof.
  split.
  - exact next_core_wf.
  - exact next_core_stored.
  - vm_compute. repeat constructor.
  - vm_compute. reflexivity.
  - vm_compute. reflexivity.
  - apply Forall_singleton. exact next_sent.
  - apply Forall_singleton. split; [vm_compute; reflexivity|]. split; [constructor|vm_compute; reflexivity].
  - intros [|i] buf.
    + intros H. vm_compute in H. injection H as <-. vm_compute. discriminate.
    + intros H. rewrite drop_ge in H by (simpl; lia). vm_compute in H. injection H as <-. vm_compute. discriminate.
Qed.

Definition behind_world : World (P := TransactionPool (C := list PendingTransactionInfo)) :=
  sample_world sample_core (sample_context state_synchronizing ∅).
Definition ahead_world : World (P := TransactionPool (C := list PendingTransactionInfo)) :=
  sample_world next_core (sample_context state_normal ∅).

Lemma sync_completes_witness :
  exists n, let '(w', v') := Nat.iter n (exchange template_environment (fun l => l) 1 1) ((start_sync 1 behind_world).2, ahead_world) in
    finished 1 w' /\ m_core w' = foldl (add_to template_environment (fun l => l) (clock behind_world)) (m_core behind_world) [(next_block, next_raw)] /\
    m_core v' = m_core ahead_world.
Proof.
  apply (sync_completes template_environment (fun l => l) 1 1 behind_world ahead_world (sample_context state_synchronizing ∅)
    (sample_context state_normal ∅) (AddBlock.hashes (main_blocks sample_core)) [] [(next_block, next_raw)] sample_core_template_wf).
  - vm_compute. reflexivity.
  - vm_compute. reflexivity.
  - vm_compute. discriminate.
  - discriminate.
  - exact next_core_serves.
  - constructor.
  - vm_compute. discriminate.
  - vm_compute. discriminate.
  - reflexivity.
  - split; reflexivity.
  - reflexivity.
  - reflexivity.
  - reflexivity.
  - reflexivity.
  - reflexivity.
  - split; reflexivity.
  - split; [|split; [|exact I]].
    + apply Forall_singleton. vm_compute. reflexivity.
    + exists ADDED_TO_MAIN. split; [vm_compute; reflexivity|discriminate].
  - split; [|vm_compute; reflexivity]. vm_compute. constructor.
Defined.
