(* ===== verification/Strangers.v ===== *)
(** * Peers without a handshake

    What a peer reaches before, or without, a handshake that the node accepts. *)

From stdpp Require Import gmap fin_sets fin_maps.
From S2P Require Import Prelude Config Stream Serializer Transaction Block Cached Pool Currency PoolCleaner Checkpoints.
From S2P Require Import Segments ChainSpec Validation Core CoreSpec AddBlock CoreStart CoreQueries TxQueries Template.
From S2P Require Import KvBinary KvMessages Levin Peers World Protocol NodeServer ProtocolSpec NodeRun Sync SyncRun.
Import BlockchainCache.

Section Strangers.
Variable E : Environment.
Context {P : Type} `{!ITransactionPool P}.
Variable hash_order : list Hash -> list Hash.
Variable sort : list PeerlistEntry -> list PeerlistEntry.
Variable others : World (P := P) -> World (P := P).
Variable ping_answer : Z -> Z -> option ping_response.
Variable s : NodeServer.
Abbreviation World := (World (P := P)).
Implicit Types (w : World) (c : P2pConnectionContext).

Lemma accepted conn v host port w :
  acceptLoop conn v host port w =
    (Returns tt, set_connections (<[conn := new_connection v (hostToNetwork host) port true]> (m_connections w)) w).
Proof. done. Qed.

(** ** Blocks *)

(** C24. No handshake is needed to give the node a block: on a connection that
    has just been accepted, a list of hashes that starts with a block the node
    has makes it ask for the next one, and the answer puts that block into the
    core, while the connection is still taken for one before its handshake. *)
Theorem stranger_adds_block conn v host port known b raw w : m_connections w !! conn = None -> m_stop w = false ->
  core_hasBlock known (m_core w) = true -> length (getBlockHash b) = 32%nat ->
  sent_as E b raw -> accepts E hash_order (clock w) (m_core w) [(b, raw)] ->
  let w1 := (acceptLoop conn v host port w).2 in
  let w2 := (handle_response_chain_entry (ResponseChainEntry 0 2 [known; getBlockHash b]) conn w1).2 in
  let w3 := (handle_response_get_objects E hash_order (fun w => w)
    (ResponseGetObjects [] (convertRawBlocksToRawBlocksLegacy [raw]) [] 2) conn w2).2 in
  m_core w3 = add_to E hash_order (clock w) (m_core w) (b, raw) /\
  exists c, m_connections w3 !! conn = Some c /\ m_state c = state_befor_handshake.
Proof.
  intros Hno Hstop Hknown H32 Hsent Ha w1 w2 w3.
  assert (m_connections w1 !! conn = Some (new_connection v (hostToNetwork host) port true)) as Hc1 by apply lookup_insert_eq.
  destruct (request_get_objects_delivers [getBlockHash b] (RequestGetObjects [] [])) as (buf & He & _ & Hb).
  { split; [by apply Forall_singleton|done]. }
  { done. }
  destruct (chain_entry_asks w1 conn _ [known] [getBlockHash b] 0 2 buf Hc1) as (w' & Hw' & (Hk & Hclk & Hst & _) & Hc'); try done.
  { by apply Forall_singleton. }
  { intros h ->%list_elem_of_singleton. destruct Ha as [Ha _]. by inversion Ha. }
  assert (w2 = w') as E2 by exact (f_equal snd Hw'). clear Hw'. subst w'.
  destruct (objects_added E hash_order conn 2 w2 _ [(b, raw)] Hc') as (w' & Hc3 & Hk3 & _ & _ & Hh).
  { by rewrite Hst. }
  { by rewrite push_base. }
  { rewrite push_base. simpl. lia. }
  { by apply Forall_singleton. }
  { apply NoDup_singleton. }
  { by rewrite Hclk, Hk. }
  rewrite push_base, bool_decide_eq_false_2 in Hh by done.
  assert (w3 = w') as -> by (unfold w3; exact (f_equal snd Hh)).
  split; [by rewrite Hk3, Hclk, Hk|]. eexists. split; [exact Hc3|]. simpl. by rewrite push_base.
Qed.

(** ** The count of peers *)

Definition refused_bytes : bytes :=
  match encode handshake_response_members (HandshakeResponse null_node_data null_sync_data []) with
  | Returns out => out
  | _ => []
  end.

Lemma run_p2p_context conn w c : m_connections w !! conn = Some c -> p2p_context conn w = (Returns c, w).
Proof. intros H. unfold p2p_context. by rewrite H. Qed.

(** The empty response can be encoded. *)
Lemma refused_encodes :
  encode handshake_response_members (HandshakeResponse null_node_data null_sync_data []) = Returns refused_bytes.
Proof. vm_compute. reflexivity. Qed.

Lemma stranger_refused conn arg w c : m_connections w !! conn = Some c -> network_id (hq_node_data arg) <> m_network_id s ->
  handle_handshake sort others ping_answer s arg conn w =
    (Returns (1, HandshakeResponse null_node_data null_sync_data []),
     set_connections (alter (fun c => set_state state_shutdown (set_version (KvMessages.version (hq_node_data arg)) c))
       conn (m_connections w)) w).
Proof.
  intros Hc Hnet. unfold handle_handshake. cbv zeta. rewrite (act_bind_returns _ _ _ _ _ (run_change _ _ _)).
  rewrite (act_bind_returns _ _ _ _ _ (run_p2p_context _ _ _ (change_lookup _ _ _ _ Hc))), bool_decide_eq_false_2 by done.
  cbn [negb]. rewrite (act_bind_returns _ _ _ _ _ (run_change _ _ _)). unfold mret, act_ret. f_equal.
  unfold set_connections. simpl. by rewrite alter_alter_eq.
Qed.

(** The handshake is refused, and answered. *)
Lemma stranger_served conn u cmd arg w c : m_connections w !! conn = Some c ->
  command cmd = COMMAND_HANDSHAKE_ID -> isResponse cmd = false ->
  decode handshake_request_members (buf cmd) (HandshakeRequest null_node_data null_sync_data) = Returns (Some arg) ->
  network_id (hq_node_data arg) <> m_network_id s ->
  exists c' w', serve E hash_order sort others ping_answer s u cmd conn w = (Returns false, w') /\
    m_connections w' !! conn = Some c' /\ m_state c' = state_shutdown /\
    exists f, w' = set_connections (alter f conn (m_connections w)) w.
Proof.
  intros Hc Hcmd Hresp Hdec Hnet. unfold serve, handleCommand. rewrite Hcmd, Hresp. cbn [andb].
  change (COMMAND_HANDSHAKE_ID =? COMMAND_HANDSHAKE_ID) with true. cbv iota.
  pose proof (stranger_refused conn arg w c Hc Hnet) as Hh. set (g := fun c => set_state _ _) in Hh.
  assert (invokeAdaptor handshake_request_members (HandshakeRequest null_node_data null_sync_data)
    handshake_response_members (buf cmd) (handle_handshake sort others ping_answer s) conn w =
    (Returns (1, refused_bytes), set_connections (alter g conn (m_connections w)) w)) as Hi.
  { unfold invokeAdaptor. rewrite Hdec, (act_bind_returns (lift (Returns (Some arg))) _ _ _ _ eq_refl).
    rewrite (act_bind_returns _ _ _ _ _ Hh). cbn [fst snd]. by rewrite refused_encodes. }
  pose proof (change_lookup w conn g c Hc) as Hc1. set (w1 := set_connections (alter g conn (m_connections w)) w) in *.
  rewrite act_bind_eq, (act_bind_returns _ _ _ _ _ Hi). cbn [mret act_ret]. destruct (needReply cmd).
  - rewrite (act_bind_returns _ _ _ _ _ (run_change _ _ _)).
    set (f := pushMessage _). pose proof (change_lookup w1 conn f _ Hc1) as Hc2.
    rewrite (act_bind_returns _ _ _ _ _ (run_context _ _ _ Hc2)).
    assert (m_state (f (g c)) = state_shutdown) as Hs by (unfold f; by rewrite push_base).
    rewrite bool_decide_eq_true_2 by exact Hs. eexists _, _. split; [reflexivity|]. split; [exact Hc2|]. split; [exact Hs|].
    exists (fun c => f (g c)). unfold w1, set_connections. simpl. by rewrite alter_alter_eq.
  - rewrite (act_bind_returns (mret tt) _ _ _ _ eq_refl), (act_bind_returns _ _ _ _ _ (run_context _ _ _ Hc1)).
    rewrite bool_decide_eq_true_2 by done. eexists _, w1. split; [reflexivity|]. split; [exact Hc1|]. split; [done|]. by exists g.
Qed.

(** C25. A peer of another network lowers the count of peers: its connection is
    accepted and not counted, its handshake is refused, and when the connection
    is closed for that reason the count goes down by one, from zero to 2^64 - 1. *)
Theorem stranger_uncounted conn v host port u cmd arg w : m_connections w !! conn = None ->
  command cmd = COMMAND_HANDSHAKE_ID -> isResponse cmd = false ->
  decode handshake_request_members (buf cmd) (HandshakeRequest null_node_data null_sync_data) = Returns (Some arg) ->
  network_id (hq_node_data arg) <> m_network_id s ->
  let w1 := (acceptLoop conn v host port w).2 in
  let w2 := (turn E hash_order sort others ping_answer s u cmd conn w1).2 in
  m_connections w2 = m_connections w /\ m_core w2 = m_core w /\
  m_peersCount w1 = m_peersCount w /\ m_peersCount w2 = u64 (m_peersCount w - 1).
Proof.
  intros Hno Hcmd Hresp Hdec Hnet w1 w2.
  destruct (stranger_served conn u cmd arg w1 (new_connection v (hostToNetwork host) port true)) as (c & w3 & Hs & Hc & Hst & f & Ef);
    [apply lookup_insert_eq|done..|].
  assert (w2 = (close_connection conn w3).2) as -> by (unfold w2, turn; by rewrite Hs).
  unfold close_connection, onConnectionClosed. destruct (run_recalculate conn w3 c Hc) as [x Hx].
  rewrite !act_bind_eq, Hx. set (w4 := set_heights _ _ w3). rewrite act_bind_eq.
  rewrite (run_context w4 conn c Hc), bool_decide_eq_false_2 by (by rewrite Hst). simpl. rewrite Ef. simpl.
  split_and!; [|done..]. rewrite delete_alter_eq, delete_insert_id by done. done.
Qed.
End Strangers.

(** ** Runs *)

#[local] Existing Instance run_pool.

Definition lonely_world : World (P := TransactionPool (C := list PendingTransactionInfo)) :=
  MkWorld sample_core ∅ false false 0 0 0 (Manager false [] []) [] 100 [].

Lemma stranger_adds_block_witness :
  let w1 := (acceptLoop 1 0 78 11897 lonely_world).2 in
  let w2 := (handle_response_chain_entry (ResponseChainEntry 0 2 [replicate 32 3; getBlockHash next_block]) 1 w1).2 in
  let w3 := (handle_response_get_objects template_environment (fun l => l) (fun w => w)
    (ResponseGetObjects [] (convertRawBlocksToRawBlocksLegacy [next_raw]) [] 2) 1 w2).2 in
  m_core w3 = add_to template_environment (fun l => l) (clock lonely_world) (m_core lonely_world) (next_block, next_raw) /\
  exists c : P2pConnectionContext, m_connections w3 !! 1 = Some c /\ m_state c = state_befor_handshake.
Proof.
  refine (stranger_adds_block template_environment (fun l => l) 1 0 78 11897 (replicate 32 3) next_block next_raw lonely_world
    eq_refl eq_refl _ _ next_sent _).
  - vm_compute. reflexivity.
  - vm_compute. reflexivity.
  - split; [|split; [|exact I]].
    + apply Forall_singleton. vm_compute. reflexivity.
    + exists ADDED_TO_MAIN. split; [vm_compute; reflexivity|discriminate].
Defined.

Definition foreign_request : handshake_request :=
  HandshakeRequest (MkNodeData (replicate 16 8) 4 100 11897 33) (MkSyncData 1 (replicate 32 1)).
Definition foreign_handshake : Command :=
  {| command := COMMAND_HANDSHAKE_ID; isNotify := false; isResponse := false;
     buf := match encode handshake_request_members foreign_request with Returns out => out | _ => [] end |}.

Lemma stranger_uncounted_witness :
  let w1 := (acceptLoop 1 0 78 11897 lonely_world).2 in
  let w2 := (turn template_environment (fun l => l) (fun l => l) (fun w => w) (fun _ _ => None) sample_server
    (TimedSyncResponse 0 null_sync_data []) foreign_handshake 1 w1).2 in
  m_peersCount w2 = 2 ^ 64 - 1 /\
  (m_connections w2 = m_connections lonely_world /\ m_core w2 = m_core lonely_world /\
   m_peersCount w1 = m_peersCount lonely_world /\ m_peersCount w2 = u64 (m_peersCount lonely_world - 1)).
Proof.
  split; [vm_compute; reflexivity|].
  refine (stranger_uncounted template_environment (fun l => l) (fun l => l) (fun w => w) (fun _ _ => None) sample_server
    1 0 78 11897 (TimedSyncResponse 0 null_sync_data []) foreign_handshake foreign_request lonely_world eq_refl eq_refl eq_refl _ _).
  - vm_compute. reflexivity.
  - vm_compute. discriminate.
Defined.
