(* ===== verification/SubWallet.v ===== *)
(** * One wallet of the wallet backend: [include/wallet_types.h] and
    [sub_wallets/sub_wallet.cpp]

    A wallet keeps the outputs that belong to its spend key, as inputs for
    transactions to come: those it can spend, those that an unconfirmed
    transaction of its own uses, and those that have been spent.  The functions
    of the curve code are arguments: what their out parameter holds after the
    call. *)

From stdpp Require Import gmap fin_sets.
From S2P Require Import Prelude Config Serializer Transaction.

(** ** [wallet_types.h] *)

Record WalletKeyOutput := MkWalletKeyOutput { wo_key : PublicKey; wo_amount : Z; wo_globalOutputIndex : option Z }.

Record RawCoinbaseTransaction := MkRawCoinbase {
  keyOutputs : list WalletKeyOutput;
  raw_txHash : Hash;
  transactionPublicKey : PublicKey;
  raw_unlockTime : Z
}.

Record RawTransaction := MkRawTransaction {
  raw_base :> RawCoinbaseTransaction;
  raw_paymentID : bytes;
  keyInputs : list KeyInput
}.

Record WalletBlockInfo := MkWalletBlock {
  coinbaseTransaction : RawCoinbaseTransaction;
  wb_transactions : list RawTransaction;
  wb_blockHeight : Z;
  wb_blockHash : Hash;
  blockTimestamp : Z
}.

Record TransactionInput := MkInput {
  ti_keyImage : KeyImage;
  ti_amount : Z;
  ti_blockHeight : Z;
  ti_transactionPublicKey : PublicKey;
  ti_transactionIndex : Z;
  ti_globalOutputIndex : option Z;
  ti_key : PublicKey;
  ti_spendHeight : Z;
  ti_unlockTime : Z;
  ti_parentTransactionHash : Hash
}.

Definition set_spendHeight (h : Z) (i : TransactionInput) : TransactionInput :=
  MkInput (ti_keyImage i) (ti_amount i) (ti_blockHeight i) (ti_transactionPublicKey i) (ti_transactionIndex i)
    (ti_globalOutputIndex i) (ti_key i) h (ti_unlockTime i) (ti_parentTransactionHash i).
Definition set_globalOutputIndex (x : option Z) (i : TransactionInput) : TransactionInput :=
  MkInput (ti_keyImage i) (ti_amount i) (ti_blockHeight i) (ti_transactionPublicKey i) (ti_transactionIndex i)
    x (ti_key i) (ti_spendHeight i) (ti_unlockTime i) (ti_parentTransactionHash i).

Record TxInputAndOwner := MkOwned { input : TransactionInput; ow_publicSpendKey : PublicKey; ow_privateSpendKey : SecretKey }.

(** [wallet_types::Transaction]; the amounts of [transfers] are signed. *)
Record WalletTransaction := MkWalletTransaction {
  transfers : gmap PublicKey Z;
  wt_hash : Hash;
  wt_fee : Z;
  wt_timestamp : Z;
  wt_blockHeight : Z;
  wt_paymentID : bytes;
  wt_unlockTime : Z;
  isCoinbaseTransaction : bool
}.

Record UnconfirmedInput := MkUnconfirmed { ui_amount : Z; ui_key : PublicKey; ui_parentTransactionHash : Hash }.

(** [utilities::isInputUnlocked]; [now] is [std::time]. *)
Definition isInputUnlocked (now unlockTime currentHeight : Z) : bool :=
  if unlockTime =? 0 then true
  else if MEVACOIN_MAX_BLOCK_NUMBER <=? unlockTime
  then unlockTime <=? u64 (u64 now + MEVACOIN_LOCKED_TX_ALLOWED_DELTA_SECONDS)
  else unlockTime <=? u64 (currentHeight + MEVACOIN_LOCKED_TX_ALLOWED_DELTA_BLOCKS).

(** ** The wallet *)

Record SubWallet := MkSubWallet {
  m_unspentInputs : list TransactionInput;
  m_lockedInputs : list TransactionInput;
  m_spentInputs : list TransactionInput;
  m_unconfirmedIncomingAmounts : list UnconfirmedInput;
  m_publicSpendKey : PublicKey;
  m_privateSpendKey : SecretKey;
  m_syncStartTimestamp : Z;
  m_syncStartHeight : Z;
  m_address : bytes;
  m_isPrimaryAddress : bool
}.

Definition set_inputs (unspent locked spent : list TransactionInput) (unconfirmed : list UnconfirmedInput) (w : SubWallet)
    : SubWallet :=
  MkSubWallet unspent locked spent unconfirmed (m_publicSpendKey w) (m_privateSpendKey w) (m_syncStartTimestamp w)
    (m_syncStartHeight w) (m_address w) (m_isPrimaryAddress w).
Definition set_sync_start (timestamp height : Z) (w : SubWallet) : SubWallet :=
  MkSubWallet (m_unspentInputs w) (m_lockedInputs w) (m_spentInputs w) (m_unconfirmedIncomingAmounts w)
    (m_publicSpendKey w) (m_privateSpendKey w) timestamp height (m_address w) (m_isPrimaryAddress w).

Definition BLANK_SECRET_KEY : SecretKey := replicate 32 0.

(** The two constructors. *)
Definition SubWallet_new (publicSpendKey : PublicKey) (privateSpendKey : SecretKey) (address : bytes)
    (scanHeight scanTimestamp : Z) (isPrimaryAddress : bool) : SubWallet :=
  MkSubWallet [] [] [] [] publicSpendKey privateSpendKey scanTimestamp scanHeight address isPrimaryAddress.
Definition SubWallet_view (publicSpendKey : PublicKey) (address : bytes) (scanHeight scanTimestamp : Z)
    (isPrimaryAddress : bool) : SubWallet :=
  SubWallet_new publicSpendKey BLANK_SECRET_KEY address scanHeight scanTimestamp isPrimaryAddress.

(** The first input with a key image, and the others. *)
Definition find_keyImage (k : KeyImage) (l : list TransactionInput) : option (nat * TransactionInput) :=
  list_find (fun x => ti_keyImage x = k) l.

Section Keys.
Variable derive_public_key : bytes -> Z -> PublicKey -> PublicKey.
Variable derive_secret_key : bytes -> Z -> SecretKey -> SecretKey.
Variable generate_key_image : PublicKey -> SecretKey -> KeyImage.
(** The constructor [KeyImage()] leaves its bytes as they are in memory. *)
Variable uninitialized : KeyImage.

Definition subWallet_getTxInputKeyImage (derivation : bytes) (outputIndex : Z) (isViewWallet : bool) (w : SubWallet)
    : KeyImage :=
  if isViewWallet then uninitialized
  else generate_key_image (derive_public_key derivation outputIndex (m_publicSpendKey w))
         (derive_secret_key derivation outputIndex (m_privateSpendKey w)).
End Keys.

Definition subWallet_storeTransactionInput (i : TransactionInput) (isViewWallet : bool) (w : SubWallet) : SubWallet :=
  set_inputs (m_unspentInputs w ++ [i]) (m_lockedInputs w) (m_spentInputs w)
    (if isViewWallet then m_unconfirmedIncomingAmounts w
     else filter (fun u => ui_key u <> ti_key i) (m_unconfirmedIncomingAmounts w)) w.

(** [(unlocked, locked)]; the calls of [std::time] of one sum give the same second. *)
Definition subWallet_getBalance (now currentHeight : Z) (w : SubWallet) : Z * Z :=
  let unlocked := fold_left (fun s i => if isInputUnlocked now (ti_unlockTime i) currentHeight
                                        then u64 (s + ti_amount i) else s) (m_unspentInputs w) 0 in
  let locked := fold_left (fun s i => if isInputUnlocked now (ti_unlockTime i) currentHeight
                                      then s else u64 (s + ti_amount i)) (m_unspentInputs w) 0 in
  (unlocked, fold_left (fun s u => u64 (s + ui_amount u)) (m_unconfirmedIncomingAmounts w) locked).

Definition subWallet_reset (scanHeight : Z) (w : SubWallet) : SubWallet :=
  set_inputs [] [] [] [] (set_sync_start 0 scanHeight w).

Definition hasKeyImage (k : KeyImage) (w : SubWallet) : bool :=
  bool_decide (is_Some (find_keyImage k (m_unspentInputs w))) || bool_decide (is_Some (find_keyImage k (m_lockedInputs w))).

(** [None] is the exception. *)
Definition subWallet_markInputAsSpent (k : KeyImage) (spendHeight : Z) (w : SubWallet) : option SubWallet :=
  match find_keyImage k (m_unspentInputs w) with
  | Some (n, i) =>
      Some (set_inputs (delete n (m_unspentInputs w)) (m_lockedInputs w) (m_spentInputs w ++ [set_spendHeight spendHeight i])
              (m_unconfirmedIncomingAmounts w) w)
  | None =>
      match find_keyImage k (m_lockedInputs w) with
      | Some (n, i) =>
          Some (set_inputs (m_unspentInputs w) (delete n (m_lockedInputs w)) (m_spentInputs w ++ [set_spendHeight spendHeight i])
                  (m_unconfirmedIncomingAmounts w) w)
      | None => None
      end
  end.

Definition subWallet_markInputAsLocked (k : KeyImage) (w : SubWallet) : option SubWallet :=
  match find_keyImage k (m_unspentInputs w) with
  | Some (n, i) =>
      Some (set_inputs (delete n (m_unspentInputs w)) (m_lockedInputs w ++ [i]) (m_spentInputs w)
              (m_unconfirmedIncomingAmounts w) w)
  | None => None
  end.

(** The predicates of [std::remove_if] add to the unspent inputs as they go. *)
Definition removeForkedInputs (forkHeight : Z) (w : SubWallet) : SubWallet :=
  set_inputs (filter (fun i => ti_blockHeight i < forkHeight) (m_unspentInputs w) ++
              map (set_spendHeight 0) (filter (fun i => forkHeight <= ti_spendHeight i) (m_spentInputs w)))
    [] (filter (fun i => ti_spendHeight i < forkHeight) (m_spentInputs w)) [] w.

Definition subWallet_removeCancelledTransactions (cancelledTransactions : gset Hash) (w : SubWallet) : SubWallet :=
  set_inputs (m_unspentInputs w ++
              map (set_spendHeight 0) (filter (fun i => ti_parentTransactionHash i ∈ cancelledTransactions) (m_lockedInputs w)))
    (filter (fun i => ti_parentTransactionHash i ∉ cancelledTransactions) (m_lockedInputs w)) (m_spentInputs w)
    (filter (fun u => ui_parentTransactionHash u ∉ cancelledTransactions) (m_unconfirmedIncomingAmounts w)) w.

Definition getSpendableInputs (now height : Z) (w : SubWallet) : list TxInputAndOwner :=
  map (fun i => MkOwned i (m_publicSpendKey w) (m_privateSpendKey w))
    (filter (fun i => isInputUnlocked now (ti_unlockTime i) height = true) (m_unspentInputs w)).

Definition subWallet_storeUnconfirmedIncomingInput (u : UnconfirmedInput) (w : SubWallet) : SubWallet :=
  set_inputs (m_unspentInputs w) (m_lockedInputs w) (m_spentInputs w) (m_unconfirmedIncomingAmounts w ++ [u]) w.

Definition subWallet_convertSyncTimestampToHeight (timestamp height : Z) (w : SubWallet) : SubWallet :=
  if negb (m_syncStartTimestamp w =? 0) then set_sync_start timestamp height w else w.

(** ** Finding a key image *)

Lemma find_keyImage_Some k l : k ∈ map ti_keyImage l ->
  exists n i, find_keyImage k l = Some (n, i) /\ ti_keyImage i = k /\ l ≡ₚ i :: delete n l.
Proof.
  intros (x & Hk & Hx)%list_elem_of_fmap. unfold find_keyImage.
  destruct (list_find_elem_of (fun x => ti_keyImage x = k) l x Hx (eq_sym Hk)) as [[n i] Hf]. exists n, i. split; [done|].
  apply list_find_Some in Hf as (Hn & Hi & _). split; [done|]. by apply delete_Permutation.
Qed.

Lemma find_keyImage_None k l : k ∉ map ti_keyImage l -> find_keyImage k l = None.
Proof.
  intros Hk. apply list_find_None, Forall_forall. intros x Hx Hxk. apply Hk, list_elem_of_fmap. by exists x.
Qed.

Lemma hasKeyImage_spec k w :
  hasKeyImage k w = true <-> k ∈ map ti_keyImage (m_unspentInputs w ++ m_lockedInputs w).
Proof.
  unfold hasKeyImage. rewrite orb_true_iff, !bool_decide_eq_true, map_app, elem_of_app.
  assert (forall l, is_Some (find_keyImage k l) <-> k ∈ map ti_keyImage l) as H; [|by rewrite !H].
  intros l. destruct (decide (k ∈ map ti_keyImage l)) as [Hin|Hno].
  - split; [done|]. intros _. destruct (find_keyImage_Some k l Hin) as (n & i & -> & _). by eexists.
  - rewrite find_keyImage_None by done. split; [by intros [??]|done].
Qed.

(** ** The inputs that are not spent *)

Definition live (w : SubWallet) : list TransactionInput := m_unspentInputs w ++ m_lockedInputs w.

(** What the operations on the inputs never change. *)
Definition keys_of (w : SubWallet) : PublicKey * SecretKey := (m_publicSpendKey w, m_privateSpendKey w).

Lemma perm_pick k i l r : NoDup (map ti_keyImage l) -> l ≡ₚ i :: r -> ti_keyImage i = k ->
  r ≡ₚ filter (fun x => ti_keyImage x <> k) l /\ [i] ≡ₚ filter (fun x => ti_keyImage x = k) l.
Proof.
  intros Hn Hp Hk. rewrite Hp in Hn. apply NoDup_cons in Hn as [Hi Hn].
  assert (forall x, x ∈ r -> ti_keyImage x <> k) as Hr.
  { intros x Hx Hxk. apply Hi, list_elem_of_fmap. exists x. split; [congruence|done]. }
  split; rewrite Hp.
  - rewrite filter_cons_False by (intros H; by apply H). by rewrite filter_all by (by apply Forall_forall).
  - rewrite filter_cons_True by done. rewrite filter_none; [done|]. by apply Forall_forall.
Qed.

(** An input that is live is moved, with its height, to the spent ones. *)
Lemma markInputAsSpent_live k h w : NoDup (map ti_keyImage (live w)) -> k ∈ map ti_keyImage (live w) ->
  exists w', subWallet_markInputAsSpent k h w = Some w' /\ keys_of w' = keys_of w /\
    live w' ≡ₚ filter (fun x => ti_keyImage x <> k) (live w) /\
    m_spentInputs w' ≡ₚ m_spentInputs w ++ map (set_spendHeight h) (filter (fun x => ti_keyImage x = k) (live w)) /\
    m_unconfirmedIncomingAmounts w' = m_unconfirmedIncomingAmounts w /\
    (m_lockedInputs w = [] -> m_lockedInputs w' = []).
Proof.
  intros Hn Hk. unfold subWallet_markInputAsSpent.
  destruct (decide (k ∈ map ti_keyImage (m_unspentInputs w))) as [Hu|Hu].
  - destruct (find_keyImage_Some _ _ Hu) as (n & i & -> & Hi & Hp). eexists. split; [done|]. split; [done|]. cbn.
    destruct (perm_pick k i (live w) (delete n (m_unspentInputs w) ++ m_lockedInputs w) Hn) as [H1 H2]; [by unfold live; rewrite Hp at 1|done|].
    split; [done|]. split; [|done]. by rewrite <- H2.
  - rewrite (find_keyImage_None _ _ Hu). unfold live in Hk. rewrite map_app, elem_of_app in Hk.
    destruct Hk as [?|Hl]; [done|].
    destruct (find_keyImage_Some _ _ Hl) as (n & i & -> & Hi & Hp). eexists. split; [done|]. split; [done|]. cbn.
    destruct (perm_pick k i (live w) (m_unspentInputs w ++ delete n (m_lockedInputs w)) Hn) as [H1 H2];
      [by unfold live; rewrite Hp at 1; apply Permutation_sym, Permutation_middle|done|].
    split; [done|]. split; [by rewrite <- H2|]. split; [done|]. intros E. rewrite E in Hl. by apply not_elem_of_nil in Hl.
Qed.

Lemma storeTransactionInput_live i v w : live (subWallet_storeTransactionInput i v w) ≡ₚ live w ++ [i].
Proof. unfold live. cbn. by rewrite <- !app_assoc, (Permutation_app_comm [i]). Qed.
