(* ===== verification/SubWallets.v ===== *)
(** * The wallets of one file: [sub_wallets/sub_wallets.cpp],
    [utilities/addresses.cpp] and the times of [utilities/utilities.cpp]

    The container holds one wallet for each spend key, the transactions found on
    the chain and those sent and not found yet.  An exception is [None].  Where
    the code walks a hashed map the order is an argument, and so is what
    [std::shuffle] does. *)

From stdpp Require Import gmap fin_sets fin_maps.
From S2P Require Import Prelude Config Serializer Transaction Base58 Currency SubWallet.

(** [errors/errors.h], the codes that the container returns. *)
Inductive WalletError :=
  | SUCCESS
  | ADDRESS_NOT_IN_WALLET
  | SUBWALLET_ALREADY_EXISTS
  | ILLEGAL_VIEW_WALLET_OPERATION
  | ILLEGAL_NON_VIEW_WALLET_OPERATION
  | CANNOT_DELETE_PRIMARY_ADDRESS
  | UNSUPPORTED_WALLET_FILE_FORMAT_VERSION.

Record SubWallets := MkSubWallets {
  m_publicSpendKeys : list PublicKey;
  m_subWallets : gmap PublicKey SubWallet;
  m_transactions : list WalletTransaction;
  m_lockedTransactions : list WalletTransaction;
  m_privateViewKey : SecretKey;
  m_isViewWallet : bool;
  m_transactionPrivateKeys : gmap Hash SecretKey
}.

Definition set_subWallets (m : gmap PublicKey SubWallet) (s : SubWallets) : SubWallets :=
  MkSubWallets (m_publicSpendKeys s) m (m_transactions s) (m_lockedTransactions s) (m_privateViewKey s)
    (m_isViewWallet s) (m_transactionPrivateKeys s).
Definition set_wallet_transactions (txs locked : list WalletTransaction) (s : SubWallets) : SubWallets :=
  MkSubWallets (m_publicSpendKeys s) (m_subWallets s) txs locked (m_privateViewKey s)
    (m_isViewWallet s) (m_transactionPrivateKeys s).

(** ** [utilities] *)

Abbreviation GENESIS_BLOCK_TIMESTAMP := 1324214400 (only parsing).

Definition getCurrentTimestampAdjusted (now : Z) : Z :=
  u64 (now - Z.max (Z.max MEVACOIN_BLOCK_FUTURE_TIME_LIMIT MEVACOIN_BLOCK_FUTURE_TIME_LIMIT_V3) MEVACOIN_BLOCK_FUTURE_TIME_LIMIT_V4).

Definition scanHeightToTimestamp (now scanHeight : Z) : Z :=
  if scanHeight =? 0 then 0
  else
    let secondsSinceLaunch := u64 (scanHeight * DIFFICULTY_TARGET) in
    let timestamp := u64 (GENESIS_BLOCK_TIMESTAMP + secondsSinceLaunch) in
    if getCurrentTimestampAdjusted now <=? timestamp then getCurrentTimestampAdjusted now else timestamp.

Definition timestampToScanHeight (timestamp : Z) : Z :=
  if timestamp =? 0 then 0
  else if timestamp <=? GENESIS_BLOCK_TIMESTAMP then 0
  else (timestamp - GENESIS_BLOCK_TIMESTAMP) / DIFFICULTY_TARGET.

Section Addresses.
Variable cn_fast_hash : bytes -> bytes.
Variable check_key : PublicKey -> bool.
Variable secret_key_to_public_key : SecretKey -> PublicKey.

Definition addressToKeys (address : bytes) : option (PublicKey * PublicKey) :=
  '(prefix, adr) ← parseAccountAddressString cn_fast_hash check_key address;
  if negb (prefix =? MEVACOIN_PUBLIC_ADDRESS_BASE58_PREFIX) then None
  else Some (spendPublicKey adr, viewPublicKey adr).

Definition publicKeysToAddress (publicSpendKey publicViewKey : PublicKey) : option bytes :=
  getAccountAddressAsStr cn_fast_hash MEVACOIN_PUBLIC_ADDRESS_BASE58_PREFIX
    {| spendPublicKey := publicSpendKey; viewPublicKey := publicViewKey |}.

Definition privateKeysToAddress (privateSpendKey privateViewKey : SecretKey) : option bytes :=
  publicKeysToAddress (secret_key_to_public_key privateSpendKey) (secret_key_to_public_key privateViewKey).

(** ** Making the container *)

Definition new_container (publicSpendKey : PublicKey) (w : SubWallet) (privateViewKey : SecretKey) (isView : bool)
    : SubWallets :=
  MkSubWallets [publicSpendKey] {[publicSpendKey := w]} [] [] privateViewKey isView ∅.

Definition SubWallets_new (now : Z) (privateSpendKey privateViewKey : SecretKey) (address : bytes) (scanHeight : Z)
    (newWallet : bool) : SubWallets :=
  let publicSpendKey := secret_key_to_public_key privateSpendKey in
  let timestamp := if newWallet then getCurrentTimestampAdjusted now else 0 in
  new_container publicSpendKey (SubWallet_new publicSpendKey privateSpendKey address scanHeight timestamp true)
    privateViewKey false.

Definition SubWallets_view (now : Z) (privateViewKey : SecretKey) (address : bytes) (scanHeight : Z) (newWallet : bool)
    : option SubWallets :=
  '(publicSpendKey, _) ← addressToKeys address;
  let timestamp := if newWallet then getCurrentTimestampAdjusted now else 0 in
  Some (new_container publicSpendKey (SubWallet_view publicSpendKey address scanHeight timestamp true) privateViewKey true).

(** The assignment [m_subWallets[key] = w] and the key at the end of the list. *)
Definition insert_wallet (key : PublicKey) (w : SubWallet) (s : SubWallets) : SubWallets :=
  MkSubWallets (m_publicSpendKeys s ++ [key]) (<[key := w]> (m_subWallets s)) (m_transactions s) (m_lockedTransactions s)
    (m_privateViewKey s) (m_isViewWallet s) (m_transactionPrivateKeys s).

(** [spendKey]: the key pair of [generate_keys].  The result is the error, the
    address and the private spend key where there is no error. *)
Definition addSubWallet (now : Z) (spendKey : PublicKey * SecretKey) (s : SubWallets)
    : option ((WalletError * bytes * option SecretKey) * SubWallets) :=
  if m_isViewWallet s then Some ((ILLEGAL_VIEW_WALLET_OPERATION, [], None), s)
  else
    address ← privateKeysToAddress spendKey.2 (m_privateViewKey s);
    Some ((SUCCESS, address, Some spendKey.2),
          insert_wallet spendKey.1
            (SubWallet_new spendKey.1 spendKey.2 address 0 (getCurrentTimestampAdjusted now) false) s).

Definition importSubWallet (privateSpendKey : SecretKey) (scanHeight : Z) (s : SubWallets)
    : option ((WalletError * bytes) * SubWallets) :=
  if m_isViewWallet s then Some ((ILLEGAL_VIEW_WALLET_OPERATION, []), s)
  else
    let publicSpendKey := secret_key_to_public_key privateSpendKey in
    address ← privateKeysToAddress privateSpendKey (m_privateViewKey s);
    match m_subWallets s !! publicSpendKey with
    | Some _ => Some ((SUBWALLET_ALREADY_EXISTS, []), s)
    | None =>
        Some ((SUCCESS, address),
              insert_wallet publicSpendKey (SubWallet_new publicSpendKey privateSpendKey address scanHeight 0 false) s)
    end.

Definition importViewSubWallet (publicSpendKey : PublicKey) (scanHeight : Z) (s : SubWallets)
    : option ((WalletError * bytes) * SubWallets) :=
  if negb (m_isViewWallet s) then Some ((ILLEGAL_NON_VIEW_WALLET_OPERATION, []), s)
  else
    match m_subWallets s !! publicSpendKey with
    | Some _ => Some ((SUBWALLET_ALREADY_EXISTS, []), s)
    | None =>
        address ← publicKeysToAddress publicSpendKey (secret_key_to_public_key (m_privateViewKey s));
        Some ((SUCCESS, address),
              insert_wallet publicSpendKey (SubWallet_view publicSpendKey address scanHeight 0 false) s)
    end.

Definition deleteAddressTransactions (spendKey : PublicKey) (txs : list WalletTransaction) : list WalletTransaction :=
  omap (fun tx =>
    match transfers tx !! spendKey with
    | Some _ =>
        if decide (size (transfers tx) = 1%nat) then None
        else Some (MkWalletTransaction (delete spendKey (transfers tx)) (wt_hash tx) (wt_fee tx) (wt_timestamp tx)
                     (wt_blockHeight tx) (wt_paymentID tx) (wt_unlockTime tx) (isCoinbaseTransaction tx))
    | None => Some tx
    end) txs.

Definition deleteSubWallet (address : bytes) (s : SubWallets) : option (WalletError * SubWallets) :=
  '(spendKey, _) ← addressToKeys address;
  match m_subWallets s !! spendKey with
  | None => Some (ADDRESS_NOT_IN_WALLET, s)
  | Some w =>
      if m_isPrimaryAddress w then Some (CANNOT_DELETE_PRIMARY_ADDRESS, s)
      else
        Some (SUCCESS,
          MkSubWallets (filter (fun k => k <> spendKey) (m_publicSpendKeys s)) (delete spendKey (m_subWallets s))
            (deleteAddressTransactions spendKey (m_transactions s))
            (deleteAddressTransactions spendKey (m_lockedTransactions s))
            (m_privateViewKey s) (m_isViewWallet s) (m_transactionPrivateKeys s))
  end.
End Addresses.

(** ** Transactions *)

Definition throwIfViewWallet (s : SubWallets) : option unit := if m_isViewWallet s then None else Some tt.

Definition addUnconfirmedTransaction (tx : WalletTransaction) (s : SubWallets) : option SubWallets :=
  if decide (wt_hash tx ∈ map wt_hash (m_lockedTransactions s)) then None
  else Some (set_wallet_transactions (m_transactions s) (m_lockedTransactions s ++ [tx]) s).

Definition wallet_addTransaction (tx : WalletTransaction) (s : SubWallets) : option SubWallets :=
  let locked := filter (fun t => wt_hash tx <> wt_hash t) (m_lockedTransactions s) in
  if decide (wt_hash tx ∈ map wt_hash (m_transactions s)) then None
  else Some (set_wallet_transactions (m_transactions s ++ [tx]) locked s).

Definition getLockedTransactionsHashes (s : SubWallets) : option (gset Hash) :=
  _ ← throwIfViewWallet s; Some (list_to_set (map wt_hash (m_lockedTransactions s))).

(** ** Inputs *)

Section Inputs.
Variable derive_public_key : bytes -> Z -> PublicKey -> PublicKey.
Variable derive_secret_key : bytes -> Z -> SecretKey -> SecretKey.
Variable generate_key_image : PublicKey -> SecretKey -> KeyImage.
Variable uninitialized : KeyImage.

Definition getTxInputKeyImage (publicSpendKey : PublicKey) (derivation : bytes) (outputIndex : Z) (s : SubWallets)
    : option KeyImage :=
  w ← m_subWallets s !! publicSpendKey;
  Some (subWallet_getTxInputKeyImage derive_public_key derive_secret_key generate_key_image uninitialized
          derivation outputIndex (m_isViewWallet s) w).
End Inputs.

Definition storeTransactionInput (publicSpendKey : PublicKey) (i : TransactionInput) (s : SubWallets) : option SubWallets :=
  w ← m_subWallets s !! publicSpendKey;
  Some (set_subWallets (<[publicSpendKey := subWallet_storeTransactionInput i (m_isViewWallet s) w]> (m_subWallets s)) s).

Definition storeUnconfirmedIncomingInput (u : UnconfirmedInput) (publicSpendKey : PublicKey) (s : SubWallets) : SubWallets :=
  match m_subWallets s !! publicSpendKey with
  | Some w => set_subWallets (<[publicSpendKey := subWallet_storeUnconfirmedIncomingInput u w]> (m_subWallets s)) s
  | None => s
  end.

Definition markInputAsSpent (k : KeyImage) (publicKey : PublicKey) (spendHeight : Z) (s : SubWallets) : option SubWallets :=
  _ ← throwIfViewWallet s;
  w ← m_subWallets s !! publicKey;
  w' ← subWallet_markInputAsSpent k spendHeight w;
  Some (set_subWallets (<[publicKey := w']> (m_subWallets s)) s).

Definition markInputAsLocked (k : KeyImage) (publicKey : PublicKey) (s : SubWallets) : option SubWallets :=
  _ ← throwIfViewWallet s;
  w ← m_subWallets s !! publicKey;
  w' ← subWallet_markInputAsLocked k w;
  Some (set_subWallets (<[publicKey := w']> (m_subWallets s)) s).

Definition removeForkedTransactions (forkHeight : Z) (s : SubWallets) : SubWallets :=
  set_subWallets (removeForkedInputs forkHeight <$> m_subWallets s)
    (set_wallet_transactions (filter (fun tx => wt_blockHeight tx < forkHeight) (m_transactions s)) (m_lockedTransactions s) s).

Definition removeCancelledTransactions (cancelled : gset Hash) (s : SubWallets) : option SubWallets :=
  _ ← throwIfViewWallet s;
  Some (set_subWallets (subWallet_removeCancelledTransactions cancelled <$> m_subWallets s)
    (set_wallet_transactions (m_transactions s) (filter (fun tx => wt_hash tx ∉ cancelled) (m_lockedTransactions s)) s)).

(** The loops of [reset] and of [convertSyncTimestampToHeight] bind each wallet
    by value: the copies are changed and thrown away. *)
Definition subWallets_reset (scanHeight : Z) (s : SubWallets) : SubWallets :=
  let copies := subWallet_reset scanHeight <$> m_subWallets s in
  MkSubWallets (m_publicSpendKeys s) (m_subWallets s) [] [] (m_privateViewKey s) (m_isViewWallet s) ∅.
Definition subWallets_convertSyncTimestampToHeight (timestamp height : Z) (s : SubWallets) : SubWallets :=
  let copies := subWallet_convertSyncTimestampToHeight timestamp height <$> m_subWallets s in
  s.

Definition storeTxPrivateKey (txPrivateKey : SecretKey) (txHash : Hash) (s : SubWallets) : SubWallets :=
  MkSubWallets (m_publicSpendKeys s) (m_subWallets s) (m_transactions s) (m_lockedTransactions s) (m_privateViewKey s)
    (m_isViewWallet s) (<[txHash := txPrivateKey]> (m_transactionPrivateKeys s)).

(** ** Queries *)

Section Queries.
(** The order in which the hashed maps are walked, and the shuffles. *)
Variable walk : gmap PublicKey SubWallet -> list (PublicKey * SubWallet).
Variable shuffle : list TxInputAndOwner -> list TxInputAndOwner.

(** [(found, key)] with the key where one is found. *)
Definition getKeyImageOwner (k : KeyImage) (s : SubWallets) : option PublicKey :=
  if m_isViewWallet s then None
  else
    '(_, (_, w)) ← list_find (fun kw => hasKeyImage k kw.2 = true) (walk (m_subWallets s));
    Some (m_publicSpendKey w).

Definition taken_from (takeFromAll : bool) (subWalletsToTakeFrom : list PublicKey) (s : SubWallets) : list PublicKey :=
  if takeFromAll then m_publicSpendKeys s else subWalletsToTakeFrom.

(** The spendable inputs of the wallets of a list of keys. *)
Definition availableInputs (now height : Z) (keys : list PublicKey) (s : SubWallets) : option (list TxInputAndOwner) :=
  wallets ← mapM (fun k => m_subWallets s !! k) keys;
  Some (concat (map (getSpendableInputs now height) wallets)).

Fixpoint take_amount (amount foundMoney : Z) (inputsToUse available : list TxInputAndOwner)
    : option (list TxInputAndOwner * Z) :=
  match available with
  | [] => None
  | x :: rest =>
      let inputsToUse := inputsToUse ++ [x] in
      let foundMoney := u64 (foundMoney + ti_amount (input x)) in
      if amount <=? foundMoney then Some (inputsToUse, foundMoney) else take_amount amount foundMoney inputsToUse rest
  end.

Definition getTransactionInputsForAmount (now amount : Z) (takeFromAll : bool) (subWalletsToTakeFrom : list PublicKey)
    (height : Z) (s : SubWallets) : option (list TxInputAndOwner * Z) :=
  _ ← throwIfViewWallet s;
  available ← availableInputs now height (taken_from takeFromAll subWalletsToTakeFrom s) s;
  take_amount amount 0 [] (shuffle available).

(** The conversion [int numberOfDigits = log10(amount)]; [None] where it is
    undefined, as for the amount zero. *)
Variable log10 : Z -> option Z.
Variable walk_buckets : gmap Z (list TxInputAndOwner) -> list (Z * list TxInputAndOwner).
Variable shuffle_buckets : list (list TxInputAndOwner) -> list (list TxInputAndOwner).

Fixpoint fill_buckets (buckets : gmap Z (list TxInputAndOwner)) (l : list TxInputAndOwner)
    : option (gmap Z (list TxInputAndOwner)) :=
  match l with
  | [] => Some buckets
  | x :: rest =>
      digits ← log10 (ti_amount (input x));
      let numberOfDigits := u64 digits in
      fill_buckets (<[numberOfDigits := default [] (buckets !! numberOfDigits) ++ [x]]> buckets) rest
  end.

Fixpoint take_inputs (maxInputsToTake foundMoney : Z) (inputsToUse l : list TxInputAndOwner) : list TxInputAndOwner * Z :=
  match l with
  | [] => (inputsToUse, foundMoney)
  | x :: rest =>
      let inputsToUse := inputsToUse ++ [x] in
      let foundMoney := u64 (foundMoney + ti_amount (input x)) in
      if maxInputsToTake <=? Z.of_nat (length inputsToUse) then (inputsToUse, foundMoney)
      else take_inputs maxInputsToTake foundMoney inputsToUse rest
  end.

(** [(inputsToUse, maxInputsToTake, foundMoney)] *)
Definition getFusionTransactionInputs (now : Z) (takeFromAll : bool) (subWalletsToTakeFrom : list PublicKey)
    (mixin height : Z) (s : SubWallets) : option (list TxInputAndOwner * Z * Z) :=
  _ ← throwIfViewWallet s;
  available ← availableInputs now height (taken_from takeFromAll subWalletsToTakeFrom s) s;
  let maxInputsToTake := getApproximateMaximumInputCount FUSION_TX_MAX_SIZE FUSION_TX_MIN_IN_OUT_COUNT_RATIO mixin in
  buckets ← fill_buckets ∅ (shuffle available);
  let all := map snd (walk_buckets buckets) in
  let fullBuckets := filter (fun b => FUSION_TX_MIN_INPUT_COUNT <= Z.of_nat (length b)) all in
  let bucketsToTakeFrom :=
    match shuffle_buckets fullBuckets with
    | full :: _ => [full]
    | [] => all
    end in
  let '(inputsToUse, foundMoney) := take_inputs maxInputsToTake 0 [] (concat bucketsToTakeFrom) in
  Some (inputsToUse, maxInputsToTake, foundMoney).

Definition getBalance (now : Z) (subWalletsToTakeFrom : list PublicKey) (takeFromAll : bool) (currentHeight : Z)
    (s : SubWallets) : option (Z * Z) :=
  wallets ← mapM (fun k => m_subWallets s !! k) (taken_from takeFromAll subWalletsToTakeFrom s);
  Some (fold_left (fun '(unlockedBalance, lockedBalance) w =>
          let '(unlocked, locked) := subWallet_getBalance now currentHeight w in
          (u64 (unlockedBalance + unlocked), u64 (lockedBalance + locked))) wallets (0, 0)).

(** The least value of a field, as [std::min_element]; the container is never empty. *)
Definition min_field (f : SubWallet -> Z) (l : list (PublicKey * SubWallet)) : option Z :=
  match l with
  | [] => None
  | (_, w) :: rest => Some (fold_left (fun m kw => Z.min m (f kw.2)) rest (f w))
  end.

(** [(height, timestamp)] *)
Definition getMinInitialSyncStart (now : Z) (s : SubWallets) : option (Z * Z) :=
  minTimestamp ← min_field m_syncStartTimestamp (walk (m_subWallets s));
  minHeight ← min_field m_syncStartHeight (walk (m_subWallets s));
  if (minHeight =? 0) || (minTimestamp =? 0) then Some (minHeight, minTimestamp)
  else if scanHeightToTimestamp now minHeight <? minTimestamp then Some (minHeight, 0)
  else Some (0, minTimestamp).
End Queries.
