(* ===== verification/WalletSync.v ===== *)
(** * The wallet's synchronizer: [wallet_backend/wallet_synchronizer.cpp] and
    [wallet_backend/synchronization_status.cpp]

    The synchronizer asks a daemon for blocks, finds the outputs and the key
    images that belong to the wallets of the container, and stores what it
    found.  The daemon is a record of its answers, the curve functions are
    arguments, an exception (which ends the program) is [None], and what is told
    to the event handler is a list. *)

From stdpp Require Import gmap fin_sets fin_maps.
From S2P Require Import Prelude Config Serializer Transaction SubWallet SubWallets.

(** ** [synchronization_status.cpp] and [constants.h] *)

Abbreviation LAST_KNOWN_BLOCK_HASHES_SIZE := 100%nat (only parsing).
Abbreviation BLOCK_HASH_CHECKPOINTS_INTERVAL := 5000 (only parsing).
Abbreviation GLOBAL_INDEXES_OBSCURITY := 10 (only parsing).

Record SynchronizationStatus := MkSyncStatus {
  m_blockHashCheckpoints : list Hash;
  m_lastKnownBlockHashes : list Hash;
  m_lastKnownBlockHeight : Z
}.

Definition SynchronizationStatus_new : SynchronizationStatus := MkSyncStatus [] [] 0.

Definition storeBlockHash (hash : Hash) (height : Z) (st : SynchronizationStatus) : option SynchronizationStatus :=
  if (m_lastKnownBlockHeight st <? height) && negb (m_lastKnownBlockHeight st =? 0) &&
     negb (height =? u64 (m_lastKnownBlockHeight st + 1))
  then None
  else
    let known := hash :: m_lastKnownBlockHashes st in
    Some (MkSyncStatus
      (if height mod BLOCK_HASH_CHECKPOINTS_INTERVAL =? 0 then hash :: m_blockHashCheckpoints st else m_blockHashCheckpoints st)
      (if decide (LAST_KNOWN_BLOCK_HASHES_SIZE < length known)%nat then removelast known else known)
      height).

Definition getBlockHashCheckpoints (st : SynchronizationStatus) : list Hash :=
  m_lastKnownBlockHashes st ++ m_blockHashCheckpoints st.

(** ** [utilities.cpp] *)

Definition getLowerBound (val nearestMultiple : Z) : Z := val - val mod nearestMultiple.
Definition getUpperBound (val nearestMultiple : Z) : Z := u64 (getLowerBound val nearestMultiple + nearestMultiple).

(** ** The synchronizer *)

(** What the daemon answers; [None] is a call that fails. *)
Record Nigel := MkNigel {
  localDaemonBlockCount : Z;
  networkBlockCount : Z;
  getWalletSyncData : list Hash -> Z -> Z -> option (list WalletBlockInfo);
  getGlobalIndexesForRange : Z -> Z -> option (gmap Hash (list Z));
  (** the transactions in the pool, those in a block, the cancelled ones *)
  getTransactionsStatus : gset Hash -> option (gset Hash * gset Hash * gset Hash)
}.

Record WalletSynchronizer := MkSynchronizer {
  m_syncStatus : SynchronizationStatus;
  m_startTimestamp : Z;
  m_startHeight : Z;
  ws_privateViewKey : SecretKey;
  ws_subWallets : SubWallets
}.

Definition set_ws_subWallets (s : SubWallets) (ws : WalletSynchronizer) : WalletSynchronizer :=
  MkSynchronizer (m_syncStatus ws) (m_startTimestamp ws) (m_startHeight ws) (ws_privateViewKey ws) s.

Inductive WalletEvent :=
  | onTransaction (tx : WalletTransaction)
  | onSynced (height : Z).

Abbreviation OwnedInput := (PublicKey * TransactionInput)%type.

Record BlockScanTmpInfo := MkScanInfo {
  transactionsToAdd : list WalletTransaction;
  inputsToAdd : list OwnedInput;
  keyImagesToMarkSpent : list (PublicKey * KeyImage)
}.

(** [wallet_config.h] *)
Abbreviation processCoinbaseTransactions := true (only parsing).

(** A loop over a list whose body may throw. *)
Definition for_each {A S} (f : A -> S -> option S) : list A -> S -> option S :=
  fix go l s :=
    match l with
    | [] => Some s
    | x :: l => s' ← f x s; go l s'
    end.

Lemma for_each_step {A S} (f : A -> S -> option S) x l s s' : f x s = Some s' -> for_each f (x :: l) s = for_each f l s'.
Proof. intros H. cbn [for_each]. by rewrite H. Qed.

Lemma for_each_app {A S} (f : A -> S -> option S) l l' s : for_each f (l ++ l') s = for_each f l s ≫= for_each f l'.
Proof. revert s. induction l as [|x l IH]; intros s; [done|]. cbn [for_each app]. by destruct (f x s); cbn. Qed.

Section Sync.
Variable generate_key_derivation : PublicKey -> SecretKey -> bytes.
Variable underive_public_key : bytes -> Z -> PublicKey -> PublicKey.
Variable derive_public_key : bytes -> Z -> PublicKey -> PublicKey.
Variable derive_secret_key : bytes -> Z -> SecretKey -> SecretKey.
Variable generate_key_image : PublicKey -> SecretKey -> KeyImage.
Variable uninitialized : KeyImage.
Variable walk : gmap PublicKey SubWallet -> list (PublicKey * SubWallet).

Fixpoint scan_outputs (rawTX : RawCoinbaseTransaction) (blockHeight : Z) (derivation : bytes) (s : SubWallets)
    (outputIndex : Z) (outputs : list WalletKeyOutput) : option (list OwnedInput) :=
  match outputs with
  | [] => Some []
  | output :: rest =>
      let derivedSpendKey := underive_public_key derivation outputIndex (wo_key output) in
      found ← (if decide (derivedSpendKey ∈ m_publicSpendKeys s) then
                 keyImage ← getTxInputKeyImage derive_public_key derive_secret_key generate_key_image uninitialized
                              derivedSpendKey derivation outputIndex s;
                 Some [(derivedSpendKey,
                        MkInput keyImage (wo_amount output) blockHeight (transactionPublicKey rawTX) outputIndex
                          (wo_globalOutputIndex output) (wo_key output) 0 (raw_unlockTime rawTX) (raw_txHash rawTX))]
               else Some []);
      more ← scan_outputs rawTX blockHeight derivation s (u64 (outputIndex + 1)) rest;
      Some (found ++ more)
  end.

Definition processTransactionOutputs (rawTX : RawCoinbaseTransaction) (blockHeight : Z) (ws : WalletSynchronizer)
    : option (list OwnedInput) :=
  scan_outputs rawTX blockHeight (generate_key_derivation (transactionPublicKey rawTX) (ws_privateViewKey ws))
    (ws_subWallets ws) 0 (keyOutputs rawTX).

Definition processBlockOutputs (block : WalletBlockInfo) (ws : WalletSynchronizer) : option (list OwnedInput) :=
  coinbase ← (if processCoinbaseTransactions
              then processTransactionOutputs (coinbaseTransaction block) (wb_blockHeight block) ws else Some []);
  others ← mapM (fun tx : RawTransaction => processTransactionOutputs tx (wb_blockHeight block) ws) (wb_transactions block);
  Some (coinbase ++ concat others).

(** [transfers[key] += amount], in 64 signed bits. *)
Definition add_transfer (key : PublicKey) (amount : Z) (transfers : gmap PublicKey Z) : gmap PublicKey Z :=
  <[key := i64 (default 0 (transfers !! key) + amount)]> transfers.

Definition received_transfers (hash : Hash) (inputs : list OwnedInput) : gmap PublicKey Z :=
  fold_left (fun t ki => add_transfer ki.1 (ti_amount ki.2) t)
    (filter (fun ki => ti_parentTransactionHash ki.2 = hash) inputs) ∅.

Definition processCoinbaseTransaction (block : WalletBlockInfo) (inputs : list OwnedInput) : option WalletTransaction :=
  let tx := coinbaseTransaction block in
  let transfers := received_transfers (raw_txHash tx) inputs in
  if decide (transfers = ∅) then None
  else Some (MkWalletTransaction transfers (raw_txHash tx) 0 (blockTimestamp block) (wb_blockHeight block) []
               (raw_unlockTime tx) true).

(** The key images of a transaction that a wallet of the container has. *)
Definition spentKeyImages (tx : RawTransaction) (s : SubWallets) : list (PublicKey * KeyInput) :=
  omap (fun i => key ← getKeyImageOwner walk (keyImage i) s; Some (key, i)) (keyInputs tx).

Definition processTransaction (block : WalletBlockInfo) (inputs : list OwnedInput) (tx : RawTransaction)
    (ws : WalletSynchronizer) : option (WalletTransaction * list (PublicKey * KeyImage)) :=
  let spent := spentKeyImages tx (ws_subWallets ws) in
  let transfers := fold_left (fun t ki => add_transfer ki.1 (- ki_amount ki.2) t) spent (received_transfers (raw_txHash tx) inputs) in
  if decide (transfers = ∅) then None
  else
    let fee := fold_left (fun f i => u64 (f + ki_amount i)) (keyInputs tx) 0 in
    let fee := fold_left (fun f o => u64 (f - wo_amount o)) (keyOutputs tx) fee in
    Some (MkWalletTransaction transfers (raw_txHash tx) fee (blockTimestamp block) (wb_blockHeight block) (raw_paymentID tx)
            (raw_unlockTime tx) false,
          map (fun ki => (ki.1, keyImage ki.2)) spent).

Definition processBlockTransactions (block : WalletBlockInfo) (inputs : list OwnedInput) (ws : WalletSynchronizer)
    : BlockScanTmpInfo :=
  let coinbase := if processCoinbaseTransactions then option_list (processCoinbaseTransaction block inputs) else [] in
  let found := omap (fun rawTX => processTransaction block inputs rawTX ws) (wb_transactions block) in
  MkScanInfo (coinbase ++ map fst found) inputs (concat (map snd found)).

Variable daemon : Nigel.

Definition getGlobalIndexes (blockHeight : Z) : gmap Hash (list Z) :=
  let startHeight := getLowerBound blockHeight GLOBAL_INDEXES_OBSCURITY in
  let endHeight := getUpperBound blockHeight GLOBAL_INDEXES_OBSCURITY in
  default ∅ (getGlobalIndexesForRange daemon startHeight endHeight).

(** The loop that fills in the global indexes; [None] is the early return. *)
Fixpoint fill_indexes (blockHeight : Z) (isViewWallet : bool) (globalIndexes : gmap Hash (list Z)) (ourInputs : list OwnedInput)
    : option (list OwnedInput) :=
  match ourInputs with
  | [] => Some []
  | (publicKey, i) :: rest =>
      if negb isViewWallet && negb (bool_decide (is_Some (ti_globalOutputIndex i))) then
        let globalIndexes := if decide (globalIndexes = ∅) then getGlobalIndexes blockHeight else globalIndexes in
        index ← (indexes ← globalIndexes !! ti_parentTransactionHash i; indexes !! Z.to_nat (ti_transactionIndex i));
        more ← fill_indexes blockHeight isViewWallet globalIndexes rest;
        Some ((publicKey, set_globalOutputIndex (Some index) i) :: more)
      else
        more ← fill_indexes blockHeight isViewWallet globalIndexes rest;
        Some ((publicKey, i) :: more)
  end.

(** The four loops at the end of [processBlock]. *)
Definition store_scanned (block : WalletBlockInfo) (info : BlockScanTmpInfo) (s : SubWallets) : option SubWallets :=
  s ← for_each wallet_addTransaction (transactionsToAdd info) s;
  s ← for_each (fun ki => storeTransactionInput ki.1 ki.2) (inputsToAdd info) s;
  for_each (fun pk => markInputAsSpent pk.2 pk.1 (wb_blockHeight block)) (keyImagesToMarkSpent info) s.

Definition processBlock (block : WalletBlockInfo) (ws : WalletSynchronizer)
    : option (WalletSynchronizer * list WalletEvent) :=
  let ws := if wb_blockHeight block <=? m_lastKnownBlockHeight (m_syncStatus ws)
            then set_ws_subWallets (removeForkedTransactions (wb_blockHeight block) (ws_subWallets ws)) ws
            else ws in
  ourInputs ← processBlockOutputs block ws;
  match fill_indexes (wb_blockHeight block) (m_isViewWallet (ws_subWallets ws)) ∅ ourInputs with
  | None => Some (ws, [])
  | Some ourInputs =>
      let blockScanInfo := processBlockTransactions block ourInputs ws in
      s ← store_scanned block blockScanInfo (ws_subWallets ws);
      st ← storeBlockHash (wb_blockHash block) (wb_blockHeight block) (m_syncStatus ws);
      Some (MkSynchronizer st (m_startTimestamp ws) (m_startHeight ws) (ws_privateViewKey ws) s,
            map onTransaction (transactionsToAdd blockScanInfo) ++
            (if networkBlockCount daemon <=? wb_blockHeight block then [onSynced (wb_blockHeight block)] else []))
  end.

Definition downloadBlocks (ws : WalletSynchronizer) : list WalletBlockInfo * WalletSynchronizer :=
  if localDaemonBlockCount daemon <? m_lastKnownBlockHeight (m_syncStatus ws) then ([], ws)
  else
    let blockCheckpoints := getBlockHashCheckpoints (m_syncStatus ws) in
    match getWalletSyncData daemon blockCheckpoints (m_startHeight ws) (m_startTimestamp ws) with
    | None | Some [] => ([], ws)
    | Some ((front :: _) as blocks) =>
        let ws :=
          if negb (m_startTimestamp ws =? 0)
          then MkSynchronizer (m_syncStatus ws) 0 (wb_blockHeight front) (ws_privateViewKey ws)
                 (subWallets_convertSyncTimestampToHeight 0 (wb_blockHeight front) (ws_subWallets ws))
          else ws in
        if bool_decide (blockCheckpoints = []) && (m_startTimestamp ws =? 0) && negb (wb_blockHeight front =? m_startHeight ws)
        then ([], ws)
        else (blocks, ws)
    end.

Definition checkLockedTransactions (ws : WalletSynchronizer) : option WalletSynchronizer :=
  lockedTxHashes ← getLockedTransactionsHashes (ws_subWallets ws);
  if decide (lockedTxHashes = ∅) then Some ws
  else
    match getTransactionsStatus daemon lockedTxHashes with
    | None => Some ws
    | Some (transactionsInPool, transactionsInBlock, cancelledTransactions) =>
        if decide (cancelledTransactions = ∅) then Some ws
        else s ← removeCancelledTransactions cancelledTransactions (ws_subWallets ws); Some (set_ws_subWallets s ws)
    end.

(** A list of blocks, one after the other. *)
Definition processBlocks (blocks : list WalletBlockInfo) (ws : WalletSynchronizer)
    : option (WalletSynchronizer * list WalletEvent) :=
  for_each (fun block '(ws, events) => '(ws', new) ← processBlock block ws; Some (ws', events ++ new)) blocks (ws, []).

(** One turn of [mainLoop], as long as nobody stops it. *)
Definition mainLoop_turn (ws : WalletSynchronizer) : option (WalletSynchronizer * list WalletEvent) :=
  let '(blocks, ws) := downloadBlocks ws in
  '(ws, events) ← processBlocks blocks ws;
  ws ← (if bool_decide (blocks = []) && (localDaemonBlockCount daemon <=? m_lastKnownBlockHeight (m_syncStatus ws)) &&
           negb (m_isViewWallet (ws_subWallets ws))
        then checkLockedTransactions ws else Some ws);
  Some (ws, events).
End Sync.

Definition synchronizer_reset (startHeight : Z) (ws : WalletSynchronizer) : WalletSynchronizer :=
  MkSynchronizer SynchronizationStatus_new 0 startHeight (ws_privateViewKey ws) (ws_subWallets ws).

(** [WalletBackend::reset], without the save. *)
Definition backend_reset (scanHeight timestamp : Z) (ws : WalletSynchronizer) : WalletSynchronizer :=
  let scanHeight := if negb (timestamp =? 0) then timestampToScanHeight timestamp else scanHeight in
  let ws := synchronizer_reset scanHeight ws in
  set_ws_subWallets (subWallets_reset scanHeight (ws_subWallets ws)) ws.
