(* ===== verification/WalletSpec.v ===== *)
(** * What the wallet knows of the chain

    The specification of the synchronizer: the chain that has been scanned is a
    list of blocks, each with the outputs of the block that belong to the
    container; an output is spent when its key image appears in a later block.
    [tracks] says that the container holds just that, and it is kept by
    [processBlock] through new blocks and through forks. *)

From stdpp Require Import gmap fin_sets fin_maps.
From S2P Require Import Prelude Config Serializer Transaction SubWallet SubWallets WalletSync.

(** ** What no operation changes *)

Definition same_keys (s s' : SubWallets) : Prop :=
  m_publicSpendKeys s = m_publicSpendKeys s' /\ m_isViewWallet s = m_isViewWallet s' /\
  keys_of <$> m_subWallets s = keys_of <$> m_subWallets s'.

#[export] Instance same_keys_equivalence : Equivalence same_keys.
Proof.
  split; [done|by intros ?? (?&?&?)|]. intros ??? (?&?&?) (?&?&?). unfold same_keys. by repeat split; etransitivity.
Qed.

Lemma same_keys_lookup s s' k w : same_keys s s' -> m_subWallets s !! k = Some w ->
  exists w', m_subWallets s' !! k = Some w' /\ keys_of w' = keys_of w.
Proof.
  intros (_ & _ & H) Hw. assert ((keys_of <$> m_subWallets s) !! k = Some (keys_of w)) as E by by rewrite lookup_fmap, Hw.
  rewrite H, lookup_fmap in E. apply fmap_Some in E as (w' & Hw' & E). eauto.
Qed.

(** The list of keys is that of the wallets, without repetition. *)
Definition keys_ok (s : SubWallets) : Prop :=
  NoDup (m_publicSpendKeys s) /\ (forall k, k ∈ m_publicSpendKeys s <-> is_Some (m_subWallets s !! k)) /\
  (forall k w, m_subWallets s !! k = Some w -> m_publicSpendKey w = k).

Lemma same_keys_keys s s' : same_keys s s' -> keys_ok s -> keys_ok s'.
Proof.
  intros H (Hn & Hk & Ho). split; [by destruct H as (<- & _ & _)|]. split.
  - intros k. destruct H as (<- & _ & H). rewrite Hk.
    assert (is_Some ((keys_of <$> m_subWallets s) !! k) <-> is_Some ((keys_of <$> m_subWallets s') !! k)) as E by by rewrite H.
    by rewrite !lookup_fmap, !fmap_is_Some in E.
  - intros k w' Hw'. symmetry in H. destruct (same_keys_lookup _ _ _ _ H Hw') as (w & Hw & E).
    injection E as <- _. by apply Ho.
Qed.

(** Moreover the container can spend. *)
Definition container_ok (s : SubWallets) : Prop := keys_ok s /\ m_isViewWallet s = false.

Lemma ok_spends s : container_ok s -> m_isViewWallet s = false.
Proof. by intros [_ ?]. Qed.
Lemma ok_keys s : container_ok s -> forall k, k ∈ m_publicSpendKeys s <-> is_Some (m_subWallets s !! k).
Proof. by intros [(_ & ? & _) _]. Qed.
Lemma ok_own s : container_ok s -> forall k w, m_subWallets s !! k = Some w -> m_publicSpendKey w = k.
Proof. by intros [(_ & _ & ?) _]. Qed.

Lemma same_keys_ok s s' : same_keys s s' -> container_ok s -> container_ok s'.
Proof. intros H [Hk Hv]. split; [by eapply same_keys_keys|]. by destruct H as (_ & <- & _). Qed.

Lemma same_keys_insert s k w w' : m_subWallets s !! k = Some w -> keys_of w' = keys_of w ->
  same_keys s (set_subWallets (<[k := w']> (m_subWallets s)) s).
Proof.
  intros Hw E. split; [done|]. split; [done|]. cbn. rewrite fmap_insert, insert_id; [done|]. by rewrite lookup_fmap, Hw, E.
Qed.

Lemma same_keys_fmap s txs locked f : (forall w, keys_of (f w) = keys_of w) ->
  same_keys s (set_subWallets (f <$> m_subWallets s) (set_wallet_transactions txs locked s)).
Proof.
  intros Hf. split; [done|]. split; [done|]. cbn. rewrite <- map_fmap_compose. apply map_fmap_ext. intros k w _. by cbn; rewrite Hf.
Qed.

(** ** What an operation does to each wallet *)

(** The container goes from [s] to [s'], each wallet as [R] says. *)
Definition wallets_move (R : PublicKey -> SubWallet -> SubWallet -> Prop) (s s' : SubWallets) : Prop :=
  same_keys s s' /\
  forall k w', m_subWallets s' !! k = Some w' -> exists w, m_subWallets s !! k = Some w /\ R k w w'.

Lemma wallets_move_trans (R1 R2 R : PublicKey -> SubWallet -> SubWallet -> Prop) s1 s2 s3 :
  wallets_move R1 s1 s2 -> wallets_move R2 s2 s3 ->
  (forall k w1 w2 w3, m_subWallets s1 !! k = Some w1 -> R1 k w1 w2 -> R2 k w2 w3 -> R k w1 w3) -> wallets_move R s1 s3.
Proof.
  intros [K1 M1] [K2 M2] H. split; [by etransitivity|]. intros k w3 H3.
  destruct (M2 k w3 H3) as (w2 & H2 & R2'). destruct (M1 k w2 H2) as (w1 & H1 & R1'). eauto.
Qed.

Lemma wallets_move_insert (R : PublicKey -> SubWallet -> SubWallet -> Prop) s k w w' :
  m_subWallets s !! k = Some w -> keys_of w' = keys_of w -> R k w w' -> (forall k' v, k' <> k -> R k' v v) ->
  wallets_move R s (set_subWallets (<[k := w']> (m_subWallets s)) s).
Proof.
  intros Hw E HR Hid. split; [by eapply same_keys_insert|]. cbn. intros k' v. destruct (decide (k' = k)) as [->|Hne].
  - rewrite lookup_insert_eq. intros [= <-]. eauto.
  - rewrite lookup_insert_ne by done. intros Hv. exists v. auto.
Qed.

(** ** The four loops *)

(** The outputs of a list that belong to a key. *)
Definition owned (k : PublicKey) (l : list OwnedInput) : list TransactionInput := map snd (filter (fun ki => ki.1 = k) l).

Lemma owned_app k l l' : owned k (l ++ l') = owned k l ++ owned k l'.
Proof. unfold owned. by rewrite filter_app, map_app. Qed.

Lemma elem_of_owned k i l : i ∈ owned k l <-> (k, i) ∈ l.
Proof.
  unfold owned. rewrite list_elem_of_fmap. split.
  - intros ([k' i'] & -> & [E H]%list_elem_of_filter). cbn in *. by subst.
  - intros H. exists (k, i). split; [done|]. by apply list_elem_of_filter.
Qed.

Definition stored (l : list OwnedInput) (k : PublicKey) (w w' : SubWallet) : Prop :=
  live w' ≡ₚ live w ++ owned k l /\ m_spentInputs w' = m_spentInputs w /\
  (m_lockedInputs w = [] -> m_lockedInputs w' = []) /\
  (m_unconfirmedIncomingAmounts w = [] -> m_unconfirmedIncomingAmounts w' = []).

Lemma store_all l : forall s, Forall (fun ki => is_Some (m_subWallets s !! ki.1)) l ->
  exists s', for_each (fun ki => storeTransactionInput ki.1 ki.2) l s = Some s' /\ wallets_move (stored l) s s' /\
    m_transactions s' = m_transactions s /\ m_lockedTransactions s' = m_lockedTransactions s.
Proof.
  induction l as [|[k i] l IH]; intros s Hl.
  - exists s. split; [done|]. split; [|done]. split; [done|]. intros k w Hw. exists w. split; [done|].
    unfold stored. by rewrite app_nil_r.
  - apply Forall_cons in Hl as [[w Hw] Hl]. cbn [fst] in Hw.
    set (s1 := set_subWallets (<[k := subWallet_storeTransactionInput i (m_isViewWallet s) w]> (m_subWallets s)) s).
    assert (wallets_move (stored [(k, i)]) s s1) as M1.
    { eapply wallets_move_insert; [done|done| |].
      - split; [|split; [done|]; split; [done|]; cbn; intros ->; by destruct (m_isViewWallet s)].
        rewrite storeTransactionInput_live. unfold owned. by rewrite filter_cons_True.
      - intros k' v Hne. unfold stored, owned. rewrite filter_cons_False by (cbn; congruence). by rewrite app_nil_r. }
    destruct (IH s1) as (s' & E & M & Ht & Hlk).
    { eapply Forall_impl; [exact Hl|]. intros [k' i'] [w' Hw']. destruct M1 as [K1 _].
      destruct (same_keys_lookup _ _ _ _ K1 Hw') as (w'' & -> & _). done. }
    exists s'. split; [|split; [|done]].
    + erewrite for_each_step; [exact E|]. unfold storeTransactionInput. cbn [fst snd]. by rewrite Hw.
    + eapply wallets_move_trans; [exact M1|exact M|]. intros k' w1 w2 w3 _ (A1 & A2 & A3 & A4) (B1 & B2 & B3 & B4).
      split; [|by split; [congruence|auto]]. rewrite B1, A1, <- app_assoc, <- owned_app. done.
Qed.

Definition marked (h : Z) (marks : list (PublicKey * KeyImage)) (k : PublicKey) (w w' : SubWallet) : Prop :=
  live w' ≡ₚ filter (fun i => (k, ti_keyImage i) ∉ marks) (live w) /\
  m_spentInputs w' ≡ₚ m_spentInputs w ++ map (set_spendHeight h) (filter (fun i => (k, ti_keyImage i) ∈ marks) (live w)) /\
  (m_lockedInputs w = [] -> m_lockedInputs w' = []) /\
  (m_unconfirmedIncomingAmounts w = [] -> m_unconfirmedIncomingAmounts w' = []).

Definition images_nodup (s : SubWallets) : Prop :=
  forall k w, m_subWallets s !! k = Some w -> NoDup (map ti_keyImage (live w)).

Definition owns (s : SubWallets) (k : PublicKey) (image : KeyImage) : Prop :=
  exists w, m_subWallets s !! k = Some w /\ image ∈ map ti_keyImage (live w).

Lemma marked_nil h k w : marked h [] k w w.
Proof.
  split; [|split; [|done]].
  - rewrite filter_all; [done|]. apply Forall_true. intros. apply not_elem_of_nil.
  - rewrite filter_none; [by rewrite app_nil_r|]. apply Forall_true. intros. apply not_elem_of_nil.
Qed.

Lemma marked_cons h k0 x marks k w w1 w' : (k0, x) ∉ marks -> marked h [(k0, x)] k w w1 -> marked h marks k w1 w' ->
  marked h ((k0, x) :: marks) k w w'.
Proof.
  intros Hx (A1 & A2 & A3 & A4) (B1 & B2 & B3 & B4). split; [|split; [|split; auto]].
  - rewrite B1, A1, list_filter_filter. apply reflexive_eq, list_filter_iff. intros i. rewrite list_elem_of_singleton, elem_of_cons. naive_solver.
  - rewrite B2, A2, A1, <- app_assoc. f_equiv. rewrite <- map_app. apply Permutation_map. rewrite list_filter_filter.
    clear A1 A2 B1 B2. induction (live w) as [|i l IH]; [done|]. rewrite !filter_cons.
    destruct (decide ((k, ti_keyImage i) ∈ [(k0, x)])) as [H1|H1], (decide ((k, ti_keyImage i) ∈ marks)) as [H2|H2].
    + exfalso. apply list_elem_of_singleton in H1. congruence.
    + rewrite decide_False by tauto. rewrite decide_True by (apply list_elem_of_singleton in H1; rewrite H1; apply list_elem_of_here).
      cbn [app]. apply perm_skip. exact IH.
    + rewrite decide_True by tauto. rewrite decide_True by by apply list_elem_of_further. rewrite <- IH. symmetry. apply Permutation_middle.
    + rewrite decide_False by tauto. rewrite decide_False; [done|]. rewrite elem_of_cons. rewrite list_elem_of_singleton in H1. tauto.
Qed.

(** Marking one key image of a wallet of the container. *)
Lemma mark_one h k x s : m_isViewWallet s = false -> images_nodup s -> owns s k x ->
  exists s', markInputAsSpent x k h s = Some s' /\ wallets_move (marked h [(k, x)]) s s' /\
    m_transactions s' = m_transactions s /\ m_lockedTransactions s' = m_lockedTransactions s.
Proof.
  intros Hv Hn (w & Hw & Hx). destruct (markInputAsSpent_live x h w (Hn _ _ Hw) Hx) as (w' & E & Ek & El & Es & Eu & Elk).
  exists (set_subWallets (<[k := w']> (m_subWallets s)) s). split; [|split; [|done]].
  - unfold markInputAsSpent, throwIfViewWallet. rewrite Hv. cbn [mbind option_bind]. by rewrite Hw; cbn [mbind option_bind]; rewrite E.
  - eapply wallets_move_insert; [done|done| |].
    + split; [|split; [|by rewrite Eu]].
      * rewrite El. apply reflexive_eq, list_filter_iff. intros i. rewrite list_elem_of_singleton. naive_solver.
      * rewrite Es. apply reflexive_eq. do 2 f_equal. apply list_filter_iff. intros i. rewrite list_elem_of_singleton. naive_solver.
    + intros k' v Hne. split; [|split; [|done]].
      * rewrite filter_all; [done|]. apply Forall_true. intros i. rewrite list_elem_of_singleton. congruence.
      * rewrite filter_none; [by rewrite app_nil_r|]. apply Forall_true. intros i. rewrite list_elem_of_singleton. congruence.
Qed.

Lemma marked_images h marks s s' : wallets_move (marked h marks) s s' -> images_nodup s -> images_nodup s'.
Proof.
  intros [_ M] Hn k w' Hw'. destruct (M k w' Hw') as (w & Hw & E & _). rewrite E. apply NoDup_map_filter, (Hn _ _ Hw).
Qed.

Lemma marked_owns h marks s s' k x : wallets_move (marked h marks) s s' -> (k, x) ∉ marks -> owns s k x -> owns s' k x.
Proof.
  intros [K M] Hx (w & Hw & (i & -> & Hi)%list_elem_of_fmap).
  destruct (same_keys_lookup _ _ _ _ K Hw) as (w' & Hw' & _). exists w'. split; [done|].
  destruct (M k w' Hw') as (w0 & Hw0 & E & _). rewrite Hw in Hw0. injection Hw0 as <-. rewrite E.
  apply list_elem_of_fmap. exists i. split; [done|]. by apply list_elem_of_filter.
Qed.

Lemma mark_all h marks : forall s, m_isViewWallet s = false -> images_nodup s -> NoDup marks ->
  Forall (fun kx => owns s kx.1 kx.2) marks ->
  exists s', for_each (fun kx => markInputAsSpent kx.2 kx.1 h) marks s = Some s' /\ wallets_move (marked h marks) s s' /\
    m_transactions s' = m_transactions s /\ m_lockedTransactions s' = m_lockedTransactions s.
Proof.
  induction marks as [|[k x] marks IH]; intros s Hv Hn Hd Ho.
  - exists s. split; [done|]. split; [|done]. split; [done|]. intros k w Hw. exists w. split; [done|]. apply marked_nil.
  - apply NoDup_cons in Hd as [Hx Hd]. apply Forall_cons in Ho as [Ho1 Ho].
    destruct (mark_one h k x s Hv Hn Ho1) as (s1 & E1 & M1 & T1 & L1).
    destruct (IH s1) as (s' & E & M & T & L); [|by eapply marked_images|done| |].
    + destruct M1 as [(_ & <- & _) _]. done.
    + apply Forall_forall. intros [k' x'] Hin. eapply marked_owns; [exact M1| |].
      * rewrite list_elem_of_singleton. intros [= -> ->]. done.
      * by apply (proj1 (Forall_forall _ _) Ho (k', x')).
    + exists s'. split; [by erewrite for_each_step|]. split; [|by rewrite T, L].
      eapply wallets_move_trans; [exact M1|exact M|]. intros k' w1 w2 w3 _. by apply marked_cons.
Qed.

Lemma add_all txs : forall s, NoDup (map wt_hash txs) ->
  (forall tx, tx ∈ txs -> wt_hash tx ∉ map wt_hash (m_transactions s)) ->
  exists s', for_each wallet_addTransaction txs s = Some s' /\ m_transactions s' = m_transactions s ++ txs /\
    m_subWallets s' = m_subWallets s /\ same_keys s s'.
Proof.
  induction txs as [|tx txs IH]; intros s Hn Hf.
  - exists s. by rewrite app_nil_r.
  - cbn [map] in Hn. apply NoDup_cons in Hn as [Hx Hn].
    set (s1 := set_wallet_transactions (m_transactions s ++ [tx])
                 (filter (fun t => wt_hash tx <> wt_hash t) (m_lockedTransactions s)) s).
    destruct (IH s1 Hn) as (s' & E & Ht & Hw & Hk).
    + intros t Hin. cbn. rewrite map_app, elem_of_app. intros [H|H%list_elem_of_singleton].
      * apply (Hf t); [by apply list_elem_of_further|done].
      * apply Hx. rewrite <- H. by apply list_elem_of_fmap_2.
    + exists s'. split; [|by rewrite Ht; cbn; rewrite <- app_assoc].
      erewrite for_each_step; [exact E|]. unfold wallet_addTransaction. rewrite decide_False; [done|].
      apply Hf, list_elem_of_here.
Qed.

(** ** The chain as the wallet should see it *)

(** The blocks that have been scanned, the oldest first, each with the outputs
    that belong to the container. *)
Abbreviation Scanned := (list (WalletBlockInfo * list OwnedInput)).

Definition tx_images (tx : RawTransaction) : list KeyImage := map keyImage (keyInputs tx).
Definition block_spends (b : WalletBlockInfo) : list KeyImage := concat (map tx_images (wb_transactions b)).
Definition all_received (chain : Scanned) : list OwnedInput := concat (map snd chain).

(** The height at which a key image appears. *)
Fixpoint spend_height (chain : Scanned) (image : KeyImage) : option Z :=
  match chain with
  | [] => None
  | (b, _) :: rest => if decide (image ∈ block_spends b) then Some (wb_blockHeight b) else spend_height rest image
  end.

Definition unspent_outputs (k : PublicKey) (chain : Scanned) : list TransactionInput :=
  filter (fun i => spend_height chain (ti_keyImage i) = None) (owned k (all_received chain)).
Definition spent_outputs (k : PublicKey) (chain : Scanned) : list TransactionInput :=
  omap (fun i => h ← spend_height chain (ti_keyImage i); Some (set_spendHeight h i)) (owned k (all_received chain)).

(** A transaction concerns the container when one of its outputs does, or when
    it spends an output that the container received before and that was not spent. *)
Definition known_unspent (prior : Scanned) (image : KeyImage) : Prop :=
  image ∈ map (fun ki => ti_keyImage ki.2) (all_received prior) /\ spend_height prior image = None.
Definition concerns (prior : Scanned) (inputs : list OwnedInput) (tx : Hash * list KeyImage) : Prop :=
  Exists (fun ki => ti_parentTransactionHash ki.2 = tx.1) inputs \/ Exists (known_unspent prior) tx.2.

#[export] Instance known_unspent_dec prior image : Decision (known_unspent prior image).
Proof. unfold known_unspent. apply _. Defined.
#[export] Instance concerns_dec prior inputs tx : Decision (concerns prior inputs tx).
Proof. unfold concerns. apply _. Defined.

Definition block_txs (b : WalletBlockInfo) : list (Hash * list KeyImage) :=
  (raw_txHash (coinbaseTransaction b), []) :: map (fun tx : RawTransaction => (raw_txHash tx, tx_images tx)) (wb_transactions b).
Definition block_history (prior : Scanned) (bi : WalletBlockInfo * list OwnedInput) : list (Hash * Z) :=
  map (fun tx => (tx.1, wb_blockHeight bi.1)) (filter (concerns prior bi.2) (block_txs bi.1)).
Fixpoint history (prior chain : Scanned) : list (Hash * Z) :=
  match chain with
  | [] => []
  | bi :: rest => block_history prior bi ++ history (prior ++ [bi]) rest
  end.

Lemma all_received_app a b : all_received (a ++ b) = all_received a ++ all_received b.
Proof. unfold all_received. by rewrite map_app, concat_app. Qed.

Lemma history_app b : forall prior a, history prior (a ++ b) = history prior a ++ history (prior ++ a) b.
Proof.
  intros prior a. revert prior. induction a as [|bi a IH]; intros prior; [by rewrite app_nil_r|]. cbn [app history].
  by rewrite IH, <- !app_assoc.
Qed.

Lemma spend_height_app a b x :
  spend_height (a ++ b) x = match spend_height a x with Some h => Some h | None => spend_height b x end.
Proof. induction a as [|[c l] a IH]; [done|]. cbn [app spend_height]. by case_decide. Qed.

Lemma elem_of_concat {A} (x : A) ls : x ∈ concat ls <-> exists l, x ∈ l /\ l ∈ ls.
Proof.
  induction ls as [|l ls IH]; cbn.
  - split; [by intros ?%not_elem_of_nil|by intros (? & _ & ?%not_elem_of_nil)].
  - rewrite elem_of_app, IH. setoid_rewrite elem_of_cons. naive_solver.
Qed.

Lemma elem_of_all_received ki chain : ki ∈ all_received chain <-> exists b l, (b, l) ∈ chain /\ ki ∈ l.
Proof.
  unfold all_received. rewrite elem_of_concat. split.
  - intros (l & Hki & ([b l'] & -> & H)%list_elem_of_fmap). eauto.
  - intros (b & l & H & Hki). exists l. split; [done|]. apply list_elem_of_fmap. by exists (b, l).
Qed.

(** ** The container knows the chain *)

Record tracks (id0 : SubWallets) (chain : Scanned) (s : SubWallets) : Prop := {
  tr_same : same_keys id0 s;
  tr_inputs b l k i : (b, l) ∈ chain -> (k, i) ∈ l ->
    k ∈ m_publicSpendKeys id0 /\ ti_blockHeight i = wb_blockHeight b /\ ti_spendHeight i = 0 /\
    ti_parentTransactionHash i ∈ map fst (block_txs b);
  tr_live k w : m_subWallets s !! k = Some w -> live w ≡ₚ unspent_outputs k chain;
  tr_spent k w : m_subWallets s !! k = Some w -> m_spentInputs w ≡ₚ spent_outputs k chain;
  tr_history : map (fun tx => (wt_hash tx, wt_blockHeight tx)) (m_transactions s) = history [] chain
}.

Definition image_of (ki : OwnedInput) : KeyImage := ti_keyImage ki.2.

(** What is assumed of a block after a chain: no two outputs of the container
    have the same key image, the block spends a key image once, nothing is spent
    before the block after the one it was received in, and the transactions are
    new.  The first is not a rule of the chain: a payer who uses a one-time key
    twice sends two outputs with one key image, of which only one can be spent,
    and validation does not reject them. *)
Record follows (chain : Scanned) (b : WalletBlockInfo) (inputs : list OwnedInput) : Prop := {
  fo_images : NoDup (map image_of (all_received (chain ++ [(b, inputs)])));
  fo_spends : NoDup (block_spends b);
  fo_fresh : Forall (fun ki => spend_height (chain ++ [(b, inputs)]) (image_of ki) = None) inputs;
  fo_distinct : NoDup (map fst (block_txs b));
  fo_new : Forall (fun tx => tx.1 ∉ map fst (history [] chain)) (block_txs b)
}.

Lemma owned_nodup k l : NoDup (map image_of l) -> NoDup (map ti_keyImage (owned k l)).
Proof.
  intros H. unfold owned. rewrite map_map. exact (NoDup_map_filter image_of (fun ki => ki.1 = k) l H).
Qed.

Lemma image_unique l ki ki' : NoDup (map image_of l) -> ki ∈ l -> ki' ∈ l -> image_of ki = image_of ki' -> ki = ki'.
Proof.
  induction l as [|x l IH]; [by intros _ ?%not_elem_of_nil|]. cbn [map]. intros [Hx Hn]%NoDup_cons.
  rewrite !elem_of_cons. intros [->|H1] [->|H2] E; auto; exfalso; apply Hx; [rewrite E|rewrite <- E]; by apply list_elem_of_fmap_2.
Qed.

Lemma tracks_owns id0 chain s k x : container_ok id0 -> tracks id0 chain s ->
  owns s k x <-> exists i, (k, i) ∈ all_received chain /\ ti_keyImage i = x /\ spend_height chain x = None.
Proof.
  intros Hok Ht. split.
  - intros (w & Hw & Hx). rewrite (tr_live _ _ _ Ht _ _ Hw) in Hx. apply list_elem_of_fmap in Hx as (i & -> & Hi).
    apply list_elem_of_filter in Hi as [Hs Hi%elem_of_owned]. eauto.
  - intros (i & Hi & Hx & Hs). apply elem_of_all_received in Hi as Hb. destruct Hb as (b & l & Hbl & Hl).
    destruct (tr_inputs _ _ _ Ht _ _ _ _ Hbl Hl) as [Hk _].
    apply (ok_keys _ Hok) in Hk as [w0 Hw0]. destruct (same_keys_lookup _ _ _ _ (tr_same _ _ _ Ht) Hw0) as (w & Hw & _).
    exists w. split; [done|]. rewrite (tr_live _ _ _ Ht _ _ Hw). apply list_elem_of_fmap. exists i. split; [done|].
    apply list_elem_of_filter. split; [by rewrite Hx|]. by apply elem_of_owned.
Qed.

(** ** The specification, one block further *)

Lemma spend_height_snoc chain b inputs x :
  spend_height (chain ++ [(b, inputs)]) x =
  match spend_height chain x with
  | Some h => Some h
  | None => if decide (x ∈ block_spends b) then Some (wb_blockHeight b) else None
  end.
Proof. by rewrite spend_height_app. Qed.

Lemma all_received_snoc chain b inputs : all_received (chain ++ [(b, inputs)]) = all_received chain ++ inputs.
Proof. rewrite all_received_app. unfold all_received at 2. cbn. by rewrite app_nil_r. Qed.

Lemma fresh_owned chain b inputs k i : follows chain b inputs -> i ∈ owned k inputs ->
  spend_height (chain ++ [(b, inputs)]) (ti_keyImage i) = None.
Proof. intros Hf Hi%elem_of_owned. exact (proj1 (Forall_forall _ _) (fo_fresh _ _ _ Hf) _ Hi). Qed.

Lemma unspent_outputs_snoc k chain b inputs : follows chain b inputs ->
  unspent_outputs k (chain ++ [(b, inputs)]) =
  filter (fun i => ti_keyImage i ∉ block_spends b) (unspent_outputs k chain) ++ owned k inputs.
Proof.
  intros Hf. unfold unspent_outputs. rewrite all_received_snoc, owned_app, filter_app, list_filter_filter. f_equal.
  - apply list_filter_iff. intros i. rewrite spend_height_snoc. destruct (spend_height chain _); [naive_solver|]. case_decide; naive_solver.
  - apply filter_all, Forall_forall. intros i Hi. by eapply fresh_owned.
Qed.

Lemma omap_none {A B} (f : A -> option B) l : (forall x, x ∈ l -> f x = None) -> omap f l = [].
Proof.
  induction l as [|x l IH]; intros H; [done|]. cbn. rewrite (H x) by apply list_elem_of_here.
  apply IH. intros y Hy. apply H. by apply list_elem_of_further.
Qed.

Lemma spent_outputs_snoc k chain b inputs : follows chain b inputs ->
  spent_outputs k (chain ++ [(b, inputs)]) ≡ₚ
  spent_outputs k chain ++
    map (set_spendHeight (wb_blockHeight b)) (filter (fun i => ti_keyImage i ∈ block_spends b) (unspent_outputs k chain)).
Proof.
  intros Hf. unfold spent_outputs, unspent_outputs. rewrite all_received_snoc, owned_app, omap_app.
  rewrite (omap_none _ (owned k inputs)) by (intros i Hi; by rewrite (fresh_owned _ _ _ _ _ Hf Hi)).
  rewrite app_nil_r, list_filter_filter.
  induction (owned k (all_received chain)) as [|i l IH]; [done|]. rewrite filter_cons. cbn [omap list_omap].
  rewrite spend_height_snoc. destruct (spend_height chain (ti_keyImage i)) as [h|]; cbn [mbind option_bind].
  - rewrite decide_False by naive_solver. cbn [app]. apply perm_skip, IH.
  - case_decide as Hd; cbn [mbind option_bind].
    + rewrite decide_True by done. cbn [map]. etransitivity; [apply perm_skip, IH|apply Permutation_middle].
    + rewrite decide_False by naive_solver. apply IH.
Qed.

Section Owner.
Variable walk : gmap PublicKey SubWallet -> list (PublicKey * SubWallet).
Hypothesis walk_perm : forall m, walk m ≡ₚ map_to_list m.

Lemma getKeyImageOwner_spec s k x : container_ok s -> (forall k', owns s k' x -> k' = k) ->
  getKeyImageOwner walk x s = Some k <-> owns s k x.
Proof.
  intros Hok Hu. unfold getKeyImageOwner. rewrite (ok_spends _ Hok).
  assert (forall k' w, (k', w) ∈ walk (m_subWallets s) <-> m_subWallets s !! k' = Some w) as Hwalk.
  { intros k' w. by rewrite walk_perm, elem_of_map_to_list. }
  destruct (list_find (fun kw => hasKeyImage x kw.2 = true) (walk (m_subWallets s))) as [[n [k' w]]|] eqn:E; cbn.
  - apply list_find_Some in E as (Hn & Hx & _). apply list_elem_of_lookup_2, Hwalk in Hn. cbn in Hx. apply hasKeyImage_spec in Hx.
    assert (owns s k' x) as Ho by (by exists w). rewrite (ok_own _ Hok _ _ Hn). apply Hu in Ho as E. subst k'. done.
  - split; [done|]. intros (w & Hw & Hx). apply list_find_None in E. rewrite Forall_forall in E.
    exfalso. apply (E (k, w)); [by apply Hwalk|]. by apply hasKeyImage_spec.
Qed.

(** The key images of a list that the container has, with their wallets. *)
Definition found_images (s : SubWallets) (l : list KeyImage) : list (PublicKey * KeyImage) :=
  omap (fun x => key ← getKeyImageOwner walk x s; Some (key, x)) l.

Lemma found_images_spent tx s :
  map (fun ki => (ki.1, keyImage ki.2)) (spentKeyImages walk tx s) = found_images s (tx_images tx).
Proof.
  unfold spentKeyImages, found_images, tx_images. induction (keyInputs tx) as [|i l IH]; [done|]. cbn.
  destruct (getKeyImageOwner walk (keyImage i) s); cbn; [f_equal|]; exact IH.
Qed.

Lemma transfers_empty {A} (f : A -> PublicKey) (g : A -> Z) l : forall t,
  fold_left (fun t x => add_transfer (f x) (g x) t) l t = ∅ <-> l = [] /\ t = ∅.
Proof.
  induction l as [|x l IH]; intros t; cbn [fold_left]; [naive_solver|]. rewrite IH. split; [|naive_solver].
  intros [_ H]. exfalso. by apply (insert_non_empty t (f x) (i64 (default 0 (t !! f x) + g x))).
Qed.

Lemma filter_empty_Exists {A} (P : A -> Prop) `{!forall x, Decision (P x)} (l : list A) : filter P l = [] <-> ~ Exists P l.
Proof.
  induction l as [|x l IH]; [rewrite Exists_nil; tauto|]. rewrite filter_cons, Exists_cons. case_decide; [naive_solver|]. rewrite IH. tauto.
Qed.

(** No transaction of the container waits for a block. *)
Definition settled (s : SubWallets) : Prop :=
  forall k w, m_subWallets s !! k = Some w -> m_lockedInputs w = [] /\ m_unconfirmedIncomingAmounts w = [].

Lemma settled_moves inputs h marks s s2 s3 :
  wallets_move (stored inputs) s s2 -> wallets_move (marked h marks) s2 s3 -> settled s -> settled s3.
Proof.
  intros [_ M2] [_ M3] Hs k w3 Hw3. destruct (M3 k w3 Hw3) as (w2 & Hw2 & _ & _ & A & B).
  destruct (M2 k w2 Hw2) as (w & Hw & _ & _ & C & D). destruct (Hs k w Hw). auto.
Qed.

Section Scan.
Context (id0 : SubWallets) (chain : Scanned) (ws : WalletSynchronizer) (b : WalletBlockInfo) (inputs : list OwnedInput).
Abbreviation s := (ws_subWallets ws).
Hypothesis Hok : container_ok id0.
Hypothesis Htr : tracks id0 chain s.
Hypothesis Hfo : follows chain b inputs.

Lemma chain_images : NoDup (map image_of (all_received chain)).
Proof. pose proof (fo_images _ _ _ Hfo) as H. rewrite all_received_app, map_app in H. by apply NoDup_app in H as [? _]. Qed.

Lemma owner_unique k k' x : owns s k x -> owns s k' x -> k' = k.
Proof.
  rewrite !(tracks_owns _ _ _ _ _ Hok Htr). intros (i & Hi & Ei & _) (i' & Hi' & Ei' & _).
  assert ((k', i') = (k, i)) as [= -> _]; [|done]. eapply image_unique; [exact chain_images|done|done|]. unfold image_of; cbn; congruence.
Qed.

Lemma owner_spec k x : getKeyImageOwner walk x s = Some k <-> owns s k x.
Proof.
  pose proof (same_keys_ok _ _ (tr_same _ _ _ Htr) Hok) as Hs. split.
  - intros E. destruct (list_find (fun kw => hasKeyImage x kw.2 = true) (walk (m_subWallets s))) as [[n [k' w]]|] eqn:F.
    + assert (owns s k' x) as Ho.
      { apply list_find_Some in F as (Hn & Hx & _). apply list_elem_of_lookup_2 in Hn. rewrite walk_perm, elem_of_map_to_list in Hn.
        exists w. split; [done|]. by apply hasKeyImage_spec. }
      pose proof (proj2 (getKeyImageOwner_spec s k' x Hs (fun k'' H => owner_unique _ _ _ Ho H)) Ho) as E'. congruence.
    + unfold getKeyImageOwner in E. rewrite (ok_spends _ Hs), F in E. done.
  - intros Ho. apply getKeyImageOwner_spec; [done| |done]. intros k' Hk'. by apply (owner_unique k k' x).
Qed.

Lemma elem_of_found k x l : (k, x) ∈ found_images s l <-> x ∈ l /\ owns s k x.
Proof.
  unfold found_images. rewrite list_elem_of_omap. split.
  - intros (y & Hy & E). destruct (getKeyImageOwner walk y s) eqn:F; [|done]. injection E as -> ->. by rewrite <- owner_spec.
  - intros [Hx Ho]. exists x. split; [done|]. by rewrite (proj2 (owner_spec k x) Ho).
Qed.

Lemma known_unspent_owned x : known_unspent chain x <-> exists k, owns s k x.
Proof.
  unfold known_unspent. setoid_rewrite (tracks_owns _ _ _ _ _ Hok Htr). rewrite list_elem_of_fmap. split.
  - intros [([k i] & -> & Hki) Hn]. eauto 6.
  - intros (k & i & Hi & <- & Hn). split; [|done]. by exists (k, i).
Qed.

Lemma found_nil tx : spentKeyImages walk tx s = [] <-> ~ Exists (known_unspent chain) (tx_images tx).
Proof.
  assert (spentKeyImages walk tx s = [] <-> found_images s (tx_images tx) = []) as ->.
  { rewrite <- found_images_spent. by destruct (spentKeyImages walk tx s). }
  rewrite Exists_exists. setoid_rewrite known_unspent_owned. split.
  - intros E (x & Hx & k & Ho). assert ((k, x) ∈ found_images s (tx_images tx)) as H by by apply elem_of_found.
    rewrite E in H. by apply not_elem_of_nil in H.
  - intros H. destruct (found_images s (tx_images tx)) as [|[k x] l] eqn:E; [done|]. exfalso. apply H.
    assert ((k, x) ∈ found_images s (tx_images tx)) as [Hx Ho]%elem_of_found by (rewrite E; apply list_elem_of_here). eauto.
Qed.
Lemma received_nil hash :
  received_transfers hash inputs = ∅ <-> ~ Exists (fun ki => ti_parentTransactionHash ki.2 = hash) inputs.
Proof. unfold received_transfers. rewrite transfers_empty, filter_empty_Exists. tauto. Qed.

Lemma processCoinbase_history :
  map (fun tx => (wt_hash tx, wt_blockHeight tx)) (option_list (processCoinbaseTransaction b inputs)) =
  map (fun tx => (tx.1, wb_blockHeight b)) (filter (concerns chain inputs) [(raw_txHash (coinbaseTransaction b), [])]).
Proof.
  unfold processCoinbaseTransaction. rewrite filter_cons, filter_nil. pose proof (received_nil (raw_txHash (coinbaseTransaction b))) as H.
  assert (concerns chain inputs (raw_txHash (coinbaseTransaction b), []) <->
    Exists (fun ki => ti_parentTransactionHash ki.2 = raw_txHash (coinbaseTransaction b)) inputs) as Hc.
  { unfold concerns. cbn [fst snd]. rewrite Exists_nil. tauto. }
  repeat case_decide; try done; exfalso; tauto.
Qed.

(** A transaction is stored when it concerns the container, and the key images it
    spends are those that the container has. *)
Lemma processTransaction_spec tx :
  match processTransaction walk b inputs tx ws with
  | Some (t, marks) => concerns chain inputs (raw_txHash tx, tx_images tx) /\ wt_hash t = raw_txHash tx /\
      wt_blockHeight t = wb_blockHeight b /\ marks = found_images s (tx_images tx)
  | None => ~ concerns chain inputs (raw_txHash tx, tx_images tx) /\ found_images s (tx_images tx) = []
  end.
Proof.
  unfold processTransaction, concerns. cbn [fst snd].
  pose proof (transfers_empty (fun ki => ki.1) (fun ki => - ki_amount ki.2) (spentKeyImages walk tx s)
    (received_transfers (raw_txHash tx) inputs)) as He.
  rewrite found_nil, received_nil in He. pose proof (found_images_spent tx s) as Hm.
  destruct (decide (Exists (known_unspent chain) (tx_images tx))) as [Hx|Hx]; case_decide as Hd; try tauto.
  - apply He in Hd as [_ Hd]. split; [tauto|]. apply found_nil in Hx. by rewrite <- Hm, Hx.
  - split; [|by rewrite <- Hm]. left. apply dec_stable. tauto.
Qed.

Lemma scanned_marks : keyImagesToMarkSpent (processBlockTransactions walk b inputs ws) = found_images s (block_spends b).
Proof.
  cbn. unfold block_spends, found_images. induction (wb_transactions b) as [|tx l IH]; [done|]. cbn [map concat].
  rewrite omap_app, <- IH. pose proof (processTransaction_spec tx) as H.
  change (omap _ (tx :: l)) with (match processTransaction walk b inputs tx ws with
    | Some y => y :: omap (fun t => processTransaction walk b inputs t ws) l
    | None => omap (fun t => processTransaction walk b inputs t ws) l end).
  destruct (processTransaction walk b inputs tx ws) as [[t marks]|].
  - destruct H as (_ & _ & _ & ->). done.
  - destruct H as [_ H]. unfold found_images in H. by rewrite H.
Qed.

Lemma scanned_history :
  map (fun tx => (wt_hash tx, wt_blockHeight tx)) (transactionsToAdd (processBlockTransactions walk b inputs ws)) =
  block_history chain (b, inputs).
Proof.
  unfold block_history, block_txs. cbn [fst snd]. cbn [transactionsToAdd processBlockTransactions].
  rewrite map_app, processCoinbase_history. change (?x :: map ?f ?l) with ([x] ++ map f l). rewrite filter_app, map_app. f_equal.
  induction (wb_transactions b) as [|tx l IH]; [done|]. pose proof (processTransaction_spec tx) as H.
  change (omap _ (tx :: l)) with (match processTransaction walk b inputs tx ws with
    | Some y => y :: omap (fun t => processTransaction walk b inputs t ws) l
    | None => omap (fun t => processTransaction walk b inputs t ws) l end).
  cbn [map]. rewrite filter_cons. destruct (processTransaction walk b inputs tx ws) as [[t marks]|].
  - destruct H as (Hc & Hh & Hb & _). rewrite decide_True by done. cbn [map fst]. by rewrite IH, Hh, Hb.
  - destruct H as [Hc _]. by rewrite decide_False.
Qed.

Lemma found_nodup : NoDup (found_images s (block_spends b)).
Proof.
  pose proof (fo_spends _ _ _ Hfo) as H. unfold found_images. induction (block_spends b) as [|x l IH]; [constructor|].
  apply NoDup_cons in H as [Hx H]. cbn. destruct (getKeyImageOwner walk x s) as [k|]; cbn; [|by apply IH].
  apply NoDup_cons. split; [|by apply IH]. intros (y & Hy & E)%list_elem_of_omap.
  destruct (getKeyImageOwner walk y s); [|done]. injection E as _ ->. done.
Qed.

(** The wallet of a key once the outputs of the block are stored. *)
Lemma stored_live s2 k w2 : wallets_move (stored inputs) s s2 -> m_subWallets s2 !! k = Some w2 ->
  live w2 ≡ₚ unspent_outputs k chain ++ owned k inputs /\ m_spentInputs w2 ≡ₚ spent_outputs k chain /\
  NoDup (map ti_keyImage (live w2)).
Proof.
  intros [_ M] Hw2. destruct (M k w2 Hw2) as (w & Hw & E & Es & _).
  assert (live w2 ≡ₚ unspent_outputs k chain ++ owned k inputs) as El by by rewrite E, (tr_live _ _ _ Htr _ _ Hw).
  split; [done|]. split; [by rewrite Es, (tr_spent _ _ _ Htr _ _ Hw)|]. rewrite El.
  pose proof (owned_nodup k _ (fo_images _ _ _ Hfo)) as Hn. rewrite all_received_snoc, owned_app, map_app in Hn.
  apply NoDup_app in Hn as (Hn1 & Hn2 & Hn3). rewrite map_app. apply NoDup_app. split; [by apply NoDup_map_filter|]. split; [|done].
  intros x (i & -> & [_ Hi]%list_elem_of_filter)%list_elem_of_fmap. apply Hn2. by apply list_elem_of_fmap_2.
Qed.

(** The wallet of a key once the spent key images are marked. *)
Lemma marked_tracks s2 s3 k w3 : wallets_move (stored inputs) s s2 ->
  wallets_move (marked (wb_blockHeight b) (found_images s (block_spends b))) s2 s3 ->
  m_subWallets s3 !! k = Some w3 ->
  live w3 ≡ₚ unspent_outputs k (chain ++ [(b, inputs)]) /\ m_spentInputs w3 ≡ₚ spent_outputs k (chain ++ [(b, inputs)]).
Proof.
  intros M2 [K3 M3] Hw3. destruct (M3 k w3 Hw3) as (w2 & Hw2 & El & Es & _).
  destruct (stored_live s2 k w2 M2 Hw2) as (El2 & Es2 & _).
  assert (Hun : forall i, i ∈ unspent_outputs k chain ->
    (k, ti_keyImage i) ∈ found_images s (block_spends b) <-> ti_keyImage i ∈ block_spends b).
  { intros i [Hs Hi%elem_of_owned]%list_elem_of_filter. rewrite elem_of_found.
    split; [tauto|]. intros Hx. split; [done|]. apply (tracks_owns _ _ _ _ _ Hok Htr). eauto. }
  assert (Hnew : forall i, i ∈ owned k inputs -> (k, ti_keyImage i) ∉ found_images s (block_spends b)).
  { intros i Hi [Hx _]%elem_of_found. pose proof (fresh_owned _ _ _ _ _ Hfo Hi) as Hf. rewrite spend_height_snoc in Hf.
    destruct (spend_height chain _); [done|]. by rewrite decide_True in Hf. }
  split.
  - rewrite El, El2, filter_app, unspent_outputs_snoc by done.
    rewrite (filter_all _ (owned k inputs)) by (by apply Forall_forall). f_equiv.
    apply reflexive_eq, filter_ext_elem. intros i Hi. by rewrite Hun.
  - rewrite Es, El2, Es2, spent_outputs_snoc by done. f_equiv. apply Permutation_map.
    rewrite filter_app, (filter_none _ (owned k inputs)) by (by apply Forall_forall). rewrite app_nil_r.
    apply reflexive_eq, filter_ext_elem. intros i Hi. by rewrite Hun.
Qed.

Lemma store_scanned_tracks :
  (forall k i, (k, i) ∈ inputs -> k ∈ m_publicSpendKeys id0 /\ ti_blockHeight i = wb_blockHeight b /\ ti_spendHeight i = 0 /\
     ti_parentTransactionHash i ∈ map fst (block_txs b)) ->
  exists s', store_scanned b (processBlockTransactions walk b inputs ws) s = Some s' /\
    tracks id0 (chain ++ [(b, inputs)]) s' /\ (settled s -> settled s').
Proof.
  intros Hin. unfold store_scanned. pose proof scanned_history as Hh. pose proof (same_keys_ok _ _ (tr_same _ _ _ Htr) Hok) as Hs.
  assert (map wt_hash (transactionsToAdd (processBlockTransactions walk b inputs ws)) =
          map fst (filter (concerns chain inputs) (block_txs b))) as Hhash.
  { apply (f_equal (map fst)) in Hh. unfold block_history in Hh. rewrite !map_map in Hh. exact Hh. }
  destruct (add_all (transactionsToAdd (processBlockTransactions walk b inputs ws)) s) as (s1 & E1 & T1 & W1 & K1).
  { rewrite Hhash. apply NoDup_map_filter, (fo_distinct _ _ _ Hfo). }
  { intros tx Htx Hold.
    assert (wt_hash tx ∈ map fst (filter (concerns chain inputs) (block_txs b))) as Hn
      by (rewrite <- Hhash; by apply list_elem_of_fmap_2).
    apply list_elem_of_fmap in Hn as (t & Et & [_ Ht]%list_elem_of_filter).
    apply (proj1 (Forall_forall _ _) (fo_new _ _ _ Hfo) t Ht). rewrite <- Et, <- (tr_history _ _ _ Htr), map_map. exact Hold. }
  rewrite E1. cbn [mbind option_bind].
  destruct (store_all inputs s1) as (s2 & E2 & M2 & T2 & _).
  { apply Forall_forall. intros [k i] Hki. destruct (Hin k i Hki) as [Hk _]. rewrite W1. apply (ok_keys _ Hs).
    by destruct (tr_same _ _ _ Htr) as [<- _]. }
  cbn [inputsToAdd processBlockTransactions]. rewrite E2. cbn [mbind option_bind].
  assert (wallets_move (stored inputs) s s2) as M2'.
  { destruct M2 as [K2 M2]. split; [by etransitivity|]. by rewrite W1 in M2. }
  rewrite scanned_marks.
  destruct (mark_all (wb_blockHeight b) (found_images s (block_spends b)) s2) as (s3 & E3 & M3 & T3 & _).
  { destruct M2' as [(_ & <- & _) _]. apply (ok_spends _ Hs). }
  { intros k w2 Hw2. by destruct (stored_live s2 k w2 M2' Hw2) as (_ & _ & H). }
  { exact found_nodup. }
  { apply Forall_forall. intros [k x] [_ (w & Hw & Hx)]%elem_of_found. cbn [fst snd].
    destruct (same_keys_lookup _ _ _ _ (proj1 M2') Hw) as (w2 & Hw2 & _). exists w2. split; [done|].
    destruct (proj2 M2' k w2 Hw2) as (w' & Hw' & -> & _). rewrite Hw in Hw'. injection Hw' as <-.
    rewrite map_app, elem_of_app. by left. }
  exists s3. split; [exact E3|]. split; [split|exact (settled_moves _ _ _ _ _ _ M2' M3)].
  - etransitivity; [exact (tr_same _ _ _ Htr)|]. etransitivity; [exact (proj1 M2')|exact (proj1 M3)].
  - intros b' l k i [Hb|[= -> ->]%list_elem_of_singleton]%elem_of_app Hi; [exact (tr_inputs _ _ _ Htr _ _ _ _ Hb Hi)|auto].
  - intros k w3 Hw3. exact (proj1 (marked_tracks s2 s3 k w3 M2' M3 Hw3)).
  - intros k w3 Hw3. exact (proj2 (marked_tracks s2 s3 k w3 M2' M3 Hw3)).
  - rewrite T3, T2, T1, map_app, (tr_history _ _ _ Htr), Hh, history_app. cbn. by rewrite app_nil_r.
Qed.

End Scan.
End Owner.

(** ** Forks *)

Lemma spend_height_elem chain x h : spend_height chain x = Some h -> exists b l, (b, l) ∈ chain /\ h = wb_blockHeight b.
Proof.
  induction chain as [|[b l] chain IH]; [done|]. cbn [spend_height]. case_decide.
  - intros [= <-]. exists b, l. split; [apply list_elem_of_here|done].
  - intros (b' & l' & Hb & ->)%IH. exists b', l'. split; [by apply list_elem_of_further|done].
Qed.

Lemma history_elem chain : forall prior t h, (t, h) ∈ history prior chain -> exists b l, (b, l) ∈ chain /\ h = wb_blockHeight b.
Proof.
  induction chain as [|[b l] chain IH]; intros prior t h; [by intros ?%not_elem_of_nil|]. cbn [history]. rewrite elem_of_app. intros [H|H].
  - apply list_elem_of_fmap in H as (tx & [= _ ->] & _). exists b, l. split; [apply list_elem_of_here|done].
  - destruct (IH _ _ _ H) as (b' & l' & Hb & ->). exists b', l'. split; [by apply list_elem_of_further|done].
Qed.

Lemma filter_map_comm {A B} (f : A -> B) (P : B -> Prop) (Q : A -> Prop) `{!forall x, Decision (P x), !forall x, Decision (Q x)} (l : list A) :
  (forall x, P (f x) <-> Q x) -> map f (filter Q l) = filter P (map f l).
Proof.
  intros E. induction l as [|x l IH]; [done|]. cbn [map]. rewrite !filter_cons. specialize (E x).
  repeat case_decide; try tauto; cbn [map]; by rewrite IH.
Qed.

Section Fork.
Context (id0 : SubWallets) (pre post : Scanned) (s : SubWallets) (h : Z).
Hypothesis Htr : tracks id0 (pre ++ post) s.
Hypothesis Hpre : Forall (fun bi => wb_blockHeight bi.1 < h) pre.
Hypothesis Hpost : Forall (fun bi => h <= wb_blockHeight bi.1) post.

Abbreviation SH := (spend_height (pre ++ post)).

Lemma fork_spend_height x :
  match SH x with
  | Some n => if decide (n < h) then spend_height pre x = Some n else spend_height pre x = None
  | None => spend_height pre x = None
  end.
Proof.
  rewrite spend_height_app. destruct (spend_height pre x) as [n|] eqn:E.
  - destruct (spend_height_elem _ _ _ E) as (b & l & Hb & ->). rewrite decide_True; [done|].
    exact (proj1 (Forall_forall _ _) Hpre _ Hb).
  - destruct (spend_height post x) as [n|] eqn:F; [|done]. rewrite decide_False; [done|].
    destruct (spend_height_elem _ _ _ F) as (b & l & Hb & ->). pose proof (proj1 (Forall_forall _ _) Hpost _ Hb). cbn in *. lia.
Qed.

Lemma fork_received k i chain : chain ⊆ pre ++ post -> i ∈ owned k (all_received chain) ->
  exists b l, (b, l) ∈ chain /\ ti_blockHeight i = wb_blockHeight b /\ ti_spendHeight i = 0.
Proof.
  intros Hc (b & l & Hb & Hi)%elem_of_owned%elem_of_all_received.
  destruct (tr_inputs _ _ _ Htr _ _ _ _ (Hc _ Hb) Hi) as (_ & H1 & H2 & _). eauto 6.
Qed.

Definition respent (i : TransactionInput) : option TransactionInput := n ← SH (ti_keyImage i); Some (set_spendHeight n i).

(** The outputs of the kept blocks whose spend is undone are unspent again. *)
Lemma fork_unspent (A : list TransactionInput) : Forall (fun i => ti_spendHeight i = 0) A ->
  filter (fun i => SH (ti_keyImage i) = None) A ++ map (set_spendHeight 0) (filter (fun i => h <= ti_spendHeight i) (omap respent A)) ≡ₚ
  filter (fun i => spend_height pre (ti_keyImage i) = None) A.
Proof.
  induction 1 as [|i A Hi _ IH]; [done|]. rewrite !filter_cons. cbn [omap list_omap]. pose proof (fork_spend_height (ti_keyImage i)) as H.
  unfold respent at 1. destruct (SH (ti_keyImage i)) as [n|]; cbn [mbind option_bind].
  - rewrite decide_False by done. case_decide as Hn; rewrite filter_cons; cbn [ti_spendHeight set_spendHeight].
    + rewrite decide_False by (cbn; lia). rewrite decide_False by congruence. exact IH.
    + rewrite decide_True by (cbn; lia). rewrite decide_True by done. cbn [map].
      assert (set_spendHeight 0 (set_spendHeight n i) = i) as -> by (destruct i; cbn in *; by subst).
      etransitivity; [symmetry; apply Permutation_middle|]. apply perm_skip, IH.
  - rewrite !decide_True by done. apply perm_skip, IH.
Qed.

Lemma fork_spent (A : list TransactionInput) : filter (fun i => ti_spendHeight i < h) (omap respent A) =
  omap (fun i => n ← spend_height pre (ti_keyImage i); Some (set_spendHeight n i)) A.
Proof.
  induction A as [|i A IH]; [done|]. cbn [omap list_omap]. pose proof (fork_spend_height (ti_keyImage i)) as H.
  unfold respent at 1. destruct (SH (ti_keyImage i)) as [n|]; cbn [mbind option_bind].
  - rewrite filter_cons. case_decide as Hn; cbn [ti_spendHeight set_spendHeight] in *; rewrite ?decide_True, ?decide_False by done;
      rewrite H; cbn [mbind option_bind]; by rewrite <- IH.
  - rewrite H. exact IH.
Qed.

Hypothesis Hlocked : forall k w, m_subWallets s !! k = Some w -> Forall (fun i => h <= ti_blockHeight i) (m_lockedInputs w).
Hypothesis Hkept : Forall (fun ki => SH (image_of ki) = None) (all_received post).

Lemma fork_wallet k w : m_subWallets s !! k = Some w ->
  live (removeForkedInputs h w) ≡ₚ unspent_outputs k pre /\ m_spentInputs (removeForkedInputs h w) ≡ₚ spent_outputs k pre.
Proof.
  intros Hw. pose proof (tr_live _ _ _ Htr _ _ Hw) as Hl.
  assert (filter (fun i => ti_blockHeight i < h) (m_unspentInputs w) = filter (fun i => ti_blockHeight i < h) (live w)) as El.
  { unfold live. rewrite filter_app, (filter_none _ (m_lockedInputs w)), app_nil_r; [done|].
    eapply Forall_impl; [exact (Hlocked _ _ Hw)|]. cbn. lia. }
  pose proof (tr_spent _ _ _ Htr _ _ Hw) as Hs. unfold spent_outputs in Hs. rewrite all_received_app, owned_app, omap_app in Hs.
  rewrite (omap_none _ (owned k (all_received post))), app_nil_r in Hs.
  2: { intros i Hi%elem_of_owned. pose proof (proj1 (Forall_forall _ _) Hkept _ Hi) as E. unfold image_of in E. cbn in E. by rewrite E. }
  unfold live. cbn [m_unspentInputs m_lockedInputs m_spentInputs removeForkedInputs set_inputs]. rewrite app_nil_r. split.
  - rewrite El, Hl, Hs. unfold unspent_outputs. rewrite all_received_app, owned_app, !filter_app.
    rewrite (filter_all _ (filter _ (owned k (all_received pre)))), (filter_none _ (filter _ (owned k (all_received post)))), app_nil_r.
    + apply fork_unspent. apply Forall_forall. intros i Hi. by destruct (fork_received k i pre ltac:(set_solver) Hi) as (_ & _ & _ & _ & ?).
    + apply Forall_forall. intros i [_ Hi]%list_elem_of_filter. destruct (fork_received k i post ltac:(set_solver) Hi) as (b & l & Hb & E & _).
      pose proof (proj1 (Forall_forall _ _) Hpost _ Hb). cbn in *. lia.
    + apply Forall_forall. intros i [_ Hi]%list_elem_of_filter. destruct (fork_received k i pre ltac:(set_solver) Hi) as (b & l & Hb & E & _).
      pose proof (proj1 (Forall_forall _ _) Hpre _ Hb). cbn in *. lia.
  - rewrite Hs. apply reflexive_eq, fork_spent.
Qed.

Lemma removeForked_tracks : tracks id0 pre (removeForkedTransactions h s).
Proof.
  split.
  - etransitivity; [exact (tr_same _ _ _ Htr)|]. by apply same_keys_fmap.
  - intros b l k i Hb. apply (tr_inputs _ _ _ Htr). apply elem_of_app. by left.
  - cbn. intros k w' (w & <- & Hw)%lookup_fmap_Some. by apply fork_wallet.
  - cbn. intros k w' (w & <- & Hw)%lookup_fmap_Some. by apply fork_wallet.
  - cbn. rewrite (filter_map_comm (fun tx => (wt_hash tx, wt_blockHeight tx)) (fun th => th.2 < h) (fun tx => wt_blockHeight tx < h)) by done.
    rewrite (tr_history _ _ _ Htr), history_app, filter_app.
    rewrite filter_all, filter_none, app_nil_r; [done| |]; apply Forall_forall; intros [t n] (b & l & Hb & ->)%history_elem; cbn.
    + pose proof (proj1 (Forall_forall _ _) Hpost _ Hb). cbn in *. lia.
    + exact (proj1 (Forall_forall _ _) Hpre _ Hb).
Qed.
End Fork.

(** ** Containers *)

Lemma new_container_keys k w v isView : m_publicSpendKey w = k -> keys_ok (new_container k w v isView).
Proof.
  intros Hk. split; [apply NoDup_singleton|]. split.
  - intros k'. cbn. rewrite list_elem_of_singleton, lookup_singleton_is_Some. naive_solver.
  - cbn. intros k' w' [-> ->]%lookup_singleton_Some. done.
Qed.

Lemma insert_wallet_keys k w s : m_publicSpendKey w = k -> m_subWallets s !! k = None -> keys_ok s -> keys_ok (insert_wallet k w s).
Proof.
  intros Hw Hk (Hn & Hi & Ho). split; [|split]; cbn.
  - apply NoDup_app. split; [done|]. split; [|apply NoDup_singleton].
    intros x Hx ->%list_elem_of_singleton. apply Hi in Hx as [? E]. congruence.
  - intros k'. rewrite elem_of_app, list_elem_of_singleton, Hi, lookup_insert_is_Some'. naive_solver.
  - intros k' w' [[-> ->]|[_ E]]%lookup_insert_Some; [done|by apply Ho].
Qed.

(** ** What the wallet does by itself *)

Lemma filter_split {A} (P : A -> Prop) `{!forall x, Decision (P x)} (l : list A) : filter P l ++ filter (fun x => ~ P x) l ≡ₚ l.
Proof.
  induction l as [|x l IH]; [done|]. rewrite !filter_cons. destruct (decide (P x)) as [Hx|Hx].
  - rewrite (decide_False (P := ~ P x)) by tauto. apply perm_skip, IH.
  - rewrite (decide_True (P := ~ P x)) by done. etransitivity; [symmetry; apply Permutation_middle|]. apply perm_skip, IH.
Qed.

(** Operations that change neither the live nor the spent inputs, up to their order. *)
Definition shifts (k : PublicKey) (w w' : SubWallet) : Prop := live w' ≡ₚ live w /\ m_spentInputs w' = m_spentInputs w.

Lemma shifts_tracks id0 chain s s' : tracks id0 chain s -> wallets_move shifts s s' -> m_transactions s' = m_transactions s ->
  tracks id0 chain s'.
Proof.
  intros Ht [K M] E. split.
  - etransitivity; [exact (tr_same _ _ _ Ht)|exact K].
  - exact (tr_inputs _ _ _ Ht).
  - intros k w' Hw'. destruct (M k w' Hw') as (w & Hw & -> & _). exact (tr_live _ _ _ Ht _ _ Hw).
  - intros k w' Hw'. destruct (M k w' Hw') as (w & Hw & _ & ->). exact (tr_spent _ _ _ Ht _ _ Hw).
  - rewrite E. exact (tr_history _ _ _ Ht).
Qed.

(** Sending a transaction: its inputs are locked, it is remembered, and its change
    is expected; and giving up on a transaction. *)
Lemma markInputAsLocked_tracks id0 chain s x k s' : tracks id0 chain s -> markInputAsLocked x k s = Some s' -> tracks id0 chain s'.
Proof.
  intros Ht E. apply bind_Some in E as ([] & _ & E). apply bind_Some in E as (w & Hw & E). apply bind_Some in E as (w' & Ew & [= <-]).
  eapply shifts_tracks; [exact Ht| |done]. unfold subWallet_markInputAsLocked in Ew.
  destruct (decide (x ∈ map ti_keyImage (m_unspentInputs w))) as [Hx|Hx].
  - destruct (find_keyImage_Some _ _ Hx) as (n & i & E & _ & Hp). rewrite E in Ew. injection Ew as <-.
    eapply wallets_move_insert; [done|done| |done]. split; [|done]. unfold live. cbn.
    rewrite Hp at 2. rewrite app_assoc, (Permutation_app_comm _ [i]). done.
  - by rewrite (find_keyImage_None _ _ Hx) in Ew.
Qed.

Lemma addUnconfirmedTransaction_tracks id0 chain s tx s' : tracks id0 chain s -> addUnconfirmedTransaction tx s = Some s' ->
  tracks id0 chain s'.
Proof.
  intros Ht E. unfold addUnconfirmedTransaction in E. case_decide; [done|]. injection E as <-.
  eapply shifts_tracks; [exact Ht| |done]. split; [done|]. intros k w Hw. by exists w.
Qed.

Lemma storeUnconfirmedIncomingInput_tracks id0 chain s u k : tracks id0 chain s -> tracks id0 chain (storeUnconfirmedIncomingInput u k s).
Proof.
  intros Ht. unfold storeUnconfirmedIncomingInput. destruct (m_subWallets s !! k) as [w|] eqn:Hw; [|done].
  eapply shifts_tracks; [exact Ht| |done]. by eapply wallets_move_insert.
Qed.

Lemma live_unspent id0 chain s k w i : tracks id0 chain s -> m_subWallets s !! k = Some w -> i ∈ live w -> set_spendHeight 0 i = i.
Proof.
  intros Ht Hw Hi. rewrite (tr_live _ _ _ Ht _ _ Hw) in Hi. apply list_elem_of_filter in Hi as [_ (b & l & Hb & Hl)%elem_of_owned%elem_of_all_received].
  destruct (tr_inputs _ _ _ Ht _ _ _ _ Hb Hl) as (_ & _ & E & _). destruct i. cbn in *. by subst.
Qed.

Lemma removeCancelledTransactions_tracks id0 chain s c s' : tracks id0 chain s -> removeCancelledTransactions c s = Some s' ->
  tracks id0 chain s'.
Proof.
  intros Ht E. apply bind_Some in E as ([] & _ & [= <-]). eapply shifts_tracks; [exact Ht| |done]. split; [by apply same_keys_fmap|].
  cbn. intros k w' (w & <- & Hw)%lookup_fmap_Some. exists w. split; [done|]. split; [|done]. unfold live. cbn. rewrite <- app_assoc. f_equiv.
  rewrite (map_ext_in (set_spendHeight 0) (fun i => i)), map_id; [apply filter_split|].
  intros i [_ Hi]%list_elem_of_In%list_elem_of_filter. eapply live_unspent; [exact Ht|exact Hw|]. apply elem_of_app. by right.
Qed.
