(* ===== verification/WalletRun.v ===== *)
(** * Scanning the chain

    [processBlock] on a container that tracks a chain: what it finds in a block
    does not depend on what the wallets hold, and afterwards the container
    tracks the chain with the block, also when the block replaces blocks that
    were scanned before.  A run of any length from a container without inputs
    ends with the balance that the chain gives it. *)

From stdpp Require Import gmap fin_sets fin_maps.
From S2P Require Import Prelude Config Serializer Transaction Amounts SubWallet SubWallets WalletSync WalletSpec.

Section Run.
Variable generate_key_derivation : PublicKey -> SecretKey -> bytes.
Variable underive_public_key : bytes -> Z -> PublicKey -> PublicKey.
Variable derive_public_key : bytes -> Z -> PublicKey -> PublicKey.
Variable derive_secret_key : bytes -> Z -> SecretKey -> SecretKey.
Variable generate_key_image : PublicKey -> SecretKey -> KeyImage.
Variable uninitialized : KeyImage.
Variable walk : gmap PublicKey SubWallet -> list (PublicKey * SubWallet).
Hypothesis walk_perm : forall m, walk m ≡ₚ map_to_list m.

Abbreviation scan_outputs := (scan_outputs underive_public_key derive_public_key derive_secret_key generate_key_image uninitialized).
Abbreviation processTransactionOutputs := (processTransactionOutputs generate_key_derivation underive_public_key derive_public_key
  derive_secret_key generate_key_image uninitialized).
Abbreviation processBlockOutputs := (processBlockOutputs generate_key_derivation underive_public_key derive_public_key
  derive_secret_key generate_key_image uninitialized).
Abbreviation processBlock := (processBlock generate_key_derivation underive_public_key derive_public_key derive_secret_key
  generate_key_image uninitialized walk).
Abbreviation processBlocks := (processBlocks generate_key_derivation underive_public_key derive_public_key derive_secret_key
  generate_key_image uninitialized walk).

(** What scanning a block finds: the outputs of the container with the indexes of the daemon. *)
Definition scanned (daemon : Nigel) (viewKey : SecretKey) (s : SubWallets) (b : WalletBlockInfo) : option (list OwnedInput) :=
  ours ← processBlockOutputs b (MkSynchronizer SynchronizationStatus_new 0 0 viewKey s);
  fill_indexes daemon (wb_blockHeight b) (m_isViewWallet s) ∅ ours.

(** ** It depends on the keys alone *)

Lemma getTxInputKeyImage_same k d n s s' : same_keys s s' ->
  getTxInputKeyImage derive_public_key derive_secret_key generate_key_image uninitialized k d n s =
  getTxInputKeyImage derive_public_key derive_secret_key generate_key_image uninitialized k d n s'.
Proof.
  intros H. unfold getTxInputKeyImage. destruct (m_subWallets s !! k) as [w|] eqn:E.
  - destruct (same_keys_lookup _ _ _ _ H E) as (w' & -> & Hk). destruct H as (_ & <- & _). injection Hk as Hp Hs.
    cbn. unfold subWallet_getTxInputKeyImage. by rewrite Hp, Hs.
  - destruct (m_subWallets s' !! k) as [w'|] eqn:E'; [|done]. symmetry in H.
    destruct (same_keys_lookup _ _ _ _ H E') as (w & Hw & _). congruence.
Qed.

Lemma scan_outputs_same tx h d s s' l : same_keys s s' -> forall n, scan_outputs tx h d s n l = scan_outputs tx h d s' n l.
Proof.
  intros H. induction l as [|o l IH]; intros n; [done|]. cbn [WalletSync.scan_outputs]. rewrite IH.
  rewrite (getTxInputKeyImage_same _ _ _ _ _ H). by destruct H as (<- & _ & _).
Qed.

Lemma processBlockOutputs_same b ws ws' : same_keys (ws_subWallets ws) (ws_subWallets ws') ->
  ws_privateViewKey ws = ws_privateViewKey ws' -> processBlockOutputs b ws = processBlockOutputs b ws'.
Proof.
  intros H E. assert (forall tx h, processTransactionOutputs tx h ws = processTransactionOutputs tx h ws') as Ht.
  { intros tx h. unfold WalletSync.processTransactionOutputs. rewrite E. by apply scan_outputs_same. }
  unfold WalletSync.processBlockOutputs. rewrite Ht.
  by rewrite (mapM_ext _ (fun tx : RawTransaction => processTransactionOutputs tx (wb_blockHeight b) ws')) by (intros; apply Ht).
Qed.

(** ** What it finds *)

Definition of_block (s : SubWallets) (h : Z) (hashes : list Hash) (ki : OwnedInput) : Prop :=
  ki.1 ∈ m_publicSpendKeys s /\ ti_blockHeight ki.2 = h /\ ti_spendHeight ki.2 = 0 /\ ti_parentTransactionHash ki.2 ∈ hashes.

Lemma scan_outputs_found tx h d s l hashes : raw_txHash tx ∈ hashes ->
  forall n r, scan_outputs tx h d s n l = Some r -> Forall (of_block s h hashes) r.
Proof.
  intros Hh. induction l as [|o l IH]; intros n r E; [injection E as <-; constructor|]. cbn [WalletSync.scan_outputs] in E.
  apply bind_Some in E as (found & Ef & E). apply bind_Some in E as (more & Em & [= <-]).
  apply Forall_app. split; [|by eapply IH]. case_decide.
  - apply bind_Some in Ef as (x & _ & [= <-]). by apply Forall_singleton.
  - injection Ef as <-. constructor.
Qed.

Lemma processBlockOutputs_found b ws r : processBlockOutputs b ws = Some r ->
  Forall (of_block (ws_subWallets ws) (wb_blockHeight b) (map fst (block_txs b))) r.
Proof.
  unfold WalletSync.processBlockOutputs. intros (c & Ec & (o & Eo & [= <-])%bind_Some)%bind_Some. unfold block_txs. cbn [map fst]. rewrite map_map.
  apply Forall_app. split; [eapply scan_outputs_found, Ec; apply list_elem_of_here|]. apply mapM_Some in Eo.
  assert (Forall (fun tx : RawTransaction => raw_txHash tx ∈ raw_txHash (coinbaseTransaction b) :: map (fun tx : RawTransaction => raw_txHash tx) (wb_transactions b))
    (wb_transactions b)) as Hall.
  { apply Forall_forall. intros tx Htx. apply list_elem_of_further. by apply (list_elem_of_fmap_2 (fun tx : RawTransaction => raw_txHash tx)). }
  cbn [fst]. generalize dependent (raw_txHash (coinbaseTransaction b) :: map (fun tx : RawTransaction => raw_txHash tx) (wb_transactions b)).
  intros hashes Hall. induction Eo as [|tx l txs ls Et _ IH]; [constructor|]. apply Forall_cons in Hall as [Htx Hall]. cbn [concat].
  apply Forall_app. split; [by eapply scan_outputs_found|by apply IH].
Qed.

Lemma fill_indexes_found daemon s h v hashes l : forall g r, fill_indexes daemon h v g l = Some r ->
  Forall (of_block s h hashes) l -> Forall (of_block s h hashes) r.
Proof.
  induction l as [|[k i] l IH]; intros g r E Hl; [injection E as <-; constructor|]. cbn [fill_indexes] in E.
  apply Forall_cons in Hl as [Hi Hl]. destruct (negb v && _).
  - apply bind_Some in E as (x & _ & E). apply bind_Some in E as (more & Em & [= <-]). constructor; [done|by eapply IH].
  - apply bind_Some in E as (more & Em & [= <-]). constructor; [done|by eapply IH].
Qed.

Lemma scanned_found daemon v s b r : scanned daemon v s b = Some r ->
  Forall (of_block s (wb_blockHeight b) (map fst (block_txs b))) r.
Proof.
  intros (ours & E1 & E2)%bind_Some. eapply fill_indexes_found; [done|]. by apply processBlockOutputs_found in E1.
Qed.

(** ** One block *)

Definition last_height (chain : Scanned) : Z :=
  match last chain with Some bi => wb_blockHeight bi.1 | None => 0 end.

(** The synchronizer knows the chain: the wallets track it and the last height is its height. *)
Record knows (id0 : SubWallets) (viewKey : SecretKey) (chain : Scanned) (ws : WalletSynchronizer) : Prop := {
  kn_tracks : tracks id0 chain (ws_subWallets ws);
  kn_height : m_lastKnownBlockHeight (m_syncStatus ws) = last_height chain;
  kn_view : ws_privateViewKey ws = viewKey
}.

(** The block [b], in which [inputs] belong to the container, is the next of the
    chain [pre], and replaces [post]; no output of [post] has been spent. *)
Record next_block (daemon : Nigel) (id0 : SubWallets) (viewKey : SecretKey) (pre post : Scanned) (b : WalletBlockInfo)
    (inputs : list OwnedInput) : Prop := {
  nb_found : scanned daemon viewKey id0 b = Some inputs;
  nb_follows : follows pre b inputs;
  nb_height : is_u64 (wb_blockHeight b);
  nb_pre : Forall (fun bi => wb_blockHeight bi.1 < wb_blockHeight b) pre;
  nb_post : Forall (fun bi => wb_blockHeight b <= wb_blockHeight bi.1) post;
  nb_next : last_height (pre ++ post) = 0 \/ wb_blockHeight b <= last_height (pre ++ post) + 1;
  nb_kept : Forall (fun ki => spend_height (pre ++ post) (image_of ki) = None) (all_received post)
}.

Lemma last_height_snoc chain b inputs : last_height (chain ++ [(b, inputs)]) = wb_blockHeight b.
Proof. unfold last_height. by rewrite last_snoc. Qed.

Lemma next_block_grows daemon id0 v pre post b inputs : next_block daemon id0 v pre post b inputs ->
  last_height (pre ++ post) < wb_blockHeight b -> post = [].
Proof.
  intros Hn Hlt. destruct post as [|bi post] using rev_ind; [done|]. exfalso. rewrite app_assoc in Hlt.
  destruct bi as [c l]. rewrite last_height_snoc in Hlt. pose proof (nb_post _ _ _ _ _ _ _ Hn) as Hp.
  apply Forall_app in Hp as [_ Hp]. inversion Hp; subst. cbn in *. lia.
Qed.

Lemma storeBlockHash_next daemon id0 v pre post b inputs st : next_block daemon id0 v pre post b inputs ->
  m_lastKnownBlockHeight st = last_height (pre ++ post) ->
  exists st', storeBlockHash (wb_blockHash b) (wb_blockHeight b) st = Some st' /\ m_lastKnownBlockHeight st' = wb_blockHeight b.
Proof.
  intros Hn E. unfold storeBlockHash. rewrite E. destruct (_ && _) eqn:F; [|eauto]. exfalso.
  rewrite !andb_true_iff, !negb_true_iff, Z.ltb_lt, !Z.eqb_neq in F. destruct F as [[Hlt Hz] Hne].
  destruct (nb_next _ _ _ _ _ _ _ Hn) as [?|Hle]; [done|]. apply Hne.
  replace (last_height (pre ++ post) + 1) with (wb_blockHeight b) by lia. symmetry. apply wrap_small.
  exact (nb_height _ _ _ _ _ _ _ Hn).
Qed.

(** The container just before the block is scanned. *)
Definition unforked (b : WalletBlockInfo) (ws : WalletSynchronizer) : WalletSynchronizer :=
  if wb_blockHeight b <=? m_lastKnownBlockHeight (m_syncStatus ws)
  then set_ws_subWallets (removeForkedTransactions (wb_blockHeight b) (ws_subWallets ws)) ws else ws.

Lemma unforked_tracks daemon id0 v pre post b inputs ws : knows id0 v (pre ++ post) ws ->
  next_block daemon id0 v pre post b inputs ->
  (wb_blockHeight b <= last_height (pre ++ post) ->
   forall k w, m_subWallets (ws_subWallets ws) !! k = Some w -> Forall (fun i => wb_blockHeight b <= ti_blockHeight i) (m_lockedInputs w)) ->
  tracks id0 pre (ws_subWallets (unforked b ws)) /\ (settled (ws_subWallets ws) -> settled (ws_subWallets (unforked b ws))).
Proof.
  intros [Ht Hh Hv] Hn Hl. unfold unforked. rewrite Hh. destruct (Z.leb_spec (wb_blockHeight b) (last_height (pre ++ post))) as [Hle|Hlt].
  - split; cbn.
    + eapply removeForked_tracks; [done|apply Hn|apply Hn|by apply Hl|apply Hn].
    + intros _ k w' (w & <- & Hw)%lookup_fmap_Some. done.
  - split; [|done]. rewrite (next_block_grows _ _ _ _ _ _ _ Hn Hlt), app_nil_r in Ht. done.
Qed.

Lemma processBlock_next daemon id0 v pre post b inputs ws : container_ok id0 -> knows id0 v (pre ++ post) ws ->
  next_block daemon id0 v pre post b inputs ->
  (wb_blockHeight b <= last_height (pre ++ post) ->
   forall k w, m_subWallets (ws_subWallets ws) !! k = Some w -> Forall (fun i => wb_blockHeight b <= ti_blockHeight i) (m_lockedInputs w)) ->
  exists ws' events, processBlock daemon b ws = Some (ws', events) /\ knows id0 v (pre ++ [(b, inputs)]) ws' /\
    (settled (ws_subWallets ws) -> settled (ws_subWallets ws')).
Proof.
  intros Hok Hk Hn Hl. destruct (unforked_tracks _ _ _ _ _ _ _ _ Hk Hn Hl) as [Ht Hset].
  unfold WalletSync.processBlock. change (if _ <=? _ then _ else ws) with (unforked b ws).
  assert (m_syncStatus (unforked b ws) = m_syncStatus ws /\ ws_privateViewKey (unforked b ws) = v) as [Est Ev].
  { unfold unforked. rewrite <- (kn_view _ _ _ _ Hk). by destruct (_ <=? _). }
  pose proof (nb_found _ _ _ _ _ _ _ Hn) as Hf. pose proof (scanned_found _ _ _ _ _ Hf) as Hin.
  apply bind_Some in Hf as (ours & E1 & E2).
  rewrite <- (processBlockOutputs_same b (MkSynchronizer SynchronizationStatus_new 0 0 v id0) (unforked b ws) (tr_same _ _ _ Ht)) by done.
  rewrite E1. cbn [mbind option_bind]. destruct (tr_same _ _ _ Ht) as (_ & <- & _). rewrite E2.
  destruct (store_scanned_tracks walk walk_perm id0 pre (unforked b ws) b inputs Hok Ht (nb_follows _ _ _ _ _ _ _ Hn)) as (s' & E3 & Ht' & Hset').
  { intros k i Hki. exact (proj1 (Forall_forall _ _) Hin (k, i) Hki). }
  rewrite E3. cbn [mbind option_bind].
  destruct (storeBlockHash_next _ _ _ _ _ _ _ (m_syncStatus ws) Hn (kn_height _ _ _ _ Hk)) as (st' & E4 & Hst).
  rewrite Est, E4. cbn [mbind option_bind]. do 2 eexists. split; [reflexivity|]. split; [|by auto].
  split; [done| |done]. by rewrite last_height_snoc.
Qed.

(** ** A run *)

(** The blocks of a run, in the order in which they come, from one chain to
    another: each continues the chain, or replaces the end of it. *)
Inductive scan_run (daemon : Nigel) (id0 : SubWallets) (viewKey : SecretKey) : Scanned -> list WalletBlockInfo -> Scanned -> Prop :=
  | run_end chain : scan_run daemon id0 viewKey chain [] chain
  | run_block pre post b inputs blocks chain' :
      next_block daemon id0 viewKey pre post b inputs ->
      scan_run daemon id0 viewKey (pre ++ [(b, inputs)]) blocks chain' ->
      scan_run daemon id0 viewKey (pre ++ post) (b :: blocks) chain'.

Lemma processBlocks_run daemon id0 v chain blocks chain' : container_ok id0 -> scan_run daemon id0 v chain blocks chain' ->
  forall ws, knows id0 v chain ws -> settled (ws_subWallets ws) ->
  exists ws' events, processBlocks daemon blocks ws = Some (ws', events) /\ knows id0 v chain' ws' /\ settled (ws_subWallets ws').
Proof.
  intros Hok Hrun. unfold WalletSync.processBlocks. generalize (@nil WalletEvent).
  induction Hrun as [chain|pre post b inputs blocks chain' Hn _ IH]; intros old ws Hk Hs; [by exists ws, old|].
  destruct (processBlock_next _ _ _ _ _ _ _ ws Hok Hk Hn) as (ws1 & ev1 & E1 & Hk1 & Hs1).
  { intros _ k w Hw. by destruct (Hs k w Hw) as [-> _]. }
  destruct (IH (old ++ ev1) ws1 Hk1 (Hs1 Hs)) as (ws' & ev & E & Hk' & Hs'). exists ws', ev. split; [|done].
  erewrite for_each_step; [exact E|]. cbn beta iota. by rewrite E1.
Qed.
End Run.

(** ** Balances *)

(** All outputs of the container that the chain has not spent. *)
Definition chain_unspent (chain : Scanned) : list OwnedInput :=
  filter (fun ki => spend_height chain (image_of ki) = None) (all_received chain).

(** What an output counts for in one of the two balances. *)
Definition counted (now height : Z) (unlocked : bool) (i : TransactionInput) : Z :=
  if Bool.eqb (isInputUnlocked now (ti_unlockTime i) height) unlocked then ti_amount i else 0.
Definition chain_balance (now height : Z) (unlocked : bool) (chain : Scanned) : Z :=
  sumZ (map (fun ki => counted now height unlocked ki.2) (chain_unspent chain)).

Lemma sumZ_perm l l' : l ≡ₚ l' -> sumZ l = sumZ l'.
Proof. unfold sumZ. induction 1; cbn; lia. Qed.

Lemma fold_counted now height (u : bool) l : forall acc,
  fold_left (fun s i => if Bool.eqb (isInputUnlocked now (ti_unlockTime i) height) u then u64 (s + ti_amount i) else s) l (u64 acc) =
  u64 (acc + sumZ (map (counted now height u) l)).
Proof.
  induction l as [|i l IH]; intros acc; [by cbn; rewrite Z.add_0_r|]. cbn [fold_left map].
  change (sumZ (?x :: ?r)) with (x + sumZ r). unfold counted at 1. destruct (Bool.eqb _ _).
  - rewrite wrap_add_l, IH by lia. f_equal. lia.
  - rewrite IH. f_equal.
Qed.

Lemma fold_left_ext {A B} (f g : A -> B -> A) l : (forall a x, f a x = g a x) -> forall a, fold_left f l a = fold_left g l a.
Proof. intros H. induction l as [|x l IH]; intros a; [done|]. cbn. by rewrite H, IH. Qed.

(** The balances of a wallet are sums over its unspent inputs. *)
Lemma subWallet_getBalance_sum now height w : m_unconfirmedIncomingAmounts w = [] ->
  subWallet_getBalance now height w =
  (u64 (sumZ (map (counted now height true) (m_unspentInputs w))), u64 (sumZ (map (counted now height false) (m_unspentInputs w)))).
Proof.
  intros Hu. unfold subWallet_getBalance. rewrite Hu. cbn [fold_left].
  pose proof (fold_counted now height true (m_unspentInputs w) 0) as H1. pose proof (fold_counted now height false (m_unspentInputs w) 0) as H2.
  change (u64 0) with 0 in H1, H2. rewrite Z.add_0_l in H1, H2. rewrite <- H1, <- H2.
  f_equal; apply fold_left_ext; intros a i; by destruct (isInputUnlocked _ _ _).
Qed.

Lemma getBalance_fold now height wallets : Forall (fun w => m_unconfirmedIncomingAmounts w = []) wallets -> forall a b : Z,
  fold_left (fun '(unlockedBalance, lockedBalance) w =>
      let '(unlocked, locked) := subWallet_getBalance now height w in
      (u64 (unlockedBalance + unlocked), u64 (lockedBalance + locked))) wallets (u64 a, u64 b) =
  (u64 (a + sumZ (map (fun w => sumZ (map (counted now height true) (m_unspentInputs w))) wallets)),
   u64 (b + sumZ (map (fun w => sumZ (map (counted now height false) (m_unspentInputs w))) wallets))).
Proof.
  induction 1 as [|w l Hw _ IH]; intros a b; [by cbn; rewrite !Z.add_0_r|]. cbn [fold_left map].
  rewrite subWallet_getBalance_sum by done. change (sumZ (?x :: ?r)) with (x + sumZ r).
  rewrite !wrap_add_l, !wrap_add_r, IH by lia. by rewrite !Z.add_assoc.
Qed.

(** A list of outputs is the lists of its keys, one after the other. *)
Lemma partition_by_key keys : NoDup keys -> forall l : list OwnedInput, Forall (fun ki => ki.1 ∈ keys) l ->
  concat (map (fun k => filter (fun ki => ki.1 = k) l) keys) ≡ₚ l.
Proof.
  induction 1 as [|k keys Hk _ IH]; intros l Hl.
  - destruct Hl as [|x l Hx _]; [done|]. by apply not_elem_of_nil in Hx.
  - cbn [map concat]. etransitivity; [apply Permutation_app_head|apply (filter_split (fun ki => ki.1 = k) l)].
    rewrite <- (IH (filter (fun ki => ki.1 <> k) l)).
    + apply reflexive_eq. f_equal. apply map_ext_in. intros k' Hk'%list_elem_of_In. rewrite list_filter_filter.
      apply list_filter_iff. intros ki. split; [|tauto]. intros <-. split; [done|]. congruence.
    + apply Forall_forall. intros ki [Hne Hki]%list_elem_of_filter. apply (proj1 (Forall_forall _ _) Hl) in Hki.
      by apply elem_of_cons in Hki as [?|?].
Qed.

Lemma sumZ_concat (f : OwnedInput -> Z) ls : sumZ (map f (concat ls)) = sumZ (map (fun l => sumZ (map f l)) ls).
Proof. induction ls as [|l ls IH]; [done|]. cbn [concat map]. rewrite map_app, sumZ_app, IH. done. Qed.

(** A sum over outputs, taken key by key. *)
Lemma sum_by_key (f : TransactionInput -> Z) keys l : NoDup keys -> Forall (fun ki => ki.1 ∈ keys) l ->
  sumZ (map (fun k => sumZ (map f (owned k l))) keys) = sumZ (map (fun ki => f ki.2) l).
Proof.
  intros Hn Hl. rewrite <- (sumZ_perm _ _ (Permutation_map (fun ki => f ki.2) (partition_by_key keys Hn l Hl))), sumZ_concat, map_map.
  f_equal. apply map_ext. intros k. unfold owned. by rewrite map_map.
Qed.

Lemma unspent_owned k chain : unspent_outputs k chain = owned k (chain_unspent chain).
Proof.
  unfold unspent_outputs, chain_unspent, owned. rewrite list_filter_filter.
  rewrite (list_filter_iff (fun ki : OwnedInput => ki.1 = k /\ spend_height chain (image_of ki) = None)
    (fun ki => spend_height chain (image_of ki) = None /\ ki.1 = k)) by (intros; tauto).
  rewrite <- list_filter_filter. symmetry. by apply filter_map_comm.
Qed.

(** The wallets of the keys of a container. *)
Lemma container_wallets s : (forall k, k ∈ m_publicSpendKeys s <-> is_Some (m_subWallets s !! k)) ->
  exists wallets, mapM (fun k => m_subWallets s !! k) (m_publicSpendKeys s) = Some wallets /\
    Forall2 (fun k w => m_subWallets s !! k = Some w) (m_publicSpendKeys s) wallets.
Proof.
  intros Hk. destruct (mapM_is_Some_2 (fun k => m_subWallets s !! k) (m_publicSpendKeys s)) as [wallets E].
  - apply Forall_forall. intros k. apply Hk.
  - exists wallets. split; [done|]. by apply mapM_Some in E.
Qed.

Lemma tracked_keys id0 chain s : tracks id0 chain s -> Forall (fun ki => ki.1 ∈ m_publicSpendKeys s) (chain_unspent chain).
Proof.
  intros Ht. apply Forall_forall. intros [k i] [_ (b & l & Hb & Hl)%elem_of_all_received]%list_elem_of_filter.
  destruct (tr_same _ _ _ Ht) as (<- & _ & _). by destruct (tr_inputs _ _ _ Ht _ _ _ _ Hb Hl).
Qed.

Lemma settled_unspent id0 chain s k w : tracks id0 chain s -> settled s -> m_subWallets s !! k = Some w ->
  m_unspentInputs w ≡ₚ owned k (chain_unspent chain).
Proof.
  intros Ht Hs Hw. rewrite <- unspent_owned, <- (tr_live _ _ _ Ht _ _ Hw). unfold live. destruct (Hs k w Hw) as [-> _]. by rewrite app_nil_r.
Qed.

(** The balance of a container whose wallets hold the outputs of a list. *)
Lemma getBalance_owned now height s l : keys_ok s -> Forall (fun ki => ki.1 ∈ m_publicSpendKeys s) l ->
  (forall k w, m_subWallets s !! k = Some w -> m_unspentInputs w ≡ₚ owned k l /\ m_unconfirmedIncomingAmounts w = []) ->
  getBalance now [] true height s =
  Some (u64 (sumZ (map (fun ki => counted now height true ki.2) l)), u64 (sumZ (map (fun ki => counted now height false ki.2) l))).
Proof.
  intros (Hn & Hk & _) Hl Hown. destruct (container_wallets s Hk) as (wallets & E & Hw). unfold getBalance, taken_from. rewrite E.
  cbn [mbind option_bind]. f_equal. change (0, 0) with (u64 0, u64 0). rewrite getBalance_fold, !Z.add_0_l.
  - assert (forall u, map (fun w => sumZ (map (counted now height u) (m_unspentInputs w))) wallets =
      map (fun k => sumZ (map (counted now height u) (owned k l))) (m_publicSpendKeys s)) as Hsum.
    { intros u. clear E Hn Hk Hl. induction Hw as [|k w keys ws Hkw _ IH]; [done|]. cbn [map]. f_equal; [|exact IH].
      apply sumZ_perm, Permutation_map. by apply Hown. }
    by rewrite !Hsum, !sum_by_key.
  - clear E Hn Hk Hl. induction Hw as [|k w keys ws Hkw _ IH]; constructor; [|exact IH]. by apply (Hown k w Hkw).
Qed.

(** A container that tracks a chain and waits for nothing has the balance of the chain. *)
Lemma getBalance_tracks now height id0 chain s : keys_ok id0 -> tracks id0 chain s -> settled s ->
  getBalance now [] true height s =
  Some (u64 (chain_balance now height true chain), u64 (chain_balance now height false chain)).
Proof.
  intros Hok Ht Hs. apply getBalance_owned; [by eapply same_keys_keys; [apply Ht|]|by eapply tracked_keys|].
  intros k w Hw. split; [by eapply settled_unspent|by destruct (Hs k w Hw)].
Qed.

(** A container whose wallets have seen nothing. *)
Definition fresh_container (s : SubWallets) : Prop :=
  m_transactions s = [] /\
  forall k w, m_subWallets s !! k = Some w ->
    live w = [] /\ m_spentInputs w = [] /\ m_unconfirmedIncomingAmounts w = [].

Lemma fresh_tracks s : fresh_container s -> tracks s [] s /\ settled s.
Proof.
  intros [Ht Hf]. split.
  - split; [done|by intros ???? ?%not_elem_of_nil| | |by rewrite Ht].
    + intros k w Hw. by destruct (Hf k w Hw) as (-> & _ & _).
    + intros k w Hw. by destruct (Hf k w Hw) as (_ & -> & _).
  - intros k w Hw. destruct (Hf k w Hw) as (Hl & _ & Hu). split; [|done]. by apply app_eq_nil in Hl as [_ ?].
Qed.

Section Claims.
Variable generate_key_derivation : PublicKey -> SecretKey -> bytes.
Variable underive_public_key : bytes -> Z -> PublicKey -> PublicKey.
Variable derive_public_key : bytes -> Z -> PublicKey -> PublicKey.
Variable derive_secret_key : bytes -> Z -> SecretKey -> SecretKey.
Variable generate_key_image : PublicKey -> SecretKey -> KeyImage.
Variable uninitialized : KeyImage.
Variable walk : gmap PublicKey SubWallet -> list (PublicKey * SubWallet).
Hypothesis walk_perm : forall m, walk m ≡ₚ map_to_list m.

Abbreviation next_block := (next_block generate_key_derivation underive_public_key derive_public_key derive_secret_key
  generate_key_image uninitialized).
Abbreviation scan_run := (scan_run generate_key_derivation underive_public_key derive_public_key derive_secret_key
  generate_key_image uninitialized).

(** C4. A container of wallets that tracks a chain processes every next block,
    without an exception and with no block missed, and then tracks the chain with
    that block: each wallet holds as live inputs just the outputs that the chain
    pays to its key and has not spent, as spent inputs those that the chain has
    spent, with the height, and the history is the list of the transactions that
    concern the container.  The block may replace the end of the chain: then the
    outputs of the replaced blocks are gone and what they spent is live again,
    provided that no input from a kept block is locked and none of those outputs
    was spent. *)
Theorem processBlock_tracks daemon id0 viewKey pre post b inputs ws :
  container_ok id0 -> knows id0 viewKey (pre ++ post) ws -> next_block daemon id0 viewKey pre post b inputs ->
  (wb_blockHeight b <= last_height (pre ++ post) ->
   forall k w, m_subWallets (ws_subWallets ws) !! k = Some w -> Forall (fun i => wb_blockHeight b <= ti_blockHeight i) (m_lockedInputs w)) ->
  exists ws' events,
    processBlock generate_key_derivation underive_public_key derive_public_key derive_secret_key generate_key_image
      uninitialized walk daemon b ws = Some (ws', events) /\
    knows id0 viewKey (pre ++ [(b, inputs)]) ws'.
Proof.
  intros Hok Hk Hn Hl.
  destruct (processBlock_next _ _ _ _ _ _ walk walk_perm _ _ _ _ _ _ _ ws Hok Hk Hn Hl) as (ws' & ev & E & Hk' & _). eauto.
Qed.

(** C5. Scanning from nothing, over blocks that follow each other and forks that
    replace blocks, ends without an exception, and the balance that the container
    then reports, unlocked and locked, is the sum of the amounts of all outputs
    that the final chain pays to its keys and has not spent. *)
Theorem scan_balance daemon id0 viewKey startTimestamp startHeight blocks chain :
  container_ok id0 -> fresh_container id0 -> scan_run daemon id0 viewKey [] blocks chain ->
  exists ws' events,
    processBlocks generate_key_derivation underive_public_key derive_public_key derive_secret_key generate_key_image
      uninitialized walk daemon blocks (MkSynchronizer SynchronizationStatus_new startTimestamp startHeight viewKey id0) =
      Some (ws', events) /\
    forall now height, getBalance now [] true height (ws_subWallets ws') =
      Some (u64 (chain_balance now height true chain), u64 (chain_balance now height false chain)).
Proof.
  intros Hok Hf Hrun. destruct (fresh_tracks id0 Hf) as [Ht Hs].
  destruct (processBlocks_run _ _ _ _ _ _ walk walk_perm _ _ _ _ _ _ Hok Hrun
    (MkSynchronizer SynchronizationStatus_new startTimestamp startHeight viewKey id0)) as (ws' & ev & E & Hkn & Hs'); [done|done|].
  exists ws', ev. split; [done|]. intros now height. eapply getBalance_tracks; [apply Hok|apply Hkn|done].
Qed.
End Claims.

(** ** A run, evaluated *)

Module Sample.
(** Keys of one byte: an output key is its owner's key and a byte more, a key
    image is the transaction key, the index and the owner's key. *)
Definition derivation (txKey : PublicKey) (view : SecretKey) : bytes := txKey.
Definition underive (d : bytes) (n : Z) (k : PublicKey) : PublicKey := firstn 1 k.
Definition derive_public (d : bytes) (n : Z) (k : PublicKey) : PublicKey := d ++ [n] ++ k.
Definition derive_secret (d : bytes) (n : Z) (k : SecretKey) : SecretKey := k.
Definition image (p : PublicKey) (k : SecretKey) : KeyImage := p.

Definition container : SubWallets :=
  insert_wallet [2] (SubWallet_new [2] [52] [] 0 0 false)
    (new_container [1] (SubWallet_new [1] [51] [] 0 0 true) [9] false).

Definition output (owner amount : Z) (index : option Z) : WalletKeyOutput := MkWalletKeyOutput [owner; 0] amount index.
Definition coinbase (hash owner : Z) (unlock : Z) : RawCoinbaseTransaction :=
  MkRawCoinbase [output owner 100 None] [hash] [hash] unlock.
Definition spend : RawTransaction :=
  MkRawTransaction (MkRawCoinbase [output 2 40 (Some 3); output 7 55 (Some 4)] [21] [21] 0) []
    [{| ki_amount := 100; outputIndexes := []; keyImage := [11; 0; 1] |}].

(** The first block pays the first wallet; the second spends that output and pays
    the second wallet, and then a block without the spend takes its place. *)
Definition block1 : WalletBlockInfo := MkWalletBlock (coinbase 11 1 0) [] 1 [101] 1000.
Definition block2 : WalletBlockInfo := MkWalletBlock (coinbase 12 8 40) [spend] 2 [102] 1180.
Definition block2' : WalletBlockInfo := MkWalletBlock (coinbase 13 2 40) [] 2 [103] 1190.

Definition daemon : Nigel :=
  MkNigel 3 3 (fun _ _ _ => None) (fun _ _ => Some {[ [11] := [7]; [13] := [8] ]}) (fun _ => None).

Definition found (b : WalletBlockInfo) : list OwnedInput :=
  default [] (scanned derivation underive derive_public derive_secret image [] daemon [9] container b).
Definition entry (b : WalletBlockInfo) : WalletBlockInfo * list OwnedInput := (b, found b).

Abbreviation next_block := (next_block derivation underive derive_public derive_secret image []).
Abbreviation scan_run := (scan_run derivation underive derive_public derive_secret image []).

Lemma container_keys : keys_ok container.
Proof. apply insert_wallet_keys; [done|done|]. by apply new_container_keys. Qed.

Lemma container_fresh : fresh_container container.
Proof.
  split; [done|]. cbn. intros k w [[<- <-]|[_ [<- <-]%lookup_singleton_Some]]%lookup_insert_Some; done.
Qed.

Ltac evaluates := apply (bool_decide_unpack _); vm_compute; exact I.

Lemma next1 : next_block daemon container [9] [] [] block1 (found block1).
Proof. split; try evaluates; [vm_compute; reflexivity|split; evaluates]. Qed.
Lemma next2 : next_block daemon container [9] [entry block1] [] block2 (found block2).
Proof. split; try evaluates; [vm_compute; reflexivity|split; evaluates]. Qed.
Lemma next2' : next_block daemon container [9] [entry block1] [entry block2] block2' (found block2').
Proof. split; try evaluates; [vm_compute; reflexivity|split; evaluates]. Qed.
(** The synchronizer after the first block. *)
Definition initial : WalletSynchronizer := MkSynchronizer SynchronizationStatus_new 0 1 [9] container.
Definition after1 : WalletSynchronizer :=
  match processBlock derivation underive derive_public derive_secret image [] map_to_list daemon block1 initial with
  | Some (ws, _) => ws
  | None => initial
  end.

Lemma container_spends : container_ok container.
Proof. by split; [apply container_keys|]. Qed.

Lemma after1_knows : knows container [9] [entry block1] after1 /\ settled (ws_subWallets after1).
Proof.
  destruct (fresh_tracks _ container_fresh) as [Ht Hs].
  assert (knows container [9] ([] ++ []) initial) as Hk0 by by split.
  destruct (processBlock_next _ _ _ _ _ _ map_to_list ltac:(done) _ _ _ _ _ _ _ _ container_spends Hk0 next1) as (ws' & ev & E & Hk & Hs').
  { intros _ k w Hw. by destruct (Hs k w Hw) as [-> _]. }
  unfold after1. rewrite E. split; [exact Hk|by apply Hs'].
Qed.

Lemma processBlock_tracks_witness :
  exists ws' events,
    processBlock derivation underive derive_public derive_secret image [] map_to_list daemon block1
      (MkSynchronizer SynchronizationStatus_new 0 1 [9] container) = Some (ws', events) /\
    knows container [9] ([] ++ [(block1, found block1)]) ws'.
Proof.
  apply (processBlock_tracks derivation underive derive_public derive_secret image [] map_to_list ltac:(done)
    daemon container [9] [] [] block1 (found block1)).
  - apply container_spends.
  - split; [apply fresh_tracks, container_fresh|done|done].
  - apply next1.
  - intros _ k w Hw. by destruct (proj2 (fresh_tracks _ container_fresh) k w Hw) as [-> _].
Defined.

Lemma scan_balance_witness :
  exists ws' events,
    processBlocks derivation underive derive_public derive_secret image [] map_to_list daemon [block1; block2; block2']
      (MkSynchronizer SynchronizationStatus_new 0 1 [9] container) = Some (ws', events) /\
    forall now height, getBalance now [] true height (ws_subWallets ws') =
      Some (u64 (chain_balance now height true [entry block1; entry block2']),
            u64 (chain_balance now height false [entry block1; entry block2'])).
Proof.
  apply (scan_balance derivation underive derive_public derive_secret image [] map_to_list ltac:(done) daemon container [9] 0 1).
  - apply container_spends.
  - apply container_fresh.
  - apply (run_block _ _ _ _ _ _ daemon container [9] [] [] _ _ _ _ next1).
    apply (run_block _ _ _ _ _ _ daemon container [9] [entry block1] [] _ _ _ _ next2).
    apply (run_block _ _ _ _ _ _ daemon container [9] [entry block1] [entry block2] _ _ _ _ next2'). apply run_end.
Defined.

End Sample.
