(* ===== verification/WalletSpend.v ===== *)
(** * Choosing inputs

    [getTransactionInputsForAmount] and [getFusionTransactionInputs] of the
    container: which inputs they return, and that a wallet that tracks the chain
    can spend what it reports as unlocked. *)

From stdpp Require Import gmap fin_sets fin_maps.
From S2P Require Import Prelude Config Serializer Transaction Amounts Currency SubWallet SubWallets WalletSync WalletSpec WalletRun.

Definition amount_of (x : TxInputAndOwner) : Z := ti_amount (input x).
Definition total (l : list TxInputAndOwner) : Z := sumZ (map amount_of l).

Lemma total_app l l' : total (l ++ l') = total l + total l'.
Proof. unfold total. by rewrite map_app, sumZ_app. Qed.

Lemma total_cons x l : total (x :: l) = amount_of x + total l.
Proof. done. Qed.

Lemma total_nonneg l : Forall (fun x => 0 <= amount_of x) l -> 0 <= total l.
Proof. induction 1 as [|x l Hx _ IH]; [done|]. rewrite total_cons. lia. Qed.

Lemma total_perm l l' : l ≡ₚ l' -> total l = total l'.
Proof. intros H. by apply sumZ_perm, Permutation_map. Qed.

(** The inputs are taken from the front until the amount is reached, and not one more. *)
Lemma take_amount_spec amount l : Forall (fun x => 0 <= amount_of x) l -> forall found used,
  0 <= found -> found + total l < 2 ^ 64 ->
  match take_amount amount found used l with
  | Some (used', money) => exists a x r, l = a ++ x :: r /\ used' = used ++ a ++ [x] /\ money = found + total (a ++ [x]) /\
      amount <= money /\ (a = [] \/ found + total a < amount)
  | None => l = [] \/ found + total l < amount
  end.
Proof.
  induction 1 as [|x l Hx Hl IH]; intros found used Hf Ht; [by left|]. cbn [take_amount]. rewrite total_cons in Ht.
  pose proof (total_nonneg l Hl). fold (amount_of x).
  assert (u64 (found + amount_of x) = found + amount_of x) as -> by (apply wrap_small; split; lia).
  destruct (Z.leb_spec amount (found + amount_of x)) as [Hle|Hlt].
  - exists [], x, l. cbn. unfold total. cbn. rewrite Z.add_0_r. repeat split; [done|]. by left.
  - specialize (IH (found + amount_of x) (used ++ [x]) ltac:(lia) ltac:(lia)).
    destruct (take_amount _ _ _ _) as [[used' money]|].
    + destruct IH as (a & y & r & -> & -> & -> & Hle & Hlast). exists (x :: a), y, r. cbn [app]. rewrite <- !app_assoc. cbn [app].
      rewrite !total_cons. repeat split; [by rewrite Z.add_assoc|lia|]. right. destruct Hlast as [->|?]; [unfold total; cbn; lia|lia].
    + right. rewrite total_cons. destruct IH as [->|?]; [unfold total; cbn; lia|lia].
Qed.

(** ** The inputs of a container that tracks a chain *)

Definition owner_pair (x : TxInputAndOwner) : OwnedInput := (ow_publicSpendKey x, input x).
Definition unlocked_at (now height : Z) (ki : OwnedInput) : Prop := isInputUnlocked now (ti_unlockTime ki.2) height = true.
#[export] Instance unlocked_at_dec now height ki : Decision (unlocked_at now height ki).
Proof. unfold unlocked_at. apply _. Defined.

Lemma owned_pairs k l : map (pair k) (owned k l) = filter (fun ki => ki.1 = k) l.
Proof.
  unfold owned. rewrite map_map. induction l as [|[k' i] l IH]; [done|]. rewrite filter_cons. case_decide as E; [|exact IH].
  cbn in *. subst. by rewrite IH.
Qed.

(** The inputs that can be spent are the unspent outputs of the chain that are unlocked. *)
Lemma available_perm now height id0 chain s : container_ok id0 -> tracks id0 chain s -> settled s ->
  exists available, availableInputs now height (m_publicSpendKeys s) s = Some available /\
    map owner_pair available ≡ₚ filter (unlocked_at now height) (chain_unspent chain).
Proof.
  intros Hok Ht Hs. destruct (container_wallets s) as (wallets & E & Hw); [apply ok_keys; eapply same_keys_ok; [apply Ht|done]|]. unfold availableInputs. rewrite E.
  eexists. split; [reflexivity|]. destruct (same_keys_ok _ _ (tr_same _ _ _ Ht) Hok) as [(Hn & _ & _) _].
  pose proof (partition_by_key _ Hn _ (tracked_keys _ _ _ Ht)) as Hp. rewrite <- Hp. clear Hp Hn E.
  pose proof (ok_own _ (same_keys_ok _ _ (tr_same _ _ _ Ht) Hok)) as Hown.
  induction Hw as [|k w keys ws Hkw _ IH]; [done|]. cbn [map concat]. rewrite map_app, filter_app, IH. f_equiv.
  rewrite <- owned_pairs, <- (settled_unspent _ _ _ _ _ Ht Hs Hkw). unfold getSpendableInputs. rewrite map_map.
  unfold owner_pair. cbn. rewrite (Hown _ _ Hkw). apply reflexive_eq.
  by apply (filter_map_comm (pair k) (unlocked_at now height)).
Qed.

Lemma filtered_balance now height chain :
  sumZ (map (fun ki => ti_amount ki.2) (filter (unlocked_at now height) (chain_unspent chain))) = chain_balance now height true chain.
Proof.
  unfold chain_balance. induction (chain_unspent chain) as [|ki l IH]; [done|]. rewrite filter_cons. cbn [map].
  change (sumZ (?x :: ?r)) with (x + sumZ r). rewrite <- IH. unfold counted. case_decide as Hd; unfold unlocked_at in Hd.
  - by rewrite Hd.
  - apply not_true_is_false in Hd. by rewrite Hd.
Qed.

(** C13. A container that tracks a chain and waits for nothing can spend its
    unlocked balance: for every positive amount up to it, and for every order the
    inputs are shuffled into, [getTransactionInputsForAmount] returns inputs, all
    different, each an unspent and unlocked output of the chain that belongs to
    the wallet whose key comes with it; their sum is the sum returned, it
    reaches the amount, and without the last input it does not.  For an amount
    above the balance the call fails. *)
Theorem getTransactionInputsForAmount_spends shuffle now height id0 chain s amount :
  (forall l, shuffle l ≡ₚ l) -> container_ok id0 -> tracks id0 chain s -> settled s ->
  NoDup (map image_of (all_received chain)) -> Forall (fun ki => 0 <= ti_amount ki.2) (all_received chain) ->
  chain_balance now height true chain < 2 ^ 64 -> 0 < amount ->
  match getTransactionInputsForAmount shuffle now amount true [] height s with
  | Some (used, money) =>
      amount <= chain_balance now height true chain /\
      Forall (fun x => owner_pair x ∈ chain_unspent chain /\ unlocked_at now height (owner_pair x)) used /\
      NoDup (map (fun x => image_of (owner_pair x)) used) /\
      money = total used /\ amount <= money /\ total (removelast used) < amount
  | None => chain_balance now height true chain < amount
  end.
Proof.
  intros Hsh Hok Ht Hs Hi Hpos Hb Ha. destruct (available_perm now height _ _ _ Hok Ht Hs) as (available & E & Hp).
  unfold getTransactionInputsForAmount, throwIfViewWallet, taken_from. rewrite (ok_spends _ (same_keys_ok _ _ (tr_same _ _ _ Ht) Hok)), E.
  cbn [mbind option_bind]. rewrite <- (Hsh available) in Hp. generalize dependent (shuffle available). clear E available. intros l Hp.
  assert (total l = chain_balance now height true chain) as Htot.
  { rewrite <- filtered_balance, <- (sumZ_perm _ _ (Permutation_map (fun ki => ti_amount ki.2) Hp)), map_map. done. }
  assert (Forall (fun x => owner_pair x ∈ chain_unspent chain /\ unlocked_at now height (owner_pair x)) l) as Hall.
  { apply Forall_forall. intros x Hx%(list_elem_of_fmap_2 owner_pair). change (owner_pair <$> l) with (map owner_pair l) in Hx.
    rewrite Hp in Hx. apply list_elem_of_filter in Hx. tauto. }
  assert (Forall (fun x => 0 <= amount_of x) l) as Hnn.
  { eapply Forall_impl; [exact Hall|]. intros x [[_ Hx]%list_elem_of_filter _]. exact (proj1 (Forall_forall _ _) Hpos _ Hx). }
  assert (NoDup (map (fun x => image_of (owner_pair x)) l)) as Hnd.
  { rewrite <- map_map, Hp. apply NoDup_map_filter, NoDup_map_filter, Hi. }
  pose proof (take_amount_spec amount l Hnn 0 [] ltac:(lia) ltac:(lia)) as H. destruct (take_amount amount 0 [] l) as [[used money]|].
  - destruct H as (a & x & r & -> & -> & -> & Hle & Hlast). cbn [app] in *. rewrite Z.add_0_l in *.
    assert (a ++ x :: r = (a ++ [x]) ++ r) as Er by by rewrite <- app_assoc. rewrite Er in *.
    apply Forall_app in Hall as [Hall _]. apply Forall_app in Hnn as [_ Hr%total_nonneg]. rewrite map_app in Hnd. apply NoDup_app in Hnd as [Hnd _].
    rewrite total_app in Htot. repeat split; try done; [lia|]. rewrite removelast_last. destruct Hlast as [->|?]; [done|lia].
  - destruct H as [->|?]; [unfold total in Htot; cbn in Htot|]; lia.
Qed.

Lemma getTransactionInputsForAmount_spends_witness :
  match getTransactionInputsForAmount (fun l => l) 0 60 true [] 5 (ws_subWallets Sample.after1) with
  | Some (used, money) =>
      60 <= chain_balance 0 5 true [Sample.entry Sample.block1] /\
      Forall (fun x => owner_pair x ∈ chain_unspent [Sample.entry Sample.block1] /\ unlocked_at 0 5 (owner_pair x)) used /\
      NoDup (map (fun x => image_of (owner_pair x)) used) /\
      money = total used /\ 60 <= money /\ total (removelast used) < 60
  | None => chain_balance 0 5 true [Sample.entry Sample.block1] < 60
  end.
Proof.
  destruct Sample.after1_knows as [Hk Hs].
  apply (getTransactionInputsForAmount_spends (fun l => l) 0 5 Sample.container [Sample.entry Sample.block1] (ws_subWallets Sample.after1) 60);
    [done|exact Sample.container_spends|exact (kn_tracks _ _ _ _ Hk)|exact Hs| | |reflexivity|done].
  - apply (bool_decide_unpack _). vm_compute. exact I.
  - apply (bool_decide_unpack _). vm_compute. exact I.
Defined.

(** ** Fusion transactions *)

Section Fusion.
Variable walk_buckets : gmap Z (list TxInputAndOwner) -> list (Z * list TxInputAndOwner).
Hypothesis walk_buckets_perm : forall m, walk_buckets m ≡ₚ map_to_list m.
Variable shuffle : list TxInputAndOwner -> list TxInputAndOwner.
Hypothesis shuffle_perm : forall l, shuffle l ≡ₚ l.
Variable shuffle_buckets : list (list TxInputAndOwner) -> list (list TxInputAndOwner).
Hypothesis shuffle_buckets_perm : forall l, shuffle_buckets l ≡ₚ l.
Variable log10 : Z -> option Z.

(** The amount has the number of digits [d], as the code counts them. *)
Definition in_bucket (d : Z) (x : TxInputAndOwner) : Prop := (n ← log10 (amount_of x); Some (u64 n)) = Some d.
#[local] Instance in_bucket_dec d x : Decision (in_bucket d x).
Proof. unfold in_bucket. apply _. Defined.
Definition contents (m : gmap Z (list TxInputAndOwner)) : list TxInputAndOwner := concat (map snd (map_to_list m)).

Lemma contents_insert d x m :
  contents (<[d := default [] (m !! d) ++ [x]]> m) ≡ₚ contents m ++ [x].
Proof.
  unfold contents. destruct (m !! d) as [b|] eqn:E; cbn.
  - rewrite <- (insert_id m d b E) at 2. rewrite <- !(insert_delete_eq m).
    rewrite !map_to_list_insert by apply lookup_delete_eq. cbn. rewrite <- !app_assoc. f_equiv. apply Permutation_app_comm.
  - rewrite map_to_list_insert by done. cbn. apply Permutation_app_comm with (l := [x]).
Qed.

Lemma fill_buckets_spec l : forall m m', fill_buckets log10 m l = Some m' ->
  contents m' ≡ₚ contents m ++ l /\
  forall d, default [] (m' !! d) = default [] (m !! d) ++ filter (in_bucket d) l.
Proof.
  induction l as [|x l IH]; intros m m' E; [injection E as <-; split; [|intros d]; by rewrite app_nil_r|].
  cbn [fill_buckets] in E. apply bind_Some in E as (n & Hn & E). apply IH in E as [Hc Hf]. split.
  - rewrite Hc, contents_insert, <- app_assoc. done.
  - intros d. rewrite Hf, filter_cons. assert (in_bucket d x <-> u64 n = d) as Hx.
    { unfold in_bucket, amount_of. rewrite Hn. cbn. split; [by intros [= ?]|by intros ->]. }
    destruct (decide (u64 n = d)) as [Hd|Hne].
    + rewrite decide_True by tauto. subst d. rewrite lookup_insert_eq. cbn. by rewrite <- app_assoc.
    + rewrite decide_False by tauto. by rewrite lookup_insert_ne.
Qed.

Lemma take_inputs_spec maxInputs l : forall found used,
  exists a r, l = a ++ r /\ take_inputs maxInputs (u64 found) used l = (used ++ a, u64 (found + total a)) /\
    (r <> [] -> maxInputs <= Z.of_nat (length (used ++ a))) /\
    ((length a <= 1)%nat \/ Z.of_nat (length (used ++ a)) <= maxInputs).
Proof.
  induction l as [|x l IH]; intros found used.
  - exists [], []. rewrite !app_nil_r. unfold total. cbn. rewrite Z.add_0_r. split; [done|]. split; [done|]. split; [done|]. left. lia.
  - cbn [take_inputs]. fold (amount_of x). rewrite wrap_add_l by lia. destruct (Z.leb_spec maxInputs (Z.of_nat (length (used ++ [x])))) as [Hle|Hlt].
    + exists [x], l. unfold total. cbn [map]. change (sumZ [?y]) with (y + 0). rewrite Z.add_0_r. split; [done|]. split; [done|]. split; [done|]. left. cbn. lia.
    + destruct (IH (found + amount_of x) (used ++ [x])) as (a & r & -> & -> & Hr & Ha). exists (x :: a), r.
      rewrite <- app_assoc in *. cbn [app] in *. rewrite total_cons, Z.add_assoc. split; [done|]. split; [done|]. split; [done|]. right.
      rewrite !length_app in *. cbn [length] in *. destruct Ha as [Ha|Ha]; lia.
Qed.
Abbreviation getFusionTransactionInputs := (getFusionTransactionInputs shuffle log10 walk_buckets shuffle_buckets).
Abbreviation full b := (FUSION_TX_MIN_INPUT_COUNT <= Z.of_nat (length b)).

(** The inputs that are offered to the last loop: one full bucket, or everything when no bucket is full. *)
Lemma fusion_offer (l : list TxInputAndOwner) m : fill_buckets log10 ∅ l = Some m ->
  exists offer rest,
    concat (match shuffle_buckets (filter (fun b => full b) (map snd (walk_buckets m))) with
            | b :: _ => [b] | [] => map snd (walk_buckets m) end) = offer /\
    offer ++ rest ≡ₚ l /\
    ((exists d, offer = filter (in_bucket d) l /\ full offer) \/ (rest = [] /\ forall d, ~ full (filter (in_bucket d) l))).
Proof.
  intros E. destruct (fill_buckets_spec _ _ _ E) as [Hc Hd]. cbn in Hc, Hd.
  assert (Hlook : forall d b, (d, b) ∈ walk_buckets m -> b = filter (in_bucket d) l).
  { intros d b Hb. rewrite walk_buckets_perm, elem_of_map_to_list in Hb. specialize (Hd d). by rewrite Hb, lookup_empty in Hd. }
  assert (Hall : concat (map snd (walk_buckets m)) ≡ₚ l).
  { rewrite <- Hc. unfold contents. by rewrite walk_buckets_perm. }
  pose proof (shuffle_buckets_perm (filter (fun b => full b) (map snd (walk_buckets m)))) as Hsh.
  destruct (shuffle_buckets _) as [|b fulls].
  - exists (concat (map snd (walk_buckets m))), []. split; [done|]. rewrite app_nil_r. split; [done|]. right. split; [done|].
    intros d Hf. apply Permutation_nil_l in Hsh. specialize (Hd d). destruct (m !! d) as [b|] eqn:F; cbn in Hd.
    + assert (b ∈ filter (fun b => full b) (map snd (walk_buckets m))) as Hin.
      { apply list_elem_of_filter. rewrite Hd. split; [exact Hf|]. rewrite <- Hd. apply list_elem_of_fmap. exists (d, b).
        split; [done|]. by rewrite walk_buckets_perm, elem_of_map_to_list. }
      rewrite <- Hsh in Hin. by apply not_elem_of_nil in Hin.
    + rewrite lookup_empty in Hd. cbn in Hd. rewrite <- Hd in Hf. cbn in Hf. lia.
  - assert (b ∈ filter (fun b => full b) (map snd (walk_buckets m))) as Hb by (rewrite <- Hsh; apply list_elem_of_here).
    apply list_elem_of_filter in Hb as [Hf ([d b'] & Eb & Hdb)%list_elem_of_fmap]. cbn in Eb. subst b'.
    exists b, (filter (fun x => ~ in_bucket d x) l). cbn. rewrite app_nil_r. split; [done|]. pose proof (Hlook d b Hdb) as ->.
    split; [apply filter_split|]. left. by exists d.
Qed.

(** The inputs of a fusion transaction are inputs of the chosen wallets that can be
    spent, none of them twice, with their sum, and no more than the size of a
    transaction allows.  When twelve inputs or more have the same number of digits,
    so do the ones returned, and there are twelve of them or as many as fit. *)
Theorem getFusionTransactionInputs_spec now takeAll keys mixin height s available used maxInputs money :
  availableInputs now height (taken_from takeAll keys s) s = Some available ->
  getFusionTransactionInputs now takeAll keys mixin height s = Some (used, maxInputs, money) ->
  maxInputs = getApproximateMaximumInputCount FUSION_TX_MAX_SIZE FUSION_TX_MIN_IN_OUT_COUNT_RATIO mixin /\
  (exists rest, used ++ rest ≡ₚ available) /\ money = u64 (total used) /\
  ((length used <= 1)%nat \/ Z.of_nat (length used) <= maxInputs) /\
  ((exists d, Forall (in_bucket d) used /\ Z.min FUSION_TX_MIN_INPUT_COUNT maxInputs <= Z.of_nat (length used)) \/
   forall d, ~ full (filter (in_bucket d) (shuffle available))).
Proof.
  intros Ha E. unfold SubWallets.getFusionTransactionInputs in E. apply bind_Some in E as ([] & _ & E). rewrite Ha in E. cbn [mbind option_bind] in E.
  apply bind_Some in E as (m & Em & E). destruct (fusion_offer _ _ Em) as (offer & rest & Eo & Hp & Hcase). rewrite Eo in E.
  destruct (take_inputs_spec (getApproximateMaximumInputCount FUSION_TX_MAX_SIZE FUSION_TX_MIN_IN_OUT_COUNT_RATIO mixin) offer 0 [])
    as (a & r & Er & Et & Hr & Hlen).
  change (u64 0) with 0 in Et. rewrite Et in E. cbn [app] in *. rewrite Z.add_0_l in E. injection E as <- <- <-. split; [done|]. split.
  { exists (r ++ rest). rewrite app_assoc, <- Er, Hp. apply shuffle_perm. }
  split; [done|]. split; [done|]. destruct Hcase as [(d & Ed & Hf)|[_ Hno]]; [left|by right]. exists d. split.
  - assert (Forall (in_bucket d) offer) as H by (rewrite Ed; apply Forall_forall; intros x [? _]%list_elem_of_filter; done).
    rewrite Er in H. by apply Forall_app in H as [? _].
  - destruct r as [|y r]; [|specialize (Hr ltac:(done)); lia]. rewrite app_nil_r in Er. subst a. lia.
Qed.
End Fusion.
