(* ===== verification/WalletFaults.v ===== *)
(** * Where the wallet loses track

    The cases in which the container does not hold what the chain gives it: the
    forks that [removeForkedTransactions] handles are just those in which no
    input is locked and no output of the replaced blocks was spent; a rescan above
    the genesis block counts every unspent output twice; the inputs of a cancelled
    transaction stay locked; and a block whose indexes the daemon does not know
    ends the program. *)

From stdpp Require Import gmap fin_sets fin_maps.
From S2P Require Import Prelude Config Serializer Transaction Amounts SubWallet SubWallets WalletSync WalletSpec WalletRun.

(** ** Forks *)

Lemma image_apart pre post ki ki' : NoDup (map image_of (all_received (pre ++ post))) ->
  ki ∈ all_received pre -> ki' ∈ all_received post -> image_of ki = image_of ki' -> False.
Proof.
  rewrite all_received_app, map_app. intros (_ & H & _)%NoDup_app Hk Hk' E. apply (H (image_of ki)).
  - by apply list_elem_of_fmap_2.
  - rewrite E. by apply list_elem_of_fmap_2.
Qed.

Lemma spent_outputs_elem k chain j : j ∈ spent_outputs k chain ->
  exists i n, (k, i) ∈ all_received chain /\ spend_height chain (ti_keyImage i) = Some n /\ j = set_spendHeight n i.
Proof.
  intros (i & Hi%elem_of_owned & E)%list_elem_of_omap. destruct (spend_height chain (ti_keyImage i)) as [n|] eqn:F; [|done].
  injection E as <-. eauto.
Qed.

Lemma elem_of_spent_outputs k chain i n : (k, i) ∈ all_received chain -> spend_height chain (ti_keyImage i) = Some n ->
  set_spendHeight n i ∈ spent_outputs k chain.
Proof. intros Hi E. apply list_elem_of_omap. exists i. split; [by apply elem_of_owned|]. by rewrite E. Qed.

(** A fork at the height [h] in which no input of the blocks below is locked, and
    no output of the replaced blocks was spent. *)
Definition clean_fork (pre post : Scanned) (h : Z) (s : SubWallets) : Prop :=
  (forall k w, m_subWallets s !! k = Some w -> Forall (fun i => h <= ti_blockHeight i) (m_lockedInputs w)) /\
  Forall (fun ki => spend_height (pre ++ post) (image_of ki) = None) (all_received post).

Section Forks.
Context (id0 : SubWallets) (pre post : Scanned) (s : SubWallets) (h : Z).
Hypothesis Hok : container_ok id0.
Hypothesis Htr : tracks id0 (pre ++ post) s.
Hypothesis Hpost : Forall (fun bi => h <= wb_blockHeight bi.1) post.
Hypothesis Hnd : NoDup (map image_of (all_received (pre ++ post))).
Hypothesis Htr' : tracks id0 pre (removeForkedTransactions h s).

Lemma forked_lookup k w : m_subWallets s !! k = Some w ->
  m_subWallets (removeForkedTransactions h s) !! k = Some (removeForkedInputs h w).
Proof. intros Hw. cbn. by rewrite lookup_fmap, Hw. Qed.

(** A locked input of a kept block would be missing. *)
Lemma fork_needs_unlocked k w : m_subWallets s !! k = Some w -> Forall (fun i => h <= ti_blockHeight i) (m_lockedInputs w).
Proof.
  intros Hw. apply Forall_forall. intros i Hi. apply Z.nlt_ge. intros Hlt.
  pose proof (tr_live _ _ _ Htr _ _ Hw) as Hl. assert (i ∈ unspent_outputs k (pre ++ post)) as [Hs Hin%elem_of_owned]%list_elem_of_filter.
  { rewrite <- Hl. apply elem_of_app. by right. }
  rewrite all_received_app, elem_of_app in Hin. destruct Hin as [Hin|Hin].
  2: { apply elem_of_all_received in Hin as (b & l & Hb & Hbi). pose proof (proj1 (Forall_forall _ _) Hpost _ Hb). cbn in *.
       destruct (tr_inputs _ _ _ Htr b l k i) as (_ & E & _); [apply elem_of_app; by right|done|]. lia. }
  assert (i ∈ live (removeForkedInputs h w)) as Hlive.
  { rewrite (tr_live _ _ _ Htr' _ _ (forked_lookup k w Hw)). apply list_elem_of_filter. split; [|by apply elem_of_owned].
    rewrite spend_height_app in Hs. by destruct (spend_height pre _). }
  unfold live in Hlive. cbn in Hlive. rewrite app_nil_r in Hlive. apply elem_of_app in Hlive as [[_ Hu]%list_elem_of_filter|Hu].
  - assert (NoDup (map ti_keyImage (live w))) as Hn by (rewrite Hl; apply NoDup_map_filter, owned_nodup, Hnd).
    unfold live in Hn. rewrite map_app in Hn. apply NoDup_app in Hn as (_ & Hn & _). by apply (Hn (ti_keyImage i)); apply list_elem_of_fmap_2.
  - apply list_elem_of_fmap in Hu as (j & -> & [_ Hj]%list_elem_of_filter). rewrite (tr_spent _ _ _ Htr _ _ Hw) in Hj.
    apply spent_outputs_elem in Hj as (i0 & n & _ & E & ->). cbn in Hs. congruence.
Qed.

(** A spent output of a replaced block would be kept. *)
Lemma fork_needs_unspent : Forall (fun ki => spend_height (pre ++ post) (image_of ki) = None) (all_received post).
Proof.
  apply Forall_forall. intros [k i] Hi. unfold image_of. cbn. destruct (spend_height (pre ++ post) (ti_keyImage i)) as [n|] eqn:E; [|done]. exfalso.
  assert ((k, i) ∈ all_received (pre ++ post)) as Hin by (rewrite all_received_app; apply elem_of_app; by right).
  apply elem_of_all_received in Hin as Hb. destruct Hb as (b & l & Hb & Hbi).
  destruct (tr_inputs _ _ _ Htr _ _ _ _ Hb Hbi) as (Hk & _ & _ & _). apply (ok_keys _ Hok) in Hk as [w0 Hw0].
  destruct (same_keys_lookup _ _ _ _ (tr_same _ _ _ Htr) Hw0) as (w & Hw & _).
  assert (set_spendHeight n i ∈ m_spentInputs w) as Hs by (rewrite (tr_spent _ _ _ Htr _ _ Hw); by apply elem_of_spent_outputs).
  assert (exists i', (k, i') ∈ all_received pre /\ ti_keyImage i' = ti_keyImage i) as (i' & Hi' & Ei').
  { destruct (decide (h <= n)) as [Hn|Hn].
    - assert (set_spendHeight 0 (set_spendHeight n i) ∈ live (removeForkedInputs h w)) as Hl.
      { unfold live. cbn. rewrite app_nil_r. apply elem_of_app. right. apply list_elem_of_fmap_2. by apply list_elem_of_filter. }
      rewrite (tr_live _ _ _ Htr' _ _ (forked_lookup k w Hw)) in Hl. apply list_elem_of_filter in Hl as [_ Hl%elem_of_owned]. eauto.
    - assert (set_spendHeight n i ∈ m_spentInputs (removeForkedInputs h w)) as Hl by (apply list_elem_of_filter; split; [cbn; lia|done]).
      rewrite (tr_spent _ _ _ Htr' _ _ (forked_lookup k w Hw)) in Hl. apply spent_outputs_elem in Hl as (i' & m & Hi' & _ & E').
      exists i'. split; [done|]. by apply (f_equal ti_keyImage) in E'. }
  exact (image_apart pre post (k, i') (k, i) Hnd Hi' Hi Ei').
Qed.
End Forks.

(** C18. When blocks from the height [h] on are replaced, [removeForkedTransactions]
    leaves the container tracking the blocks below if and only if no input from
    them is locked by a transaction that waits for a block, and no output that was
    received in the replaced blocks was spent.  In the other forks a locked input
    disappears from the wallet, or an output that is not on the chain is counted
    as unspent. *)
Theorem removeForkedTransactions_exact id0 pre post s h :
  container_ok id0 -> tracks id0 (pre ++ post) s -> Forall (fun bi => wb_blockHeight bi.1 < h) pre ->
  Forall (fun bi => h <= wb_blockHeight bi.1) post -> NoDup (map image_of (all_received (pre ++ post))) ->
  tracks id0 pre (removeForkedTransactions h s) <-> clean_fork pre post h s.
Proof.
  intros Hok Ht Hpre Hpost Hn. split.
  - intros Ht'. split; [intros k w; by eapply fork_needs_unlocked|by eapply fork_needs_unspent].
  - intros [Hl Hk]. by eapply removeForked_tracks.
Qed.

(** ** Cancelled transactions *)

(** The wallets have the same inputs locked, and the same ones to spend. *)
Definition same_inputs (s s' : SubWallets) : Prop :=
  forall k w, m_subWallets s !! k = Some w ->
    exists w', m_subWallets s' !! k = Some w' /\ m_lockedInputs w' = m_lockedInputs w /\ m_unspentInputs w' = m_unspentInputs w.

(** C27. When the daemon reports transactions of the wallet as cancelled, no input
    comes back: in a container that tracks a chain, for every set of cancelled
    transactions that are not on the chain, the locked inputs and the unspent
    inputs of each wallet are after [removeCancelledTransactions] what they were
    before, although the transactions are forgotten.  The inputs are looked up by the transaction that created them. *)
Theorem cancelled_stay_locked id0 chain s cancelled :
  container_ok id0 -> tracks id0 chain s -> Forall (fun bi => Forall (fun tx => tx.1 ∉ cancelled) (block_txs bi.1)) chain ->
  exists s', removeCancelledTransactions cancelled s = Some s' /\
    m_lockedTransactions s' = filter (fun tx => wt_hash tx ∉ cancelled) (m_lockedTransactions s) /\ same_inputs s s'.
Proof.
  intros Hok Ht Hc. unfold removeCancelledTransactions, throwIfViewWallet.
  rewrite (ok_spends _ (same_keys_ok _ _ (tr_same _ _ _ Ht) Hok)). eexists. split; [reflexivity|]. split; [done|].
  intros k w Hw. exists (subWallet_removeCancelledTransactions cancelled w). split; [cbn; by rewrite lookup_fmap, Hw|].
  assert (Forall (fun i => ti_parentTransactionHash i ∉ cancelled) (m_lockedInputs w)) as Hl.
  { apply Forall_forall. intros i Hi. assert (i ∈ live w) as Hlive by (apply elem_of_app; by right).
    rewrite (tr_live _ _ _ Ht _ _ Hw) in Hlive. apply list_elem_of_filter in Hlive as [_ (b & l & Hb & Hbi)%elem_of_owned%elem_of_all_received].
    destruct (tr_inputs _ _ _ Ht _ _ _ _ Hb Hbi) as (_ & _ & _ & (tx & -> & Htx)%list_elem_of_fmap).
    apply (proj1 (Forall_forall _ _) (proj1 (Forall_forall _ _) Hc _ Hb) tx Htx). }
  cbn. rewrite filter_all, filter_none; [by rewrite app_nil_r| |done]. eapply Forall_impl; [exact Hl|]. cbn. tauto.
Qed.

(** ** Rescanning *)

Section Rescan.
Variable generate_key_derivation : PublicKey -> SecretKey -> bytes.
Variable underive_public_key : bytes -> Z -> PublicKey -> PublicKey.
Variable derive_public_key : bytes -> Z -> PublicKey -> PublicKey.
Variable derive_secret_key : bytes -> Z -> SecretKey -> SecretKey.
Variable generate_key_image : PublicKey -> SecretKey -> KeyImage.
Variable uninitialized : KeyImage.
Variable walk : gmap PublicKey SubWallet -> list (PublicKey * SubWallet).

Abbreviation processBlock := (processBlock generate_key_derivation underive_public_key derive_public_key derive_secret_key
  generate_key_image uninitialized walk).
Abbreviation processBlocks := (processBlocks generate_key_derivation underive_public_key derive_public_key derive_secret_key
  generate_key_image uninitialized walk).
Abbreviation processBlockOutputs := (processBlockOutputs generate_key_derivation underive_public_key derive_public_key
  derive_secret_key generate_key_image uninitialized).
Abbreviation scanned := (scanned generate_key_derivation underive_public_key derive_public_key derive_secret_key
  generate_key_image uninitialized).

Abbreviation next_block := (next_block generate_key_derivation underive_public_key derive_public_key derive_secret_key
  generate_key_image uninitialized).
Hypothesis walk_perm : forall m, walk m ≡ₚ map_to_list m.

(** *** Scanning with inputs left over

    A container whose wallets have inputs in front of those that another one
    has, and else the same.  Where no block spends the inputs in front, both
    scan alike and the difference stays. *)

Definition frames (extra : list TransactionInput) (w w' : SubWallet) : Prop :=
  m_unspentInputs w' = extra ++ m_unspentInputs w /\ m_lockedInputs w = [] /\ m_lockedInputs w' = [] /\
  m_unconfirmedIncomingAmounts w = [] /\ m_unconfirmedIncomingAmounts w' = [].

Record framed (extra : PublicKey -> list TransactionInput) (s s' : SubWallets) : Prop := {
  fr_keys : same_keys s s';
  fr_transactions : m_transactions s' = m_transactions s;
  fr_wallets k w w' : m_subWallets s !! k = Some w -> m_subWallets s' !! k = Some w' -> frames (extra k) w w'
}.

(** What one container does the other does. *)
Definition alike extra (f : SubWallets -> option SubWallets) : Prop := forall s s' s1,
  framed extra s s' -> f s = Some s1 -> exists s1', f s' = Some s1' /\ framed extra s1 s1'.

Lemma for_each_alike {A} extra (f : A -> SubWallets -> option SubWallets) l :
  Forall (fun x => alike extra (f x)) l -> alike extra (for_each f l).
Proof.
  induction 1 as [|x l Hx _ IH]; intros s s' s1 Hf E; [injection E as <-; by exists s'|]. cbn [for_each] in *.
  apply bind_Some in E as (s2 & E2 & E). destruct (Hx _ _ _ Hf E2) as (s2' & -> & Hf2). exact (IH _ _ _ Hf2 E).
Qed.

Lemma add_alike extra tx : alike extra (wallet_addTransaction tx).
Proof.
  intros s s' s1 [Hk Ht Hw] E. unfold wallet_addTransaction in *. rewrite Ht. case_decide; [done|]. injection E as <-.
  eexists. split; [done|]. split; [exact Hk|done|exact Hw].
Qed.

(** A change of one wallet in both. *)
Lemma change_alike extra k (s s' : SubWallets) w w' w1 w1' : framed extra s s' ->
  m_subWallets s !! k = Some w -> m_subWallets s' !! k = Some w' -> keys_of w1 = keys_of w -> keys_of w1' = keys_of w' ->
  frames (extra k) w1 w1' ->
  framed extra (set_subWallets (<[k := w1]> (m_subWallets s)) s) (set_subWallets (<[k := w1']> (m_subWallets s')) s').
Proof.
  intros [Hk Ht Hw] Hl Hl' E E' Hf. split; [|done|].
  - etransitivity; [symmetry; by eapply same_keys_insert|]. etransitivity; [exact Hk|by eapply same_keys_insert].
  - intros k0 v v' Hv Hv'. cbn in *. destruct (decide (k0 = k)) as [->|Hne].
    + rewrite lookup_insert_eq in Hv, Hv'. by injection Hv as <-; injection Hv' as <-.
    + rewrite lookup_insert_ne in Hv, Hv' by done. by eapply Hw.
Qed.

Lemma store_alike extra k i : alike extra (storeTransactionInput k i).
Proof.
  intros s s' s1 Hf E. unfold storeTransactionInput in *. apply bind_Some in E as (w & Hw & [= <-]).
  destruct (same_keys_lookup _ _ _ _ (fr_keys _ _ _ Hf) Hw) as (w' & Hw' & _). rewrite Hw'. eexists. split; [done|].
  eapply change_alike; [done..|]. destruct (fr_wallets _ _ _ Hf k w w' Hw Hw') as (Eu & El & El' & Ec & Ec').
  unfold frames. cbn. rewrite Eu, Ec, Ec', app_assoc. by destruct (m_isViewWallet s), (m_isViewWallet s').
Qed.

Lemma find_keyImage_frame x extra l : x ∉ map ti_keyImage extra ->
  find_keyImage x (extra ++ l) = prod_map (fun n => (n + length extra)%nat) id <$> find_keyImage x l.
Proof.
  intros Hx. unfold find_keyImage. rewrite list_find_app_r; [done|]. by apply find_keyImage_None.
Qed.

Lemma delete_frame {A} n (extra l : list A) : delete (n + length extra)%nat (extra ++ l) = extra ++ delete n l.
Proof.
  induction extra as [|x extra IH]; [by rewrite Nat.add_0_r|]. cbn [length app]. rewrite Nat.add_succ_r.
  change (delete (S ?m) (x :: ?r)) with (x :: delete m r). by rewrite IH.
Qed.

Lemma mark_alike extra h k x : (forall k, x ∉ map ti_keyImage (extra k)) -> alike extra (markInputAsSpent x k h).
Proof.
  intros Hx s s' s1 Hf E. unfold markInputAsSpent, throwIfViewWallet in *. pose proof (fr_keys _ _ _ Hf) as (_ & <- & _).
  destruct (m_isViewWallet s); [done|]. cbn [mbind option_bind] in *. apply bind_Some in E as (w & Hw & E).
  destruct (same_keys_lookup _ _ _ _ (fr_keys _ _ _ Hf) Hw) as (w' & Hw' & _). rewrite Hw'. cbn [mbind option_bind].
  apply bind_Some in E as (w1 & Em & [= <-]).
  destruct (fr_wallets _ _ _ Hf k w w' Hw Hw') as (Eu & El & El' & Ec & Ec').
  unfold subWallet_markInputAsSpent in *. rewrite Eu, (find_keyImage_frame _ _ _ (Hx k)).
  destruct (find_keyImage x (m_unspentInputs w)) as [[n i]|]; [|by rewrite El in Em]. injection Em as <-. cbn.
  eexists. split; [done|]. eapply change_alike; [done..|]. split; [cbn; apply delete_frame|by cbn].
Qed.

(** *** The owners of key images *)

Lemma getKeyImageOwner_owns s k x : container_ok s -> getKeyImageOwner walk x s = Some k -> owns s k x.
Proof.
  intros Hok. unfold getKeyImageOwner. rewrite (ok_spends _ Hok).
  destruct (list_find _ _) as [[n [k' w]]|] eqn:E; [|done]. cbn. intros [= <-].
  apply list_find_Some in E as (Hn & Hx & _). apply list_elem_of_lookup_2 in Hn. rewrite walk_perm, elem_of_map_to_list in Hn.
  rewrite (ok_own _ Hok _ _ Hn). exists w. split; [done|]. by apply hasKeyImage_spec.
Qed.

Lemma owner_alike s s' x : container_ok s -> container_ok s' -> (forall k, owns s k x <-> owns s' k x) ->
  (forall k k', owns s k x -> owns s k' x -> k' = k) -> getKeyImageOwner walk x s = getKeyImageOwner walk x s'.
Proof.
  intros Hok Hok' Ho Hu. assert (forall a c, container_ok a -> container_ok c -> (forall k, owns a k x -> owns c k x) ->
    (forall k k', owns c k x -> owns c k' x -> k' = k) -> forall k, getKeyImageOwner walk x a = Some k -> getKeyImageOwner walk x c = Some k) as H.
  { intros a c Ha Hc Hac Huc k E. apply getKeyImageOwner_owns, Hac in E; [|done].
    apply (getKeyImageOwner_spec walk walk_perm); [done| |done]. intros k' Hk'. by apply (Huc k k'). }
  destruct (getKeyImageOwner walk x s) as [k|] eqn:E.
  - symmetry. eapply H; [exact Hok|done|by intros ? ?%Ho| |done]. intros k1 k2 H1%Ho H2%Ho. by apply Hu.
  - destruct (getKeyImageOwner walk x s') as [k|] eqn:E'; [|done].
    rewrite (H s' s Hok' Hok (fun k => proj2 (Ho k)) Hu k E') in E. done.
Qed.

Lemma owns_framed extra s s' k x : framed extra s s' -> (forall k, x ∉ map ti_keyImage (extra k)) -> owns s k x <-> owns s' k x.
Proof.
  intros Hf Hx. assert (forall w w', frames (extra k) w w' -> x ∈ map ti_keyImage (live w) <-> x ∈ map ti_keyImage (live w')) as H.
  { intros w w' (Eu & El & El' & _). unfold live. rewrite Eu, El, El', !app_nil_r, map_app, elem_of_app.
    split; [by right|]. intros [?%Hx|?]; done. }
  pose proof (fr_keys _ _ _ Hf) as Hk. split; intros (w & Hw & Hin).
  - destruct (same_keys_lookup _ _ _ _ Hk Hw) as (w' & Hw' & _). exists w'. split; [done|]. rewrite <- H; [done|].
    by eapply (fr_wallets _ _ _ Hf).
  - symmetry in Hk. destruct (same_keys_lookup _ _ _ _ Hk Hw) as (w' & Hw' & _). exists w'. split; [done|]. rewrite H; [done|].
    by eapply (fr_wallets _ _ _ Hf).
Qed.

Lemma omap_ext_in {A B} (f g : A -> option B) (l : list A) : (forall x, x ∈ l -> f x = g x) -> omap f l = omap g l.
Proof.
  induction l as [|x l IH]; intros H; [done|]. cbn. rewrite (H x) by apply list_elem_of_here.
  rewrite IH; [done|]. intros y Hy. apply H. by apply list_elem_of_further.
Qed.

Section Framed.
Context (extra : PublicKey -> list TransactionInput) (daemon : Nigel) (id0 : SubWallets) (v : SecretKey) (chain : Scanned).
Context (b : WalletBlockInfo) (inputs : list OwnedInput) (ws ws' : WalletSynchronizer).
Hypothesis Hok : container_ok id0.
Hypothesis Hkn : knows id0 v chain ws.
Hypothesis Hnb : next_block daemon id0 v chain [] b inputs.
Hypothesis Hpos : 0 < wb_blockHeight b.
Hypothesis Hfr : framed extra (ws_subWallets ws) (ws_subWallets ws').
Hypothesis Hsync : m_syncStatus ws' = m_syncStatus ws.
Hypothesis Hview : ws_privateViewKey ws' = v.
Hypothesis Hextra : forall k x, x ∈ block_spends b -> x ∉ map ti_keyImage (extra k).

Lemma info_alike : processBlockTransactions walk b inputs ws' = processBlockTransactions walk b inputs ws.
Proof using Type*.
  pose proof (kn_tracks _ _ _ _ Hkn) as Ht. pose proof (same_keys_ok _ _ (tr_same _ _ _ Ht) Hok) as Hs.
  pose proof (same_keys_ok _ _ (fr_keys _ _ _ Hfr) Hs) as Hs'. unfold processBlockTransactions.
  rewrite (omap_ext_in (fun rawTX => processTransaction walk b inputs rawTX ws') (fun rawTX => processTransaction walk b inputs rawTX ws)); [done|].
  intros tx Htx. unfold processTransaction.
  assert (spentKeyImages walk tx (ws_subWallets ws') = spentKeyImages walk tx (ws_subWallets ws)) as ->; [|done].
  unfold spentKeyImages. apply omap_ext_in. intros i Hi.
  assert (keyImage i ∈ block_spends b) as Hb.
  { unfold block_spends. apply elem_of_concat. exists (tx_images tx). split; [by apply list_elem_of_fmap_2|by apply (list_elem_of_fmap_2 tx_images)]. }
  rewrite (owner_alike (ws_subWallets ws) (ws_subWallets ws') (keyImage i) Hs Hs'); [done| |].
  - intros k. eapply owns_framed; [exact Hfr|]. intros k'. by apply Hextra.
  - intros k k'. eapply owner_unique; [exact Hok|exact Ht|exact (nb_follows _ _ _ _ _ _ _ _ _ _ _ _ _ Hnb)].
Qed.

Lemma scanned_alike s1 : store_scanned b (processBlockTransactions walk b inputs ws) (ws_subWallets ws) = Some s1 ->
  exists s1', store_scanned b (processBlockTransactions walk b inputs ws') (ws_subWallets ws') = Some s1' /\ framed extra s1 s1'.
Proof using Type*.
  rewrite info_alike. unfold store_scanned. intros (a1 & E1 & (a2 & E2 & E3)%bind_Some)%bind_Some.
  assert (alike extra (for_each wallet_addTransaction (transactionsToAdd (processBlockTransactions walk b inputs ws)))) as H1.
  { apply for_each_alike, Forall_true. intros tx. apply add_alike. }
  destruct (H1 _ _ _ Hfr E1) as (a1' & -> & F1). cbn [mbind option_bind].
  assert (alike extra (for_each (fun ki => storeTransactionInput ki.1 ki.2) (inputsToAdd (processBlockTransactions walk b inputs ws)))) as H2.
  { apply for_each_alike, Forall_true. intros ki. apply store_alike. }
  destruct (H2 _ _ _ F1 E2) as (a2' & -> & F2). cbn [mbind option_bind].
  refine (for_each_alike _ _ _ _ _ _ _ F2 E3). apply Forall_forall. intros [k x] Hin. apply mark_alike. intros k'.
  apply Hextra. rewrite (scanned_marks walk walk_perm id0 chain ws b inputs Hok (kn_tracks _ _ _ _ Hkn)
    (nb_follows _ _ _ _ _ _ _ _ _ _ _ _ _ Hnb)) in Hin.
  unfold found_images in Hin. apply list_elem_of_omap in Hin as (y & Hy & E).
  destruct (getKeyImageOwner walk y _); [|done]. by injection E as _ <-.
Qed.

Lemma height_above : last_height chain < wb_blockHeight b.
Proof using Hnb Hpos.
  pose proof (nb_pre _ _ _ _ _ _ _ _ _ _ _ _ _ Hnb) as Hp. unfold last_height.
  destruct (last chain) as [bi|] eqn:El; [|done]. apply last_Some_elem_of in El. exact (proj1 (Forall_forall _ _) Hp _ El).
Qed.

Lemma processBlock_framed : exists ws1 ws1' events,
  processBlock daemon b ws = Some (ws1, events) /\ processBlock daemon b ws' = Some (ws1', events) /\
  knows id0 v (chain ++ [(b, inputs)]) ws1 /\ framed extra (ws_subWallets ws1) (ws_subWallets ws1') /\
  m_syncStatus ws1' = m_syncStatus ws1 /\ ws_privateViewKey ws1' = v.
Proof using Type*.
  assert (knows id0 v (chain ++ []) ws) as Hkn' by by rewrite app_nil_r.
  destruct (processBlock_next _ _ _ _ _ _ walk walk_perm _ _ _ _ _ _ _ ws Hok Hkn' Hnb) as (ws1 & ev & E & Hk1 & _).
  { rewrite app_nil_r. intros Hle. exfalso. revert Hle. apply Z.lt_nge, height_above. }
  unfold WalletSync.processBlock in E |- *. rewrite Hsync, (kn_height _ _ _ _ Hkn), (proj2 (Z.leb_gt _ _) height_above) in *.
  pose proof (nb_found _ _ _ _ _ _ _ _ _ _ _ _ _ Hnb) as Hf. apply bind_Some in Hf as (ours & Eo & Ei).
  pose proof (tr_same _ _ _ (kn_tracks _ _ _ _ Hkn)) as Hs.
  assert (forall w, same_keys id0 (ws_subWallets w) -> ws_privateViewKey w = v -> processBlockOutputs b w = Some ours) as Ho.
  { intros w Hw Hv. rewrite <- Eo. symmetry. by apply processBlockOutputs_same. }
  assert (same_keys id0 (ws_subWallets ws')) as Hs' by (etransitivity; [exact Hs|apply Hfr]).
  rewrite (Ho ws Hs (kn_view _ _ _ _ Hkn)) in *. rewrite (Ho ws' Hs' Hview). cbn [mbind option_bind] in *.
  destruct Hs as (_ & Ev & _). destruct Hs' as (_ & Ev' & _). rewrite <- Ev in E |- *. rewrite <- Ev'. rewrite Ei in *.
  apply bind_Some in E as (s1 & Es & (st & Est & [= <- <-])%bind_Some).
  destruct (scanned_alike s1 Es) as (s1' & Es' & Hf1). rewrite Es, Es'. cbn [mbind option_bind]. rewrite Hsync, Est. cbn [mbind option_bind].
  rewrite info_alike. do 3 eexists. split; [reflexivity|]. split; [reflexivity|]. done.
Qed.
End Framed.

(** The balance that the container reports is [n] times that of the chain. *)
Definition reports (n : Z) (chain : Scanned) (s : SubWallets) : Prop :=
  forall now height, getBalance now [] true height s =
    Some (u64 (n * chain_balance now height true chain), u64 (n * chain_balance now height false chain)).

(** *** The whole chain once more *)

(** A chain whose blocks follow each other and are above the genesis block. *)
Inductive grows (daemon : Nigel) (id0 : SubWallets) (v : SecretKey) : Scanned -> Prop :=
  | grows_nil : grows daemon id0 v []
  | grows_block chain b inputs : grows daemon id0 v chain -> next_block daemon id0 v chain [] b inputs ->
      0 < wb_blockHeight b -> grows daemon id0 v (chain ++ [(b, inputs)]).

(** The container with nothing in its wallets. *)
Definition emptied (s : SubWallets) : SubWallets :=
  set_subWallets (set_inputs [] [] [] [] <$> m_subWallets s) (set_wallet_transactions [] [] s).

Lemma emptied_knows id0 v startTimestamp startHeight s : same_keys id0 s ->
  knows id0 v [] (MkSynchronizer SynchronizationStatus_new startTimestamp startHeight v (emptied s)).
Proof.
  intros Hs. split; [|done|done]. split; cbn.
  - etransitivity; [exact Hs|]. by apply same_keys_fmap.
  - by intros ???? ?%not_elem_of_nil.
  - intros k w (w0 & <- & _)%lookup_fmap_Some. done.
  - intros k w (w0 & <- & _)%lookup_fmap_Some. done.
  - done.
Qed.

Lemma processBlocks_snoc daemon blocks b ws ws1 ev1 ws2 ev2 : processBlocks daemon blocks ws = Some (ws1, ev1) ->
  processBlock daemon b ws1 = Some (ws2, ev2) -> processBlocks daemon (blocks ++ [b]) ws = Some (ws2, ev1 ++ ev2).
Proof.
  intros E1 E2. unfold WalletSync.processBlocks in *. rewrite for_each_app, E1. cbn [mbind option_bind for_each].
  by rewrite E2.
Qed.

Lemma processBlocks_framed extra daemon id0 v chain ws ws' : container_ok id0 -> grows daemon id0 v chain ->
  (forall k i, i ∈ extra k -> spend_height chain (ti_keyImage i) = None) ->
  knows id0 v [] ws -> framed extra (ws_subWallets ws) (ws_subWallets ws') -> m_syncStatus ws' = m_syncStatus ws ->
  ws_privateViewKey ws' = v ->
  exists ws1 ws1' events, processBlocks daemon (map fst chain) ws' = Some (ws1', events) /\
    knows id0 v chain ws1 /\ framed extra (ws_subWallets ws1) (ws_subWallets ws1') /\
    m_syncStatus ws1' = m_syncStatus ws1 /\ ws_privateViewKey ws1' = v.
Proof.
  intros Hok Hg Hx Hkn Hfr Hsync Hv. induction Hg as [|chain b inputs Hg IH Hnb Hpos]; [by exists ws, ws', []|].
  destruct IH as (ws1 & ws1' & ev & E & Hkn1 & Hfr1 & Hsync1 & Hv1).
  { intros k i Hi. specialize (Hx k i Hi). rewrite spend_height_snoc in Hx. by destruct (spend_height chain _). }
  destruct (processBlock_framed extra daemon id0 v chain b inputs ws1 ws1' Hok Hkn1 Hnb Hpos Hfr1 Hsync1 Hv1)
    as (ws2 & ws2' & ev2 & _ & E2 & Hkn2 & Hfr2 & Hsync2 & Hv2).
  { intros k x Hxb (i & -> & Hi)%list_elem_of_fmap. specialize (Hx k i Hi). rewrite spend_height_snoc in Hx.
    destruct (spend_height chain _); [done|]. by rewrite decide_True in Hx. }
  exists ws2, ws2', (ev ++ ev2). split; [|done]. rewrite map_app. by eapply processBlocks_snoc.
Qed.

(** The inputs that a reset leaves in the wallets. *)
Definition left_over (s : SubWallets) (k : PublicKey) : list TransactionInput :=
  from_option m_unspentInputs [] (m_subWallets s !! k).

Lemma reset_framed scanHeight timestamp ws : settled (ws_subWallets ws) ->
  framed (left_over (ws_subWallets ws)) (emptied (ws_subWallets ws)) (ws_subWallets (backend_reset scanHeight timestamp ws)).
Proof.
  intros Hs. split; [|done|].
  - symmetry. etransitivity; [|by apply same_keys_fmap]. done.
  - intros k w w' (w0 & <- & Hw0)%lookup_fmap_Some Hw'. cbn in Hw'. rewrite Hw0 in Hw'. injection Hw' as <-.
    destruct (Hs k w0 Hw0) as [Hl Hu]. unfold left_over. rewrite Hw0. unfold frames. cbn. by rewrite app_nil_r.
Qed.

(** A wallet that was emptied in one of them only. *)
Lemma rescanned_wallet id0 chain s s1 s1' k w' : tracks id0 chain s -> settled s -> tracks id0 chain s1 ->
  framed (left_over s) s1 s1' -> m_subWallets s1' !! k = Some w' ->
  m_unspentInputs w' ≡ₚ owned k (chain_unspent chain ++ chain_unspent chain) /\ m_unconfirmedIncomingAmounts w' = [].
Proof.
  intros Ht Hs Ht1 Hf Hw'. pose proof (fr_keys _ _ _ Hf) as Hk. symmetry in Hk.
  destruct (same_keys_lookup _ _ _ _ Hk Hw') as (w1 & Hw1 & _).
  assert (same_keys s1 s) as Hk1 by (etransitivity; [symmetry; apply Ht1|apply Ht]).
  destruct (same_keys_lookup _ _ _ _ Hk1 Hw1) as (w & Hw & _).
  destruct (fr_wallets _ _ _ Hf k w1 w' Hw1 Hw') as (Eu & El & _ & _ & Ec). split; [|done].
  rewrite Eu, owned_app. unfold left_over. rewrite Hw. cbn [from_option]. apply Permutation_app; [exact (settled_unspent _ _ _ _ _ Ht Hs Hw)|].
  rewrite <- unspent_owned, <- (tr_live _ _ _ Ht1 _ _ Hw1). unfold live. by rewrite El, app_nil_r.
Qed.

(** C26. Resetting a wallet does not empty it.  Let a container track a chain
    whose blocks are above the genesis block, with no transaction of its own
    waiting.  After [reset], scanning the blocks of the chain again stores each
    output that the chain has not spent a second time, beside the one that is
    still there, and the balance that is reported is twice what the chain gives.
    (A scan that begins with the genesis block first drops the unspent inputs,
    as for a fork at height 0, and is not covered.) *)
Theorem rescan_doubles daemon id0 v chain scanHeight timestamp ws :
  container_ok id0 -> knows id0 v chain ws -> settled (ws_subWallets ws) -> grows daemon id0 v chain ->
  exists ws' events, processBlocks daemon (map fst chain) (backend_reset scanHeight timestamp ws) = Some (ws', events) /\
    reports 1 chain (ws_subWallets ws) /\ reports 2 chain (ws_subWallets ws').
Proof.
  intros Hok [Ht _ Hv] Hs Hg. pose proof (same_keys_ok _ _ (tr_same _ _ _ Ht) Hok) as Hok'.
  assert (forall k w, m_subWallets (ws_subWallets ws) !! k = Some w -> m_unspentInputs w ≡ₚ owned k (chain_unspent chain)) as Hun
    by (intros k w; by eapply settled_unspent).
  destruct (processBlocks_framed (left_over (ws_subWallets ws)) daemon id0 v chain
    (MkSynchronizer SynchronizationStatus_new 0 0 v (emptied (ws_subWallets ws))) (backend_reset scanHeight timestamp ws) Hok Hg)
    as (ws1 & ws1' & ev & E & [Ht1 _ _] & Hf & _ & _); [|apply emptied_knows, (tr_same _ _ _ Ht)|by apply reset_framed|done|done|].
  { unfold left_over. intros k i Hi. destruct (m_subWallets (ws_subWallets ws) !! k) as [w|] eqn:Ew; [|by apply not_elem_of_nil in Hi].
    cbn in Hi. rewrite (Hun k w Ew) in Hi. apply elem_of_owned, list_elem_of_filter in Hi as [Hi _]. exact Hi. }
  exists ws1', ev. split; [done|].
  split; intros now height; [rewrite !Z.mul_1_l; eapply getBalance_tracks; [apply Hok|done|done]|].
  pose proof (same_keys_ok _ _ (fr_keys _ _ _ Hf) (same_keys_ok _ _ (tr_same _ _ _ Ht1) Hok)) as Hok1.
  rewrite (getBalance_owned now height _ (chain_unspent chain ++ chain_unspent chain)).
  - unfold chain_balance. rewrite !map_app, !sumZ_app. do 2 f_equal; [f_equal|]; f_equal; lia.
  - apply Hok1.
  - destruct (fr_keys _ _ _ Hf) as (<- & _). apply Forall_app. split; by eapply tracked_keys.
  - intros k w' Hw'. exact (rescanned_wallet _ _ _ _ _ _ _ Ht Hs Ht1 Hf Hw').
Qed.

(** ** Blocks that are skipped *)

(** The block pays the container, and the daemon gives no indexes for it. *)
Definition unindexed (daemon : Nigel) (ws : WalletSynchronizer) (b : WalletBlockInfo) : Prop :=
  exists ours, processBlockOutputs b ws = Some ours /\
    fill_indexes daemon (wb_blockHeight b) (m_isViewWallet (ws_subWallets ws)) ∅ ours = None.

(** C28. A block that pays the wallet and that the daemon gives no indexes for is
    left out, and the next block that can be scanned ends the program: its height
    is not one above the last height, which the code takes for a malicious daemon. *)
Theorem missing_indexes_fatal daemon id0 v chain ws b b' inputs' :
  knows id0 v chain ws -> 0 < last_height chain ->
  wb_blockHeight b = last_height chain + 1 -> wb_blockHeight b' = wb_blockHeight b + 1 -> wb_blockHeight b' < 2 ^ 64 ->
  unindexed daemon ws b -> scanned daemon v id0 b' = Some inputs' ->
  processBlock daemon b ws = Some (ws, []) /\ processBlocks daemon [b; b'] ws = None.
Proof.
  intros [Ht Hl Hv] Hpos Hb Hb' Hmax (ours & E & Hf) Hsc'. pose proof (tr_same _ _ _ Ht) as Hk.
  assert (processBlock daemon b ws = Some (ws, [])) as E1.
  { unfold WalletSync.processBlock. rewrite Hl. rewrite (proj2 (Z.leb_gt _ _)) by lia. rewrite E. cbn [mbind option_bind]. by rewrite Hf. }
  split; [done|]. unfold WalletSync.processBlocks. cbn [for_each]. rewrite E1. cbn [mbind option_bind].
  assert (processBlock daemon b' ws = None) as ->; [|done].
  unfold WalletSync.processBlock. rewrite Hl. rewrite (proj2 (Z.leb_gt _ _)) by lia.
  apply bind_Some in Hsc' as (ours' & E2 & E3).
  rewrite (processBlockOutputs_same _ _ _ _ _ _ b' (MkSynchronizer SynchronizationStatus_new 0 0 v id0) ws Hk) in E2 by done.
  rewrite E2. cbn [mbind option_bind]. destruct Hk as (_ & <- & _). rewrite E3.
  destruct (store_scanned _ _ _) as [s|]; [|done]. cbn [mbind option_bind]. unfold storeBlockHash. rewrite Hl.
  rewrite (proj2 (Z.ltb_lt _ _)) by lia. rewrite (proj2 (Z.eqb_neq (last_height chain) 0)) by lia.
  assert (u64 (last_height chain + 1) = last_height chain + 1) as -> by (apply wrap_small; split; lia).
  by rewrite (proj2 (Z.eqb_neq _ _)) by lia.
Qed.
End Rescan.

(** ** The cases, evaluated *)

Lemma removeForkedTransactions_exact_witness :
  tracks Sample.container [] (removeForkedTransactions 1 (ws_subWallets Sample.after1)) <->
  clean_fork [] [Sample.entry Sample.block1] 1 (ws_subWallets Sample.after1).
Proof.
  apply (removeForkedTransactions_exact Sample.container [] [Sample.entry Sample.block1] (ws_subWallets Sample.after1) 1).
  - exact Sample.container_spends.
  - exact (kn_tracks _ _ _ _ (proj1 Sample.after1_knows)).
  - constructor.
  - apply (bool_decide_unpack _). vm_compute. exact I.
  - apply (bool_decide_unpack _). vm_compute. exact I.
Defined.

(** The first wallet has sent the transaction 77, which spends its only output. *)
Definition sent : SubWallets :=
  match (s ← markInputAsLocked [11; 0; 1] [1] (ws_subWallets Sample.after1);
         addUnconfirmedTransaction (MkWalletTransaction ∅ [77] 0 0 0 [] 0 false) s) with
  | Some s => s
  | None => ws_subWallets Sample.after1
  end.

Lemma sent_tracks : tracks Sample.container [Sample.entry Sample.block1] sent.
Proof.
  pose proof (kn_tracks _ _ _ _ (proj1 Sample.after1_knows)) as Ht. unfold sent.
  destruct (markInputAsLocked [11; 0; 1] [1] (ws_subWallets Sample.after1)) as [s1|] eqn:E1; cbn [mbind option_bind]; [|done].
  apply (markInputAsLocked_tracks _ _ _ _ _ _ Ht) in E1. destruct (addUnconfirmedTransaction _ s1) as [s2|] eqn:E2; [|done].
  by eapply addUnconfirmedTransaction_tracks.
Qed.

Lemma cancelled_stay_locked_witness :
  map (fun kw => length (m_lockedInputs kw.2)) (map_to_list (m_subWallets sent)) = [1; 0]%nat /\
  exists s', removeCancelledTransactions {[ [77] ]} sent = Some s' /\
    m_lockedTransactions s' = filter (fun tx => wt_hash tx ∉ ({[ [77] ]} : gset Hash)) (m_lockedTransactions sent) /\
    same_inputs sent s'.
Proof.
  split; [vm_compute; reflexivity|].
  apply (cancelled_stay_locked Sample.container [Sample.entry Sample.block1] sent {[ [77] ]}).
  - exact Sample.container_spends.
  - exact sent_tracks.
  - apply (bool_decide_unpack _). vm_compute. exact I.
Defined.

(** The synchronizer after a block that pays the first wallet and one that spends
    this output and pays the second. *)
Definition after2 : WalletSynchronizer :=
  match processBlock Sample.derivation Sample.underive Sample.derive_public Sample.derive_secret Sample.image [] map_to_list
    Sample.daemon Sample.block2 Sample.after1 with
  | Some (ws, _) => ws
  | None => Sample.after1
  end.

Lemma after2_knows : knows Sample.container [9] [Sample.entry Sample.block1; Sample.entry Sample.block2] after2 /\
  settled (ws_subWallets after2).
Proof.
  destruct Sample.after1_knows as [Hk Hs]. change [Sample.entry Sample.block1] with ([Sample.entry Sample.block1] ++ []) in Hk.
  destruct (processBlock_next _ _ _ _ _ _ map_to_list ltac:(done) _ _ _ _ _ _ _ _ Sample.container_spends Hk Sample.next2)
    as (ws' & ev & E & Hk' & Hs').
  { intros _ k w Hw. by destruct (Hs k w Hw) as [-> _]. }
  unfold after2. rewrite E. split; [exact Hk'|by apply Hs'].
Qed.

Lemma rescan_doubles_witness :
  getBalance 0 [] true 100 (ws_subWallets after2) = Some (40, 0) /\
  exists ws' events,
    processBlocks Sample.derivation Sample.underive Sample.derive_public Sample.derive_secret Sample.image [] map_to_list
      Sample.daemon [Sample.block1; Sample.block2] (backend_reset 1 0 after2) = Some (ws', events) /\
    reports 1 [Sample.entry Sample.block1; Sample.entry Sample.block2] (ws_subWallets after2) /\
    reports 2 [Sample.entry Sample.block1; Sample.entry Sample.block2] (ws_subWallets ws').
Proof.
  split; [vm_compute; reflexivity|].
  apply (rescan_doubles Sample.derivation Sample.underive Sample.derive_public Sample.derive_secret Sample.image [] map_to_list
    ltac:(done) Sample.daemon Sample.container [9] [Sample.entry Sample.block1; Sample.entry Sample.block2] 1 0 after2).
  - exact Sample.container_spends.
  - exact (proj1 after2_knows).
  - exact (proj2 after2_knows).
  - apply (grows_block _ _ _ _ _ _ _ _ _ [Sample.entry Sample.block1]); [|exact Sample.next2|done].
    apply (grows_block _ _ _ _ _ _ _ _ _ []); [constructor|exact Sample.next1|done].
Defined.

(** A daemon without indexes for the second block, whose outputs come without one. *)
Lemma missing_indexes_fatal_witness :
  processBlock Sample.derivation Sample.underive Sample.derive_public Sample.derive_secret Sample.image [] map_to_list
    (MkNigel 3 3 (fun _ _ _ => None) (fun _ _ => None) (fun _ => None)) Sample.block2' Sample.after1 = Some (Sample.after1, []) /\
  processBlocks Sample.derivation Sample.underive Sample.derive_public Sample.derive_secret Sample.image [] map_to_list
    (MkNigel 3 3 (fun _ _ _ => None) (fun _ _ => None) (fun _ => None))
    [Sample.block2'; MkWalletBlock (Sample.coinbase 14 8 0) [] 3 [104] 1300] Sample.after1 = None.
Proof.
  apply (missing_indexes_fatal Sample.derivation Sample.underive Sample.derive_public Sample.derive_secret Sample.image [] map_to_list
    (MkNigel 3 3 (fun _ _ _ => None) (fun _ _ => None) (fun _ => None)) Sample.container [9] [Sample.entry Sample.block1] Sample.after1
    Sample.block2' (MkWalletBlock (Sample.coinbase 14 8 0) [] 3 [104] 1300) []).
  - exact (proj1 Sample.after1_knows).
  - done.
  - done.
  - done.
  - done.
  - eexists. split; [vm_compute; reflexivity|vm_compute; reflexivity].
  - vm_compute. reflexivity.
Defined.
