(* ===== verification/WalletJson.v ===== *)
(** * The wallet file: [include/json_helper.h], the [toJSON] and [fromJSON]
    functions of the wallet, and [WalletBackend::toJSON] and [fromJSON]

    A document is the tree that the writer of rapidjson is told to write and that
    its parser gives back; the text and the encryption of the file are not
    modelled.  A [fromJSON] that throws is [None]. *)

From stdpp Require Import gmap fin_sets fin_maps.
From S2P Require Import Prelude Config StringTools Serializer Transaction SubWallet SubWallets WalletSync WalletSpec.

Inductive JSON :=
  | JNumber (n : Z)
  | JString (s : bytes)
  | JBool (b : bool)
  | JArray (l : list JSON)
  | JObject (members : list (string * JSON)).

(** ** [json_helper.h] *)

Fixpoint FindMember (key : string) (members : list (string * JSON)) : option JSON :=
  match members with
  | [] => None
  | (k, v) :: rest => if String.eqb k key then Some v else FindMember key rest
  end.

Definition getJsonValue (j : JSON) (key : string) : option JSON :=
  match j with JObject members => FindMember key members | _ => None end.

Definition getUint64FromJSON (j : JSON) (key : string) : option Z :=
  v ← getJsonValue j key;
  match v with JNumber n => if (0 <=? n) && (n <? 2 ^ 64) then Some n else None | _ => None end.

(** The result is declared as [uint64_t]. *)
Definition getInt64FromJSON (j : JSON) (key : string) : option Z :=
  v ← getJsonValue j key;
  match v with JNumber n => if (- 2 ^ 63 <=? n) && (n <? 2 ^ 63) then Some (u64 n) else None | _ => None end.

(** [GetString] is a pointer to characters that end with a zero. *)
Fixpoint c_str (s : bytes) : bytes :=
  match s with
  | [] => []
  | c :: s => if c =? 0 then [] else c :: c_str s
  end.

Definition getStringFromJSONString (j : JSON) : option bytes :=
  match j with JString s => Some (c_str s) | _ => None end.
Definition getStringFromJSON (j : JSON) (key : string) : option bytes := v ← getJsonValue j key; getStringFromJSONString v.
Definition getArrayFromJSON (j : JSON) (key : string) : option (list JSON) :=
  v ← getJsonValue j key; match v with JArray l => Some l | _ => None end.
Definition getObjectFromJSON (j : JSON) (key : string) : option JSON :=
  v ← getJsonValue j key; match v with JObject m => Some (JObject m) | _ => None end.
Definition getBoolFromJSON (j : JSON) (key : string) : option bool :=
  v ← getJsonValue j key; match v with JBool b => Some b | _ => None end.

(** ** [crypto_types.h]: the same for hashes, keys and key images *)

Definition pod_toJSON (data : bytes) : JSON := JString (toHex data).
Definition pod_fromString (s : bytes) : option bytes := podFromHex 32 s.
Definition pod_field (j : JSON) (key : string) : option bytes := s ← getStringFromJSON j key; pod_fromString s.

(** ** [wallet_types.h] *)

#[local] Open Scope string_scope.

Definition TransactionInput_toJSON (i : TransactionInput) : JSON :=
  JObject [("keyImage", pod_toJSON (ti_keyImage i)); ("amount", JNumber (ti_amount i));
           ("blockHeight", JNumber (ti_blockHeight i)); ("transactionPublicKey", pod_toJSON (ti_transactionPublicKey i));
           ("transactionIndex", JNumber (ti_transactionIndex i));
           ("globalOutputIndex", JNumber (default 0 (ti_globalOutputIndex i))); ("key", pod_toJSON (ti_key i));
           ("spendHeight", JNumber (ti_spendHeight i)); ("unlockTime", JNumber (ti_unlockTime i));
           ("parentTransactionHash", pod_toJSON (ti_parentTransactionHash i))].

Definition TransactionInput_fromJSON (j : JSON) : option TransactionInput :=
  keyImage ← pod_field j "keyImage";
  amount ← getUint64FromJSON j "amount";
  blockHeight ← getUint64FromJSON j "blockHeight";
  transactionPublicKey ← pod_field j "transactionPublicKey";
  transactionIndex ← getUint64FromJSON j "transactionIndex";
  globalOutputIndex ← getUint64FromJSON j "globalOutputIndex";
  key ← pod_field j "key";
  spendHeight ← getUint64FromJSON j "spendHeight";
  unlockTime ← getUint64FromJSON j "unlockTime";
  parentTransactionHash ← pod_field j "parentTransactionHash";
  Some (MkInput keyImage amount blockHeight transactionPublicKey transactionIndex (Some globalOutputIndex) key spendHeight
          unlockTime parentTransactionHash).

Definition UnconfirmedInput_toJSON (u : UnconfirmedInput) : JSON :=
  JObject [("amount", JNumber (ui_amount u)); ("key", pod_toJSON (ui_key u));
           ("parentTransactionHash", pod_toJSON (ui_parentTransactionHash u))].

Definition UnconfirmedInput_fromJSON (j : JSON) : option UnconfirmedInput :=
  amount ← getUint64FromJSON j "amount";
  key ← pod_field j "key";
  parentTransactionHash ← pod_field j "parentTransactionHash";
  Some (MkUnconfirmed amount key parentTransactionHash).

(** [constants.h] *)
Abbreviation WALLET_FILE_FORMAT_VERSION := 0 (only parsing).

Section Writers.
(** The orders in which the hashed maps are walked. *)
Variable walk_transfers : gmap PublicKey Z -> list (PublicKey * Z).
Variable walk : gmap PublicKey SubWallet -> list (PublicKey * SubWallet).
Variable walk_txKeys : gmap Hash SecretKey -> list (Hash * SecretKey).

Definition transfer_toJSON (t : PublicKey * Z) : JSON :=
  JObject [("publicKey", pod_toJSON t.1); ("amount", JNumber t.2)].

Definition WalletTransaction_toJSON (tx : WalletTransaction) : JSON :=
  JObject [("transfers", JArray (map transfer_toJSON (walk_transfers (transfers tx)))); ("hash", pod_toJSON (wt_hash tx));
           ("fee", JNumber (wt_fee tx)); ("blockHeight", JNumber (wt_blockHeight tx));
           ("timestamp", JNumber (wt_timestamp tx)); ("paymentID", JString (wt_paymentID tx));
           ("unlockTime", JNumber (wt_unlockTime tx)); ("isCoinbaseTransaction", JBool (isCoinbaseTransaction tx))].

(** ** [sub_wallet.cpp] and [sub_wallets.cpp] *)

Definition SubWallet_toJSON (w : SubWallet) : JSON :=
  JObject [("publicSpendKey", pod_toJSON (m_publicSpendKey w)); ("privateSpendKey", pod_toJSON (m_privateSpendKey w));
           ("address", JString (m_address w)); ("syncStartTimestamp", JNumber (m_syncStartTimestamp w));
           ("unspentInputs", JArray (map TransactionInput_toJSON (m_unspentInputs w)));
           ("lockedInputs", JArray (map TransactionInput_toJSON (m_lockedInputs w)));
           ("spentInputs", JArray (map TransactionInput_toJSON (m_spentInputs w)));
           ("syncStartHeight", JNumber (m_syncStartHeight w)); ("isPrimaryAddress", JBool (m_isPrimaryAddress w));
           ("unconfirmedIncomingAmounts", JArray (map UnconfirmedInput_toJSON (m_unconfirmedIncomingAmounts w)))].

Definition txKey_toJSON (t : Hash * SecretKey) : JSON :=
  JObject [("transactionHash", pod_toJSON t.1); ("txPrivateKey", pod_toJSON t.2)].

Definition SubWallets_toJSON (s : SubWallets) : JSON :=
  JObject [("publicSpendKeys", JArray (map pod_toJSON (m_publicSpendKeys s)));
           ("subWallet", JArray (map (fun kw => SubWallet_toJSON kw.2) (walk (m_subWallets s))));
           ("transactions", JArray (map WalletTransaction_toJSON (m_transactions s)));
           ("lockedTransactions", JArray (map WalletTransaction_toJSON (m_lockedTransactions s)));
           ("privateViewKey", pod_toJSON (m_privateViewKey s)); ("isViewWallet", JBool (m_isViewWallet s));
           ("txPrivateKeys", JArray (map txKey_toJSON (walk_txKeys (m_transactionPrivateKeys s))))].

(** ** [synchronization_status.cpp], [wallet_synchronizer.cpp], [wallet_backend.cpp] *)

Definition SynchronizationStatus_toJSON (st : SynchronizationStatus) : JSON :=
  JObject [("blockHashCheckpoints", JArray (map pod_toJSON (m_blockHashCheckpoints st)));
           ("lastKnownBlockHashes", JArray (map pod_toJSON (m_lastKnownBlockHashes st)));
           ("lastKnownBlockHeight", JNumber (m_lastKnownBlockHeight st))].

Definition WalletSynchronizer_toJSON (ws : WalletSynchronizer) : JSON :=
  JObject [("transactionSynchronizerStatus", SynchronizationStatus_toJSON (m_syncStatus ws));
           ("startTimestamp", JNumber (m_startTimestamp ws)); ("startHeight", JNumber (m_startHeight ws));
           ("privateViewKey", pod_toJSON (ws_privateViewKey ws))].

Definition WalletBackend_toJSON (ws : WalletSynchronizer) : JSON :=
  JObject [("walletFileFormatVersion", JNumber WALLET_FILE_FORMAT_VERSION);
           ("subWallets", SubWallets_toJSON (ws_subWallets ws)); ("walletSynchronizer", WalletSynchronizer_toJSON ws)].
End Writers.

Definition transfer_fromJSON (j : JSON) : option (PublicKey * Z) :=
  publicKey ← pod_field j "publicKey";
  amount ← getInt64FromJSON j "amount";
  Some (publicKey, i64 amount).

Definition WalletTransaction_fromJSON (j : JSON) : option WalletTransaction :=
  l ← getArrayFromJSON j "transfers";
  transfers ← mapM transfer_fromJSON l;
  hash ← pod_field j "hash";
  fee ← getUint64FromJSON j "fee";
  blockHeight ← getUint64FromJSON j "blockHeight";
  timestamp ← getUint64FromJSON j "timestamp";
  paymentID ← getStringFromJSON j "paymentID";
  unlockTime ← getUint64FromJSON j "unlockTime";
  isCoinbaseTransaction ← getBoolFromJSON j "isCoinbaseTransaction";
  Some (MkWalletTransaction (fold_left (fun m t => <[t.1 := t.2]> m) transfers ∅) hash fee timestamp blockHeight paymentID
          unlockTime isCoinbaseTransaction).

Definition inputs_field (j : JSON) (key : string) : option (list TransactionInput) :=
  l ← getArrayFromJSON j key; mapM TransactionInput_fromJSON l.

Definition SubWallet_fromJSON (j : JSON) : option SubWallet :=
  publicSpendKey ← pod_field j "publicSpendKey";
  privateSpendKey ← pod_field j "privateSpendKey";
  address ← getStringFromJSON j "address";
  syncStartTimestamp ← getUint64FromJSON j "syncStartTimestamp";
  unspentInputs ← inputs_field j "unspentInputs";
  lockedInputs ← inputs_field j "lockedInputs";
  spentInputs ← inputs_field j "spentInputs";
  syncStartHeight ← getUint64FromJSON j "syncStartHeight";
  isPrimaryAddress ← getBoolFromJSON j "isPrimaryAddress";
  l ← getArrayFromJSON j "unconfirmedIncomingAmounts";
  unconfirmedIncomingAmounts ← mapM UnconfirmedInput_fromJSON l;
  Some (MkSubWallet unspentInputs lockedInputs spentInputs unconfirmedIncomingAmounts publicSpendKey privateSpendKey
          syncStartTimestamp syncStartHeight address isPrimaryAddress).

Definition txKey_fromJSON (j : JSON) : option (Hash * SecretKey) :=
  txHash ← pod_field j "transactionHash";
  privateKey ← pod_field j "txPrivateKey";
  Some (txHash, privateKey).

(** Into a new container; the transactions of both lists are pushed to [m_transactions]. *)
Definition SubWallets_fromJSON (j : JSON) : option SubWallets :=
  l ← getArrayFromJSON j "publicSpendKeys";
  publicSpendKeys ← mapM (fun x => s ← getStringFromJSONString x; pod_fromString s) l;
  l ← getArrayFromJSON j "subWallet";
  wallets ← mapM SubWallet_fromJSON l;
  l ← getArrayFromJSON j "transactions";
  transactions ← mapM WalletTransaction_fromJSON l;
  l ← getArrayFromJSON j "lockedTransactions";
  lockedTransactions ← mapM WalletTransaction_fromJSON l;
  privateViewKey ← pod_field j "privateViewKey";
  isViewWallet ← getBoolFromJSON j "isViewWallet";
  l ← getArrayFromJSON j "txPrivateKeys";
  txPrivateKeys ← mapM txKey_fromJSON l;
  Some (MkSubWallets publicSpendKeys (fold_left (fun m w => <[m_publicSpendKey w := w]> m) wallets ∅)
          (transactions ++ lockedTransactions)%list [] privateViewKey isViewWallet
          (fold_left (fun m t => <[t.1 := t.2]> m) txPrivateKeys ∅)).

Definition hashes_field (j : JSON) (key : string) : option (list Hash) :=
  l ← getArrayFromJSON j key; mapM (fun x => s ← getStringFromJSONString x; pod_fromString s) l.

Definition SynchronizationStatus_fromJSON (j : JSON) : option SynchronizationStatus :=
  blockHashCheckpoints ← hashes_field j "blockHashCheckpoints";
  lastKnownBlockHashes ← hashes_field j "lastKnownBlockHashes";
  lastKnownBlockHeight ← getUint64FromJSON j "lastKnownBlockHeight";
  Some (MkSyncStatus blockHashCheckpoints lastKnownBlockHashes lastKnownBlockHeight).

(** The container is given to the synchronizer by [WalletBackend::init]. *)
Definition WalletSynchronizer_fromJSON (s : SubWallets) (j : JSON) : option WalletSynchronizer :=
  status ← getObjectFromJSON j "transactionSynchronizerStatus";
  st ← SynchronizationStatus_fromJSON status;
  startTimestamp ← getUint64FromJSON j "startTimestamp";
  startHeight ← getUint64FromJSON j "startHeight";
  privateViewKey ← pod_field j "privateViewKey";
  Some (MkSynchronizer st startTimestamp startHeight privateViewKey s).

Definition WalletBackend_fromJSON (j : JSON) : option (WalletError * option WalletSynchronizer) :=
  version ← getUint64FromJSON j "walletFileFormatVersion";
  if negb (version =? WALLET_FILE_FORMAT_VERSION)%Z then Some (UNSUPPORTED_WALLET_FILE_FORMAT_VERSION, None)
  else
    o ← getObjectFromJSON j "subWallets";
    s ← SubWallets_fromJSON o;
    o ← getObjectFromJSON j "walletSynchronizer";
    ws ← WalletSynchronizer_fromJSON s o;
    Some (SUCCESS, Some ws).

#[local] Close Scope string_scope.

(** ** Reading what was written *)

Lemma c_str_toHex data : is_bytes data -> c_str (toHex data) = toHex data.
Proof.
  assert (forall v, 0 <= v < 16 -> hexDigit v =? 0 = false) as Hd.
  { intros v Hv. apply (proj1 (Forall_forall (fun v => hexDigit v =? 0 = false) (map Z.of_nat (seq 0 16)))).
    - apply (bool_decide_unpack _). vm_compute. exact I.
    - apply list_elem_of_fmap. exists (Z.to_nat v). split; [lia|]. apply elem_of_seq. lia. }
  induction 1 as [|b l Hb _ IH]; [done|]. cbn [toHex c_str].
  rewrite Hd by (rewrite Z.shiftr_div_pow2 by lia; destruct Hb; split; [apply Z.div_pos; lia|apply Z.div_lt_upper_bound; lia]).
  rewrite Hd by (change 15 with (Z.ones 4); rewrite Z.land_ones by lia; apply Z.mod_pos_bound; lia). by rewrite IH.
Qed.

Lemma pod_round d : is_key d -> (s ← getStringFromJSONString (pod_toJSON d); pod_fromString s) = Some d.
Proof.
  intros [Hl Hb]. cbn. rewrite c_str_toHex by done. unfold pod_fromString. rewrite <- Hl. by apply podFromHex_toHex.
Qed.

Lemma mapM_round {A B} (f : A -> JSON) (g : JSON -> option B) (h : A -> B) l :
  Forall (fun x => g (f x) = Some (h x)) l -> mapM g (map f l) = Some (map h l).
Proof. induction 1 as [|x l E _ IH]; [done|]. cbn. rewrite E. cbn. rewrite IH. done. Qed.

Lemma walk_round `{Countable K} {V} (m : gmap K V) l : l ≡ₚ map_to_list m -> fold_left (fun m t => <[t.1 := t.2]> m) l ∅ = m.
Proof.
  intros Hp. rewrite <- fold_left_rev_right. change (fold_right _ ∅ (rev l)) with (list_to_map (M := gmap K V) (rev l)).
  rewrite <- (list_to_map_to_list m) at 1. apply list_to_map_proper.
  - rewrite <- Permutation_rev, Hp. apply NoDup_fst_map_to_list.
  - by rewrite <- Permutation_rev.
Qed.

(** ** Values that can be written *)

Record is_input (i : TransactionInput) : Prop := {
  wi_keyImage : is_key (ti_keyImage i); wi_amount : is_u64 (ti_amount i); wi_blockHeight : is_u64 (ti_blockHeight i);
  wi_txKey : is_key (ti_transactionPublicKey i); wi_index : is_u64 (ti_transactionIndex i);
  wi_global : is_u64 (default 0 (ti_globalOutputIndex i)); wi_key : is_key (ti_key i); wi_spend : is_u64 (ti_spendHeight i);
  wi_unlock : is_u64 (ti_unlockTime i); wi_parent : is_key (ti_parentTransactionHash i)
}.

Record is_unconfirmed (u : UnconfirmedInput) : Prop := {
  wu_amount : is_u64 (ui_amount u); wu_key : is_key (ui_key u); wu_parent : is_key (ui_parentTransactionHash u)
}.

Definition is_i64 (n : Z) : Prop := - 2 ^ 63 <= n < 2 ^ 63.

Record is_wallet_tx (tx : WalletTransaction) : Prop := {
  wx_transfers : map_Forall (fun k a => is_key k /\ is_i64 a) (transfers tx);
  wx_hash : is_key (wt_hash tx); wx_fee : is_u64 (wt_fee tx); wx_height : is_u64 (wt_blockHeight tx);
  wx_time : is_u64 (wt_timestamp tx); wx_paymentID : c_str (wt_paymentID tx) = wt_paymentID tx; wx_unlock : is_u64 (wt_unlockTime tx)
}.

Record is_sub_wallet (w : SubWallet) : Prop := {
  ww_public : is_key (m_publicSpendKey w); ww_private : is_key (m_privateSpendKey w); ww_address : c_str (m_address w) = m_address w;
  ww_time : is_u64 (m_syncStartTimestamp w); ww_height : is_u64 (m_syncStartHeight w);
  ww_unspent : Forall is_input (m_unspentInputs w); ww_locked : Forall is_input (m_lockedInputs w);
  ww_spent : Forall is_input (m_spentInputs w); ww_unconfirmed : Forall is_unconfirmed (m_unconfirmedIncomingAmounts w)
}.

Record is_container (s : SubWallets) : Prop := {
  wc_keys : keys_ok s; wc_public : Forall is_key (m_publicSpendKeys s); wc_wallets : map_Forall (fun _ w => is_sub_wallet w) (m_subWallets s);
  wc_txs : Forall is_wallet_tx (m_transactions s); wc_locked : Forall is_wallet_tx (m_lockedTransactions s);
  wc_view : is_key (m_privateViewKey s); wc_txKeys : map_Forall (fun h k => is_key h /\ is_key k) (m_transactionPrivateKeys s)
}.

Record is_synchronizer (ws : WalletSynchronizer) : Prop := {
  wz_checkpoints : Forall is_key (m_blockHashCheckpoints (m_syncStatus ws));
  wz_hashes : Forall is_key (m_lastKnownBlockHashes (m_syncStatus ws)); wz_height : is_u64 (m_lastKnownBlockHeight (m_syncStatus ws));
  wz_time : is_u64 (m_startTimestamp ws); wz_start : is_u64 (m_startHeight ws); wz_view : is_key (ws_privateViewKey ws);
  wz_container : is_container (ws_subWallets ws)
}.

(** ** What comes back *)

(** An input without a global index comes back with the index zero. *)
Definition loaded_input (i : TransactionInput) : TransactionInput := set_globalOutputIndex (Some (default 0 (ti_globalOutputIndex i))) i.
Definition loaded_wallet (w : SubWallet) : SubWallet :=
  set_inputs (map loaded_input (m_unspentInputs w)) (map loaded_input (m_lockedInputs w)) (map loaded_input (m_spentInputs w))
    (m_unconfirmedIncomingAmounts w) w.
(** The transactions that wait for a block come back among those that are in one. *)
Definition loaded_container (s : SubWallets) : SubWallets :=
  set_subWallets (loaded_wallet <$> m_subWallets s) (set_wallet_transactions (m_transactions s ++ m_lockedTransactions s) [] s).

Lemma u64_check n : is_u64 n -> (0 <=? n) && (n <? 2 ^ 64) = true.
Proof. intros [??]. rewrite andb_true_iff, Z.leb_le, Z.ltb_lt. lia. Qed.

Section Fields.
Context (members : list (string * JSON)) (key : string).

Lemma pod_field_round d : FindMember key members = Some (pod_toJSON d) -> is_key d -> pod_field (JObject members) key = Some d.
Proof. intros E Hd. unfold pod_field, getStringFromJSON, getJsonValue. rewrite E. by apply pod_round. Qed.

Lemma uint_field_round n : FindMember key members = Some (JNumber n) -> is_u64 n -> getUint64FromJSON (JObject members) key = Some n.
Proof. intros E Hn. unfold getUint64FromJSON, getJsonValue. rewrite E. cbn. by rewrite u64_check. Qed.

Lemma string_field_round t : FindMember key members = Some (JString t) -> c_str t = t -> getStringFromJSON (JObject members) key = Some t.
Proof. intros E Ht. unfold getStringFromJSON, getJsonValue. rewrite E. cbn. by rewrite Ht. Qed.

Lemma array_field_round l : FindMember key members = Some (JArray l) -> getArrayFromJSON (JObject members) key = Some l.
Proof. intros E. unfold getArrayFromJSON, getJsonValue. by rewrite E. Qed.

Lemma object_field_round m : FindMember key members = Some (JObject m) -> getObjectFromJSON (JObject members) key = Some (JObject m).
Proof. intros E. unfold getObjectFromJSON, getJsonValue. by rewrite E. Qed.

Lemma bool_field_round b : FindMember key members = Some (JBool b) -> getBoolFromJSON (JObject members) key = Some b.
Proof. intros E. unfold getBoolFromJSON, getJsonValue. by rewrite E. Qed.
End Fields.

Lemma bind_step {A B} (m : option A) (f : A -> option B) a r : m = Some a -> f a = r -> (m ≫= f) = r.
Proof. by intros -> <-. Qed.

Create HintDb json.
#[export] Hint Resolve pod_field_round uint_field_round string_field_round array_field_round object_field_round bool_field_round : json.
#[export] Hint Extern 1 (FindMember _ _ = _) => reflexivity : json.

(** Reads the next member of an object that was just written. *)
Ltac read_member := eapply bind_step; [solve [eauto with json nocore]|cbv beta].

Lemma TransactionInput_round i : is_input i -> TransactionInput_fromJSON (TransactionInput_toJSON i) = Some (loaded_input i).
Proof. intros []. unfold TransactionInput_fromJSON, TransactionInput_toJSON. repeat read_member. done. Qed.

Lemma UnconfirmedInput_round u : is_unconfirmed u -> UnconfirmedInput_fromJSON (UnconfirmedInput_toJSON u) = Some u.
Proof. intros []. unfold UnconfirmedInput_fromJSON, UnconfirmedInput_toJSON. repeat read_member. by destruct u. Qed.

Lemma inputs_field_round members key l : FindMember key members = Some (JArray (map TransactionInput_toJSON l)) -> Forall is_input l ->
  inputs_field (JObject members) key = Some (map loaded_input l).
Proof.
  intros E Hl. unfold inputs_field. eapply bind_step; [by apply array_field_round|]. apply mapM_round.
  eapply Forall_impl; [exact Hl|]. apply TransactionInput_round.
Qed.
#[export] Hint Resolve inputs_field_round : json.

Lemma mapM_same {A} (f : A -> JSON) (g : JSON -> option A) l : Forall (fun x => g (f x) = Some x) l -> mapM g (map f l) = Some l.
Proof. intros H. rewrite (mapM_round f g (fun x => x)) by done. by rewrite map_id. Qed.

Lemma SubWallet_round w : is_sub_wallet w -> SubWallet_fromJSON (SubWallet_toJSON w) = Some (loaded_wallet w).
Proof.
  intros []. unfold SubWallet_fromJSON, SubWallet_toJSON. repeat read_member.
  eapply bind_step; [|reflexivity]. apply mapM_same. eapply Forall_impl; [eassumption|]. apply UnconfirmedInput_round.
Qed.

Lemma hashes_field_round members key l : FindMember key members = Some (JArray (map pod_toJSON l)) -> Forall is_key l ->
  hashes_field (JObject members) key = Some l.
Proof.
  intros E Hl. unfold hashes_field. eapply bind_step; [by apply array_field_round|]. apply mapM_same.
  eapply Forall_impl; [exact Hl|]. apply pod_round.
Qed.
#[export] Hint Resolve hashes_field_round : json.

Lemma SynchronizationStatus_round st : Forall is_key (m_blockHashCheckpoints st) -> Forall is_key (m_lastKnownBlockHashes st) ->
  is_u64 (m_lastKnownBlockHeight st) -> SynchronizationStatus_fromJSON (SynchronizationStatus_toJSON st) = Some st.
Proof. intros. unfold SynchronizationStatus_fromJSON, SynchronizationStatus_toJSON. repeat read_member. by destruct st. Qed.

Section Round.
Variable walk_transfers : gmap PublicKey Z -> list (PublicKey * Z).
Variable walk : gmap PublicKey SubWallet -> list (PublicKey * SubWallet).
Variable walk_txKeys : gmap Hash SecretKey -> list (Hash * SecretKey).
Hypothesis walk_transfers_perm : forall m, walk_transfers m ≡ₚ map_to_list m.
Hypothesis walk_perm : forall m, walk m ≡ₚ map_to_list m.
Hypothesis walk_txKeys_perm : forall m, walk_txKeys m ≡ₚ map_to_list m.

Lemma walk_Forall {V} (w : gmap bytes V -> list (bytes * V)) (P : bytes -> V -> Prop) m : (forall m, w m ≡ₚ map_to_list m) ->
  map_Forall P m -> Forall (fun kv => P kv.1 kv.2) (w m).
Proof. intros Hw Hm. apply Forall_forall. intros [k v]. rewrite Hw, elem_of_map_to_list. apply Hm. Qed.

Lemma i64_u64 a : is_i64 a -> i64 (u64 a) = a.
Proof.
  intros [H1 H2]. unfold swrap, wrap. rewrite Zplus_mod_idemp_l, Z.mod_small; [lia|].
  change (64 - 1) with 63. replace (2 ^ 64) with (2 ^ 63 + 2 ^ 63) by reflexivity. lia.
Qed.

Lemma transfer_round t : is_key t.1 /\ is_i64 t.2 -> transfer_fromJSON (transfer_toJSON t) = Some t.
Proof.
  intros [Hk Ha]. unfold transfer_fromJSON, transfer_toJSON. read_member.
  apply (bind_step _ _ (u64 t.2)); [|rewrite i64_u64 by done; by destruct t].
  destruct Ha as [Ha1 Ha2]. unfold getInt64FromJSON. apply (bind_step _ _ (JNumber t.2)); [done|].
  by rewrite (proj2 (Z.leb_le _ _) Ha1), (proj2 (Z.ltb_lt _ _) Ha2).
Qed.

Lemma WalletTransaction_round tx : is_wallet_tx tx ->
  WalletTransaction_fromJSON (WalletTransaction_toJSON walk_transfers tx) = Some tx.
Proof.
  intros []. unfold WalletTransaction_fromJSON, WalletTransaction_toJSON. read_member.
  eapply bind_step.
  { apply mapM_same. eapply Forall_impl; [exact (walk_Forall _ _ _ walk_transfers_perm wx_transfers0)|]. apply transfer_round. }
  repeat read_member. rewrite (walk_round (transfers tx)) by apply walk_transfers_perm. by destruct tx.
Qed.

Lemma txKey_round t : is_key t.1 /\ is_key t.2 -> txKey_fromJSON (txKey_toJSON t) = Some t.
Proof. intros []. unfold txKey_fromJSON, txKey_toJSON. repeat read_member. by destruct t. Qed.

Lemma wallets_round s : is_container s ->
  mapM SubWallet_fromJSON (map (fun kw => SubWallet_toJSON kw.2) (walk (m_subWallets s))) =
    Some (map (fun kw => loaded_wallet kw.2) (walk (m_subWallets s))) /\
  fold_left (fun m w => <[m_publicSpendKey w := w]> m) (map (fun kw => loaded_wallet kw.2) (walk (m_subWallets s))) ∅ =
    loaded_wallet <$> m_subWallets s.
Proof.
  intros [(_ & _ & Ho) _ Hw _ _ _ _]. split.
  - apply (mapM_round (fun kw => SubWallet_toJSON kw.2) SubWallet_fromJSON (fun kw => loaded_wallet kw.2)).
    eapply Forall_impl; [exact (walk_Forall _ _ _ walk_perm Hw)|]. intros kw. apply SubWallet_round.
  - rewrite <- (walk_round (loaded_wallet <$> m_subWallets s) (prod_map (fun k => k) loaded_wallet <$> walk (m_subWallets s))).
    + assert (Forall (fun kw => m_publicSpendKey kw.2 = kw.1) (walk (m_subWallets s))) as H by exact (walk_Forall _ _ _ walk_perm Ho).
      generalize (∅ : gmap PublicKey SubWallet). induction H as [|[k w] l Hkw _ IH]; intros m; [done|]. cbn in *. by rewrite Hkw, IH.
    + rewrite walk_perm. by rewrite map_to_list_fmap.
Qed.

Lemma SubWallets_round s : is_container s ->
  SubWallets_fromJSON (SubWallets_toJSON walk_transfers walk walk_txKeys s) = Some (loaded_container s).
Proof.
  intros Hs. destruct (wallets_round s Hs) as [E1 E2]. destruct Hs. unfold SubWallets_fromJSON, SubWallets_toJSON.
  read_member. eapply bind_step; [apply mapM_same; eapply Forall_impl; [eassumption|apply pod_round]|].
  read_member. eapply bind_step; [exact E1|]. read_member.
  eapply bind_step; [apply mapM_same; eapply Forall_impl; [exact wc_txs0|apply WalletTransaction_round]|]. read_member.
  eapply bind_step; [apply mapM_same; eapply Forall_impl; [exact wc_locked0|apply WalletTransaction_round]|]. repeat read_member.
  eapply bind_step.
  { apply mapM_same. eapply Forall_impl; [exact (walk_Forall _ _ _ walk_txKeys_perm wc_txKeys0)|]. apply txKey_round. }
  rewrite E2, (walk_round (m_transactionPrivateKeys s)) by apply walk_txKeys_perm. reflexivity.
Qed.

Lemma WalletSynchronizer_round s ws : is_synchronizer ws ->
  WalletSynchronizer_fromJSON s (WalletSynchronizer_toJSON ws) = Some (set_ws_subWallets s ws).
Proof.
  intros []. unfold WalletSynchronizer_fromJSON, WalletSynchronizer_toJSON.
  eapply bind_step; [apply object_field_round; reflexivity|]. eapply bind_step; [by apply SynchronizationStatus_round|].
  repeat read_member. done.
Qed.

(** C21. A wallet that is saved and loaded is the same wallet, keys, inputs, history
    and synchronization, with two exceptions: an input whose global index is not
    known comes back with the index zero, and the transactions that wait for a block
    come back as transactions of the history.  So no transaction is asked after any
    more, and when one that was waiting comes in a block, adding it throws, which
    ends the program. *)
Theorem wallet_file_round ws : is_synchronizer ws ->
  WalletBackend_fromJSON (WalletBackend_toJSON walk_transfers walk walk_txKeys ws) =
    Some (SUCCESS, Some (set_ws_subWallets (loaded_container (ws_subWallets ws)) ws)) /\
  forall tx, wt_hash tx ∈ map wt_hash (m_lockedTransactions (ws_subWallets ws)) ->
    m_lockedTransactions (loaded_container (ws_subWallets ws)) = [] /\
    wallet_addTransaction tx (loaded_container (ws_subWallets ws)) = None.
Proof.
  intros Hws. split.
  - unfold WalletBackend_fromJSON, WalletBackend_toJSON.
    apply (bind_step _ _ 0); [by apply uint_field_round|]. cbn [negb Z.eqb].
    eapply bind_step; [by apply object_field_round|]. eapply bind_step; [apply SubWallets_round, Hws|].
    eapply bind_step; [by apply object_field_round|]. eapply bind_step; [by apply WalletSynchronizer_round|]. done.
  - intros tx Htx. split; [done|]. unfold wallet_addTransaction. rewrite decide_True; [done|]. cbn. rewrite map_app, elem_of_app. by right.
Qed.
End Round.

(** ** A wallet that waits for a transaction *)

Module SampleFile.
Definition key32 (n : Z) : bytes := replicate 32 n.
Definition paid : TransactionInput :=
  MkInput (key32 5) 100 1 (key32 6) 0 (Some 7) (key32 8) 0 0 (key32 9).
Definition wallet : SubWallet :=
  set_inputs [] [paid] [] [MkUnconfirmed 30 (key32 10) (key32 11)] (SubWallet_new (key32 1) (key32 2) (str "address") 0 0 true).
Definition pending : WalletTransaction := MkWalletTransaction {[ key32 1 := -70 ]} (key32 11) 10 0 0 [] 0 false.
Definition container : SubWallets :=
  set_wallet_transactions [] [pending] (new_container (key32 1) wallet (key32 3) false).
Definition synchronizer : WalletSynchronizer := MkSynchronizer (MkSyncStatus [] [key32 12] 1) 0 0 (key32 3) container.

Ltac evaluates := apply (bool_decide_unpack _); vm_compute; exact I.

Lemma wallet_ok : is_sub_wallet wallet.
Proof.
  split; try evaluates; [constructor|constructor; [split; evaluates|constructor]|constructor|constructor; [split; evaluates|constructor]].
Qed.

Lemma pending_ok : is_wallet_tx pending.
Proof.
  split; evaluates.
Qed.

Lemma synchronizer_ok : is_synchronizer synchronizer.
Proof.
  split; try evaluates. split.
  - by apply (new_container_keys (key32 1) wallet).
  - evaluates.
  - intros k w Hw. apply (lookup_singleton_Some (key32 1) k wallet) in Hw as [_ <-]. exact wallet_ok.
  - constructor.
  - constructor; [exact pending_ok|constructor].
  - evaluates.
  - intros k w H. discriminate H.
Qed.

Lemma wallet_file_round_witness :
  WalletBackend_fromJSON (WalletBackend_toJSON map_to_list map_to_list map_to_list synchronizer) =
    Some (SUCCESS, Some (set_ws_subWallets (loaded_container (ws_subWallets synchronizer)) synchronizer)) /\
  forall tx, wt_hash tx ∈ map wt_hash (m_lockedTransactions (ws_subWallets synchronizer)) ->
    m_lockedTransactions (loaded_container (ws_subWallets synchronizer)) = [] /\
    wallet_addTransaction tx (loaded_container (ws_subWallets synchronizer)) = None.
Proof.
  apply (wallet_file_round map_to_list map_to_list map_to_list); [done|done|done|]. exact synchronizer_ok.
Defined.
End SampleFile.
